(** * IA Interna (Sistema de Gestão CLS): the reconciliation engine of
    [src/internal-ai.js], embedded in Rocq.

    The class [InternalAI] cross-checks an imported room schedule against the
    registered professionals and the existing appointments.  This file embeds
    its pure core ([processImportedData] and the private methods it calls)
    and proves properties of it.

    Conventions of the embedding.
    - A JavaScript string is a sequence of UTF-16 code units.  The model keeps
      the code units below U+0100 (ASCII and Latin-1), one [ascii] each, so a
      string is a [string] of the Standard Library.
    - Numbers that the code only uses as array indices, lengths and edit
      distances are [nat]; the similarity quotient is an exact rational [Q].
    - An optional field (absent, [undefined]) is an [option]; the tests the
      code makes on such fields are JavaScript truthiness tests, so an empty
      string counts as absent there.
    - Objects of the schedule are mutated in place by the code; the schedule
      is a list of slots and a slot is referred to by its position. *)

From Stdlib Require Import List String Ascii Arith Bool Lia ZArith QArith.
Import ListNotations.

Local Open Scope nat_scope.
Local Open Scope list_scope.

(** ** JavaScript primitives used by the engine *)

Module Js.

(** [String.prototype.toLowerCase] on one code unit below U+0100: the
    letters A-Z and the Latin-1 capitals U+00C0..U+00DE (the multiplication
    sign U+00D7 excepted) move 32 places up. *)
Definition lower_unit (c : ascii) : ascii :=
  let n := nat_of_ascii c in
  if ((65 <=? n) && (n <=? 90))
     || ((192 <=? n) && (n <=? 222) && negb (n =? 215))
  then ascii_of_nat (n + 32) else c.

Fixpoint toLowerCase (s : string) : string :=
  match s with
  | EmptyString => EmptyString
  | String c s' => String (lower_unit c) (toLowerCase s')
  end.

(** White space and line terminators below U+0100: TAB, LF, VT, FF, CR,
    SPACE and NO-BREAK SPACE. *)
Definition is_space (c : ascii) : bool :=
  let n := nat_of_ascii c in
  ((9 <=? n) && (n <=? 13)) || (n =? 32) || (n =? 160).

Fixpoint trimStart (s : string) : string :=
  match s with
  | EmptyString => EmptyString
  | String c s' => if is_space c then trimStart s' else s
  end.

Fixpoint trimEnd (s : string) : string :=
  match s with
  | EmptyString => EmptyString
  | String c s' =>
      match trimEnd s' with
      | EmptyString => if is_space c then EmptyString else String c EmptyString
      | t => String c t
      end
  end.

(** [String.prototype.trim] *)
Definition trim (s : string) : string := trimEnd (trimStart s).

(** [s.includes(sub)]: [sub] occurs in [s] as a contiguous substring. *)
Fixpoint includes (s sub : string) : bool :=
  if String.prefix sub s then true
  else match s with
       | EmptyString => false
       | String _ s' => includes s' sub
       end.

(** [s.charAt(i)]: the code unit at [i], or the empty string ([None]) out
    of range. *)
Definition charAt (s : string) (i : nat) : option ascii := String.get i s.

(** Strict equality [===] of two [charAt] results. *)
Definition charAt_eqb (x y : option ascii) : bool :=
  match x, y with
  | Some a, Some b => Ascii.eqb a b
  | None, None => true
  | _, _ => false
  end.

(** Truthiness of a string value: every string but the empty one. *)
Definition truthy_string (s : string) : bool :=
  negb (String.eqb s EmptyString).

(** Truthiness of an optional string ([undefined] is falsy). *)
Definition truthy (o : option string) : bool :=
  match o with
  | Some s => truthy_string s
  | None => false
  end.

(** A template literal prints an absent value as the text [undefined]. *)
Definition show (o : option string) : string :=
  match o with
  | Some s => s
  | None => "undefined"%string
  end.

(** [arr[k] = v].  Inside the array the element is replaced; at
    [k = arr.length] the array grows by one; beyond that JavaScript leaves
    holes, which the model fills with [hole]. *)
Definition array_set {A : Type} (hole : A) (arr : list A) (k : nat) (v : A)
  : list A :=
  firstn k arr ++ repeat hole (k - List.length arr) ++ v :: skipn (S k) arr.

(** [arr.join(', ')] *)
Fixpoint join (sep : string) (l : list string) : string :=
  match l with
  | [] => EmptyString
  | [x] => x
  | x :: rest => (x ++ sep ++ join sep rest)%string
  end.

(** The property names every object literal inherits from
    [Object.prototype].  Reading [obj[key]] for one of them on an object
    that has no own property [key] yields the inherited value (a function,
    or the prototype object for [__proto__]), which is truthy and has no
    [push] method. *)
Definition Object_prototype_names : list string :=
  [ "constructor"; "__defineGetter__"; "__defineSetter__"; "hasOwnProperty";
    "__lookupGetter__"; "__lookupSetter__"; "isPrototypeOf";
    "propertyIsEnumerable"; "toString"; "valueOf"; "__proto__";
    "toLocaleString" ]%string.

(** [key] names a property that an object literal inherits. *)
Definition inherited (key : string) : bool :=
  existsb (String.eqb key) Object_prototype_names.

End Js.

(** ** StringSimilarity: [_levenshteinDistance] and [_calculateSimilarity] *)

(** [matrix[i][j]] *)
Definition matrix_get (matrix : list (list nat)) (i j : nat) : nat :=
  nth j (nth i matrix []) 0.

(** [matrix[i][j] = v]: the row [matrix[i]] is updated in place. *)
Definition matrix_set (matrix : list (list nat)) (i j v : nat)
  : list (list nat) :=
  Js.array_set [] matrix i (Js.array_set 0 (nth i matrix []) j v).

(** The body of the inner loop of [_levenshteinDistance]. *)
Definition levenshtein_cell (str1 str2 : string) (i : nat)
  (matrix : list (list nat)) (j : nat) : list (list nat) :=
  if Js.charAt_eqb (Js.charAt str2 (i - 1)) (Js.charAt str1 (j - 1))
  then matrix_set matrix i j (matrix_get matrix (i - 1) (j - 1))
  else matrix_set matrix i j
         (Nat.min (matrix_get matrix (i - 1) (j - 1) + 1)
            (Nat.min (matrix_get matrix i (j - 1) + 1)
                     (matrix_get matrix (i - 1) j + 1))).

(** The matrix after the two initialisation loops. *)
Definition levenshtein_init (str1 str2 : string) : list (list nat) :=
  let matrix :=
    fold_left (fun m i => Js.array_set [] m i [i])
      (seq 0 (S (String.length str2))) [] in
  fold_left (fun m j => matrix_set m 0 j j)
    (seq 0 (S (String.length str1))) matrix.

(** The matrix after the nested loops. *)
Definition levenshtein_matrix (str1 str2 : string) : list (list nat) :=
  fold_left
    (fun m i =>
       fold_left (levenshtein_cell str1 str2 i)
         (seq 1 (String.length str1)) m)
    (seq 1 (String.length str2)) (levenshtein_init str1 str2).

(** [_levenshteinDistance]: [return matrix[str2.length][str1.length]]. *)
Definition _levenshteinDistance (str1 str2 : string) : nat :=
  matrix_get (levenshtein_matrix str1 str2)
    (String.length str2) (String.length str1).

(** [_calculateSimilarity]: [(longer.length - editDistance) / longer.length]
    as an exact rational.  JavaScript rounds this quotient to the nearest
    double; the only use the engine makes of it is the comparison with the
    literal [0.8], itself the double nearest to 4/5.  The outcome is that of
    the exact comparison with 4/5: a quotient of denominator [n] other than
    4/5 is at least 1/(5n) away from it, and for the lengths a string can
    have in an engine (below 2^31) that is far more than the rounding error
    of a double near 0.8 (at most 2^-54). *)
Definition _calculateSimilarity (str1 str2 : string) : Q :=
  let longer :=
    if String.length str2 <? String.length str1 then str1 else str2 in
  let shorter :=
    if String.length str2 <? String.length str1 then str2 else str1 in
  if String.length longer =? 0 then 1%Q
  else
    let editDistance := _levenshteinDistance longer shorter in
    (inject_Z (Z.of_nat (String.length longer) - Z.of_nat editDistance)
     / inject_Z (Z.of_nat (String.length longer)))%Q.

(** ** NameMatcher: [_findClosestMatch] *)

(** [s.toLowerCase().trim()] *)
Definition normalize (s : string) : string := Js.trim (Js.toLowerCase s).

(** [similarity > 0.8] *)
Definition above_threshold (similarity : Q) : bool :=
  negb (Qle_bool similarity (8 # 10)).

(** The [for (const registered of registeredList)] loop of
    [_findClosestMatch], with its two early returns. *)
Fixpoint closest_scan (nameLower : string) (registeredList : list string)
  : option string :=
  match registeredList with
  | [] => None
  | registered :: rest =>
      if Js.includes registered nameLower || Js.includes nameLower registered
      then Some registered
      else if above_threshold (_calculateSimilarity nameLower registered)
      then Some registered
      else closest_scan nameLower rest
  end.

(** [_findClosestMatch]; [None] is the [null] result.  The exact match is
    returned under [if (exactMatch)], a truthiness test. *)
Definition _findClosestMatch (name : string) (registeredList : list string)
  : option string :=
  let nameLower := normalize name in
  let exactMatch :=
    find (fun registered => String.eqb registered nameLower) registeredList in
  if Js.truthy exactMatch then exactMatch
  else closest_scan nameLower registeredList.

(** ** Data model *)

Record Slot : Type := mkSlot {
  slot_id : string;
  roomName : string;
  dayOfWeek : string;
  time : string;
  appointmentDate : string;
  isOccupied : bool;
  patientName : option string;
  professionalName : option string;
  professionalId : option string;
  linkedAppointmentId : option string;
  hasScheduleConflict : option bool;
  hasValidationError : option bool
}.

(** Entries of [professionals] and of [roomImportData.newProfessionals]. *)
Record Professional : Type := mkProfessional {
  prof_id : string;
  prof_name : string;
  specialty : string;
  registration : string;
  inactive : bool
}.

(** Entries of [appointments]. *)
Record Appointment : Type := mkAppointment {
  apt_id : string;
  client : string;
  apt_professionalId : string;
  apt_date : string;
  apt_time : string;
  apt_type : string
}.

(** Entries of [autoCorrections]. *)
Record AutoCorrection : Type := mkAutoCorrection {
  ac_type : string;
  ac_original : string;
  ac_corrected : string;
  ac_location : string;
  ac_slotId : string
}.

(** Entries of [validationErrors]; [action] is present for professionals
    only. *)
Record ValidationError : Type := mkValidationError {
  ve_type : string;
  ve_name : string;
  ve_location : string;
  ve_action : option string;
  ve_slotId : string
}.

(** Entries of [suggestedChanges]. *)
Record ChangeRecord : Type := mkChangeRecord {
  ch_type : string;
  ch_description : string;
  ch_location : string;
  ch_slotId : string
}.

(** Entries of [conflicts]: the constructor stands for the [type] text
    ('Profissional em Múltiplas Salas', 'Conflito com Agendamento Existente',
    'Sala com Múltiplos Agendamentos', 'Profissional Inativo'), the
    arguments are the other properties in the order of the source. *)
Inductive Conflict : Type :=
| ProfissionalEmMultiplasSalas
    (professionalName : option string) (rooms dayTime : string)
    (slots : list string)
| ConflitoComAgendamentoExistente
    (professionalName patientName : option string) (room dayTime : string)
    (conflictingAppointments : list (string * string * string))
    (slotId : string)
| SalaComMultiplosAgendamentos
    (roomName dayTime patients professionals : string) (slots : list string)
| ProfissionalInativo
    (professionalName : string) (patientName : option string)
    (room dayTime : string) (slotId : string).

(** The argument [roomImportData]. *)
Record RoomImportData : Type := mkRoomImportData {
  schedule : list Slot;
  newProfessionals : list Professional;
  updatedAppointments : list Appointment
}.

(** The fields of the [InternalAI] instance. *)
Record InternalAI : Type := mkInternalAI {
  originalData : option RoomImportData;
  suggestedChanges : list ChangeRecord;
  conflicts : list Conflict;
  validationErrors : list ValidationError;
  autoCorrections : list AutoCorrection
}.

(** What the code reads from outside: the clock and the random generator.
    [Date_now k] and [Math_random k] are the texts that the [k]-th synthetic
    identifier of a run interpolates. *)
Record Environment : Type := mkEnvironment {
  Date_now : nat -> string;
  Math_random : nat -> string
}.

(** The mutable store of a run: the imported data (mutated in place), the
    engine instance, and the number of synthetic identifiers drawn so far. *)
Record State : Type := mkState {
  data : RoomImportData;
  this : InternalAI;
  draws : nat
}.

(** How a call ends: with its [return], or with a [TypeError] thrown out of
    it.  Either way the store is the one the caller sees afterwards. *)
Inductive outcome : Type :=
| Returns (st : State)
| Throws (st : State).

(** Sequencing: a statement after a call runs only when the call returns. *)
Definition and_then (o : outcome) (f : State -> outcome) : outcome :=
  match o with
  | Returns st => f st
  | Throws st => Throws st
  end.

(** The store a call leaves, however it ends. *)
Definition final (o : outcome) : State :=
  match o with
  | Returns st => st
  | Throws st => st
  end.

(** *** Updates of the store *)

Fixpoint update_at {A : Type} (i : nat) (f : A -> A) (l : list A) : list A :=
  match l, i with
  | [], _ => []
  | x :: rest, 0 => f x :: rest
  | x :: rest, S i' => x :: update_at i' f rest
  end.

Definition set_schedule (f : list Slot -> list Slot) (st : State) : State :=
  mkState
    (mkRoomImportData (f (schedule (data st))) (newProfessionals (data st))
       (updatedAppointments (data st)))
    (this st) (draws st).

(** A mutation of the slot object at position [i] of the schedule. *)
Definition update_slot (i : nat) (f : Slot -> Slot) (st : State) : State :=
  set_schedule (update_at i f) st.

Definition push_newProfessional (p : Professional) (st : State) : State :=
  mkState
    (mkRoomImportData (schedule (data st)) (newProfessionals (data st) ++ [p])
       (updatedAppointments (data st)))
    (this st) (draws st).

(** One more reading of the clock and of the random generator. *)
Definition drawn (st : State) : State :=
  mkState (data st) (this st) (S (draws st)).

Definition push_suggestedChange (c : ChangeRecord) (st : State) : State :=
  mkState (data st)
    (mkInternalAI (originalData (this st)) (suggestedChanges (this st) ++ [c])
       (conflicts (this st)) (validationErrors (this st))
       (autoCorrections (this st)))
    (draws st).

Definition push_conflict (c : Conflict) (st : State) : State :=
  mkState (data st)
    (mkInternalAI (originalData (this st)) (suggestedChanges (this st))
       (conflicts (this st) ++ [c]) (validationErrors (this st))
       (autoCorrections (this st)))
    (draws st).

Definition push_validationError (e : ValidationError) (st : State) : State :=
  mkState (data st)
    (mkInternalAI (originalData (this st)) (suggestedChanges (this st))
       (conflicts (this st)) (validationErrors (this st) ++ [e])
       (autoCorrections (this st)))
    (draws st).

Definition push_autoCorrection (a : AutoCorrection) (st : State) : State :=
  mkState (data st)
    (mkInternalAI (originalData (this st)) (suggestedChanges (this st))
       (conflicts (this st)) (validationErrors (this st))
       (autoCorrections (this st) ++ [a]))
    (draws st).

Definition set_patientName (v : string) (s : Slot) : Slot :=
  mkSlot (slot_id s) (roomName s) (dayOfWeek s) (time s) (appointmentDate s)
    (isOccupied s) (Some v) (professionalName s) (professionalId s)
    (linkedAppointmentId s) (hasScheduleConflict s) (hasValidationError s).

Definition set_professionalName (v : string) (s : Slot) : Slot :=
  mkSlot (slot_id s) (roomName s) (dayOfWeek s) (time s) (appointmentDate s)
    (isOccupied s) (patientName s) (Some v) (professionalId s)
    (linkedAppointmentId s) (hasScheduleConflict s) (hasValidationError s).

Definition set_professionalId (v : string) (s : Slot) : Slot :=
  mkSlot (slot_id s) (roomName s) (dayOfWeek s) (time s) (appointmentDate s)
    (isOccupied s) (patientName s) (professionalName s) (Some v)
    (linkedAppointmentId s) (hasScheduleConflict s) (hasValidationError s).

Definition set_hasScheduleConflict (s : Slot) : Slot :=
  mkSlot (slot_id s) (roomName s) (dayOfWeek s) (time s) (appointmentDate s)
    (isOccupied s) (patientName s) (professionalName s) (professionalId s)
    (linkedAppointmentId s) (Some true) (hasValidationError s).

Definition set_hasValidationError (s : Slot) : Slot :=
  mkSlot (slot_id s) (roomName s) (dayOfWeek s) (time s) (appointmentDate s)
    (isOccupied s) (patientName s) (professionalName s) (professionalId s)
    (linkedAppointmentId s) (hasScheduleConflict s) (Some true).

(** [roomImportData.schedule.forEach(slot => body)]: the callback runs once
    per position, on the slot object found there. *)
Definition forEach_slot (body : nat -> Slot -> State -> State) (st : State)
  : State :=
  fold_left
    (fun st i =>
       match nth_error (schedule (data st)) i with
       | Some slot => body i slot st
       | None => st
       end)
    (seq 0 (List.length (schedule (data st)))) st.

(** *** Texts *)

(** A one-unit string, for the code units outside ASCII and for the double
    quote. *)
Definition code_unit (n : nat) : string :=
  String (ascii_of_nat n) EmptyString.

(** [s] between double quotes, as the descriptions print names. *)
Definition quoted (s : string) : string :=
  (code_unit 34 ++ s ++ code_unit 34)%string.

(** [`${slot.roomName} - ${slot.dayOfWeek} ${slot.time}`] *)
Definition location (slot : Slot) : string :=
  (roomName slot ++ " - " ++ dayOfWeek slot ++ " " ++ time slot)%string.

(** [`${slot.dayOfWeek} ${slot.time}`] *)
Definition dayTime_of (slot : Slot) : string :=
  (dayOfWeek slot ++ " " ++ time slot)%string.

(** 'Correção' *)
Definition Correcao : string :=
  ("Corre" ++ code_unit 231 ++ code_unit 227 ++ "o")%string.

(** 'Validação' *)
Definition Validacao : string :=
  ("Valida" ++ code_unit 231 ++ code_unit 227 ++ "o")%string.

(** 'Horário' *)
Definition Horario : string := ("Hor" ++ code_unit 225 ++ "rio")%string.

(** ** NameReconciler: [_validateNames] *)

(** [[...new Set(xs)]]: the distinct values, in order of first occurrence. *)
Definition Set_values (xs : list string) : list string :=
  fold_left
    (fun acc x => if existsb (String.eqb x) acc then acc else acc ++ [x])
    xs [].

(** [appointments.map(apt => apt.client.toLowerCase().trim())], without
    repetitions. *)
Definition registeredPatients_of (appointments : list Appointment)
  : list string :=
  Set_values (map (fun apt => normalize (client apt)) appointments).

(** [professionals.map(prof => prof.name.toLowerCase().trim())] *)
Definition registeredProfessionals_of (professionals : list Professional)
  : list string :=
  map (fun prof => normalize (prof_name prof)) professionals.

(** The block under [// Validação de pacientes]. *)
Definition validate_patient
  (registeredPatients : list string) (appointments : list Appointment)
  (i : nat) (slot : Slot) (st : State) : State :=
  if Js.truthy (patientName slot) then
    let name := Js.show (patientName slot) in
    let patientLower := normalize name in
    if existsb (String.eqb patientLower) registeredPatients then st
    else
      let closestMatch := _findClosestMatch patientLower registeredPatients in
      if Js.truthy closestMatch then
        match
          find (fun apt =>
                  String.eqb (normalize (client apt)) (Js.show closestMatch))
            appointments
        with
        | Some originalCase =>
            let originalName := name in
            let st := update_slot i (set_patientName (client originalCase)) st in
            let st :=
              push_autoCorrection
                (mkAutoCorrection "Paciente" originalName
                   (client originalCase) (location slot) (slot_id slot)) st in
            push_suggestedChange
              (mkChangeRecord
                 (Correcao ++ " de Nome de Paciente")%string
                 ("Corrigir " ++ quoted originalName ++ " para "
                  ++ quoted (client originalCase))%string
                 (location slot) (slot_id slot)) st
        | None => st
        end
      else
        let st :=
          push_validationError
            (mkValidationError "Paciente" name (location slot) None
               (slot_id slot)) st in
        push_suggestedChange
          (mkChangeRecord
             ("Erro de " ++ Validacao)%string
             ("Paciente " ++ quoted name ++ " n" ++ code_unit 227
              ++ "o encontrado no cadastro")%string
             (location slot) (slot_id slot)) st
  else st.

(** [`ai_new_prof_${Date.now()}_${Math.random()}`], for the [k]-th synthetic
    professional of the run. *)
Definition synthetic_id (env : Environment) (k : nat) : string :=
  ("ai_new_prof_" ++ Date_now env k ++ "_" ++ Math_random env k)%string.

(** The block under [// Validação de profissionais]. *)
Definition validate_professional (env : Environment)
  (registeredProfessionals : list string) (professionals : list Professional)
  (i : nat) (slot : Slot) (st : State) : State :=
  if Js.truthy (professionalName slot) then
    let name := Js.show (professionalName slot) in
    let profLower := normalize name in
    if existsb (String.eqb profLower) registeredProfessionals then st
    else
      let isNewProf :=
        existsb (fun p => String.eqb (normalize (prof_name p)) profLower)
          (newProfessionals (data st)) in
      if isNewProf then st
      else
        let closestMatch :=
          _findClosestMatch profLower registeredProfessionals in
        if Js.truthy closestMatch then
          match
            find (fun p =>
                    String.eqb (normalize (prof_name p)) (Js.show closestMatch))
              professionals
          with
          | Some originalProf =>
              let originalName := name in
              let st :=
                update_slot i (set_professionalName (prof_name originalProf))
                  st in
              let st :=
                update_slot i (set_professionalId (prof_id originalProf)) st in
              let st :=
                push_autoCorrection
                  (mkAutoCorrection "Profissional" originalName
                     (prof_name originalProf) (location slot) (slot_id slot))
                  st in
              push_suggestedChange
                (mkChangeRecord
                   (Correcao ++ " de Nome de Profissional")%string
                   ("Corrigir " ++ quoted originalName ++ " para "
                    ++ quoted (prof_name originalProf))%string
                   (location slot) (slot_id slot)) st
          | None => st
          end
        else
          let newProfessional :=
            mkProfessional (synthetic_id env (draws st)) name
              "Importado - IA" EmptyString false in
          let st := drawn st in
          let st := push_newProfessional newProfessional st in
          let st :=
            update_slot i (set_professionalId (prof_id newProfessional)) st in
          let st :=
            push_validationError
              (mkValidationError "Profissional" name (location slot)
                 (Some ("Novo profissional ser" ++ code_unit 225
                        ++ " criado")%string)
                 (slot_id slot)) st in
          push_suggestedChange
            (mkChangeRecord "Novo Profissional"
               ("Criar novo profissional " ++ quoted name)%string
               (location slot) (slot_id slot)) st
  else st.

(** The callback of [roomImportData.schedule.forEach] in [_validateNames].
    The second block works on the same slot object, as the first block left
    it. *)
Definition validate_slot (env : Environment)
  (registeredPatients registeredProfessionals : list string)
  (professionals : list Professional) (appointments : list Appointment)
  (i : nat) (slot : Slot) (st : State) : State :=
  if negb (isOccupied slot) then st
  else
    let st := validate_patient registeredPatients appointments i slot st in
    match nth_error (schedule (data st)) i with
    | Some slot =>
        validate_professional env registeredProfessionals professionals i slot
          st
    | None => st
    end.

(** [_validateNames] *)
Definition _validateNames (env : Environment) (st : State)
  (professionals : list Professional) (appointments : list Appointment)
  : State :=
  let registeredPatients := registeredPatients_of appointments in
  let registeredProfessionals := registeredProfessionals_of professionals in
  forEach_slot
    (validate_slot env registeredPatients registeredProfessionals
       professionals appointments)
    st.

(** ** ConflictDetector *)

(** The objects [slotsByProfDayTime] and [slotsByRoomDayTime]: own properties
    in insertion order ([for ... in] visits them in that order, since no key
    built by the code is an array index), each holding an array of references
    to slot objects, that is, of positions in the schedule. *)
Definition Groups : Type := list (string * list nat).

Fixpoint own (obj : Groups) (key : string) : option (list nat) :=
  match obj with
  | [] => None
  | (k, v) :: rest => if String.eqb k key then Some v else own rest key
  end.

(** Truthiness of [obj[key]]: an own property holds an array, which is
    truthy; an inherited one holds a function or an object, truthy too. *)
Definition get_truthy (obj : Groups) (key : string) : bool :=
  match own obj key with
  | Some _ => true
  | None => Js.inherited key
  end.

(** [obj[key] = []] for a key that is not an own property yet. *)
Definition assign_empty (obj : Groups) (key : string) : Groups :=
  obj ++ [(key, [])].

Fixpoint push_own (obj : Groups) (key : string) (i : nat) : Groups :=
  match obj with
  | [] => []
  | (k, v) :: rest =>
      if String.eqb k key then (k, v ++ [i]) :: rest
      else (k, v) :: push_own rest key i
  end.

(** [obj[key].push(slot)]: a [TypeError] ([None]) when [obj[key]] is not an
    array of the object's own. *)
Definition push_slot (obj : Groups) (key : string) (i : nat) : option Groups :=
  match own obj key with
  | Some _ => Some (push_own obj key i)
  | None => None
  end.

(** The grouping loop shared by the two detectors: [key_of] is [None] for a
    slot the callback returns on at once. *)
Fixpoint group_from (key_of : Slot -> option string) (slots : list Slot)
  (i : nat) (obj : Groups) : option Groups :=
  match slots with
  | [] => Some obj
  | slot :: rest =>
      match key_of slot with
      | None => group_from key_of rest (S i) obj
      | Some key =>
          let obj :=
            if negb (get_truthy obj key) then assign_empty obj key else obj in
          match push_slot obj key i with
          | Some obj => group_from key_of rest (S i) obj
          | None => None
          end
      end
  end.

Definition group_slots (key_of : Slot -> option string) (slots : list Slot)
  : option Groups :=
  group_from key_of slots 0 [].

(** The slot objects an array of references points to. *)
Definition deref (sched : list Slot) (refs : list nat) : list Slot :=
  flat_map
    (fun i => match nth_error sched i with Some s => [s] | None => [] end)
    refs.

(** [`${slot.professionalId}_${slot.appointmentDate}_${slot.time}`], for the
    slots that pass [if (!slot.isOccupied || !slot.professionalId) return]. *)
Definition profDayTime_key (slot : Slot) : option string :=
  if negb (isOccupied slot) || negb (Js.truthy (professionalId slot)) then None
  else
    Some (Js.show (professionalId slot) ++ "_" ++ appointmentDate slot ++ "_"
          ++ time slot)%string.

(** The body of [for (const key in slotsByProfDayTime)]. *)
Definition report_double_booking (st : State) (group : string * list nat)
  : State :=
  let refs := snd group in
  if 1 <? List.length refs then
    let slots := deref (schedule (data st)) refs in
    match slots with
    | [] => st
    | first :: _ =>
        let profName := professionalName first in
        let conflictingRooms := Js.join ", " (map roomName slots) in
        let dayTime := dayTime_of first in
        let st :=
          push_conflict
            (ProfissionalEmMultiplasSalas profName conflictingRooms dayTime
               (map slot_id slots)) st in
        fold_left
          (fun st i =>
             match nth_error (schedule (data st)) i with
             | Some slot =>
                 let st := update_slot i set_hasScheduleConflict st in
                 push_suggestedChange
                   (mkChangeRecord
                      ("Conflito de " ++ Horario)%string
                      ("Profissional " ++ quoted (Js.show profName)
                       ++ " agendado em m" ++ code_unit 250
                       ++ "ltiplas salas: " ++ conflictingRooms)%string
                      dayTime (slot_id slot)) st
             | None => st
             end)
          refs st
    end
  else st.

(** The callback of the second [forEach] of [_detectScheduleConflicts]. *)
Definition check_existing (appointments : list Appointment)
  (i : nat) (slot : Slot) (st : State) : State :=
  if negb (isOccupied slot) || negb (Js.truthy (professionalId slot)) then st
  else
    let conflictingAppointments :=
      filter
        (fun apt =>
           String.eqb (apt_professionalId apt) (Js.show (professionalId slot))
           && String.eqb (apt_date apt) (appointmentDate slot)
           && String.eqb (apt_time apt) (time slot)
           && (negb (Js.truthy (linkedAppointmentId slot))
               || negb (String.eqb (apt_id apt)
                          (Js.show (linkedAppointmentId slot)))))
        appointments in
    if 0 <? List.length conflictingAppointments then
      let profName := professionalName slot in
      let conflictingClients :=
        Js.join ", " (map client conflictingAppointments) in
      let st :=
        push_conflict
          (ConflitoComAgendamentoExistente profName (patientName slot)
             (roomName slot) (dayTime_of slot)
             (map (fun apt => (apt_id apt, client apt, apt_type apt))
                conflictingAppointments)
             (slot_id slot)) st in
      let st := update_slot i set_hasScheduleConflict st in
      push_suggestedChange
        (mkChangeRecord "Conflito com Agendamento"
           ("Profissional " ++ quoted (Js.show profName) ++ " j"
            ++ code_unit 225 ++ " tem agendamento com "
            ++ quoted conflictingClients)%string
           (location slot) (slot_id slot)) st
    else st.

(** The first half of [_detectScheduleConflicts], under
    [// Verifica conflitos entre slots importados]: the grouping and the
    report of the groups. *)
Definition detect_double_booking (st : State) : outcome :=
  match group_slots profDayTime_key (schedule (data st)) with
  | None => Throws st
  | Some slotsByProfDayTime =>
      Returns (fold_left report_double_booking slotsByProfDayTime st)
  end.

(** The second half, under
    [// Verifica conflitos com agendamentos existentes]. *)
Definition detect_existing (st : State) (appointments : list Appointment)
  : State :=
  forEach_slot (check_existing appointments) st.

(** [_detectScheduleConflicts]; [professionals] is not read. *)
Definition _detectScheduleConflicts (st : State)
  (professionals : list Professional) (appointments : list Appointment)
  : outcome :=
  and_then (detect_double_booking st) (fun st =>
  Returns (detect_existing st appointments)).

(** [`${slot.roomName}_${slot.dayOfWeek}_${slot.time}`], for the slots that
    pass [if (!slot.isOccupied) return]. *)
Definition roomDayTime_key (slot : Slot) : option string :=
  if negb (isOccupied slot) then None
  else Some (roomName slot ++ "_" ++ dayOfWeek slot ++ "_" ++ time slot)%string.

(** [xs.filter(Boolean)] on optional strings. *)
Definition filter_Boolean (xs : list (option string)) : list string :=
  flat_map (fun o => if Js.truthy o then [Js.show o] else []) xs.

(** The body of [for (const key in slotsByRoomDayTime)]. *)
Definition report_duplicate_room (st : State) (group : string * list nat)
  : State :=
  let refs := snd group in
  if 1 <? List.length refs then
    let slots := deref (schedule (data st)) refs in
    match slots with
    | [] => st
    | first :: _ =>
        let room := roomName first in
        let dayTime := dayTime_of first in
        let patients := Js.join ", " (filter_Boolean (map patientName slots)) in
        let professionals :=
          Js.join ", " (filter_Boolean (map professionalName slots)) in
        let st :=
          push_conflict
            (SalaComMultiplosAgendamentos room dayTime patients professionals
               (map slot_id slots)) st in
        fold_left
          (fun st i =>
             match nth_error (schedule (data st)) i with
             | Some slot =>
                 let st := update_slot i set_hasScheduleConflict st in
                 push_suggestedChange
                   (mkChangeRecord "Sala Duplicada"
                      ("Sala " ++ quoted room ++ " com m" ++ code_unit 250
                       ++ "ltiplos agendamentos no mesmo hor" ++ code_unit 225
                       ++ "rio")%string
                      dayTime (slot_id slot)) st
             | None => st
             end)
          refs st
    end
  else st.

(** [_detectDuplicateRoomsOrTimes] *)
Definition _detectDuplicateRoomsOrTimes (st : State) : outcome :=
  match group_slots roomDayTime_key (schedule (data st)) with
  | None => Throws st
  | Some slotsByRoomDayTime =>
      Returns (fold_left report_duplicate_room slotsByRoomDayTime st)
  end.

(** The callback of [forEach] in [_checkInactiveProfessionals]. *)
Definition check_inactive (professionals : list Professional)
  (i : nat) (slot : Slot) (st : State) : State :=
  if negb (isOccupied slot) || negb (Js.truthy (professionalId slot)) then st
  else
    match
      find (fun p => String.eqb (prof_id p) (Js.show (professionalId slot)))
        professionals
    with
    | Some professional =>
        if inactive professional then
          let st :=
            push_conflict
              (ProfissionalInativo (prof_name professional) (patientName slot)
                 (roomName slot) (dayTime_of slot) (slot_id slot)) st in
          let st := update_slot i set_hasValidationError st in
          push_suggestedChange
            (mkChangeRecord "Profissional Inativo"
               ("Profissional " ++ quoted (prof_name professional) ++ " est"
                ++ code_unit 225 ++ " inativo")%string
               (location slot) (slot_id slot)) st
        else st
    | None => st
    end.

(** [_checkInactiveProfessionals] *)
Definition _checkInactiveProfessionals (st : State)
  (professionals : list Professional) : State :=
  forEach_slot (check_inactive professionals) st.

(** ** ReconciliationEngine: [processImportedData] *)

(** The snapshot and the reset of the result arrays.  The synthetic
    identifiers of a run are counted from this point. *)
Definition start (roomImportData : RoomImportData) : State :=
  mkState roomImportData
    (mkInternalAI (Some roomImportData) [] [] [] []) 0.

(** [processImportedData].  The object it returns holds the four arrays of
    the instance and, as [processedData], the three arrays of
    [roomImportData]: all of them are in the final store. *)
Definition processImportedData (env : Environment)
  (roomImportData : RoomImportData) (professionals : list Professional)
  (appointments : list Appointment) : outcome :=
  let st := start roomImportData in
  let st := _validateNames env st professionals appointments in
  and_then (_detectScheduleConflicts st professionals appointments) (fun st =>
  and_then (_detectDuplicateRoomsOrTimes st) (fun st =>
  Returns (_checkInactiveProfessionals st professionals))).

(** ** Reference notions the properties are stated against *)

(** The characters of a string, in order. *)
Definition chars (s : string) : list ascii := list_ascii_of_string s.

(** The recursive definition of the Levenshtein distance: the length of the
    other word when one word is empty, the distance of the tails when the
    heads agree, and otherwise one more than the least of the distances
    after a deletion, an insertion or a substitution at the head. *)
Fixpoint lev (a b : list ascii) {struct a} : nat :=
  match a with
  | [] => List.length b
  | x :: a' =>
      (fix lev_row (b : list ascii) : nat :=
         match b with
         | [] => List.length a
         | y :: b' =>
             if Ascii.eqb x y then lev a' b'
             else S (Nat.min (lev a' b') (Nat.min (lev a' b) (lev_row b')))
         end) b
  end.

(** [edit_script a b n]: [b] is obtained from [a] by [n] single-character
    edits, read off from left to right: a character is kept (no cost),
    substituted, deleted or inserted (cost 1 each). *)
Inductive edit_script : list ascii -> list ascii -> nat -> Prop :=
| script_done : edit_script [] [] 0
| script_keep x a b n :
    edit_script a b n -> edit_script (x :: a) (x :: b) n
| script_substitute x y a b n :
    edit_script a b n -> edit_script (x :: a) (y :: b) (S n)
| script_delete x a b n :
    edit_script a b n -> edit_script (x :: a) b (S n)
| script_insert y a b n :
    edit_script a b n -> edit_script a (y :: b) (S n).

(** The entry the table of [_levenshteinDistance] is meant to hold at row
    [i], column [j], for the words [l1] (first argument) and [l2] (second
    argument): the distance between the first [i] characters of [l2] and the
    first [j] characters of [l1]. *)
Definition entry (l1 l2 : list ascii) (i j : nat) : nat :=
  lev (rev (firstn i l2)) (rev (firstn j l1)).

(** Row [i], filled up to column [j]. *)
Definition row (l1 l2 : list ascii) (i j : nat) : list nat :=
  map (entry l1 l2 i) (seq 0 (S j)).

(** The table when rows below [i] are complete, row [i] is filled up to
    column [j] and the rows above hold their first entry only. *)
Definition table (l1 l2 : list ascii) (i j : nat) : list (list nat) :=
  map (fun k => row l1 l2 k (List.length l1)) (seq 0 i)
  ++ row l1 l2 i j
  :: map (fun k => row l1 l2 k 0) (seq (S i) (List.length l2 - i)).

(** The notions below serve the statements and the proofs of the
    properties. *)

(** What makes the loop return on a registry entry: containment one way or
    the other, or a similarity above the threshold. *)
Definition contains_either (nameLower registered : string) : bool :=
  Js.includes registered nameLower || Js.includes nameLower registered.

(** The entry [registered] passes one of the two tests of the scan. *)
Definition passes (nameLower registered : string) : bool :=
  contains_either nameLower registered
  || above_threshold (_calculateSimilarity nameLower registered).

(** The registry professional a slot resolves to, when the pass acts on the
    slot. *)
Definition inactive_professional_of (professionals : list Professional)
  (slot : Slot) : option Professional :=
  if negb (isOccupied slot) || negb (Js.truthy (professionalId slot)) then None
  else
    match
      find (fun p => String.eqb (prof_id p) (Js.show (professionalId slot)))
        professionals
    with
    | Some professional =>
        if inactive professional then Some professional else None
    | None => None
    end.

(** What [check_inactive] makes of a slot. *)
Definition inactive_mark (professionals : list Professional) (slot : Slot)
  : Slot :=
  match inactive_professional_of professionals slot with
  | Some _ => set_hasValidationError slot
  | None => slot
  end.

(** The conflicts [check_inactive] records for a slot. *)
Definition inactive_conflicts (professionals : list Professional)
  (slot : Slot) : list Conflict :=
  match inactive_professional_of professionals slot with
  | Some professional =>
      [ProfissionalInativo (prof_name professional) (patientName slot)
         (roomName slot) (dayTime_of slot) (slot_id slot)]
  | None => []
  end.

(** The appointments [check_existing] finds in the way of a slot it acts
    on. *)
Definition colliding_appointments (appointments : list Appointment)
  (slot : Slot) : list Appointment :=
  if negb (isOccupied slot) || negb (Js.truthy (professionalId slot)) then []
  else
    filter
      (fun apt =>
         String.eqb (apt_professionalId apt) (Js.show (professionalId slot))
         && String.eqb (apt_date apt) (appointmentDate slot)
         && String.eqb (apt_time apt) (time slot)
         && (negb (Js.truthy (linkedAppointmentId slot))
             || negb (String.eqb (apt_id apt)
                        (Js.show (linkedAppointmentId slot)))))
      appointments.

(** What [check_existing] makes of a slot. *)
Definition existing_mark (appointments : list Appointment) (slot : Slot)
  : Slot :=
  match colliding_appointments appointments slot with
  | [] => slot
  | _ :: _ => set_hasScheduleConflict slot
  end.

(** The conflicts [check_existing] records for a slot. *)
Definition existing_conflicts (appointments : list Appointment) (slot : Slot)
  : list Conflict :=
  match colliding_appointments appointments slot with
  | [] => []
  | conflictingAppointments =>
      [ConflitoComAgendamentoExistente (professionalName slot)
         (patientName slot) (roomName slot) (dayTime_of slot)
         (map (fun apt => (apt_id apt, client apt, apt_type apt))
            conflictingAppointments)
         (slot_id slot)]
  end.

(** The key of the slot at position [j], if the loop gives it one. *)
Definition key_at (key_of : Slot -> option string) (sched : list Slot)
  (j : nat) : option string :=
  match nth_error sched j with
  | Some slot => key_of slot
  | None => None
  end.

Definition has_key (key_of : Slot -> option string) (sched : list Slot)
  (key : string) (j : nat) : bool :=
  match key_at key_of sched j with
  | Some k => String.eqb k key
  | None => false
  end.

(** The positions below [n] whose slot has the key [key], in order. *)
Definition members (key_of : Slot -> option string) (sched : list Slot)
  (key : string) (n : nat) : list nat :=
  filter (has_key key_of sched key) (seq 0 n).

(** What the grouping object holds once the loop has visited the first [n]
    slots. *)
Definition grouped (key_of : Slot -> option string) (sched : list Slot)
  (n : nat) (obj : Groups) : Prop :=
  NoDup (map fst obj)
  /\ (forall key refs, In (key, refs) obj ->
        refs = members key_of sched key n /\ refs <> []
        /\ Js.inherited key = false)
  /\ (forall j key, j < n -> key_at key_of sched j = Some key ->
        In key (map fst obj)).

(** The slot identifiers a conflict entry carries. *)
Definition conflict_slot_ids (c : Conflict) : list string :=
  match c with
  | ProfissionalEmMultiplasSalas _ _ _ slots => slots
  | ConflitoComAgendamentoExistente _ _ _ _ _ slotId => [slotId]
  | SalaComMultiplosAgendamentos _ _ _ _ slots => slots
  | ProfissionalInativo _ _ _ _ slotId => [slotId]
  end.

(** The identifiers of the occupied slots of a schedule. *)
Definition occupied_ids (sched : list Slot) : list string :=
  map slot_id (filter isOccupied sched).

(** [slot_marks s s']: [s'] is [s] with, possibly, flags raised; a slot that
    is not occupied is left as it is. *)
Definition slot_marks (s s' : Slot) : Prop :=
  slot_id s' = slot_id s /\ roomName s' = roomName s
  /\ dayOfWeek s' = dayOfWeek s /\ time s' = time s
  /\ appointmentDate s' = appointmentDate s /\ isOccupied s' = isOccupied s
  /\ patientName s' = patientName s
  /\ professionalName s' = professionalName s
  /\ professionalId s' = professionalId s
  /\ linkedAppointmentId s' = linkedAppointmentId s
  /\ (hasScheduleConflict s = Some true -> hasScheduleConflict s' = Some true)
  /\ (hasValidationError s = Some true -> hasValidationError s' = Some true)
  /\ (isOccupied s = false -> s' = s).

(** [marks st st']: the store [st'] comes from [st] by raising flags on
    occupied slots and by appending conflicts and suggested changes that
    carry identifiers of occupied slots. *)
Record marks (st st' : State) : Prop := mkMarks {
  marks_schedule :
    Forall2 slot_marks (schedule (data st)) (schedule (data st'));
  marks_newProfessionals :
    newProfessionals (data st') = newProfessionals (data st);
  marks_validationErrors :
    validationErrors (this st') = validationErrors (this st);
  marks_autoCorrections :
    autoCorrections (this st') = autoCorrections (this st);
  marks_conflicts :
    exists new,
      conflicts (this st') = conflicts (this st) ++ new
      /\ Forall (fun c => incl (conflict_slot_ids c)
                            (occupied_ids (schedule (data st)))) new;
  marks_suggestedChanges :
    exists new,
      suggestedChanges (this st') = suggestedChanges (this st) ++ new
      /\ Forall (fun c => In (ch_slotId c)
                            (occupied_ids (schedule (data st)))) new
}.

(** The slot at position [j], if any, is occupied. *)
Definition occupied_at (sched : list Slot) (j : nat) : Prop :=
  forall slot, nth_error sched j = Some slot -> isOccupied slot = true.

(** The slot at position [j] has hasScheduleConflict set. *)
Definition flagged (st : State) (j : nat) : Prop :=
  exists slot,
    nth_error (schedule (data st)) j = Some slot
    /\ hasScheduleConflict slot = Some true.

(** The loop [slots.forEach(slot => ...)] that ends both reports. *)
Definition flag_loop (change : Slot -> ChangeRecord) (refs : list nat)
  (st : State) : State :=
  fold_left
    (fun st i =>
       match nth_error (schedule (data st)) i with
       | Some slot =>
           push_suggestedChange (change slot)
             (update_slot i set_hasScheduleConflict st)
       | None => st
       end)
    refs st.

(** References to occupied slots of the schedule. *)
Definition valid_refs (sched : list Slot) (refs : list nat) : Prop :=
  forall j, In j refs -> j < List.length sched /\ occupied_at sched j.

(** A conflict of type 'Profissional em Multiplas Salas'. *)
Definition is_double_booking (c : Conflict) : Prop :=
  match c with
  | ProfissionalEmMultiplasSalas _ _ _ _ => True
  | _ => False
  end.

(** A conflict of type 'Sala com Multiplos Agendamentos'. *)
Definition is_duplicate_room (c : Conflict) : Prop :=
  match c with
  | SalaComMultiplosAgendamentos _ _ _ _ _ => True
  | _ => False
  end.

(** The three detection passes of a run, from the store that
    [_validateNames] leaves. *)
Definition detect (st : State) (professionals : list Professional)
  (appointments : list Appointment) : outcome :=
  and_then (_detectScheduleConflicts st professionals appointments) (fun st =>
  and_then (_detectDuplicateRoomsOrTimes st) (fun st =>
  Returns (_checkInactiveProfessionals st professionals))).

(** A slot the double-booking detector looks at. *)
Definition booked (slot : Slot) : Prop :=
  isOccupied slot = true /\ Js.truthy (professionalId slot) = true.

(** Two slots that agree on (professionalId, appointmentDate, time). *)
Definition same_booking (s1 s2 : Slot) : Prop :=
  professionalId s1 = professionalId s2
  /\ appointmentDate s1 = appointmentDate s2
  /\ time s1 = time s2.

(** [slot_renames s s']: [s'] is [s] with, possibly, other names and another
    professional identifier; a slot that is not occupied is left as it is. *)
Definition slot_renames (s s' : Slot) : Prop :=
  slot_id s' = slot_id s /\ roomName s' = roomName s
  /\ dayOfWeek s' = dayOfWeek s /\ time s' = time s
  /\ appointmentDate s' = appointmentDate s /\ isOccupied s' = isOccupied s
  /\ linkedAppointmentId s' = linkedAppointmentId s
  /\ hasScheduleConflict s' = hasScheduleConflict s
  /\ hasValidationError s' = hasValidationError s
  /\ (isOccupied s = false -> s' = s).

(** [renames st st']: the store [st'] comes from [st] by renaming occupied
    slots, by creating professionals and by appending validation errors,
    corrections and suggested changes that carry identifiers of occupied
    slots. *)
Record renames (st st' : State) : Prop := mkRenames {
  renames_schedule :
    Forall2 slot_renames (schedule (data st)) (schedule (data st'));
  renames_conflicts : conflicts (this st') = conflicts (this st);
  renames_newProfessionals :
    exists new,
      newProfessionals (data st') = newProfessionals (data st) ++ new;
  renames_validationErrors :
    exists new,
      validationErrors (this st') = validationErrors (this st) ++ new
      /\ Forall (fun e => In (ve_slotId e)
                            (occupied_ids (schedule (data st)))) new;
  renames_autoCorrections :
    exists new,
      autoCorrections (this st') = autoCorrections (this st) ++ new
      /\ Forall (fun a => In (ac_slotId a)
                            (occupied_ids (schedule (data st)))) new;
  renames_suggestedChanges :
    exists new,
      suggestedChanges (this st') = suggestedChanges (this st) ++ new
      /\ Forall (fun c => In (ch_slotId c)
                            (occupied_ids (schedule (data st)))) new
}.

(** The [ProfissionalInativo] entries that carry a given slot identifier. *)
Definition is_inactive_entry_for (id : string) (c : Conflict) : bool :=
  match c with
  | ProfissionalInativo _ _ _ _ slotId => String.eqb slotId id
  | _ => false
  end.

(** The appointments of the professional of a slot at the slot's date and
    time. *)
Definition same_booking_appointments (appointments : list Appointment)
  (slot : Slot) : list Appointment :=
  filter
    (fun apt =>
       String.eqb (apt_professionalId apt) (Js.show (professionalId slot))
       && String.eqb (apt_date apt) (appointmentDate slot)
       && String.eqb (apt_time apt) (time slot))
    appointments.

(** A slot whose professional name the reconciler examines and that
    normalises to [n]. *)
Definition named (n : string) (slot : Slot) : bool :=
  isOccupied slot && Js.truthy (professionalName slot)
  && String.eqb (normalize (Js.show (professionalName slot))) n.

(** The professionals of a list whose normalised name is [n]. *)
Definition called (n : string) (l : list Professional) : list Professional :=
  filter (fun p => String.eqb (normalize (prof_name p)) n) l.

(** What holds in the loop of [_validateNames], started in [st0], once it has
    visited the first [k] slots; [n] is a normalised professional name and
    [i] the position of the first slot that carries it. *)
Definition synthetic_inv (n : string) (st0 : State) (i k : nat) (stk : State) : Prop :=
  (forall j, k <= j ->
     nth_error (schedule (data stk)) j = nth_error (schedule (data st0)) j)
  /\ (exists created,
        newProfessionals (data stk) = newProfessionals (data st0) ++ created
        /\ if k <=? i then called n created = []
           else
             exists p,
               called n created = [p]
               /\ exists slot',
                    nth_error (schedule (data stk)) i = Some slot'
                    /\ professionalId slot' = Some (prof_id p))
  /\ (forall j s, j < k -> j <> i ->
        nth_error (schedule (data st0)) j = Some s -> named n s = true ->
        exists s',
          nth_error (schedule (data stk)) j = Some s'
          /\ professionalId s' = professionalId s).

(** A string without the underscore character. *)
Definition underscore_free (s : string) : Prop := ~ In "_"%char (chars s).

(** Two slots that agree on (roomName, dayOfWeek, time). *)
Definition same_room (s1 s2 : Slot) : Prop :=
  roomName s1 = roomName s2 /\ dayOfWeek s1 = dayOfWeek s2
  /\ time s1 = time s2.

(** The fields that end the grouping keys contain no underscore. *)
Definition separable (slot : Slot) : Prop :=
  underscore_free (dayOfWeek slot) /\ underscore_free (time slot)
  /\ underscore_free (appointmentDate slot).

(** [agreeing agree sched ids]: [ids] are the identifiers of two or more
    slots of the schedule, at different positions, that agree pairwise. *)
Definition agreeing (agree : Slot -> Slot -> Prop) (sched : list Slot)
  (ids : list string) : Prop :=
  exists positions,
    NoDup positions /\ 2 <= List.length positions
    /\ ids = map slot_id (deref sched positions)
    /\ forall i j si sj,
         In i positions -> In j positions ->
         nth_error sched i = Some si -> nth_error sched j = Some sj ->
         agree si sj.

(** A grouping conflict stands for slots that agree on the whole composite
    key. *)
Definition well_grouped (sched : list Slot) (c : Conflict) : Prop :=
  match c with
  | ProfissionalEmMultiplasSalas _ _ _ slots =>
      agreeing same_booking sched slots
  | SalaComMultiplosAgendamentos _ _ _ _ slots =>
      agreeing same_room sched slots
  | _ => True
  end.

(** Example data: a clock and a generator that always give the same
    texts, an active and an inactive professional. *)
Definition example_env : Environment :=
  mkEnvironment (fun _ => "1700000000000"%string) (fun _ => "0.5"%string).

Definition ana : Professional :=
  mkProfessional "p1" "Ana Souza" "Fonoaudiologia" "CRFa 1" false.

Definition rui : Professional :=
  mkProfessional "p2" "Rui Lima" "Psicologia" "CRP 2" true.

(** An occupied slot of a given identifier, room, time, professional name
    and professional identifier, on Monday 2024-03-04. *)
Definition example_slot (id room hour : string)
  (professionalName professionalId : option string) : Slot :=
  mkSlot id room "Segunda" hour "2024-03-04" true None professionalName
    professionalId None None None.

(** [s.includes('_')] *)
Definition has_underscore (s : string) : bool := Js.includes s "_".

(** No scheduling coordinate of the slot, and not its professional
    identifier, contains an underscore. *)
Definition no_underscores (slot : Slot) : bool :=
  negb (has_underscore (roomName slot))
  && negb (has_underscore (dayOfWeek slot))
  && negb (has_underscore (time slot))
  && negb (has_underscore (appointmentDate slot))
  && negb (has_underscore (Js.show (professionalId slot))).

(** [groups_agree agree sched obj]: the slots that the grouping object
    [obj] holds under one key agree pairwise. *)
Definition groups_agree (agree : Slot -> Slot -> Prop) (sched : list Slot)
  (obj : Groups) : Prop :=
  forall key refs i j si sj,
    In (key, refs) obj -> In i refs -> In j refs ->
    nth_error sched i = Some si -> nth_error sched j = Some sj ->
    agree si sj.

(** A conflict of type 'Profissional Inativo'. *)
Definition is_inactive_entry (c : Conflict) : bool :=
  match c with
  | ProfissionalInativo _ _ _ _ _ => true
  | _ => false
  end.

(** The time of the slot is not empty and holds no underscore, as in
    [08:00]. *)
Definition plain_time (slot : Slot) : Prop :=
  time slot <> EmptyString /\ underscore_free (time slot).

(** [(longer.length - editDistance) / longer.length] for a distance [d] and
    a length [n] that is not 0. *)
Definition quotient (n d : nat) : Q :=
  (inject_Z (Z.of_nat n - Z.of_nat d) / inject_Z (Z.of_nat n))%Q.

(** The appointment whose client name [validate_patient] gives to a slot:
    the one found under [const originalCase], when the block gets there. *)
Definition patient_correction (appointments : list Appointment) (slot : Slot)
  : option Appointment :=
  if Js.truthy (patientName slot) then
    let patientLower := normalize (Js.show (patientName slot)) in
    let registeredPatients := registeredPatients_of appointments in
    if existsb (String.eqb patientLower) registeredPatients then None
    else
      let closestMatch := _findClosestMatch patientLower registeredPatients in
      if Js.truthy closestMatch then
        find (fun apt =>
                String.eqb (normalize (client apt)) (Js.show closestMatch))
          appointments
      else None
  else None.

(** What [validate_patient] makes of a slot. *)
Definition patient_mark (appointments : list Appointment) (slot : Slot)
  : Slot :=
  match patient_correction appointments slot with
  | Some originalCase => set_patientName (client originalCase) slot
  | None => slot
  end.

(** The branch [validate_professional] takes on a slot: none that changes
    anything, the correction to a registered professional, or the creation
    of a professional. *)
Inductive Reconciliation : Type :=
| NoAction
| Correct (originalProf : Professional)
| Create.

Definition professional_action (professionals : list Professional)
  (newProfs : list Professional) (slot : Slot) : Reconciliation :=
  if Js.truthy (professionalName slot) then
    let profLower := normalize (Js.show (professionalName slot)) in
    let registeredProfessionals := registeredProfessionals_of professionals in
    if existsb (String.eqb profLower) registeredProfessionals then NoAction
    else if existsb (fun p => String.eqb (normalize (prof_name p)) profLower)
              newProfs
    then NoAction
    else
      let closestMatch :=
        _findClosestMatch profLower registeredProfessionals in
      if Js.truthy closestMatch then
        match
          find (fun p =>
                  String.eqb (normalize (prof_name p)) (Js.show closestMatch))
            professionals
        with
        | Some originalProf => Correct originalProf
        | None => NoAction
        end
      else Create
  else NoAction.

(** The professional that the [k]-th creation of a run makes for a slot. *)
Definition created_professional (env : Environment) (k : nat) (slot : Slot)
  : Professional :=
  mkProfessional (synthetic_id env k) (Js.show (professionalName slot))
    "Importado - IA" EmptyString false.

(** What the callback of [_validateNames] makes of a slot, of the list of
    new professionals and of the number of identifiers drawn. *)
Definition reconcile_slot (env : Environment)
  (professionals : list Professional) (appointments : list Appointment)
  (newProfs : list Professional) (k : nat) (slot : Slot)
  : Slot * (list Professional * nat) :=
  if negb (isOccupied slot) then (slot, (newProfs, k))
  else
    let slot := patient_mark appointments slot in
    match professional_action professionals newProfs slot with
    | NoAction => (slot, (newProfs, k))
    | Correct originalProf =>
        (set_professionalId (prof_id originalProf)
           (set_professionalName (prof_name originalProf) slot),
         (newProfs, k))
    | Create =>
        (set_professionalId (synthetic_id env k) slot,
         (newProfs ++ [created_professional env k slot], S k))
    end.

(** The same for a schedule, slot after slot. *)
Fixpoint reconcile (env : Environment) (professionals : list Professional)
  (appointments : list Appointment) (newProfs : list Professional)
  (k : nat) (slots : list Slot) : list Slot * (list Professional * nat) :=
  match slots with
  | [] => ([], (newProfs, k))
  | slot :: rest =>
      let r :=
        reconcile_slot env professionals appointments newProfs k slot in
      let rs :=
        reconcile env professionals appointments (fst (snd r)) (snd (snd r))
          rest in
      (fst r :: fst rs, snd rs)
  end.

(** The names of an occupied slot need no reconciliation: the patient name
    is absent or that of a client, and the professional name is absent, that
    of a registered professional or that of a new professional already in
    the list [newProfs]. *)
Definition names_known (professionals : list Professional)
  (appointments : list Appointment) (newProfs : list Professional)
  (slot : Slot) : Prop :=
  (Js.truthy (patientName slot) = true ->
   In (normalize (Js.show (patientName slot)))
     (registeredPatients_of appointments))
  /\ (Js.truthy (professionalName slot) = true ->
      In (normalize (Js.show (professionalName slot)))
        (registeredProfessionals_of professionals)
      \/ called (normalize (Js.show (professionalName slot))) newProfs <> []).

(** [names_from professionals appointments newProfs s s']: the names and
    the professional identifier of [s'] are those of [s], or were taken
    from one record: the patient name from an appointment, the professional
    name and identifier together from a registered professional, or the
    identifier from a new professional that has the slot's name. *)
Definition names_from (professionals : list Professional)
  (appointments : list Appointment) (newProfs : list Professional)
  (s s' : Slot) : Prop :=
  (patientName s' = patientName s
   \/ exists apt, In apt appointments /\ patientName s' = Some (client apt))
  /\ ((professionalName s' = professionalName s
       /\ professionalId s' = professionalId s)
      \/ (exists p,
            In p professionals
            /\ professionalName s' = Some (prof_name p)
            /\ professionalId s' = Some (prof_id p))
      \/ (exists p,
            In p newProfs
            /\ professionalName s' = professionalName s
            /\ professionalName s' = Some (prof_name p)
            /\ professionalId s' = Some (prof_id p))).

(** [mem j refs]: the position [j] is among the references [refs]. *)
Definition mem (j : nat) (refs : list nat) : bool := existsb (Nat.eqb j) refs.

(** The position [j] is in a group of [obj] that has more than one member. *)
Definition in_large_group (obj : Groups) (j : nat) : bool :=
  existsb
    (fun group => (1 <? List.length (snd group)) && mem j (snd group)) obj.

(** The schedule with [hasScheduleConflict] set at the positions that [flag]
    selects. *)
Definition flag_at (flag : nat -> bool) (sched : list Slot) : list Slot :=
  map (fun js =>
         if flag (fst js) then set_hasScheduleConflict (snd js) else snd js)
    (combine (seq 0 (List.length sched)) sched).

(** The total number of slot identifiers that conflicts list. *)
Definition listed (cs : list Conflict) : nat :=
  list_sum (map (fun c => List.length (conflict_slot_ids c)) cs).

(** The conflict that [report_double_booking] records for the slots of a
    group. *)
Definition double_booking_conflicts (slots : list Slot) : list Conflict :=
  match slots with
  | [] => []
  | first :: _ =>
      [ProfissionalEmMultiplasSalas (professionalName first)
         (Js.join ", " (map roomName slots)) (dayTime_of first)
         (map slot_id slots)]
  end.

(** The conflict that [report_duplicate_room] records for the slots of a
    group. *)
Definition duplicate_room_conflicts (slots : list Slot) : list Conflict :=
  match slots with
  | [] => []
  | first :: _ =>
      [SalaComMultiplosAgendamentos (roomName first) (dayTime_of first)
         (Js.join ", " (filter_Boolean (map patientName slots)))
         (Js.join ", " (filter_Boolean (map professionalName slots)))
         (map slot_id slots)]
  end.

(** The conflicts a [for (const key in ...)] loop records for a group: those
    that [build] makes of its slots, when the group has more than one
    member. *)
Definition group_conflicts (build : list Slot -> list Conflict)
  (sched : list Slot) (group : string * list nat) : list Conflict :=
  if 1 <? List.length (snd group) then build (deref sched (snd group))
  else [].

(** What the three detection passes make of a schedule, when none of them
    throws: the schedule they leave and the conflicts they record, in the
    order of the passes (double bookings, collisions with existing
    appointments, duplicate rooms, inactive professionals). *)
Definition detected (professionals : list Professional)
  (appointments : list Appointment) (sched : list Slot)
  : option (list Slot * list Conflict) :=
  match group_slots profDayTime_key sched with
  | None => None
  | Some slotsByProfDayTime =>
      let sched1 := flag_at (in_large_group slotsByProfDayTime) sched in
      let sched2 := map (existing_mark appointments) sched1 in
      match group_slots roomDayTime_key sched2 with
      | None => None
      | Some slotsByRoomDayTime =>
          let sched3 := flag_at (in_large_group slotsByRoomDayTime) sched2 in
          Some
            (map (inactive_mark professionals) sched3,
             flat_map (group_conflicts double_booking_conflicts sched)
               slotsByProfDayTime
             ++ flat_map (existing_conflicts appointments) sched1
             ++ flat_map (group_conflicts duplicate_room_conflicts sched2)
                  slotsByRoomDayTime
             ++ flat_map (inactive_conflicts professionals) sched3)
      end
  end.

(** [accounted st st']: from [st] to [st'] the engine has appended to its
    four arrays, and as many suggested changes as auto-corrections,
    validation errors and slots listed by conflicts together. *)
Definition accounted (st st' : State) : Prop :=
  exists chs acs ves cfs,
    suggestedChanges (this st') = suggestedChanges (this st) ++ chs
    /\ autoCorrections (this st') = autoCorrections (this st) ++ acs
    /\ validationErrors (this st') = validationErrors (this st) ++ ves
    /\ conflicts (this st') = conflicts (this st) ++ cfs
    /\ List.length chs = List.length acs + List.length ves + listed cfs.

(** A conflict of type 'Conflito com Agendamento Existente' for the slot
    [id]. *)
Definition is_existing_entry_for (id : string) (c : Conflict) : bool :=
  match c with
  | ConflitoComAgendamentoExistente _ _ _ _ _ slotId => String.eqb slotId id
  | _ => false
  end.

(** [settled professionals appointments newProfs slot]: the callback of
    [_validateNames] finds nothing to correct and nothing to create on the
    slot, with [newProfs] as the new professionals. *)
Definition settled (professionals : list Professional)
  (appointments : list Appointment) (newProfs : list Professional)
  (slot : Slot) : Prop :=
  isOccupied slot = true ->
  patient_correction appointments slot = None
  /\ professional_action professionals newProfs slot = NoAction.

(** The slot with its two flags replaced. *)
Definition with_flags (sc ve : option bool) (s : Slot) : Slot :=
  mkSlot (slot_id s) (roomName s) (dayOfWeek s) (time s) (appointmentDate s)
    (isOccupied s) (patientName s) (professionalName s) (professionalId s)
    (linkedAppointmentId s) sc ve.

(** Two slots that agree on every field but the flags. *)
Definition same_record (a b : Slot) : Prop :=
  with_flags None None a = with_flags None None b.

(** The slot with flags raised: [hasScheduleConflict] when [sc] holds,
    [hasValidationError] when [ve] holds. *)
Definition raise (sc ve : bool) (s : Slot) : Slot :=
  with_flags (if sc then Some true else hasScheduleConflict s)
    (if ve then Some true else hasValidationError s) s.

(** [check_existing] finds appointments in the way of the slot. *)
Definition collides (appointments : list Appointment) (slot : Slot) : bool :=
  match colliding_appointments appointments slot with
  | [] => false
  | _ :: _ => true
  end.

(** [check_inactive] finds the professional of the slot inactive. *)
Definition idle (professionals : list Professional) (slot : Slot) : bool :=
  match inactive_professional_of professionals slot with
  | Some _ => true
  | None => false
  end.

(** The grouping key of the slot is a property name that the grouping object
    inherits. *)
Definition inherited_key (key_of : Slot -> option string) (slot : Slot)
  : bool :=
  match key_of slot with
  | Some key => Js.inherited key
  | None => false
  end.

(** [slot_kept s s']: what a run keeps of a slot.  The identifier, the room,
    the day, the time, the date, the occupancy and the linked appointment
    are those of [s], and a flag that is set in [s] is set in [s']. *)
Definition slot_kept (s s' : Slot) : Prop :=
  slot_id s' = slot_id s /\ roomName s' = roomName s
  /\ dayOfWeek s' = dayOfWeek s /\ time s' = time s
  /\ appointmentDate s' = appointmentDate s /\ isOccupied s' = isOccupied s
  /\ linkedAppointmentId s' = linkedAppointmentId s
  /\ (hasScheduleConflict s = Some true -> hasScheduleConflict s' = Some true)
  /\ (hasValidationError s = Some true -> hasValidationError s' = Some true).

(** * Properties *)

(** ** Examples *)

Example lev_kitten : _levenshteinDistance "kitten" "sitting" = 3.
Proof. reflexivity. Qed.

(** ** The reference distance *)

Lemma lev_nil_r a : lev a [] = List.length a.
Proof. destruct a; reflexivity. Qed.

Lemma lev_cons_cons x y a b :
  lev (x :: a) (y :: b) =
  if Ascii.eqb x y then lev a b
  else S (Nat.min (lev a b) (Nat.min (lev a (y :: b)) (lev (x :: a) b))).
Proof. reflexivity. Qed.

(** Adding or removing one character at the head of either word changes the
    distance by at most one. *)
Lemma lev_head_step n :
  forall a b, List.length a + List.length b <= n ->
  forall x,
    lev (x :: a) b <= S (lev a b) /\ lev a (x :: b) <= S (lev a b) /\
    lev a b <= S (lev (x :: a) b) /\ lev a b <= S (lev a (x :: b)).
Proof.
  induction n as [|n IH]; intros a b Hn x.
  - destruct a, b; simpl in Hn; try lia. simpl. lia.
  - assert (Hdel : lev (x :: a) b <= S (lev a b)).
    { destruct b as [|y b'].
      - rewrite !lev_nil_r. simpl. lia.
      - rewrite lev_cons_cons. destruct (Ascii.eqb x y).
        + destruct (IH a b' ltac:(simpl in Hn; lia) y) as (_ & _ & _ & H4).
          exact H4.
        + lia. }
    assert (Hins : lev a (x :: b) <= S (lev a b)).
    { destruct a as [|y a'].
      - simpl. lia.
      - rewrite lev_cons_cons. destruct (Ascii.eqb y x).
        + destruct (IH a' b ltac:(simpl in Hn; lia) y) as (_ & _ & H3 & _).
          exact H3.
        + lia. }
    assert (Hundel : lev a b <= S (lev (x :: a) b)).
    { destruct b as [|y b'].
      - rewrite !lev_nil_r. simpl. lia.
      - rewrite lev_cons_cons.
        destruct (IH a b' ltac:(simpl in Hn; lia) y) as (_ & H2 & _ & _).
        destruct (IH a b' ltac:(simpl in Hn; lia) x) as (_ & _ & H3 & _).
        destruct (Ascii.eqb x y); lia. }
    assert (Hunins : lev a b <= S (lev a (x :: b))).
    { destruct a as [|y a'].
      - simpl. lia.
      - rewrite lev_cons_cons.
        destruct (IH a' b ltac:(simpl in Hn; lia) y) as (H1 & _ & _ & _).
        destruct (IH a' b ltac:(simpl in Hn; lia) x) as (_ & _ & _ & H4).
        destruct (Ascii.eqb y x); lia. }
    auto.
Qed.

Lemma lev_delete x a b : lev (x :: a) b <= S (lev a b).
Proof. apply (lev_head_step _ a b (le_n _) x). Qed.

Lemma lev_insert x a b : lev a (x :: b) <= S (lev a b).
Proof. apply (lev_head_step _ a b (le_n _) x). Qed.

(** The reference distance is the cost of some edit script ... *)
Lemma lev_is_script a : forall b, edit_script a b (lev a b).
Proof.
  induction a as [|x a IHa]; intros b.
  - simpl. induction b as [|y b IHb]; simpl; constructor; assumption.
  - induction b as [|y b IHb].
    + rewrite lev_nil_r. simpl.
      apply script_delete. specialize (IHa []). rewrite lev_nil_r in IHa.
      exact IHa.
    + rewrite lev_cons_cons. destruct (Ascii.eqb_spec x y) as [->|Hxy].
      * apply script_keep, IHa.
      * destruct (Nat.min_spec (lev a b) (Nat.min (lev a (y :: b)) (lev (x :: a) b)))
          as [[_ ->]|[_ ->]].
        -- apply script_substitute, IHa.
        -- destruct (Nat.min_spec (lev a (y :: b)) (lev (x :: a) b))
             as [[_ ->]|[_ ->]].
           ++ apply script_delete, IHa.
           ++ apply script_insert, IHb.
Qed.

(** ... and no edit script is cheaper. *)
Lemma lev_le_script a b n : edit_script a b n -> lev a b <= n.
Proof.
  induction 1 as [|x a b n _ IH|x y a b n _ IH|x a b n _ IH|y a b n _ IH].
  - simpl. lia.
  - rewrite lev_cons_cons, Ascii.eqb_refl. exact IH.
  - rewrite lev_cons_cons. destruct (Ascii.eqb x y); lia.
  - pose proof (lev_delete x a b). lia.
  - pose proof (lev_insert y a b). lia.
Qed.

Lemma script_snoc a b n :
  edit_script a b n ->
  forall x y,
    edit_script (a ++ [x]) (b ++ [x]) n /\
    edit_script (a ++ [x]) (b ++ [y]) (S n) /\
    edit_script (a ++ [x]) b (S n) /\
    edit_script a (b ++ [y]) (S n).
Proof.
  induction 1 as [|z a b n _ IH|z w a b n _ IH|z a b n _ IH|w a b n _ IH];
    intros x y; simpl.
  - repeat split; repeat constructor.
  - destruct (IH x y) as (H1 & H2 & H3 & H4).
    repeat split; apply script_keep; assumption.
  - destruct (IH x y) as (H1 & H2 & H3 & H4).
    repeat split; apply script_substitute; assumption.
  - destruct (IH x y) as (H1 & H2 & H3 & H4).
    repeat split; apply script_delete; assumption.
  - destruct (IH x y) as (H1 & H2 & H3 & H4).
    repeat split; apply script_insert; assumption.
Qed.

Lemma script_rev a b n :
  edit_script a b n -> edit_script (rev a) (rev b) n.
Proof.
  induction 1 as [|x a b n _ IH|x y a b n _ IH|x a b n _ IH|y a b n _ IH];
    simpl.
  - constructor.
  - apply (script_snoc _ _ _ IH x x).
  - apply (script_snoc _ _ _ IH x y).
  - apply (script_snoc _ _ _ IH x x).
  - apply (script_snoc _ _ _ IH y y).
Qed.

Lemma script_sym a b n : edit_script a b n -> edit_script b a n.
Proof. induction 1; constructor; assumption. Qed.

Lemma lev_rev a b : lev (rev a) (rev b) = lev a b.
Proof.
  apply Nat.le_antisymm.
  - apply lev_le_script, script_rev, lev_is_script.
  - pose proof (lev_is_script (rev a) (rev b)) as H.
    apply script_rev in H. rewrite !rev_involutive in H.
    apply lev_le_script, H.
Qed.

Lemma lev_sym a b : lev a b = lev b a.
Proof.
  apply Nat.le_antisymm; apply lev_le_script, script_sym, lev_is_script.
Qed.

Lemma lev_refl a : lev a a = 0.
Proof.
  induction a as [|x a IH]; [reflexivity|].
  rewrite lev_cons_cons, Ascii.eqb_refl. exact IH.
Qed.

Lemma lev_le_max a : forall b,
  lev a b <= Nat.max (List.length a) (List.length b).
Proof.
  induction a as [|x a IHa]; intros b; [simpl; lia|].
  destruct b as [|y b]; [rewrite lev_nil_r; lia|].
  rewrite lev_cons_cons. specialize (IHa b). simpl List.length.
  destruct (Ascii.eqb x y); lia.
Qed.

(** ** The dynamic-programming table of [_levenshteinDistance] *)

Lemma chars_length s : List.length (chars s) = String.length s.
Proof. induction s as [|c s IH]; simpl; congruence. Qed.

Lemma chars_get s : forall i, Js.charAt s i = nth_error (chars s) i.
Proof.
  unfold Js.charAt. induction s as [|c s IH]; intros [|i]; simpl; auto.
Qed.

Lemma charAt_eqb_spec x y : Js.charAt_eqb x y = true <-> x = y.
Proof.
  destruct x as [a|], y as [b|]; simpl; split; intros H;
    try discriminate; try reflexivity.
  - apply Ascii.eqb_eq in H. congruence.
  - inversion H. apply Ascii.eqb_refl.
Qed.

Lemma array_set_end {A} (hole : A) l v :
  Js.array_set hole l (List.length l) v = l ++ [v].
Proof.
  unfold Js.array_set.
  rewrite firstn_all, Nat.sub_diag, skipn_all2 by lia. reflexivity.
Qed.

Lemma array_set_mid {A} (hole : A) l1 x l2 v :
  Js.array_set hole (l1 ++ x :: l2) (List.length l1) v = l1 ++ v :: l2.
Proof.
  unfold Js.array_set.
  rewrite firstn_app, firstn_all, Nat.sub_diag, firstn_O, app_nil_r.
  replace (List.length l1 - List.length (l1 ++ x :: l2)) with 0
    by (rewrite length_app; lia).
  replace (S (List.length l1)) with (List.length (l1 ++ [x]))
    by (rewrite length_app; simpl; lia).
  replace (l1 ++ x :: l2) with ((l1 ++ [x]) ++ l2)
    by (rewrite <- app_assoc; reflexivity).
  rewrite skipn_app, skipn_all, Nat.sub_diag. reflexivity.
Qed.

Lemma fold_left_seq_inv {S : Type} (P : nat -> S -> Prop) (f : S -> nat -> S) :
  forall n a s,
    P a s ->
    (forall k s, a <= k < a + n -> P k s -> P (Datatypes.S k) (f s k)) ->
    P (a + n) (fold_left f (seq a n) s).
Proof.
  induction n as [|n IH]; intros a s H0 Hstep; simpl.
  - rewrite Nat.add_0_r. exact H0.
  - rewrite <- Nat.add_succ_comm. apply IH.
    + apply Hstep; [lia|exact H0].
    + intros k s' Hk. apply Hstep. lia.
Qed.

Lemma nth_map_seq {A} (g : nat -> A) d n k :
  k < n -> nth k (map g (seq 0 n)) d = g k.
Proof.
  intros Hk. rewrite (nth_indep _ d (g 0)) by (rewrite length_map, length_seq; lia).
  rewrite (map_nth g (seq 0 n) 0 k), seq_nth by lia. reflexivity.
Qed.

Section Table.

Variables l1 l2 : list ascii.

Lemma entry_0_r i : i <= List.length l2 -> entry l1 l2 i 0 = i.
Proof.
  intros Hi. unfold entry. simpl. rewrite lev_nil_r, length_rev, length_firstn.
  lia.
Qed.

Lemma entry_0_l j : j <= List.length l1 -> entry l1 l2 0 j = j.
Proof.
  intros Hj. unfold entry. simpl. rewrite length_rev, length_firstn. lia.
Qed.

Lemma firstn_succ_rev (l : list ascii) k x :
  nth_error l k = Some x -> rev (firstn (S k) l) = x :: rev (firstn k l).
Proof.
  revert k. induction l as [|y l IH]; intros [|k] H; simpl in *;
    try discriminate.
  - congruence.
  - rewrite (IH k H). simpl. reflexivity.
Qed.

Lemma entry_step i j x y :
  nth_error l2 i = Some x -> nth_error l1 j = Some y ->
  entry l1 l2 (S i) (S j) =
  if Ascii.eqb x y then entry l1 l2 i j
  else Nat.min (entry l1 l2 i j + 1)
         (Nat.min (entry l1 l2 (S i) j + 1) (entry l1 l2 i (S j) + 1)).
Proof.
  intros Hx Hy. unfold entry.
  rewrite (firstn_succ_rev _ _ _ Hx), (firstn_succ_rev _ _ _ Hy).
  rewrite lev_cons_cons. destruct (Ascii.eqb x y); lia.
Qed.

Lemma row_length i j : List.length (row l1 l2 i j) = S j.
Proof. unfold row. rewrite length_map, length_seq. reflexivity. Qed.

Lemma row_succ i j : row l1 l2 i (S j) = row l1 l2 i j ++ [entry l1 l2 i (S j)].
Proof.
  unfold row. rewrite (seq_S (S j) 0), map_app. reflexivity.
Qed.

Lemma row_nth i j k : k <= j -> nth k (row l1 l2 i j) 0 = entry l1 l2 i k.
Proof. intros Hk. unfold row. apply nth_map_seq. lia. Qed.

Lemma table_prefix_length i :
  List.length (map (fun k => row l1 l2 k (List.length l1)) (seq 0 i)) = i.
Proof. rewrite length_map, length_seq. reflexivity. Qed.

Lemma table_row i j : nth i (table l1 l2 i j) [] = row l1 l2 i j.
Proof.
  unfold table. rewrite app_nth2; rewrite table_prefix_length; [|lia].
  rewrite Nat.sub_diag. reflexivity.
Qed.

Lemma table_row_below i j k :
  k < i -> nth k (table l1 l2 i j) [] = row l1 l2 k (List.length l1).
Proof.
  intros Hk. unfold table.
  rewrite app_nth1 by (rewrite table_prefix_length; lia).
  apply (nth_map_seq (fun k => row l1 l2 k (List.length l1))). exact Hk.
Qed.

Lemma table_write i j v :
  matrix_set (table l1 l2 i j) i (S j) v =
  map (fun k => row l1 l2 k (List.length l1)) (seq 0 i)
  ++ (row l1 l2 i j ++ [v])
  :: map (fun k => row l1 l2 k 0) (seq (S i) (List.length l2 - i)).
Proof.
  unfold matrix_set. rewrite table_row.
  replace (S j) with (List.length (row l1 l2 i j)) by apply row_length.
  rewrite array_set_end. unfold table.
  pose proof (array_set_mid []
    (map (fun k => row l1 l2 k (List.length l1)) (seq 0 i)) (row l1 l2 i j)
    (map (fun k => row l1 l2 k 0) (seq (S i) (List.length l2 - i)))
    (row l1 l2 i j ++ [v])) as H.
  rewrite table_prefix_length in H. exact H.
Qed.

Lemma table_next_row i :
  i < List.length l2 -> table l1 l2 i (List.length l1) = table l1 l2 (S i) 0.
Proof.
  intros Hi. unfold table.
  rewrite (seq_S i 0), map_app, <- app_assoc. simpl.
  replace (List.length l2 - i) with (S (List.length l2 - S i)) by lia.
  reflexivity.
Qed.

End Table.

Lemma levenshtein_cell_correct str1 str2 i j :
  i < String.length str2 -> j < String.length str1 ->
  levenshtein_cell str1 str2 (S i)
    (table (chars str1) (chars str2) (S i) j) (S j)
  = table (chars str1) (chars str2) (S i) (S j).
Proof.
  intros Hi Hj. unfold levenshtein_cell.
  set (l1 := chars str1). set (l2 := chars str2).
  assert (Hl1 : List.length l1 = String.length str1) by apply chars_length.
  assert (Hl2 : List.length l2 = String.length str2) by apply chars_length.
  simpl Nat.sub. rewrite !Nat.sub_0_r, !chars_get. fold l1 l2.
  destruct (nth_error l2 i) as [x|] eqn:Hx;
    [|apply nth_error_None in Hx; lia].
  destruct (nth_error l1 j) as [y|] eqn:Hy;
    [|apply nth_error_None in Hy; lia].
  assert (Hdiag : matrix_get (table l1 l2 (S i) j) i j = entry l1 l2 i j).
  { unfold matrix_get. rewrite table_row_below by lia.
    apply row_nth. lia. }
  assert (Hup : matrix_get (table l1 l2 (S i) j) i (S j) = entry l1 l2 i (S j)).
  { unfold matrix_get. rewrite table_row_below by lia.
    apply row_nth. lia. }
  assert (Hleft : matrix_get (table l1 l2 (S i) j) (S i) j
                  = entry l1 l2 (S i) j).
  { unfold matrix_get. rewrite table_row. apply row_nth. lia. }
  rewrite Hdiag, Hup, Hleft.
  pose proof (entry_step l1 l2 i j x y Hx Hy) as Hstep.
  simpl Js.charAt_eqb.
  destruct (Ascii.eqb x y); rewrite table_write; unfold table;
    rewrite row_succ, Hstep; reflexivity.
Qed.

Lemma levenshtein_init_correct str1 str2 :
  levenshtein_init str1 str2
  = table (chars str1) (chars str2) 0 (String.length str1).
Proof.
  unfold levenshtein_init.
  set (l1 := chars str1). set (l2 := chars str2).
  assert (Hl1 : List.length l1 = String.length str1) by apply chars_length.
  assert (Hl2 : List.length l2 = String.length str2) by apply chars_length.
  assert (Hrows :
    fold_left (fun m i => Js.array_set [] m i [i])
      (seq 0 (S (String.length str2))) []
    = table l1 l2 0 0).
  { pose proof (fold_left_seq_inv
      (fun k m => k <= S (String.length str2) ->
                  m = map (fun i => row l1 l2 i 0) (seq 0 k))
      (fun m i => Js.array_set [] m i [i]) (S (String.length str2)) 0 [])
      as H.
    simpl Nat.add in H. rewrite H; try lia; try reflexivity.
    - unfold table. simpl. rewrite Nat.sub_0_r, Hl2. reflexivity.
    - intros k m Hk IH Hle. rewrite IH by lia.
      pose proof (array_set_end []
        (map (fun i => row l1 l2 i 0) (seq 0 k)) [k]) as Hend.
      rewrite length_map, length_seq in Hend.
      rewrite Hend, (seq_S k 0), map_app. simpl. apply f_equal.
      unfold row. simpl. rewrite entry_0_r by lia. reflexivity. }
  rewrite Hrows.
  pose proof (fold_left_seq_inv
    (fun k m => k <= S (String.length str1) ->
                m = match k with
                    | 0 => table l1 l2 0 0
                    | S j => table l1 l2 0 j
                    end)
    (fun m j => matrix_set m 0 j j) (S (String.length str1)) 0
    (table l1 l2 0 0)) as H.
  simpl Nat.add in H. rewrite H; try lia; try reflexivity.
  intros k m Hk IH Hle. rewrite IH by lia. destruct k as [|j].
  - unfold table, matrix_set. simpl. unfold row. simpl.
    rewrite entry_0_l by lia. reflexivity.
  - rewrite table_write. unfold table.
    rewrite row_succ, (entry_0_l l1 l2 (S j)) by lia. reflexivity.
Qed.

Lemma levenshtein_matrix_correct str1 str2 :
  levenshtein_matrix str1 str2
  = table (chars str1) (chars str2) (String.length str2) (String.length str1).
Proof.
  unfold levenshtein_matrix. rewrite levenshtein_init_correct.
  set (l1 := chars str1). set (l2 := chars str2).
  assert (Hl1 : List.length l1 = String.length str1) by apply chars_length.
  assert (Hl2 : List.length l2 = String.length str2) by apply chars_length.
  pose proof (fold_left_seq_inv
    (fun k m => k <= S (String.length str2) ->
                m = table l1 l2 (k - 1) (String.length str1))
    (fun m i =>
       fold_left (levenshtein_cell str1 str2 i) (seq 1 (String.length str1)) m)
    (String.length str2) 1 (table l1 l2 0 (String.length str1))) as H.
  cbv beta in H.
  replace (1 + String.length str2 - 1) with (String.length str2) in H by lia.
  apply H; try lia; try reflexivity.
  intros k m Hk IH Hle. rewrite IH by lia. clear IH H m.
  destruct k as [|i]; [lia|]. simpl Nat.sub. rewrite Nat.sub_0_r.
  rewrite <- Hl1 at 2. rewrite table_next_row by lia.
  pose proof (fold_left_seq_inv
    (fun j m => j <= S (String.length str1) ->
                m = table l1 l2 (S i) (j - 1))
    (levenshtein_cell str1 str2 (S i)) (String.length str1) 1
    (table l1 l2 (S i) 0)) as H.
  cbv beta in H.
  replace (1 + String.length str1 - 1) with (String.length str1) in H by lia.
  apply H; try lia; try reflexivity.
  intros j m Hj IH Hle'. rewrite IH by lia.
  destruct j as [|j]; [lia|]. simpl Nat.sub. rewrite Nat.sub_0_r.
  apply levenshtein_cell_correct; lia.
Qed.

Lemma levenshteinDistance_lev str1 str2 :
  _levenshteinDistance str1 str2 = lev (chars str1) (chars str2).
Proof.
  unfold _levenshteinDistance. rewrite levenshtein_matrix_correct.
  unfold matrix_get. rewrite table_row, row_nth by lia.
  unfold entry. rewrite <- !chars_length, !firstn_all, lev_rev.
  apply lev_sym.
Qed.

(** ** Similarity *)

Lemma quotient_bounds (L n : Z) :
  (0 < L)%Z -> (0 <= n <= L)%Z ->
  (0 <= inject_Z n / inject_Z L)%Q /\ (inject_Z n / inject_Z L <= 1)%Q.
Proof.
  intros HL Hd. destruct L as [|p|p]; try lia.
  unfold Qle, Qdiv, Qmult, Qinv, inject_Z. simpl. split; lia.
Qed.

Lemma quotient_one (L : Z) :
  (0 < L)%Z -> (inject_Z L / inject_Z L == 1)%Q.
Proof.
  intros HL. destruct L as [|p|p]; try lia.
  unfold Qeq, Qdiv, Qmult, Qinv, inject_Z. simpl. lia.
Qed.

Lemma levenshteinDistance_le_longer str1 str2 :
  _levenshteinDistance str1 str2
  <= Nat.max (String.length str1) (String.length str2).
Proof.
  rewrite levenshteinDistance_lev, <- !chars_length. apply lev_le_max.
Qed.

Lemma levenshteinDistance_same str : _levenshteinDistance str str = 0.
Proof. rewrite levenshteinDistance_lev. apply lev_refl. Qed.

Lemma above_threshold_true q : above_threshold q = true <-> (8 # 10 < q)%Q.
Proof.
  unfold above_threshold. rewrite negb_true_iff.
  split.
  - intros H. apply Qnot_le_lt. intros Hle.
    apply Qle_bool_iff in Hle. congruence.
  - intros H. destruct (Qle_bool q (8 # 10)) eqn:E; [|reflexivity].
    apply Qle_bool_iff in E. apply Qlt_not_le in H. contradiction.
Qed.

Lemma above_threshold_false q : above_threshold q = false <-> (q <= 8 # 10)%Q.
Proof.
  unfold above_threshold. rewrite negb_false_iff. apply Qle_bool_iff.
Qed.

(** ** The scan of [_findClosestMatch] *)

Lemma closest_scan_skip nameLower pre rest :
  (forall e, In e pre -> passes nameLower e = false) ->
  closest_scan nameLower (pre ++ rest) = closest_scan nameLower rest.
Proof.
  induction pre as [|e pre IH]; intros H; [reflexivity|].
  simpl. pose proof (H e (or_introl eq_refl)) as He.
  unfold passes, contains_either in He. apply orb_false_iff in He.
  destruct He as [-> ->]. apply IH. intros e' He'. apply H. right. exact He'.
Qed.

Lemma closest_scan_hit nameLower registered rest :
  passes nameLower registered = true ->
  closest_scan nameLower (registered :: rest) = Some registered.
Proof.
  intros H. simpl. unfold passes, contains_either in H.
  destruct (Js.includes registered nameLower || Js.includes nameLower registered);
    [reflexivity|].
  simpl in H. rewrite H. reflexivity.
Qed.

Lemma closest_scan_miss nameLower registered rest :
  passes nameLower registered = false ->
  closest_scan nameLower (registered :: rest) = closest_scan nameLower rest.
Proof. intros H. apply (closest_scan_skip nameLower [registered]).
  intros e [<-|[]]. exact H.
Qed.

Lemma find_app_none {A} (f : A -> bool) l1 l2 :
  find f (l1 ++ l2) =
  match find f l1 with Some x => Some x | None => find f l2 end.
Proof.
  induction l1 as [|x l1 IH]; [reflexivity|]. simpl.
  destruct (f x); [reflexivity|exact IH].
Qed.

(** ** Lists updated in place *)

Lemma update_at_length {A} (f : A -> A) l : forall i,
  List.length (update_at i f l) = List.length l.
Proof.
  induction l as [|x l IH]; intros [|i]; simpl; auto.
Qed.

Lemma update_at_same {A} (f : A -> A) l : forall i,
  nth_error (update_at i f l) i = option_map f (nth_error l i).
Proof.
  induction l as [|x l IH]; intros [|i]; simpl; auto.
Qed.

Lemma update_at_other {A} (f : A -> A) l : forall i j,
  i <> j -> nth_error (update_at i f l) j = nth_error l j.
Proof.
  induction l as [|x l IH]; intros [|i] [|j] H; simpl; auto; try lia.
Qed.

Lemma update_at_app {A} (f : A -> A) l1 x l2 :
  update_at (List.length l1) f (l1 ++ x :: l2) = l1 ++ f x :: l2.
Proof. induction l1 as [|y l1 IH]; simpl; congruence. Qed.

Lemma firstn_succ_nth {A} (l : list A) : forall k x,
  nth_error l k = Some x -> firstn (S k) l = firstn k l ++ [x].
Proof.
  induction l as [|y l IH]; intros [|k] x H; simpl in *; try discriminate.
  - congruence.
  - f_equal. apply IH. exact H.
Qed.

Lemma skipn_nth {A} (l : list A) : forall k x,
  nth_error l k = Some x -> skipn k l = x :: skipn (S k) l.
Proof.
  induction l as [|y l IH]; intros [|k] x H; simpl in *; try discriminate.
  - congruence.
  - apply IH. exact H.
Qed.

Lemma nth_error_mid {A} (l1 : list A) l k :
  List.length l1 = k -> nth_error (l1 ++ skipn k l) k = nth_error l k.
Proof.
  intros <-. rewrite nth_error_app2, Nat.sub_diag by lia.
  destruct (nth_error l (List.length l1)) as [x|] eqn:E.
  - rewrite (skipn_nth _ _ _ E). reflexivity.
  - apply nth_error_None in E. rewrite skipn_all2 by lia. reflexivity.
Qed.

Lemma forEach_slot_inv (P : nat -> State -> Prop)
  (body : nat -> Slot -> State -> State) st :
  P 0 st ->
  (forall i st',
     i < List.length (schedule (data st)) -> P i st' ->
     P (S i)
       match nth_error (schedule (data st')) i with
       | Some slot => body i slot st'
       | None => st'
       end) ->
  P (List.length (schedule (data st))) (forEach_slot body st).
Proof.
  intros H0 Hstep. unfold forEach_slot.
  apply (fold_left_seq_inv P
    (fun st i =>
       match nth_error (schedule (data st)) i with
       | Some slot => body i slot st
       | None => st
       end) (List.length (schedule (data st))) 0 st H0).
  intros k s Hk. apply Hstep. lia.
Qed.

(** The part of a pass that has visited the first [k] slots: they are as
    [mark] leaves them, the others are untouched. *)
Lemma visited_step (mark : Slot -> Slot) (sched : list Slot) k slot :
  nth_error sched k = Some slot ->
  update_at k (fun _ => mark slot) (map mark (firstn k sched) ++ skipn k sched)
  = map mark (firstn (S k) sched) ++ skipn (S k) sched.
Proof.
  intros H.
  assert (Hk : k < List.length sched) by (apply nth_error_Some; congruence).
  rewrite (skipn_nth _ _ _ H), (firstn_succ_nth _ _ _ H), map_app.
  simpl. rewrite <- app_assoc. simpl.
  pose proof (update_at_app (fun _ => mark slot) (map mark (firstn k sched))
                slot (skipn (S k) sched)) as E.
  rewrite length_map, length_firstn, Nat.min_l in E by lia. exact E.
Qed.

Lemma visited_skip (mark : Slot -> Slot) (sched : list Slot) k slot :
  nth_error sched k = Some slot -> mark slot = slot ->
  map mark (firstn k sched) ++ skipn k sched
  = map mark (firstn (S k) sched) ++ skipn (S k) sched.
Proof.
  intros H Hm.
  rewrite (skipn_nth _ _ _ H), (firstn_succ_nth _ _ _ H), map_app.
  simpl. rewrite <- app_assoc, Hm. reflexivity.
Qed.

Lemma visited_nth (mark : Slot -> Slot) (sched : list Slot) k :
  nth_error (map mark (firstn k sched) ++ skipn k sched) k = nth_error sched k.
Proof.
  destruct (Nat.le_gt_cases (List.length sched) k) as [Hge|Hlt].
  - rewrite firstn_all2, skipn_all2, app_nil_r by lia.
    rewrite (proj2 (nth_error_None sched k) Hge).
    apply nth_error_None. rewrite length_map. exact Hge.
  - apply nth_error_mid. rewrite length_map, length_firstn. lia.
Qed.

Lemma update_at_ext {A} (f g : A -> A) l : forall i,
  (forall x, nth_error l i = Some x -> f x = g x) ->
  update_at i f l = update_at i g l.
Proof.
  induction l as [|x l IH]; intros [|i] H; simpl; auto.
  - rewrite (H x eq_refl). reflexivity.
  - f_equal. apply IH. exact H.
Qed.

(** ** The inactive-professional pass, slot by slot *)

Lemma check_inactive_eq professionals i slot st :
  check_inactive professionals i slot st =
  match inactive_professional_of professionals slot with
  | Some professional =>
      push_suggestedChange
        (mkChangeRecord "Profissional Inativo"
           ("Profissional " ++ quoted (prof_name professional) ++ " est"
            ++ code_unit 225 ++ " inativo")%string
           (location slot) (slot_id slot))
        (update_slot i set_hasValidationError
           (push_conflict
              (ProfissionalInativo (prof_name professional) (patientName slot)
                 (roomName slot) (dayTime_of slot) (slot_id slot)) st))
  | None => st
  end.
Proof.
  unfold check_inactive, inactive_professional_of.
  destruct (negb (isOccupied slot) || negb (Js.truthy (professionalId slot)));
    [reflexivity|].
  destruct (find _ professionals) as [professional|]; [|reflexivity].
  destruct (inactive professional); reflexivity.
Qed.

Lemma checkInactive_visited professionals st :
  let st' := _checkInactiveProfessionals st professionals in
  schedule (data st') = map (inactive_mark professionals) (schedule (data st))
  /\ conflicts (this st')
     = conflicts (this st)
       ++ flat_map (inactive_conflicts professionals) (schedule (data st))
  /\ newProfessionals (data st') = newProfessionals (data st)
  /\ validationErrors (this st') = validationErrors (this st)
  /\ autoCorrections (this st') = autoCorrections (this st).
Proof.
  set (sched := schedule (data st)).
  pose proof (forEach_slot_inv
    (fun k stk =>
       schedule (data stk)
       = map (inactive_mark professionals) (firstn k sched) ++ skipn k sched
       /\ conflicts (this stk)
          = conflicts (this st)
            ++ flat_map (inactive_conflicts professionals) (firstn k sched)
       /\ newProfessionals (data stk) = newProfessionals (data st)
       /\ validationErrors (this stk) = validationErrors (this st)
       /\ autoCorrections (this stk) = autoCorrections (this st))
    (check_inactive professionals) st) as H.
  fold sched in H. cbv beta in H.
  rewrite firstn_all, skipn_all in H.
  intros st'. rewrite <- (app_nil_r (map _ sched)).
  apply H; clear H.
  - simpl. rewrite app_nil_r. auto.
  - intros k stk Hk (Hs & Hc & Hn & Hv & Ha).
    rewrite Hs, visited_nth.
    destruct (nth_error sched k) as [slot|] eqn:Hslot;
      [|apply nth_error_None in Hslot; lia].
    rewrite (firstn_succ_nth _ _ _ Hslot), flat_map_app. simpl flat_map.
    rewrite app_nil_r, <- (firstn_succ_nth _ _ _ Hslot).
    rewrite check_inactive_eq.
    pose proof (visited_step (inactive_mark professionals) sched k slot Hslot)
      as Hstep.
    pose proof (visited_skip (inactive_mark professionals) sched k slot Hslot)
      as Hskip.
    unfold inactive_conflicts. unfold inactive_mark at 1 in Hstep.
    unfold inactive_mark at 1 in Hskip.
    destruct (inactive_professional_of professionals slot) as [professional|].
    2:{ rewrite app_nil_r, <- Hskip by reflexivity. auto. }
    cbn [push_suggestedChange push_conflict update_slot set_schedule
         schedule data conflicts this newProfessionals validationErrors
         autoCorrections].
    rewrite Hs, Hc, Hn, Hv, Ha, app_assoc.
    repeat split; try reflexivity.
    rewrite <- Hstep. apply update_at_ext.
    intros x Hx. rewrite visited_nth, Hslot in Hx. congruence.
Qed.

(** ** The existing-appointment pass, slot by slot *)

Lemma check_existing_eq appointments i slot st :
  check_existing appointments i slot st =
  match colliding_appointments appointments slot with
  | [] => st
  | conflictingAppointments =>
      push_suggestedChange
        (mkChangeRecord "Conflito com Agendamento"
           ("Profissional " ++ quoted (Js.show (professionalName slot)) ++ " j"
            ++ code_unit 225 ++ " tem agendamento com "
            ++ quoted (Js.join ", " (map client conflictingAppointments)))%string
           (location slot) (slot_id slot))
        (update_slot i set_hasScheduleConflict
           (push_conflict
              (ConflitoComAgendamentoExistente (professionalName slot)
                 (patientName slot) (roomName slot) (dayTime_of slot)
                 (map (fun apt => (apt_id apt, client apt, apt_type apt))
                    conflictingAppointments)
                 (slot_id slot)) st))
  end.
Proof.
  unfold check_existing, colliding_appointments.
  destruct (negb (isOccupied slot) || negb (Js.truthy (professionalId slot)));
    [reflexivity|].
  destruct (filter _ appointments); reflexivity.
Qed.

Lemma check_existing_visited appointments st :
  let st' := forEach_slot (check_existing appointments) st in
  schedule (data st') = map (existing_mark appointments) (schedule (data st))
  /\ conflicts (this st')
     = conflicts (this st)
       ++ flat_map (existing_conflicts appointments) (schedule (data st))
  /\ newProfessionals (data st') = newProfessionals (data st)
  /\ validationErrors (this st') = validationErrors (this st)
  /\ autoCorrections (this st') = autoCorrections (this st).
Proof.
  set (sched := schedule (data st)).
  pose proof (forEach_slot_inv
    (fun k stk =>
       schedule (data stk)
       = map (existing_mark appointments) (firstn k sched) ++ skipn k sched
       /\ conflicts (this stk)
          = conflicts (this st)
            ++ flat_map (existing_conflicts appointments) (firstn k sched)
       /\ newProfessionals (data stk) = newProfessionals (data st)
       /\ validationErrors (this stk) = validationErrors (this st)
       /\ autoCorrections (this stk) = autoCorrections (this st))
    (check_existing appointments) st) as H.
  fold sched in H. cbv beta in H.
  rewrite firstn_all, skipn_all in H.
  intros st'. rewrite <- (app_nil_r (map _ sched)).
  apply H; clear H.
  - simpl. rewrite app_nil_r. auto.
  - intros k stk Hk (Hs & Hc & Hn & Hv & Ha).
    rewrite Hs, visited_nth.
    destruct (nth_error sched k) as [slot|] eqn:Hslot;
      [|apply nth_error_None in Hslot; lia].
    rewrite (firstn_succ_nth _ _ _ Hslot), flat_map_app. simpl flat_map.
    rewrite app_nil_r, <- (firstn_succ_nth _ _ _ Hslot).
    rewrite check_existing_eq.
    pose proof (visited_step (existing_mark appointments) sched k slot Hslot)
      as Hstep.
    pose proof (visited_skip (existing_mark appointments) sched k slot Hslot)
      as Hskip.
    unfold existing_conflicts. unfold existing_mark at 1 in Hstep.
    unfold existing_mark at 1 in Hskip.
    destruct (colliding_appointments appointments slot) as [|apt others].
    { rewrite app_nil_r, <- Hskip by reflexivity. auto. }
    cbn [push_suggestedChange push_conflict update_slot set_schedule
         schedule data conflicts this newProfessionals validationErrors
         autoCorrections].
    rewrite Hs, Hc, Hn, Hv, Ha, app_assoc.
    repeat split; try reflexivity.
    rewrite <- Hstep. apply update_at_ext.
    intros x Hx. rewrite visited_nth, Hslot in Hx. congruence.
Qed.

(** ** The grouping loop *)

Lemma own_None obj key : own obj key = None <-> ~ In key (map fst obj).
Proof.
  induction obj as [|[k v] obj IH]; simpl; [tauto|].
  destruct (String.eqb_spec k key) as [->|Hne].
  - split; [discriminate|]. intros H. exfalso. apply H. left. reflexivity.
  - rewrite IH. split.
    + intros H [E|Hin]; [congruence|contradiction].
    + intros H Hin. apply H. right. exact Hin.
Qed.

Lemma own_Some_In obj key refs : own obj key = Some refs -> In (key, refs) obj.
Proof.
  induction obj as [|[k v] obj IH]; simpl; [discriminate|].
  destruct (String.eqb_spec k key) as [->|Hne].
  - intros E. inversion E. left. reflexivity.
  - intros E. right. apply IH, E.
Qed.

Lemma In_own obj key refs :
  NoDup (map fst obj) -> In (key, refs) obj -> own obj key = Some refs.
Proof.
  induction obj as [|[k v] obj IH]; simpl; intros Hnd Hin; [contradiction|].
  inversion Hnd as [|? ? Hk Hnd']; subst.
  destruct Hin as [E|Hin].
  - inversion E; subst. rewrite String.eqb_refl. reflexivity.
  - destruct (String.eqb_spec k key) as [->|Hne].
    + exfalso. apply Hk. apply (in_map fst) in Hin. exact Hin.
    + apply IH; assumption.
Qed.

Lemma push_own_keys obj key i : map fst (push_own obj key i) = map fst obj.
Proof.
  induction obj as [|[k v] obj IH]; simpl; [reflexivity|].
  destruct (String.eqb k key); simpl; congruence.
Qed.

Lemma push_own_In obj key i old k refs :
  NoDup (map fst obj) -> own obj key = Some old ->
  In (k, refs) (push_own obj key i) ->
  (k <> key /\ In (k, refs) obj) \/ (k = key /\ refs = old ++ [i]).
Proof.
  induction obj as [|[k0 v] obj IH]; simpl; intros Hnd Hown Hin;
    [contradiction|].
  inversion Hnd as [|? ? Hk0 Hnd']; subst.
  destruct (String.eqb_spec k0 key) as [->|Hne]; simpl in Hin.
  - inversion Hown; subst v. destruct Hin as [E|Hin].
    + inversion E; subst. right. split; reflexivity.
    + left. split; [|right; exact Hin].
      intros ->. apply Hk0. apply (in_map fst) in Hin. exact Hin.
  - destruct Hin as [E|Hin].
    + inversion E; subst. left. split; [exact Hne|left; reflexivity].
    + destruct (IH Hnd' Hown Hin) as [[Hk H]|[Hk H]].
      * left. split; [exact Hk|right; exact H].
      * right. split; assumption.
Qed.

Lemma members_succ key_of sched key n :
  members key_of sched key (S n)
  = members key_of sched key n
    ++ (if has_key key_of sched key n then [n] else []).
Proof.
  unfold members. rewrite (seq_S n 0), filter_app. reflexivity.
Qed.

Lemma members_nonempty key_of sched key n j :
  j < n -> has_key key_of sched key j = true ->
  In j (members key_of sched key n).
Proof.
  intros Hj H. unfold members. apply filter_In. split; [|exact H].
  apply in_seq. lia.
Qed.

(** One turn of the loop on a slot that has a key. *)
Lemma grouped_add key_of sched n obj key :
  grouped key_of sched n obj ->
  key_at key_of sched n = Some key ->
  match
    push_slot
      (if negb (get_truthy obj key) then assign_empty obj key else obj) key n
  with
  | Some obj' => grouped key_of sched (S n) obj' /\ Js.inherited key = false
  | None => Js.inherited key = true /\ own obj key = None
  end.
Proof.
  intros (Hnd & Hin & Hall) Hkey.
  assert (Hhas : has_key key_of sched key n = true).
  { unfold has_key. rewrite Hkey. apply String.eqb_refl. }
  assert (Hother : forall k, k <> key -> has_key key_of sched k n = false).
  { intros k Hk. unfold has_key. rewrite Hkey.
    apply String.eqb_neq. congruence. }
  unfold get_truthy, push_slot, assign_empty.
  destruct (own obj key) as [old|] eqn:Hown; simpl.
  - (* the key is an own property already *)
    rewrite Hown.
    pose proof (own_Some_In _ _ _ Hown) as Hold.
    destruct (Hin _ _ Hold) as (Hm & Hne & Hinh).
    split; [|exact Hinh]. split; [|split].
    + rewrite push_own_keys. exact Hnd.
    + intros k refs Hk.
      destruct (push_own_In _ _ _ _ _ _ Hnd Hown Hk) as [[Hne' H]|[-> ->]].
      * destruct (Hin _ _ H) as (-> & Hr & Hi). repeat split; auto.
        rewrite members_succ, (Hother k Hne'), app_nil_r. reflexivity.
      * repeat split; auto.
        -- rewrite members_succ, Hhas, Hm. reflexivity.
        -- intros E. apply app_eq_nil in E. destruct E; discriminate.
    + intros j k Hj Hk. rewrite push_own_keys.
      destruct (Nat.eq_dec j n) as [->|Hjn].
      * rewrite Hkey in Hk. inversion Hk; subst k.
        apply (in_map fst) in Hold. exact Hold.
      * apply (Hall j k); [lia|exact Hk].
  - destruct (Js.inherited key) eqn:Hinh; simpl.
    + (* an inherited property: the push fails *)
      rewrite Hown. auto.
    + (* a new own property *)
      assert (Hfresh : ~ In key (map fst obj)) by (apply own_None; exact Hown).
      assert (Hnew : own (obj ++ [(key, [])]) key = Some []).
      { clear - Hown. induction obj as [|[k v] obj IH]; simpl in *.
        - rewrite String.eqb_refl. reflexivity.
        - destruct (String.eqb k key); [discriminate|]. apply IH, Hown. }
      rewrite Hnew. split; [|reflexivity].
      assert (Hpush : push_own (obj ++ [(key, [])]) key n
                      = obj ++ [(key, [n])]).
      { clear - Hown. induction obj as [|[k v] obj IH]; simpl in *.
        - rewrite String.eqb_refl. reflexivity.
        - destruct (String.eqb k key); [discriminate|].
          rewrite IH by exact Hown. reflexivity. }
      rewrite Hpush. split; [|split].
      * rewrite map_app. simpl.
        apply NoDup_app; [exact Hnd|repeat constructor; simpl; tauto|].
        intros k Hk [<-|[]]. contradiction.
      * intros k refs Hk. apply in_app_or in Hk.
        destruct Hk as [Hk|[E|[]]].
        -- destruct (Hin _ _ Hk) as (-> & Hr & Hi). repeat split; auto.
           assert (Hne : k <> key).
           { intros ->. apply Hfresh. apply (in_map fst) in Hk. exact Hk. }
           rewrite members_succ, (Hother k Hne), app_nil_r. reflexivity.
        -- inversion E; subst k refs. repeat split; auto; [|discriminate].
           rewrite members_succ, Hhas.
           assert (Hempty : members key_of sched key n = []).
           { unfold members.
             destruct (filter (has_key key_of sched key) (seq 0 n))
               as [|j rest] eqn:Hf; [reflexivity|].
             exfalso. assert (Hj : In j (j :: rest)) by (left; reflexivity).
             rewrite <- Hf in Hj. apply filter_In in Hj.
             destruct Hj as [Hj1 Hj2]. apply in_seq in Hj1.
             unfold has_key in Hj2.
             destruct (key_at key_of sched j) as [k|] eqn:Hk; [|discriminate].
             apply String.eqb_eq in Hj2. subst k.
             apply Hfresh. apply (Hall j key); [lia|exact Hk]. }
           rewrite Hempty. reflexivity.
      * intros j k Hj Hk. rewrite map_app. apply in_or_app.
        destruct (Nat.eq_dec j n) as [->|Hjn].
        -- rewrite Hkey in Hk. inversion Hk. right. left. reflexivity.
        -- left. apply (Hall j k); [lia|exact Hk].
Qed.

Lemma skipn_cons_nth {A} (l : list A) : forall i x rest,
  skipn i l = x :: rest -> nth_error l i = Some x /\ skipn (S i) l = rest.
Proof.
  induction l as [|y l IH]; intros [|i] x rest H; simpl in *;
    try discriminate.
  - inversion H. auto.
  - apply IH. exact H.
Qed.

Lemma filter_none {A} (f : A -> bool) l :
  (forall x, In x l -> f x = false) -> filter f l = [].
Proof.
  induction l as [|x l IH]; intros H; [reflexivity|]. simpl.
  rewrite (H x (or_introl eq_refl)). apply IH.
  intros y Hy. apply H. right. exact Hy.
Qed.

Lemma grouped_pass key_of sched n obj :
  grouped key_of sched n obj ->
  key_at key_of sched n = None ->
  grouped key_of sched (S n) obj.
Proof.
  intros (Hnd & Hin & Hall) Hkey. split; [exact Hnd|split].
  - intros key refs Hk. destruct (Hin _ _ Hk) as (-> & Hr & Hi).
    repeat split; auto. rewrite members_succ. unfold has_key.
    rewrite Hkey, app_nil_r. reflexivity.
  - intros j key Hj Hk. destruct (Nat.eq_dec j n) as [->|Hjn].
    + congruence.
    + apply (Hall j key); [lia|exact Hk].
Qed.

(** The loop as a whole: either it ends with every slot in the group of its
    key, or some key is an inherited property name and the push throws. *)
Lemma group_from_grouped key_of sched : forall rest i obj,
  skipn i sched = rest ->
  grouped key_of sched i obj ->
  match group_from key_of rest i obj with
  | Some obj' => grouped key_of sched (List.length sched) obj'
  | None =>
      exists j key,
        j < List.length sched /\ key_at key_of sched j = Some key
        /\ Js.inherited key = true
  end.
Proof.
  induction rest as [|slot rest IH]; intros i obj Hskip Hg.
  - simpl.
    assert (Hi : List.length sched <= i).
    { destruct (Nat.le_gt_cases (List.length sched) i) as [H|H]; [exact H|].
      exfalso. apply (f_equal (@List.length Slot)) in Hskip.
      rewrite length_skipn in Hskip. simpl in Hskip. lia. }
    destruct Hg as (Hnd & Hin & Hall). split; [exact Hnd|split].
    + intros key refs Hk. destruct (Hin _ _ Hk) as (-> & Hr & Hi').
      repeat split; auto. unfold members.
      replace i with (List.length sched + (i - List.length sched)) by lia.
      rewrite seq_app, filter_app.
      assert (E : filter (has_key key_of sched key)
                    (seq (0 + List.length sched) (i - List.length sched)) = []).
      { apply filter_none. intros j Hj. apply in_seq in Hj.
        unfold has_key, key_at.
        rewrite (proj2 (nth_error_None sched j)) by lia. reflexivity. }
      rewrite E, app_nil_r. reflexivity.
    + intros j key Hj Hk. apply (Hall j key); [lia|exact Hk].
  - destruct (skipn_cons_nth _ _ _ _ Hskip) as [Hnth Hskip'].
    assert (Hkey : key_at key_of sched i = key_of slot).
    { unfold key_at. rewrite Hnth. reflexivity. }
    assert (Hi : i < List.length sched)
      by (apply nth_error_Some; congruence).
    simpl. destruct (key_of slot) as [key|] eqn:Hk.
    + pose proof (grouped_add key_of sched i obj key Hg Hkey) as Hadd.
      destruct (push_slot _ key i) as [obj'|].
      * apply IH; [exact Hskip'|apply Hadd].
      * exists i, key. repeat split; [exact Hi|exact Hkey|apply Hadd].
    + apply IH; [exact Hskip'|]. apply grouped_pass; assumption.
Qed.

Lemma grouped_start key_of sched : grouped key_of sched 0 [].
Proof.
  split; [constructor|split].
  - intros key refs [].
  - intros j key Hj. lia.
Qed.

Lemma group_slots_grouped key_of sched :
  match group_slots key_of sched with
  | Some obj => grouped key_of sched (List.length sched) obj
  | None =>
      exists j key,
        j < List.length sched /\ key_at key_of sched j = Some key
        /\ Js.inherited key = true
  end.
Proof.
  apply (group_from_grouped key_of sched sched 0 []);
    [reflexivity|apply grouped_start].
Qed.

(** The positions in a group are positions of the schedule, all different,
    and their slots have the key of the group. *)
Lemma members_spec key_of sched key n j :
  In j (members key_of sched key n) <->
  j < n /\ key_at key_of sched j = Some key.
Proof.
  unfold members. rewrite filter_In, in_seq. unfold has_key.
  destruct (key_at key_of sched j) as [k|].
  - rewrite String.eqb_eq. split.
    + intros [H ->]. split; [lia|reflexivity].
    + intros [H E]. inversion E. split; [lia|reflexivity].
  - split; [intros [_ H]; discriminate|intros [_ H]; discriminate].
Qed.

Lemma members_NoDup key_of sched key n :
  NoDup (members key_of sched key n).
Proof. unfold members. apply NoDup_filter, seq_NoDup. Qed.

Lemma key_at_Some key_of sched j key :
  key_at key_of sched j = Some key ->
  exists slot, nth_error sched j = Some slot /\ key_of slot = Some key.
Proof.
  unfold key_at. destruct (nth_error sched j) as [slot|]; [|discriminate].
  intros H. exists slot. auto.
Qed.

(** ** What the detection passes may change *)

Lemma slot_marks_refl s : slot_marks s s.
Proof. unfold slot_marks. tauto. Qed.

Lemma slot_marks_trans s1 s2 s3 :
  slot_marks s1 s2 -> slot_marks s2 s3 -> slot_marks s1 s3.
Proof.
  unfold slot_marks.
  intros (A1 & A2 & A3 & A4 & A5 & A6 & A7 & A8 & A9 & A10 & A11 & A12 & A13)
         (B1 & B2 & B3 & B4 & B5 & B6 & B7 & B8 & B9 & B10 & B11 & B12 & B13).
  repeat split; try congruence; auto.
  intros H. rewrite B13, A13; auto. rewrite A13; auto.
Qed.

Lemma Forall2_refl {A} (R : A -> A -> Prop) l :
  (forall x, R x x) -> Forall2 R l l.
Proof. intros H. induction l; constructor; auto. Qed.

Lemma Forall2_trans {A} (R : A -> A -> Prop) :
  (forall x y z, R x y -> R y z -> R x z) ->
  forall l1 l2 l3, Forall2 R l1 l2 -> Forall2 R l2 l3 -> Forall2 R l1 l3.
Proof.
  intros HR l1 l2 l3 H12. revert l3.
  induction H12 as [|x y l1 l2 Hxy _ IH]; intros l3 H23;
    inversion H23; subst; constructor; eauto.
Qed.

Lemma Forall2_nth {A} (R : A -> A -> Prop) l1 l2 :
  Forall2 R l1 l2 ->
  forall i x, nth_error l1 i = Some x ->
  exists y, nth_error l2 i = Some y /\ R x y.
Proof.
  induction 1 as [|x y l1 l2 Hxy _ IH]; intros [|i] z Hz; simpl in *;
    try discriminate.
  - inversion Hz; subst. eauto.
  - apply IH. exact Hz.
Qed.

Lemma Forall2_nth_r {A} (R : A -> A -> Prop) l1 l2 :
  Forall2 R l1 l2 ->
  forall i y, nth_error l2 i = Some y ->
  exists x, nth_error l1 i = Some x /\ R x y.
Proof.
  induction 1 as [|x y l1 l2 Hxy _ IH]; intros [|i] z Hz; simpl in *;
    try discriminate.
  - inversion Hz; subst. eauto.
  - apply IH. exact Hz.
Qed.

Lemma Forall2_update_at {A} (R : A -> A -> Prop) (f : A -> A) l i :
  (forall x, R x x) ->
  (forall x, nth_error l i = Some x -> R x (f x)) ->
  Forall2 R l (update_at i f l).
Proof.
  intros Hrefl. revert i. induction l as [|x l IH]; intros [|i] H; simpl.
  - constructor.
  - constructor.
  - constructor; [apply H; reflexivity|apply Forall2_refl, Hrefl].
  - constructor; [apply Hrefl|apply IH, H].
Qed.

Lemma occupied_ids_marks l l' :
  Forall2 slot_marks l l' -> occupied_ids l' = occupied_ids l.
Proof.
  unfold occupied_ids. induction 1 as [|x y l l' Hxy _ IH]; [reflexivity|].
  simpl. destruct Hxy as (H1 & _ & _ & _ & _ & H6 & _).
  rewrite H6. destruct (isOccupied x); simpl; congruence.
Qed.

Lemma marks_refl st : marks st st.
Proof.
  constructor; try reflexivity.
  - apply Forall2_refl, slot_marks_refl.
  - exists []. rewrite app_nil_r. auto.
  - exists []. rewrite app_nil_r. auto.
Qed.

Lemma marks_trans st1 st2 st3 : marks st1 st2 -> marks st2 st3 -> marks st1 st3.
Proof.
  intros [S1 N1 V1 A1 (c1 & C1 & F1) (g1 & G1 & H1)]
         [S2 N2 V2 A2 (c2 & C2 & F2) (g2 & G2 & H2)].
  pose proof (occupied_ids_marks _ _ S1) as Hocc.
  constructor; try congruence.
  - apply (Forall2_trans _ slot_marks_trans _ _ _ S1 S2).
  - exists (c1 ++ c2). rewrite C2, C1, app_assoc. split; [reflexivity|].
    apply Forall_app. split; [exact F1|]. rewrite <- Hocc. exact F2.
  - exists (g1 ++ g2). rewrite G2, G1, app_assoc. split; [reflexivity|].
    apply Forall_app. split; [exact H1|]. rewrite <- Hocc. exact H2.
Qed.

Lemma marks_fold {X} (f : State -> X -> State) (l : list X) :
  forall st,
    (forall st' x, In x l -> marks st st' -> marks st' (f st' x)) ->
    marks st (fold_left f l st).
Proof.
  induction l as [|x l IH]; intros st H; simpl; [apply marks_refl|].
  assert (H1 : marks st (f st x))
    by (apply H; [left; reflexivity|apply marks_refl]).
  apply (marks_trans _ _ _ H1). apply IH.
  intros st' y Hy Hm. apply H; [right; exact Hy|].
  apply (marks_trans _ _ _ H1 Hm).
Qed.

Lemma occupied_id_In sched i slot :
  nth_error sched i = Some slot -> isOccupied slot = true ->
  In (slot_id slot) (occupied_ids sched).
Proof.
  intros Hn Ho. unfold occupied_ids. apply in_map, filter_In.
  split; [apply (nth_error_In _ _ Hn)|exact Ho].
Qed.

Lemma marks_flag_conflict st i :
  (forall slot, nth_error (schedule (data st)) i = Some slot ->
                isOccupied slot = true) ->
  marks st (update_slot i set_hasScheduleConflict st).
Proof.
  intros H. constructor; try reflexivity.
  - simpl. apply Forall2_update_at; [apply slot_marks_refl|].
    intros x Hx. specialize (H x Hx). unfold slot_marks. simpl.
    repeat split; auto. congruence.
  - exists []. simpl. rewrite app_nil_r. auto.
  - exists []. simpl. rewrite app_nil_r. auto.
Qed.

Lemma marks_flag_error st i :
  (forall slot, nth_error (schedule (data st)) i = Some slot ->
                isOccupied slot = true) ->
  marks st (update_slot i set_hasValidationError st).
Proof.
  intros H. constructor; try reflexivity.
  - simpl. apply Forall2_update_at; [apply slot_marks_refl|].
    intros x Hx. specialize (H x Hx). unfold slot_marks. simpl.
    repeat split; auto. congruence.
  - exists []. simpl. rewrite app_nil_r. auto.
  - exists []. simpl. rewrite app_nil_r. auto.
Qed.

Lemma marks_push_conflict st c :
  incl (conflict_slot_ids c) (occupied_ids (schedule (data st))) ->
  marks st (push_conflict c st).
Proof.
  intros H. constructor; try reflexivity.
  - apply Forall2_refl, slot_marks_refl.
  - exists [c]. simpl. auto.
  - exists []. simpl. rewrite app_nil_r. auto.
Qed.

Lemma marks_push_change st c :
  In (ch_slotId c) (occupied_ids (schedule (data st))) ->
  marks st (push_suggestedChange c st).
Proof.
  intros H. constructor; try reflexivity.
  - apply Forall2_refl, slot_marks_refl.
  - exists []. simpl. rewrite app_nil_r. auto.
  - exists [c]. simpl. auto.
Qed.

(** ** Reporting the groups *)

Lemma marks_occupied_at st st' j :
  marks st st' ->
  occupied_at (schedule (data st)) j -> occupied_at (schedule (data st')) j.
Proof.
  intros Hm Ho slot' Hs'.
  destruct (Forall2_nth_r _ _ _ (marks_schedule _ _ Hm) _ _ Hs')
    as (slot & Hs & Hr).
  destruct Hr as (_ & _ & _ & _ & _ & H6 & _). rewrite H6. apply (Ho _ Hs).
Qed.

Lemma marks_flagged st st' j : marks st st' -> flagged st j -> flagged st' j.
Proof.
  intros Hm (slot & Hs & Hf).
  destruct (Forall2_nth _ _ _ (marks_schedule _ _ Hm) _ _ Hs)
    as (slot' & Hs' & Hr).
  exists slot'. split; [exact Hs'|]. apply Hr. exact Hf.
Qed.

Lemma marks_conflict_In st st' c :
  marks st st' -> In c (conflicts (this st)) -> In c (conflicts (this st')).
Proof.
  intros Hm Hc. destruct (marks_conflicts _ _ Hm) as (new & -> & _).
  apply in_or_app. left. exact Hc.
Qed.

Lemma marks_length st st' :
  marks st st' ->
  List.length (schedule (data st')) = List.length (schedule (data st)).
Proof.
  intros Hm. symmetry. apply (Forall2_length (marks_schedule _ _ Hm)).
Qed.

Lemma flag_step_marks change st i slot :
  (forall slot, ch_slotId (change slot) = slot_id slot) ->
  nth_error (schedule (data st)) i = Some slot ->
  isOccupied slot = true ->
  let st' :=
    push_suggestedChange (change slot)
      (update_slot i set_hasScheduleConflict st) in
  marks st st' /\ conflicts (this st') = conflicts (this st) /\ flagged st' i.
Proof.
  intros Hid Hs Ho st'. subst st'.
  assert (Hm : marks st (update_slot i set_hasScheduleConflict st)).
  { apply marks_flag_conflict. intros slot' Hs'. congruence. }
  split; [|split].
  - apply (marks_trans _ _ _ Hm).
    apply marks_push_change. rewrite Hid.
    rewrite (occupied_ids_marks _ _ (marks_schedule _ _ Hm)).
    apply (occupied_id_In _ i); assumption.
  - reflexivity.
  - exists (set_hasScheduleConflict slot). simpl.
    rewrite update_at_same, Hs. auto.
Qed.

Lemma flag_loop_cons change i refs st :
  flag_loop change (i :: refs) st =
  flag_loop change refs
    match nth_error (schedule (data st)) i with
    | Some slot =>
        push_suggestedChange (change slot)
          (update_slot i set_hasScheduleConflict st)
    | None => st
    end.
Proof. reflexivity. Qed.

Lemma flag_loop_spec change :
  (forall slot, ch_slotId (change slot) = slot_id slot) ->
  forall refs st,
    (forall j, In j refs -> occupied_at (schedule (data st)) j) ->
    marks st (flag_loop change refs st)
    /\ conflicts (this (flag_loop change refs st)) = conflicts (this st)
    /\ (forall j, In j refs -> j < List.length (schedule (data st)) ->
        flagged (flag_loop change refs st) j).
Proof.
  intros Hid. induction refs as [|i refs IH]; intros st Hocc.
  - simpl. split; [apply marks_refl|]. split; [reflexivity|].
    intros j [].
  - rewrite flag_loop_cons.
    destruct (nth_error (schedule (data st)) i) as [slot|] eqn:Hs.
    + assert (Ho : isOccupied slot = true)
        by (apply (Hocc i (or_introl eq_refl)), Hs).
      destruct (flag_step_marks change st i slot Hid Hs Ho) as (M1 & C1 & F1).
      set (st1 := push_suggestedChange (change slot)
                    (update_slot i set_hasScheduleConflict st)) in *.
      destruct (IH st1) as (M2 & C2 & F2).
      { intros j Hj. apply (marks_occupied_at _ _ _ M1).
        apply Hocc. right. exact Hj. }
      split; [apply (marks_trans _ _ _ M1 M2)|].
      split; [congruence|].
      intros j [<-|Hj] Hlt.
      * apply (marks_flagged _ _ _ M2 F1).
      * apply F2; [exact Hj|]. rewrite (marks_length _ _ M1). exact Hlt.
    + destruct (IH st) as (M2 & C2 & F2).
      { intros j Hj. apply Hocc. right. exact Hj. }
      split; [exact M2|]. split; [exact C2|].
      intros j [<-|Hj] Hlt.
      * apply nth_error_None in Hs. lia.
      * apply F2; assumption.
Qed.

Lemma deref_ids_marks sched sched' refs :
  Forall2 slot_marks sched sched' ->
  map slot_id (deref sched' refs) = map slot_id (deref sched refs).
Proof.
  intros H. unfold deref. induction refs as [|i refs IH]; [reflexivity|].
  simpl. rewrite !map_app, IH. f_equal.
  destruct (nth_error sched i) as [s|] eqn:E.
  - destruct (Forall2_nth _ _ _ H _ _ E) as (s' & -> & Hr).
    simpl. f_equal. apply Hr.
  - rewrite (proj2 (nth_error_None sched' i)); [reflexivity|].
    rewrite <- (Forall2_length H). apply nth_error_None. exact E.
Qed.

Lemma deref_length sched refs :
  (forall j, In j refs -> j < List.length sched) ->
  List.length (deref sched refs) = List.length refs.
Proof.
  unfold deref. induction refs as [|i refs IH]; intros H; [reflexivity|].
  simpl. rewrite length_app, IH by (intros j Hj; apply H; right; exact Hj).
  destruct (nth_error sched i) eqn:E; [reflexivity|].
  apply nth_error_None in E. specialize (H i (or_introl eq_refl)). lia.
Qed.

Lemma deref_In sched refs slot :
  In slot (deref sched refs) <->
  exists j, In j refs /\ nth_error sched j = Some slot.
Proof.
  unfold deref. rewrite in_flat_map. split.
  - intros (j & Hj & Hs). exists j. split; [exact Hj|].
    destruct (nth_error sched j); [|contradiction].
    destruct Hs as [->|[]]. reflexivity.
  - intros (j & Hj & Hs). exists j. split; [exact Hj|].
    rewrite Hs. left. reflexivity.
Qed.

Lemma deref_ids_occupied sched refs :
  (forall j, In j refs -> occupied_at sched j) ->
  incl (map slot_id (deref sched refs)) (occupied_ids sched).
Proof.
  intros H id Hid. apply in_map_iff in Hid. destruct Hid as (slot & <- & Hs).
  apply deref_In in Hs. destruct Hs as (j & Hj & Hs).
  apply (occupied_id_In _ j); [exact Hs|]. apply (H j Hj), Hs.
Qed.

Lemma valid_refs_marks st st' refs :
  marks st st' ->
  valid_refs (schedule (data st)) refs -> valid_refs (schedule (data st')) refs.
Proof.
  intros Hm Hv j Hj. destruct (Hv j Hj) as [H1 H2]. split.
  - rewrite (marks_length _ _ Hm). exact H1.
  - apply (marks_occupied_at _ _ _ Hm H2).
Qed.

Section Reports.

(** The body of a [for (const key in ...)] loop, and the kind of conflict
    it records. *)
Variable report : State -> string * list nat -> State.
Variable kind : Conflict -> Prop.

Hypothesis report_spec : forall st key refs,
  valid_refs (schedule (data st)) refs ->
  marks st (report st (key, refs))
  /\ if 1 <? List.length refs then
       (exists c,
          conflicts (this (report st (key, refs)))
          = conflicts (this st) ++ [c]
          /\ kind c
          /\ conflict_slot_ids c
             = map slot_id (deref (schedule (data st)) refs))
       /\ forall j, In j refs -> flagged (report st (key, refs)) j
     else report st (key, refs) = st.

Lemma report_fold : forall obj st,
  (forall key refs, In (key, refs) obj ->
                    valid_refs (schedule (data st)) refs) ->
  marks st (fold_left report obj st)
  /\ (exists news,
        conflicts (this (fold_left report obj st))
        = conflicts (this st) ++ news
        /\ Forall
             (fun c =>
                kind c
                /\ exists key refs,
                     In (key, refs) obj /\ 1 < List.length refs
                     /\ conflict_slot_ids c
                        = map slot_id (deref (schedule (data st)) refs))
             news)
  /\ (forall key refs,
        In (key, refs) obj -> 1 < List.length refs ->
        (exists c,
           In c (conflicts (this (fold_left report obj st))) /\ kind c
           /\ conflict_slot_ids c
              = map slot_id (deref (schedule (data st)) refs))
        /\ forall j, In j refs -> flagged (fold_left report obj st) j).
Proof.
  induction obj as [|[key0 refs0] obj IH]; intros st Hvalid.
  - simpl. split; [apply marks_refl|]. split.
    + exists []. rewrite app_nil_r. auto.
    + intros key refs [].
  - simpl fold_left.
    destruct (report_spec st key0 refs0
                (Hvalid key0 refs0 (or_introl eq_refl))) as [M1 R1].
    set (st1 := report st (key0, refs0)) in *.
    destruct (IH st1) as (M2 & (news2 & C2 & F2) & G2).
    { intros key refs Hin. apply (valid_refs_marks _ _ _ M1).
      apply (Hvalid key refs). right. exact Hin. }
    pose proof (fun refs =>
                  deref_ids_marks _ _ refs (marks_schedule _ _ M1)) as Hids.
    split; [apply (marks_trans _ _ _ M1 M2)|]. split.
    + destruct (1 <? List.length refs0) eqn:Hbig.
      * destruct R1 as [(c & C1 & K1 & I1) _].
        exists (c :: news2). rewrite C2, C1, <- app_assoc.
        split; [reflexivity|]. constructor.
        -- split; [exact K1|]. exists key0, refs0.
           apply Nat.ltb_lt in Hbig. auto with datatypes.
        -- refine (Forall_impl _ _ F2).
           intros c' (K & key & refs & Hin & Hlen & Hc).
           split; [exact K|]. exists key, refs.
           rewrite <- Hids. auto with datatypes.
      * exists news2. rewrite C2, R1. split; [reflexivity|].
        refine (Forall_impl _ _ F2).
        intros c' (K & key & refs & Hin & Hlen & Hc).
        split; [exact K|]. exists key, refs.
        rewrite <- Hids. auto with datatypes.
    + intros key refs [E|Hin] Hlen.
      * inversion E; subst key0 refs0.
        apply Nat.ltb_lt in Hlen. rewrite Hlen in R1.
        destruct R1 as [(c & C1 & K1 & I1) F1]. split.
        -- exists c. split; [|auto].
           apply (marks_conflict_In _ _ _ M2). rewrite C1.
           apply in_or_app. right. left. reflexivity.
        -- intros j Hj. apply (marks_flagged _ _ _ M2), F1, Hj.
      * destruct (G2 key refs Hin Hlen) as [(c & Hc & K & I) Fl].
        split; [|exact Fl]. exists c. rewrite <- Hids. auto.
Qed.

End Reports.

Lemma report_double_booking_spec st key refs :
  valid_refs (schedule (data st)) refs ->
  marks st (report_double_booking st (key, refs))
  /\ if 1 <? List.length refs then
       (exists c,
          conflicts (this (report_double_booking st (key, refs)))
          = conflicts (this st) ++ [c]
          /\ is_double_booking c
          /\ conflict_slot_ids c
             = map slot_id (deref (schedule (data st)) refs))
       /\ forall j, In j refs -> flagged (report_double_booking st (key, refs)) j
     else report_double_booking st (key, refs) = st.
Proof.
  intros Hvalid. unfold report_double_booking. simpl snd.
  destruct (1 <? List.length refs) eqn:Hbig;
    [|split; [apply marks_refl|reflexivity]].
  apply Nat.ltb_lt in Hbig.
  pose proof (deref_length (schedule (data st)) refs
                (fun j Hj => proj1 (Hvalid j Hj))) as Hlen.
  destruct (deref (schedule (data st)) refs) as [|first others] eqn:Hd;
    [simpl in Hlen; lia|].
  set (c := ProfissionalEmMultiplasSalas (professionalName first)
              (Js.join ", " (map roomName (first :: others)))
              (dayTime_of first) (map slot_id (first :: others))).
  set (st1 := push_conflict c st).
  assert (M1 : marks st st1).
  { apply marks_push_conflict.
    change (conflict_slot_ids c) with (map slot_id (first :: others)).
    rewrite <- Hd.
    apply deref_ids_occupied. intros j Hj. apply (Hvalid j Hj). }
  match goal with
  | |- context [fold_left ?f refs st1] =>
      change (fold_left f refs st1)
        with (flag_loop
                (fun slot =>
                   mkChangeRecord ("Conflito de " ++ Horario)%string
                     ("Profissional "
                      ++ quoted (Js.show (professionalName first))
                      ++ " agendado em m" ++ code_unit 250
                      ++ "ltiplas salas: "
                      ++ Js.join ", " (map roomName (first :: others)))%string
                     (dayTime_of first) (slot_id slot))
                refs st1)
  end.
  match goal with
  | |- context [flag_loop ?ch refs st1] =>
      destruct (flag_loop_spec ch (fun _ => eq_refl) refs st1)
        as (M2 & C2 & F2)
  end.
  { intros j Hj. apply (Hvalid j Hj). }
  split; [apply (marks_trans _ _ _ M1 M2)|]. split.
  - exists c. rewrite C2. repeat split; reflexivity.
  - intros j Hj. apply F2; [exact Hj|]. apply (Hvalid j Hj).
Qed.

Lemma report_duplicate_room_spec st key refs :
  valid_refs (schedule (data st)) refs ->
  marks st (report_duplicate_room st (key, refs))
  /\ if 1 <? List.length refs then
       (exists c,
          conflicts (this (report_duplicate_room st (key, refs)))
          = conflicts (this st) ++ [c]
          /\ is_duplicate_room c
          /\ conflict_slot_ids c
             = map slot_id (deref (schedule (data st)) refs))
       /\ forall j, In j refs -> flagged (report_duplicate_room st (key, refs)) j
     else report_duplicate_room st (key, refs) = st.
Proof.
  intros Hvalid. unfold report_duplicate_room. simpl snd.
  destruct (1 <? List.length refs) eqn:Hbig;
    [|split; [apply marks_refl|reflexivity]].
  apply Nat.ltb_lt in Hbig.
  pose proof (deref_length (schedule (data st)) refs
                (fun j Hj => proj1 (Hvalid j Hj))) as Hlen.
  destruct (deref (schedule (data st)) refs) as [|first others] eqn:Hd;
    [simpl in Hlen; lia|].
  set (c := SalaComMultiplosAgendamentos (roomName first) (dayTime_of first)
              (Js.join ", " (filter_Boolean (map patientName (first :: others))))
              (Js.join ", "
                 (filter_Boolean (map professionalName (first :: others))))
              (map slot_id (first :: others))).
  set (st1 := push_conflict c st).
  assert (M1 : marks st st1).
  { apply marks_push_conflict.
    change (conflict_slot_ids c) with (map slot_id (first :: others)).
    rewrite <- Hd.
    apply deref_ids_occupied. intros j Hj. apply (Hvalid j Hj). }
  match goal with
  | |- context [fold_left ?f refs st1] =>
      change (fold_left f refs st1)
        with (flag_loop
                (fun slot =>
                   mkChangeRecord "Sala Duplicada"
                     ("Sala " ++ quoted (roomName first) ++ " com m"
                      ++ code_unit 250
                      ++ "ltiplos agendamentos no mesmo hor" ++ code_unit 225
                      ++ "rio")%string
                     (dayTime_of first) (slot_id slot))
                refs st1)
  end.
  match goal with
  | |- context [flag_loop ?ch refs st1] =>
      destruct (flag_loop_spec ch (fun _ => eq_refl) refs st1)
        as (M2 & C2 & F2)
  end.
  { intros j Hj. apply (Hvalid j Hj). }
  split; [apply (marks_trans _ _ _ M1 M2)|]. split.
  - exists c. rewrite C2. repeat split; reflexivity.
  - intros j Hj. apply F2; [exact Hj|]. apply (Hvalid j Hj).
Qed.

(** ** The detection passes as wholes *)

Lemma forEach_slot_marks body st :
  (forall i slot st',
     nth_error (schedule (data st')) i = Some slot ->
     marks st' (body i slot st')) ->
  marks st (forEach_slot body st).
Proof.
  intros H.
  apply (forEach_slot_inv (fun _ stk => marks st stk) body st).
  - apply marks_refl.
  - intros i st' _ Hm.
    destruct (nth_error (schedule (data st')) i) as [slot|] eqn:Hs;
      [|exact Hm].
    apply (marks_trans _ _ _ Hm). apply H. exact Hs.
Qed.

Lemma colliding_occupied appointments slot :
  colliding_appointments appointments slot <> [] -> isOccupied slot = true.
Proof.
  unfold colliding_appointments. destruct (isOccupied slot); simpl; auto.
Qed.

Lemma inactive_occupied professionals slot p :
  inactive_professional_of professionals slot = Some p ->
  isOccupied slot = true.
Proof.
  unfold inactive_professional_of. destruct (isOccupied slot); simpl; auto.
  discriminate.
Qed.

Lemma flag_error_step_marks change st i slot :
  (forall slot, ch_slotId (change slot) = slot_id slot) ->
  nth_error (schedule (data st)) i = Some slot ->
  isOccupied slot = true ->
  marks st
    (push_suggestedChange (change slot)
       (update_slot i set_hasValidationError st)).
Proof.
  intros Hid Hs Ho.
  assert (Hm : marks st (update_slot i set_hasValidationError st)).
  { apply marks_flag_error. intros slot' Hs'. congruence. }
  apply (marks_trans _ _ _ Hm).
  apply marks_push_change. rewrite Hid.
  rewrite (occupied_ids_marks _ _ (marks_schedule _ _ Hm)).
  apply (occupied_id_In _ i); assumption.
Qed.

Lemma check_existing_marks appointments i slot st :
  nth_error (schedule (data st)) i = Some slot ->
  marks st (check_existing appointments i slot st).
Proof.
  intros Hs. rewrite check_existing_eq.
  destruct (colliding_appointments appointments slot) as [|apt others] eqn:Hc;
    [apply marks_refl|].
  assert (Ho : isOccupied slot = true)
    by (apply (colliding_occupied appointments); congruence).
  cbv zeta.
  match goal with
  | |- marks st (push_suggestedChange ?r (update_slot i _ (push_conflict ?c st))) =>
      assert (M1 : marks st (push_conflict c st))
  end.
  { apply marks_push_conflict. intros id [<-|[]].
    apply (occupied_id_In _ i); assumption. }
  apply (marks_trans _ _ _ M1).
  match goal with
  | |- marks ?s (push_suggestedChange (mkChangeRecord ?a ?b ?c (slot_id slot)) _) =>
      apply (flag_step_marks (fun sl => mkChangeRecord a b c (slot_id sl)) s i slot
               (fun _ => eq_refl))
  end; assumption.
Qed.

Lemma check_inactive_marks professionals i slot st :
  nth_error (schedule (data st)) i = Some slot ->
  marks st (check_inactive professionals i slot st).
Proof.
  intros Hs. rewrite check_inactive_eq.
  destruct (inactive_professional_of professionals slot) as [p|] eqn:Hp;
    [|apply marks_refl].
  assert (Ho : isOccupied slot = true)
    by (apply (inactive_occupied professionals slot p Hp)).
  match goal with
  | |- marks st (push_suggestedChange ?r (update_slot i _ (push_conflict ?c st))) =>
      assert (M1 : marks st (push_conflict c st))
  end.
  { apply marks_push_conflict. intros id [<-|[]].
    apply (occupied_id_In _ i); assumption. }
  apply (marks_trans _ _ _ M1).
  match goal with
  | |- marks ?s (push_suggestedChange (mkChangeRecord ?a ?b ?c (slot_id slot)) _) =>
      apply (flag_error_step_marks
               (fun sl => mkChangeRecord a b c (slot_id sl)) s i slot
               (fun _ => eq_refl))
  end; assumption.
Qed.

Lemma checkInactive_marks st professionals :
  marks st (_checkInactiveProfessionals st professionals).
Proof.
  apply forEach_slot_marks. intros i slot st'.
  apply check_inactive_marks.
Qed.

Lemma profDayTime_key_occupied slot key :
  profDayTime_key slot = Some key -> isOccupied slot = true.
Proof.
  unfold profDayTime_key. destruct (isOccupied slot); simpl; auto.
  discriminate.
Qed.

Lemma roomDayTime_key_occupied slot key :
  roomDayTime_key slot = Some key -> isOccupied slot = true.
Proof.
  unfold roomDayTime_key. destruct (isOccupied slot); simpl; auto.
  discriminate.
Qed.

Lemma grouped_valid key_of sched obj :
  (forall slot key, key_of slot = Some key -> isOccupied slot = true) ->
  grouped key_of sched (List.length sched) obj ->
  forall key refs, In (key, refs) obj -> valid_refs sched refs.
Proof.
  intros Hocc (_ & Hin & _) key refs Hk j Hj.
  destruct (Hin _ _ Hk) as (-> & _ & _).
  apply members_spec in Hj. destruct Hj as [Hlt Hkey]. split; [exact Hlt|].
  intros slot Hs. unfold key_at in Hkey. rewrite Hs in Hkey.
  apply (Hocc _ _ Hkey).
Qed.

(** [_detectScheduleConflicts] throws exactly when the grouping does. *)
Lemma detectScheduleConflicts_cases st professionals appointments :
  match _detectScheduleConflicts st professionals appointments with
  | Returns st' =>
      exists obj,
        group_slots profDayTime_key (schedule (data st)) = Some obj
        /\ grouped profDayTime_key (schedule (data st))
             (List.length (schedule (data st))) obj
        /\ st' = forEach_slot (check_existing appointments)
                   (fold_left report_double_booking obj st)
  | Throws st' =>
      st' = st
      /\ exists j key,
           j < List.length (schedule (data st))
           /\ key_at profDayTime_key (schedule (data st)) j = Some key
           /\ Js.inherited key = true
  end.
Proof.
  unfold _detectScheduleConflicts, detect_double_booking, detect_existing.
  pose proof (group_slots_grouped profDayTime_key (schedule (data st))) as H.
  destruct (group_slots profDayTime_key (schedule (data st))) as [obj|];
    simpl.
  - exists obj. auto.
  - auto.
Qed.

Lemma detectDuplicateRoomsOrTimes_cases st :
  match _detectDuplicateRoomsOrTimes st with
  | Returns st' =>
      exists obj,
        group_slots roomDayTime_key (schedule (data st)) = Some obj
        /\ grouped roomDayTime_key (schedule (data st))
             (List.length (schedule (data st))) obj
        /\ st' = fold_left report_duplicate_room obj st
  | Throws st' =>
      st' = st
      /\ exists j key,
           j < List.length (schedule (data st))
           /\ key_at roomDayTime_key (schedule (data st)) j = Some key
           /\ Js.inherited key = true
  end.
Proof.
  unfold _detectDuplicateRoomsOrTimes.
  pose proof (group_slots_grouped roomDayTime_key (schedule (data st))) as H.
  destruct (group_slots roomDayTime_key (schedule (data st))) as [obj|].
  - exists obj. auto.
  - auto.
Qed.

Lemma detectScheduleConflicts_marks st professionals appointments :
  marks st (final (_detectScheduleConflicts st professionals appointments)).
Proof.
  pose proof (detectScheduleConflicts_cases st professionals appointments) as H.
  destruct (_detectScheduleConflicts st professionals appointments) as [st'|st'];
    simpl.
  - destruct H as (obj & _ & Hg & ->).
    apply (marks_trans _ (fold_left report_double_booking obj st)).
    + apply (report_fold _ _ report_double_booking_spec).
      apply (grouped_valid _ _ _ profDayTime_key_occupied Hg).
    + apply forEach_slot_marks. intros i slot st''.
      apply check_existing_marks.
  - destruct H as [-> _]. apply marks_refl.
Qed.

Lemma detectDuplicateRoomsOrTimes_marks st :
  marks st (final (_detectDuplicateRoomsOrTimes st)).
Proof.
  pose proof (detectDuplicateRoomsOrTimes_cases st) as H.
  destruct (_detectDuplicateRoomsOrTimes st) as [st'|st']; simpl.
  - destruct H as (obj & _ & Hg & ->).
    apply (report_fold _ _ report_duplicate_room_spec).
    apply (grouped_valid _ _ _ roomDayTime_key_occupied Hg).
  - destruct H as [-> _]. apply marks_refl.
Qed.

Lemma processImportedData_detect env roomImportData professionals appointments :
  processImportedData env roomImportData professionals appointments
  = detect (_validateNames env (start roomImportData) professionals appointments)
      professionals appointments.
Proof. reflexivity. Qed.

Lemma detect_marks st professionals appointments :
  marks st (final (detect st professionals appointments)).
Proof.
  unfold detect.
  pose proof (detectScheduleConflicts_marks st professionals appointments) as M1.
  destruct (_detectScheduleConflicts st professionals appointments) as [st1|st1];
    simpl in *; [|exact M1].
  pose proof (detectDuplicateRoomsOrTimes_marks st1) as M2.
  destruct (_detectDuplicateRoomsOrTimes st1) as [st2|st2]; simpl in *.
  - apply (marks_trans _ _ _ M1), (marks_trans _ _ _ M2).
    apply checkInactive_marks.
  - apply (marks_trans _ _ _ M1 M2).
Qed.

(** ** Completeness of the double-booking detection *)

Lemma profDayTime_key_booked slot :
  booked slot ->
  profDayTime_key slot
  = Some (Js.show (professionalId slot) ++ "_" ++ appointmentDate slot ++ "_"
          ++ time slot)%string.
Proof.
  intros [Ho Ht]. unfold profDayTime_key. rewrite Ho, Ht. reflexivity.
Qed.

Lemma fold_report_complete obj st positions first :
  grouped profDayTime_key (schedule (data st))
    (List.length (schedule (data st))) obj ->
  NoDup positions -> 2 <= List.length positions ->
  (forall i, In i positions ->
     exists slot,
       nth_error (schedule (data st)) i = Some slot /\ booked slot
       /\ same_booking first slot) ->
  exists c,
    In c (conflicts (this (fold_left report_double_booking obj st)))
    /\ is_double_booking c
    /\ (forall i slot, In i positions ->
          nth_error (schedule (data st)) i = Some slot ->
          In (slot_id slot) (conflict_slot_ids c))
    /\ forall i, In i positions ->
         flagged (fold_left report_double_booking obj st) i.
Proof.
  intros Hg Hnd Hlen Hpos.
  set (sched := schedule (data st)) in *.
  set (key := (Js.show (professionalId first) ++ "_" ++ appointmentDate first
               ++ "_" ++ time first)%string).
  assert (Hkey : forall i, In i positions ->
                 i < List.length sched
                 /\ key_at profDayTime_key sched i = Some key).
  { intros i Hi. destruct (Hpos i Hi) as (slot & Hs & Hb & (E1 & E2 & E3)).
    split; [apply nth_error_Some; congruence|].
    unfold key_at. rewrite Hs, (profDayTime_key_booked _ Hb).
    unfold key. rewrite E1, E2, E3. reflexivity. }
  destruct positions as [|i0 rest]; [simpl in Hlen; lia|].
  destruct (Hkey i0 (or_introl eq_refl)) as [Hlt0 Hk0].
  pose proof Hg as (Hnodup & Hin & Hall).
  pose proof (Hall i0 key Hlt0 Hk0) as Hmem.
  apply in_map_iff in Hmem. destruct Hmem as ([k refs] & Ek & Hobj).
  simpl in Ek. subst k.
  destruct (Hin _ _ Hobj) as (Hrefs & _ & _).
  assert (Hincl : incl (i0 :: rest) refs).
  { intros i Hi. rewrite Hrefs. apply members_spec. apply (Hkey i Hi). }
  assert (Hbig : 1 < List.length refs).
  { pose proof (NoDup_incl_length Hnd Hincl). lia. }
  destruct (report_fold _ _ report_double_booking_spec obj st
              (grouped_valid _ _ _ profDayTime_key_occupied Hg))
    as (_ & _ & Hgroups).
  destruct (Hgroups key refs Hobj Hbig) as [(c & Hc & Kc & Ic) Hfl].
  exists c. repeat split; auto.
  intros i slot Hi Hs. rewrite Ic. apply in_map. apply deref_In.
  exists i. split; [apply Hincl, Hi|exact Hs].
Qed.

Lemma detectScheduleConflicts_complete st professionals appointments st'
  positions first :
  _detectScheduleConflicts st professionals appointments = Returns st' ->
  NoDup positions -> 2 <= List.length positions ->
  (forall i, In i positions ->
     exists slot,
       nth_error (schedule (data st)) i = Some slot /\ booked slot
       /\ same_booking first slot) ->
  exists c,
    In c (conflicts (this st')) /\ is_double_booking c
    /\ (forall i slot, In i positions ->
          nth_error (schedule (data st)) i = Some slot ->
          In (slot_id slot) (conflict_slot_ids c))
    /\ forall i, In i positions -> flagged st' i.
Proof.
  intros Hrun Hnd Hlen Hpos.
  pose proof (detectScheduleConflicts_cases st professionals appointments) as H.
  rewrite Hrun in H. destruct H as (obj & _ & Hg & ->).
  destruct (fold_report_complete obj st positions first Hg Hnd Hlen Hpos)
    as (c & Hc & Kc & Ic & Fc).
  assert (M : marks (fold_left report_double_booking obj st)
                (forEach_slot (check_existing appointments)
                   (fold_left report_double_booking obj st))).
  { apply forEach_slot_marks. intros i slot st''. apply check_existing_marks. }
  exists c. repeat split; auto.
  - apply (marks_conflict_In _ _ _ M Hc).
  - intros i Hi. apply (marks_flagged _ _ _ M), Fc, Hi.
Qed.

(** ** What the name reconciliation may change *)

Lemma slot_renames_refl s : slot_renames s s.
Proof. unfold slot_renames. tauto. Qed.

Lemma slot_renames_trans s1 s2 s3 :
  slot_renames s1 s2 -> slot_renames s2 s3 -> slot_renames s1 s3.
Proof.
  unfold slot_renames.
  intros (A1 & A2 & A3 & A4 & A5 & A6 & A7 & A8 & A9 & A10)
         (B1 & B2 & B3 & B4 & B5 & B6 & B7 & B8 & B9 & B10).
  repeat split; try congruence.
  intros H. rewrite B10, A10; auto. rewrite A10; auto.
Qed.

Lemma occupied_ids_renames l l' :
  Forall2 slot_renames l l' -> occupied_ids l' = occupied_ids l.
Proof.
  unfold occupied_ids. induction 1 as [|x y l l' Hxy _ IH]; [reflexivity|].
  simpl. destruct Hxy as (H1 & _ & _ & _ & _ & H6 & _).
  rewrite H6. destruct (isOccupied x); simpl; congruence.
Qed.

Lemma renames_refl st : renames st st.
Proof.
  constructor; try reflexivity.
  - apply Forall2_refl, slot_renames_refl.
  - exists []. rewrite app_nil_r. reflexivity.
  - exists []. rewrite app_nil_r. auto.
  - exists []. rewrite app_nil_r. auto.
  - exists []. rewrite app_nil_r. auto.
Qed.

Lemma renames_trans st1 st2 st3 :
  renames st1 st2 -> renames st2 st3 -> renames st1 st3.
Proof.
  intros [S1 C1 (n1 & N1) (v1 & V1 & FV1) (a1 & A1 & FA1) (g1 & G1 & FG1)]
         [S2 C2 (n2 & N2) (v2 & V2 & FV2) (a2 & A2 & FA2) (g2 & G2 & FG2)].
  pose proof (occupied_ids_renames _ _ S1) as Hocc.
  constructor; try congruence.
  - apply (Forall2_trans _ slot_renames_trans _ _ _ S1 S2).
  - exists (n1 ++ n2). rewrite N2, N1, app_assoc. reflexivity.
  - exists (v1 ++ v2). rewrite V2, V1, app_assoc. split; [reflexivity|].
    apply Forall_app. split; [exact FV1|]. rewrite <- Hocc. exact FV2.
  - exists (a1 ++ a2). rewrite A2, A1, app_assoc. split; [reflexivity|].
    apply Forall_app. split; [exact FA1|]. rewrite <- Hocc. exact FA2.
  - exists (g1 ++ g2). rewrite G2, G1, app_assoc. split; [reflexivity|].
    apply Forall_app. split; [exact FG1|]. rewrite <- Hocc. exact FG2.
Qed.

Lemma renames_update st i f slot :
  nth_error (schedule (data st)) i = Some slot ->
  slot_renames slot (f slot) ->
  renames st (update_slot i f st).
Proof.
  intros Hs Hf. constructor; try reflexivity.
  - simpl. apply Forall2_update_at; [apply slot_renames_refl|].
    intros x Hx. congruence.
  - exists []. simpl. rewrite app_nil_r. reflexivity.
  - exists []. simpl. rewrite app_nil_r. auto.
  - exists []. simpl. rewrite app_nil_r. auto.
  - exists []. simpl. rewrite app_nil_r. auto.
Qed.

Lemma renames_push_newProfessional st p :
  renames st (push_newProfessional p st).
Proof.
  constructor; try reflexivity.
  - apply Forall2_refl, slot_renames_refl.
  - exists [p]. reflexivity.
  - exists []. simpl. rewrite app_nil_r. auto.
  - exists []. simpl. rewrite app_nil_r. auto.
  - exists []. simpl. rewrite app_nil_r. auto.
Qed.

Lemma renames_drawn st : renames st (drawn st).
Proof.
  constructor; try reflexivity.
  - apply Forall2_refl, slot_renames_refl.
  - exists []. simpl. rewrite app_nil_r. reflexivity.
  - exists []. simpl. rewrite app_nil_r. auto.
  - exists []. simpl. rewrite app_nil_r. auto.
  - exists []. simpl. rewrite app_nil_r. auto.
Qed.

Lemma renames_push_validationError st e :
  In (ve_slotId e) (occupied_ids (schedule (data st))) ->
  renames st (push_validationError e st).
Proof.
  intros H. constructor; try reflexivity.
  - apply Forall2_refl, slot_renames_refl.
  - exists []. simpl. rewrite app_nil_r. reflexivity.
  - exists [e]. simpl. auto.
  - exists []. simpl. rewrite app_nil_r. auto.
  - exists []. simpl. rewrite app_nil_r. auto.
Qed.

Lemma renames_push_autoCorrection st a :
  In (ac_slotId a) (occupied_ids (schedule (data st))) ->
  renames st (push_autoCorrection a st).
Proof.
  intros H. constructor; try reflexivity.
  - apply Forall2_refl, slot_renames_refl.
  - exists []. simpl. rewrite app_nil_r. reflexivity.
  - exists []. simpl. rewrite app_nil_r. auto.
  - exists [a]. simpl. auto.
  - exists []. simpl. rewrite app_nil_r. auto.
Qed.

Lemma renames_push_suggestedChange st c :
  In (ch_slotId c) (occupied_ids (schedule (data st))) ->
  renames st (push_suggestedChange c st).
Proof.
  intros H. constructor; try reflexivity.
  - apply Forall2_refl, slot_renames_refl.
  - exists []. simpl. rewrite app_nil_r. reflexivity.
  - exists []. simpl. rewrite app_nil_r. auto.
  - exists []. simpl. rewrite app_nil_r. auto.
  - exists [c]. simpl. auto.
Qed.

Lemma renames_occupied_id st st' id :
  renames st st' ->
  In id (occupied_ids (schedule (data st))) ->
  In id (occupied_ids (schedule (data st'))).
Proof.
  intros H. rewrite (occupied_ids_renames _ _ (renames_schedule _ _ H)). auto.
Qed.

Lemma slot_renames_patientName v slot :
  isOccupied slot = true -> slot_renames slot (set_patientName v slot).
Proof. intros H. unfold slot_renames. simpl. repeat split. congruence. Qed.

Lemma slot_renames_professionalName v slot :
  isOccupied slot = true -> slot_renames slot (set_professionalName v slot).
Proof. intros H. unfold slot_renames. simpl. repeat split. congruence. Qed.

Lemma slot_renames_professionalId v slot :
  isOccupied slot = true -> slot_renames slot (set_professionalId v slot).
Proof. intros H. unfold slot_renames. simpl. repeat split. congruence. Qed.

Lemma renames_occupied_at st st' j :
  renames st st' ->
  occupied_at (schedule (data st)) j -> occupied_at (schedule (data st')) j.
Proof.
  intros Hm Ho slot' Hs'.
  destruct (Forall2_nth_r _ _ _ (renames_schedule _ _ Hm) _ _ Hs')
    as (slot & Hs & Hr).
  destruct Hr as (_ & _ & _ & _ & _ & H6 & _). rewrite H6. apply (Ho _ Hs).
Qed.

Lemma renames_then_update st X i f :
  renames st X ->
  occupied_at (schedule (data st)) i ->
  (forall s, isOccupied s = true -> slot_renames s (f s)) ->
  renames st (update_slot i f X).
Proof.
  intros HX Ho Hf. apply (renames_trans _ _ _ HX).
  destruct (nth_error (schedule (data X)) i) as [s|] eqn:Hs.
  - apply (renames_update X i f s Hs). apply Hf.
    apply (renames_occupied_at _ _ _ HX Ho _ Hs).
  - constructor; try reflexivity.
    + simpl. apply Forall2_update_at; [apply slot_renames_refl|].
      intros x Hx. congruence.
    + exists []. simpl. rewrite app_nil_r. reflexivity.
    + exists []. simpl. rewrite app_nil_r. auto.
    + exists []. simpl. rewrite app_nil_r. auto.
    + exists []. simpl. rewrite app_nil_r. auto.
Qed.

Lemma renames_then_newProfessional st X p :
  renames st X -> renames st (push_newProfessional p X).
Proof.
  intros HX. apply (renames_trans _ _ _ HX), renames_push_newProfessional.
Qed.

Lemma renames_then_drawn st X : renames st X -> renames st (drawn X).
Proof. intros HX. apply (renames_trans _ _ _ HX), renames_drawn. Qed.

Lemma renames_then_validationError st X e :
  renames st X ->
  In (ve_slotId e) (occupied_ids (schedule (data st))) ->
  renames st (push_validationError e X).
Proof.
  intros HX H. apply (renames_trans _ _ _ HX), renames_push_validationError.
  apply (renames_occupied_id _ _ _ HX H).
Qed.

Lemma renames_then_autoCorrection st X a :
  renames st X ->
  In (ac_slotId a) (occupied_ids (schedule (data st))) ->
  renames st (push_autoCorrection a X).
Proof.
  intros HX H. apply (renames_trans _ _ _ HX), renames_push_autoCorrection.
  apply (renames_occupied_id _ _ _ HX H).
Qed.

Lemma renames_then_suggestedChange st X c :
  renames st X ->
  In (ch_slotId c) (occupied_ids (schedule (data st))) ->
  renames st (push_suggestedChange c X).
Proof.
  intros HX H. apply (renames_trans _ _ _ HX), renames_push_suggestedChange.
  apply (renames_occupied_id _ _ _ HX H).
Qed.

(** Chains of updates that start from [st] and act on the occupied slot at
    position [i]. *)
Ltac renames_chain :=
  repeat first
    [ apply renames_refl
    | apply renames_then_suggestedChange
    | apply renames_then_autoCorrection
    | apply renames_then_validationError
    | apply renames_then_newProfessional
    | apply renames_then_drawn
    | apply renames_then_update ];
  try assumption;
  try (intros; first [ apply slot_renames_patientName
                     | apply slot_renames_professionalName
                     | apply slot_renames_professionalId ]; assumption).

Lemma validate_patient_renames registeredPatients appointments i slot st :
  nth_error (schedule (data st)) i = Some slot ->
  isOccupied slot = true ->
  renames st (validate_patient registeredPatients appointments i slot st).
Proof.
  intros Hs Ho.
  assert (Hid : In (slot_id slot) (occupied_ids (schedule (data st))))
    by (apply (occupied_id_In _ i); assumption).
  assert (Hat : occupied_at (schedule (data st)) i)
    by (intros s' Hs'; congruence).
  unfold validate_patient.
  destruct (Js.truthy (patientName slot)); [|apply renames_refl].
  destruct (existsb _ registeredPatients); [apply renames_refl|].
  destruct (Js.truthy (_findClosestMatch _ registeredPatients)).
  - destruct (find _ appointments) as [originalCase|]; [|apply renames_refl].
    cbv zeta. renames_chain.
  - cbv zeta. renames_chain.
Qed.

Lemma validate_professional_renames env registeredProfessionals professionals
  i slot st :
  nth_error (schedule (data st)) i = Some slot ->
  isOccupied slot = true ->
  renames st
    (validate_professional env registeredProfessionals professionals i slot st).
Proof.
  intros Hs Ho.
  assert (Hid : In (slot_id slot) (occupied_ids (schedule (data st))))
    by (apply (occupied_id_In _ i); assumption).
  assert (Hat : occupied_at (schedule (data st)) i)
    by (intros s' Hs'; congruence).
  unfold validate_professional.
  destruct (Js.truthy (professionalName slot)); [|apply renames_refl].
  destruct (existsb _ registeredProfessionals); [apply renames_refl|].
  cbv zeta.
  destruct (existsb _ (newProfessionals (data st))); [apply renames_refl|].
  destruct (Js.truthy (_findClosestMatch _ registeredProfessionals)).
  - destruct (find _ professionals) as [originalProf|]; [|apply renames_refl].
    renames_chain.
  - renames_chain.
Qed.

Lemma validate_slot_renames env registeredPatients registeredProfessionals
  professionals appointments i slot st :
  nth_error (schedule (data st)) i = Some slot ->
  renames st
    (validate_slot env registeredPatients registeredProfessionals
       professionals appointments i slot st).
Proof.
  intros Hs. unfold validate_slot.
  destruct (isOccupied slot) eqn:Ho; simpl; [|apply renames_refl].
  pose proof (validate_patient_renames registeredPatients appointments i slot
                st Hs Ho) as H1.
  set (st1 := validate_patient registeredPatients appointments i slot st) in *.
  destruct (nth_error (schedule (data st1)) i) as [slot1|] eqn:Hs1;
    [|exact H1].
  apply (renames_trans _ _ _ H1).
  apply validate_professional_renames; [exact Hs1|].
  destruct (Forall2_nth _ _ _ (renames_schedule _ _ H1) _ _ Hs)
    as (slot1' & Hs1' & Hr).
  rewrite Hs1 in Hs1'. inversion Hs1'; subst slot1'.
  destruct Hr as (_ & _ & _ & _ & _ & H6 & _). congruence.
Qed.

Lemma forEach_slot_renames body st :
  (forall i slot st',
     nth_error (schedule (data st')) i = Some slot ->
     renames st' (body i slot st')) ->
  renames st (forEach_slot body st).
Proof.
  intros H.
  apply (forEach_slot_inv (fun _ stk => renames st stk) body st).
  - apply renames_refl.
  - intros i st' _ Hm.
    destruct (nth_error (schedule (data st')) i) as [slot|] eqn:Hs;
      [|exact Hm].
    apply (renames_trans _ _ _ Hm). apply H. exact Hs.
Qed.

Lemma validateNames_renames env st professionals appointments :
  renames st (_validateNames env st professionals appointments).
Proof.
  apply forEach_slot_renames. intros i slot st'.
  apply validate_slot_renames.
Qed.

(** ** Whole runs *)

Lemma detect_returns st professionals appointments st' :
  detect st professionals appointments = Returns st' ->
  exists st2 st3,
    _detectScheduleConflicts st professionals appointments = Returns st2
    /\ _detectDuplicateRoomsOrTimes st2 = Returns st3
    /\ st' = _checkInactiveProfessionals st3 professionals.
Proof.
  unfold detect. intros E.
  destruct (_detectScheduleConflicts st professionals appointments)
    as [st2|st2] eqn:E2; simpl in E; [|discriminate].
  destruct (_detectDuplicateRoomsOrTimes st2) as [st3|st3] eqn:E3;
    simpl in E; [|discriminate].
  inversion E. exists st2, st3. repeat split; assumption.
Qed.

Lemma run_unoccupied_slot env roomImportData professionals appointments i slot :
  nth_error (schedule roomImportData) i = Some slot ->
  isOccupied slot = false ->
  nth_error
    (schedule
       (data (final (processImportedData env roomImportData professionals
                       appointments)))) i
  = Some slot.
Proof.
  intros Hs Ho. rewrite processImportedData_detect.
  set (st0 := start roomImportData).
  pose proof (validateNames_renames env st0 professionals appointments) as R.
  set (st1 := _validateNames env st0 professionals appointments) in *.
  pose proof (detect_marks st1 professionals appointments) as M.
  destruct (Forall2_nth _ _ _ (renames_schedule _ _ R) i slot Hs)
    as (slot1 & Hs1 & Hr).
  assert (E1 : slot1 = slot) by (apply Hr; exact Ho). subst slot1.
  destruct (Forall2_nth _ _ _ (marks_schedule _ _ M) i slot Hs1)
    as (slot2 & Hs2 & Hm).
  assert (E2 : slot2 = slot) by (apply Hm; exact Ho). subst slot2.
  exact Hs2.
Qed.

Lemma run_records env roomImportData professionals appointments :
  let ids := occupied_ids (schedule roomImportData) in
  let st' :=
    final (processImportedData env roomImportData professionals appointments) in
  Forall (fun a => In (ac_slotId a) ids) (autoCorrections (this st'))
  /\ Forall (fun e => In (ve_slotId e) ids) (validationErrors (this st'))
  /\ Forall (fun c => incl (conflict_slot_ids c) ids) (conflicts (this st'))
  /\ Forall (fun c => In (ch_slotId c) ids) (suggestedChanges (this st')).
Proof.
  intros ids st'. subst st'. rewrite processImportedData_detect.
  set (st0 := start roomImportData).
  pose proof (validateNames_renames env st0 professionals appointments) as R.
  set (st1 := _validateNames env st0 professionals appointments) in *.
  pose proof (detect_marks st1 professionals appointments) as M.
  set (st' := final (detect st1 professionals appointments)) in *.
  pose proof (occupied_ids_renames _ _ (renames_schedule _ _ R)) as Hocc.
  change (schedule (data st0)) with (schedule roomImportData) in Hocc.
  fold ids in Hocc.
  destruct R as [_ RC _ (v & RV & FV) (a & RA & FA) (g & RG & FG)].
  destruct M as [_ _ MV MA (c & MC & FC) (g' & MG & FG')].
  simpl in RC, RV, RA, RG. rewrite Hocc in FC, FG'.
  repeat split.
  - rewrite MA, RA. exact FA.
  - rewrite MV, RV. exact FV.
  - rewrite MC, RC. exact FC.
  - rewrite MG, RG. apply Forall_app. split; assumption.
Qed.

(** ** Inactive professionals *)

Lemma inactive_entries_other professionals id sched :
  ~ In id (map slot_id sched) ->
  filter (is_inactive_entry_for id)
    (flat_map (inactive_conflicts professionals) sched) = [].
Proof.
  intros H. apply filter_none. intros c Hc.
  apply in_flat_map in Hc. destruct Hc as (s & Hs & Hc).
  unfold inactive_conflicts in Hc.
  destruct (inactive_professional_of professionals s); [|contradiction].
  destruct Hc as [<-|[]]. simpl. apply String.eqb_neq. intros E.
  apply H. rewrite <- E. apply in_map. exact Hs.
Qed.

Lemma inactive_entries_one professionals sched : forall i slot p,
  NoDup (map slot_id sched) ->
  nth_error sched i = Some slot ->
  inactive_professional_of professionals slot = Some p ->
  filter (is_inactive_entry_for (slot_id slot))
    (flat_map (inactive_conflicts professionals) sched)
  = [ProfissionalInativo (prof_name p) (patientName slot) (roomName slot)
       (dayTime_of slot) (slot_id slot)].
Proof.
  induction sched as [|s sched IH]; intros [|i] slot p Hnd Hs Hp;
    simpl in Hs; try discriminate;
    simpl in Hnd; inversion Hnd as [|? ? Hnotin Hnd']; subst.
  - inversion Hs; subst s. simpl flat_map. rewrite filter_app.
    rewrite (inactive_entries_other _ _ _ Hnotin), app_nil_r.
    unfold inactive_conflicts. rewrite Hp. simpl.
    rewrite String.eqb_refl. reflexivity.
  - simpl flat_map. rewrite filter_app, (IH i slot p Hnd' Hs Hp).
    assert (Hne : slot_id s <> slot_id slot).
    { intros E. apply Hnotin. rewrite E. apply in_map.
      apply (nth_error_In _ _ Hs). }
    unfold inactive_conflicts at 1.
    destruct (inactive_professional_of professionals s); [|reflexivity].
    simpl. apply String.eqb_neq in Hne. rewrite Hne. reflexivity.
Qed.

Lemma inactive_mark_conflict_flag professionals slot :
  hasScheduleConflict (inactive_mark professionals slot)
  = hasScheduleConflict slot.
Proof.
  unfold inactive_mark.
  destruct (inactive_professional_of professionals slot); reflexivity.
Qed.

(** ** Existing appointments *)

Lemma colliding_filter appointments slot :
  isOccupied slot = true -> Js.truthy (professionalId slot) = true ->
  colliding_appointments appointments slot
  = filter
      (fun apt =>
         negb (Js.truthy (linkedAppointmentId slot))
         || negb (String.eqb (apt_id apt) (Js.show (linkedAppointmentId slot))))
      (same_booking_appointments appointments slot).
Proof.
  intros Ho Ht. unfold colliding_appointments, same_booking_appointments.
  rewrite Ho, Ht. simpl.
  induction appointments as [|apt rest IH]; [reflexivity|]. simpl.
  destruct (String.eqb (apt_professionalId apt) (Js.show (professionalId slot))
            && String.eqb (apt_date apt) (appointmentDate slot)
            && String.eqb (apt_time apt) (time slot)); simpl.
  - destruct (negb (Js.truthy (linkedAppointmentId slot))
              || negb (String.eqb (apt_id apt)
                         (Js.show (linkedAppointmentId slot))));
      rewrite IH; reflexivity.
  - exact IH.
Qed.

Lemma existing_conflicts_ids appointments sched c :
  In c (flat_map (existing_conflicts appointments) sched) ->
  exists s,
    In s sched /\ colliding_appointments appointments s <> []
    /\ conflict_slot_ids c = [slot_id s].
Proof.
  intros Hc. apply in_flat_map in Hc. destruct Hc as (s & Hs & Hc).
  exists s. unfold existing_conflicts in Hc.
  destruct (colliding_appointments appointments s) as [|a l];
    [contradiction|].
  destruct Hc as [<-|[]]. repeat split; [exact Hs|discriminate].
Qed.

(** ** Synthetic professionals *)

Lemma existsb_called n l :
  existsb (fun p => String.eqb (normalize (prof_name p)) n) l
  = negb (match called n l with [] => true | _ => false end).
Proof.
  unfold called. induction l as [|p l IH]; [reflexivity|]. simpl.
  destruct (String.eqb (normalize (prof_name p)) n); simpl; auto.
Qed.

Lemma called_app n l1 l2 : called n (l1 ++ l2) = called n l1 ++ called n l2.
Proof. apply filter_app. Qed.

Lemma validate_patient_frame registeredPatients appointments i slot st :
  nth_error (schedule (data st)) i = Some slot ->
  let st' := validate_patient registeredPatients appointments i slot st in
  newProfessionals (data st') = newProfessionals (data st)
  /\ draws st' = draws st
  /\ (forall j, j <> i ->
        nth_error (schedule (data st')) j = nth_error (schedule (data st)) j)
  /\ exists slot',
       nth_error (schedule (data st')) i = Some slot'
       /\ professionalName slot' = professionalName slot
       /\ professionalId slot' = professionalId slot
       /\ isOccupied slot' = isOccupied slot.
Proof.
  intros Hs st'. subst st'. unfold validate_patient.
  assert (Hsame :
    newProfessionals (data st) = newProfessionals (data st)
    /\ draws st = draws st
    /\ (forall j, j <> i ->
          nth_error (schedule (data st)) j = nth_error (schedule (data st)) j)
    /\ exists slot',
         nth_error (schedule (data st)) i = Some slot'
         /\ professionalName slot' = professionalName slot
         /\ professionalId slot' = professionalId slot
         /\ isOccupied slot' = isOccupied slot).
  { repeat split; auto. exists slot. auto. }
  destruct (Js.truthy (patientName slot)); [|exact Hsame].
  destruct (existsb _ registeredPatients); [exact Hsame|].
  destruct (Js.truthy (_findClosestMatch _ registeredPatients)).
  - destruct (find _ appointments) as [originalCase|]; [|exact Hsame].
    cbv zeta. simpl. repeat split.
    + intros j Hj. apply update_at_other. auto.
    + rewrite update_at_same, Hs. simpl. eexists. split; [reflexivity|].
      simpl. auto.
  - cbv zeta. simpl. repeat split; auto. exists slot. auto.
Qed.

Section Unmatched.

Variable env : Environment.
Variable professionals : list Professional.
Variable appointments : list Appointment.

(** A normalised name that is neither registered nor close to a
    registered name. *)
Variable n : string.
Hypothesis not_registered :
  existsb (String.eqb n) (registeredProfessionals_of professionals) = false.
Hypothesis not_matched :
  Js.truthy (_findClosestMatch n (registeredProfessionals_of professionals))
  = false.

Lemma validate_professional_effect i slot st :
  nth_error (schedule (data st)) i = Some slot ->
  let st' :=
    validate_professional env (registeredProfessionals_of professionals)
      professionals i slot st in
  (forall j, j <> i ->
     nth_error (schedule (data st')) j = nth_error (schedule (data st)) j)
  /\ if Js.truthy (professionalName slot)
        && String.eqb (normalize (Js.show (professionalName slot))) n
     then
       match called n (newProfessionals (data st)) with
       | [] =>
           exists p,
             newProfessionals (data st') = newProfessionals (data st) ++ [p]
             /\ normalize (prof_name p) = n
             /\ exists slot',
                  nth_error (schedule (data st')) i = Some slot'
                  /\ professionalId slot' = Some (prof_id p)
       | _ :: _ => st' = st
       end
     else
       exists created,
         newProfessionals (data st') = newProfessionals (data st) ++ created
         /\ called n created = [].
Proof.
  intros Hs st'. subst st'. unfold validate_professional.
  destruct (Js.truthy (professionalName slot)) eqn:Ht; simpl.
  2:{ split; [auto|]. exists []. rewrite app_nil_r. auto. }
  destruct (String.eqb_spec (normalize (Js.show (professionalName slot))) n)
    as [En|En].
  - rewrite En, not_registered. cbv zeta.
    rewrite existsb_called, not_matched.
    destruct (called n (newProfessionals (data st))) as [|p0 l] eqn:Hc;
      simpl.
    + split.
      * intros j Hj. apply update_at_other. auto.
      * eexists. split; [reflexivity|]. split; [exact En|].
        rewrite update_at_same, Hs. simpl. eexists. split; reflexivity.
    + auto.
  - cbv iota.
    destruct (existsb
                (String.eqb (normalize (Js.show (professionalName slot))))
                (registeredProfessionals_of professionals)).
    { split; [auto|]. exists []. rewrite app_nil_r. auto. }
    cbv zeta.
    destruct (existsb _ (newProfessionals (data st))).
    { split; [auto|]. exists []. rewrite app_nil_r. auto. }
    destruct (Js.truthy
                (_findClosestMatch
                   (normalize (Js.show (professionalName slot))) _)).
    + destruct (find _ professionals) as [originalProf|].
      2:{ split; [auto|]. exists []. rewrite app_nil_r. auto. }
      simpl. split.
      * intros j Hj. rewrite !update_at_other by auto. reflexivity.
      * exists []. rewrite app_nil_r. auto.
    + simpl. split.
      * intros j Hj. apply update_at_other. auto.
      * eexists. split; [reflexivity|]. unfold called. simpl.
        apply String.eqb_neq in En. rewrite En. reflexivity.
Qed.

Lemma validate_slot_effect i slot st :
  nth_error (schedule (data st)) i = Some slot ->
  let st' :=
    validate_slot env (registeredPatients_of appointments)
      (registeredProfessionals_of professionals) professionals appointments
      i slot st in
  (forall j, j <> i ->
     nth_error (schedule (data st')) j = nth_error (schedule (data st)) j)
  /\ if named n slot then
       match called n (newProfessionals (data st)) with
       | [] =>
           exists p,
             newProfessionals (data st') = newProfessionals (data st) ++ [p]
             /\ normalize (prof_name p) = n
             /\ exists slot',
                  nth_error (schedule (data st')) i = Some slot'
                  /\ professionalId slot' = Some (prof_id p)
       | _ :: _ =>
           newProfessionals (data st') = newProfessionals (data st)
           /\ exists slot',
                nth_error (schedule (data st')) i = Some slot'
                /\ professionalId slot' = professionalId slot
       end
     else
       exists created,
         newProfessionals (data st') = newProfessionals (data st) ++ created
         /\ called n created = [].
Proof.
  intros Hs st'. subst st'. unfold validate_slot, named.
  destruct (isOccupied slot) eqn:Ho; simpl.
  2:{ split; [auto|]. exists []. rewrite app_nil_r. auto. }
  destruct (validate_patient_frame (registeredPatients_of appointments)
              appointments i slot st Hs)
    as (N1 & D1 & F1 & slot1 & Hs1 & P1 & I1 & O1).
  set (st1 := validate_patient (registeredPatients_of appointments)
                appointments i slot st) in *.
  rewrite Hs1.
  destruct (validate_professional_effect i slot1 st1 Hs1) as (F2 & E2).
  rewrite P1 in E2. split.
  - intros j Hj. rewrite F2, F1 by exact Hj. reflexivity.
  - rewrite <- N1.
    destruct (Js.truthy (professionalName slot)
              && String.eqb (normalize (Js.show (professionalName slot))) n).
    + destruct (called n (newProfessionals (data st1))) as [|p0 l].
      * exact E2.
      * rewrite E2. split; [reflexivity|]. exists slot1. auto.
    + exact E2.
Qed.

Lemma synthetic_inv_step st0 i slot k stk :
  called n (newProfessionals (data st0)) = [] ->
  nth_error (schedule (data st0)) i = Some slot ->
  named n slot = true ->
  (forall j s, j < i -> nth_error (schedule (data st0)) j = Some s ->
               named n s = false) ->
  k < List.length (schedule (data st0)) ->
  synthetic_inv n st0 i k stk ->
  synthetic_inv n st0 i (S k)
    match nth_error (schedule (data stk)) k with
    | Some slot =>
        validate_slot env (registeredPatients_of appointments)
          (registeredProfessionals_of professionals) professionals
          appointments k slot stk
    | None => stk
    end.
Proof.
  intros Hnew Hs Hnamed Hfirst Hk (F & (created & HN & Hi) & Hprev).
  destruct (nth_error (schedule (data st0)) k) as [sk|] eqn:Hsk;
    [|apply nth_error_None in Hsk; lia].
  rewrite (F k (le_n k)), Hsk.
  destruct (validate_slot_effect k sk stk) as (Fr & Eff).
  { rewrite (F k (le_n k)). exact Hsk. }
  set (st' := validate_slot env (registeredPatients_of appointments)
                (registeredProfessionals_of professionals) professionals
                appointments k sk stk) in *.
  assert (Hcalled : called n (newProfessionals (data stk))
                    = called n created).
  { rewrite HN, called_app, Hnew. reflexivity. }
  rewrite Hcalled in Eff.
  split; [|split].
  - intros j Hj. rewrite Fr by lia. apply F. lia.
  - destruct (named n sk) eqn:Hnk.
    + destruct (Nat.lt_trichotomy k i) as [Hlt|[Heq|Hgt]].
      * rewrite (Hfirst k sk Hlt Hsk) in Hnk. discriminate.
      * subst k. rewrite Nat.leb_refl in Hi. rewrite Hi in Eff.
        destruct Eff as (p & Np & Hp & slot' & Hs' & Hid).
        exists (created ++ [p]). rewrite Np, HN, app_assoc.
        split; [reflexivity|].
        replace (S i <=? i) with false
          by (symmetry; apply Nat.leb_gt; lia).
        exists p. split.
        -- rewrite called_app, Hi. unfold called. simpl.
           rewrite Hp, String.eqb_refl. reflexivity.
        -- exists slot'. auto.
      * replace (k <=? i) with false in Hi
          by (symmetry; apply Nat.leb_gt; lia).
        destruct Hi as (p & Hp & slot' & Hs' & Hid).
        rewrite Hp in Eff. destruct Eff as (Np & _).
        exists created. rewrite Np. split; [exact HN|].
        replace (S k <=? i) with false
          by (symmetry; apply Nat.leb_gt; lia).
        exists p. split; [exact Hp|]. exists slot'.
        rewrite Fr by lia. auto.
    + destruct Eff as (c2 & Np & Hc2).
      exists (created ++ c2). rewrite Np, HN, app_assoc.
      split; [reflexivity|]. rewrite called_app, Hc2, app_nil_r.
      destruct (Nat.lt_trichotomy k i) as [Hlt|[Heq|Hgt]].
      * replace (k <=? i) with true in Hi
          by (symmetry; apply Nat.leb_le; lia).
        replace (S k <=? i) with true
          by (symmetry; apply Nat.leb_le; lia).
        exact Hi.
      * subst k. rewrite Hs in Hsk. inversion Hsk; subst sk.
        rewrite Hnamed in Hnk. discriminate.
      * replace (k <=? i) with false in Hi
          by (symmetry; apply Nat.leb_gt; lia).
        replace (S k <=? i) with false
          by (symmetry; apply Nat.leb_gt; lia).
        destruct Hi as (p & Hp & slot' & Hs' & Hid).
        exists p. split; [exact Hp|]. exists slot'.
        rewrite Fr by lia. auto.
  - intros j s Hj Hji Hsj Hnj.
    destruct (Nat.eq_dec j k) as [->|Hjk].
    + rewrite Hsk in Hsj. inversion Hsj; subst s. rewrite Hnj in Eff.
      destruct (Nat.lt_trichotomy k i) as [Hlt|[Heq|Hgt]].
      * rewrite (Hfirst k sk Hlt Hsk) in Hnj. discriminate.
      * contradiction.
      * replace (k <=? i) with false in Hi
          by (symmetry; apply Nat.leb_gt; lia).
        destruct Hi as (p & Hp & _). rewrite Hp in Eff.
        apply Eff.
    + rewrite Fr by auto. apply (Hprev j s); auto. lia.
Qed.

Lemma validateNames_synthetic st i slot :
  called n (newProfessionals (data st)) = [] ->
  nth_error (schedule (data st)) i = Some slot ->
  named n slot = true ->
  (forall j s, j < i -> nth_error (schedule (data st)) j = Some s ->
               named n s = false) ->
  let st' := _validateNames env st professionals appointments in
  exists created p,
    newProfessionals (data st') = newProfessionals (data st) ++ created
    /\ called n created = [p]
    /\ (exists slot',
          nth_error (schedule (data st')) i = Some slot'
          /\ professionalId slot' = Some (prof_id p))
    /\ (forall j s, j <> i ->
          nth_error (schedule (data st)) j = Some s -> named n s = true ->
          exists s',
            nth_error (schedule (data st')) j = Some s'
            /\ professionalId s' = professionalId s).
Proof.
  intros Hnew Hs Hnamed Hfirst st'. subst st'.
  assert (Hi : i < List.length (schedule (data st)))
    by (apply nth_error_Some; congruence).
  pose proof (forEach_slot_inv (synthetic_inv n st i)
    (validate_slot env (registeredPatients_of appointments)
       (registeredProfessionals_of professionals) professionals
       appointments) st) as H.
  destruct H as (_ & (created & HN & Hc) & Hprev).
  - split; [auto|]. split.
    + exists []. rewrite app_nil_r. split; [reflexivity|]. reflexivity.
    + intros j s Hj. lia.
  - intros k stk Hk Hinv.
    apply (synthetic_inv_step st i slot k stk); assumption.
  - replace (List.length (schedule (data st)) <=? i) with false in Hc
      by (symmetry; apply Nat.leb_gt; lia).
    destruct Hc as (p & Hp & Hslot).
    exists created, p. unfold _validateNames. repeat split; auto.
    intros j s Hj Hsj Hnj. apply (Hprev j s); auto.
    apply nth_error_Some. congruence.
Qed.

End Unmatched.

(** ** Grouping keys *)

Lemma chars_app s1 s2 : chars (s1 ++ s2) = chars s1 ++ chars s2.
Proof. induction s1 as [|c s1 IH]; simpl; congruence. Qed.

Lemma chars_inj s1 s2 : chars s1 = chars s2 -> s1 = s2.
Proof.
  intros H. apply (f_equal string_of_list_ascii) in H.
  unfold chars in H. rewrite !string_of_list_ascii_of_string in H. exact H.
Qed.

Lemma split_first_underscore (a : list ascii) : forall a' r r',
  ~ In "_"%char a -> ~ In "_"%char a' ->
  a ++ "_"%char :: r = a' ++ "_"%char :: r' -> a = a' /\ r = r'.
Proof.
  induction a as [|c a IH]; intros [|c' a'] r r' Ha Ha' E; simpl in E.
  - inversion E. auto.
  - inversion E; subst. exfalso. apply Ha'. left. reflexivity.
  - inversion E; subst. exfalso. apply Ha. left. reflexivity.
  - inversion E; subst.
    destruct (IH a' r r') as [-> ->]; auto.
    + intros H. apply Ha. right. exact H.
    + intros H. apply Ha'. right. exact H.
Qed.

Lemma split_last_underscore (x x' t t' : list ascii) :
  ~ In "_"%char t -> ~ In "_"%char t' ->
  x ++ "_"%char :: t = x' ++ "_"%char :: t' -> x = x' /\ t = t'.
Proof.
  intros Ht Ht' E. apply (f_equal (@rev ascii)) in E.
  rewrite !rev_app_distr in E. simpl in E. rewrite <- !app_assoc in E.
  simpl in E.
  destruct (split_first_underscore (rev t) (rev t') (rev x) (rev x')) as [E1 E2].
  - rewrite <- in_rev. exact Ht.
  - rewrite <- in_rev. exact Ht'.
  - exact E.
  - split.
    + apply (f_equal (@rev ascii)) in E2. rewrite !rev_involutive in E2.
      exact E2.
    + apply (f_equal (@rev ascii)) in E1. rewrite !rev_involutive in E1.
      exact E1.
Qed.

(** A key [a_b_c] determines [a], [b] and [c] when [b] and [c] contain no
    underscore: they are read back from the end of the key. *)
Lemma key_injective a b c a' b' c' :
  underscore_free b -> underscore_free c ->
  underscore_free b' -> underscore_free c' ->
  (a ++ "_" ++ b ++ "_" ++ c)%string = (a' ++ "_" ++ b' ++ "_" ++ c')%string ->
  a = a' /\ b = b' /\ c = c'.
Proof.
  unfold underscore_free. intros Hb Hc Hb' Hc' E.
  apply (f_equal chars) in E. rewrite !chars_app in E. simpl in E.
  change (chars a ++ "_"%char :: chars b ++ "_"%char :: chars c)
    with (chars a ++ ("_"%char :: chars b) ++ "_"%char :: chars c) in E.
  change (chars a' ++ "_"%char :: chars b' ++ "_"%char :: chars c')
    with (chars a' ++ ("_"%char :: chars b') ++ "_"%char :: chars c') in E.
  rewrite !app_assoc in E.
  destruct (split_last_underscore _ _ _ _ Hc Hc' E) as [E1 E2].
  destruct (split_last_underscore _ _ _ _ Hb Hb' E1) as [E3 E4].
  repeat split; apply chars_inj; assumption.
Qed.

Lemma show_truthy_inj o1 o2 :
  Js.truthy o1 = true -> Js.truthy o2 = true ->
  Js.show o1 = Js.show o2 -> o1 = o2.
Proof.
  destruct o1, o2; simpl; intros H1 H2 E; try discriminate. congruence.
Qed.

Lemma profDayTime_key_injective s1 s2 key :
  separable s1 -> separable s2 ->
  profDayTime_key s1 = Some key -> profDayTime_key s2 = Some key ->
  same_booking s1 s2.
Proof.
  intros (_ & T1 & D1) (_ & T2 & D2). unfold profDayTime_key.
  destruct (isOccupied s1); simpl; [|discriminate].
  destruct (Js.truthy (professionalId s1)) eqn:P1; simpl; [|discriminate].
  destruct (isOccupied s2); simpl; [|discriminate].
  destruct (Js.truthy (professionalId s2)) eqn:P2; simpl; [|discriminate].
  intros E1 E2. rewrite <- E2 in E1. inversion E1 as [E].
  destruct (key_injective _ _ _ _ _ _ D1 T1 D2 T2 E) as (Ea & Eb & Ec).
  repeat split; auto. apply show_truthy_inj; assumption.
Qed.

Lemma roomDayTime_key_injective s1 s2 key :
  separable s1 -> separable s2 ->
  roomDayTime_key s1 = Some key -> roomDayTime_key s2 = Some key ->
  same_room s1 s2.
Proof.
  intros (W1 & T1 & _) (W2 & T2 & _). unfold roomDayTime_key.
  destruct (isOccupied s1); simpl; [|discriminate].
  destruct (isOccupied s2); simpl; [|discriminate].
  intros E1 E2. rewrite <- E2 in E1. inversion E1 as [E].
  destruct (key_injective _ _ _ _ _ _ W1 T1 W2 T2 E) as (Ea & Eb & Ec).
  repeat split; auto.
Qed.

Lemma agreeing_marks agree sched sched' ids :
  (forall s1 s1' s2 s2',
     slot_marks s1 s1' -> slot_marks s2 s2' -> agree s1 s2 -> agree s1' s2') ->
  Forall2 slot_marks sched sched' ->
  agreeing agree sched ids -> agreeing agree sched' ids.
Proof.
  intros Hinv HF (positions & Hnd & Hlen & Hids & Hag).
  exists positions. repeat split; auto.
  - rewrite (deref_ids_marks _ _ positions HF). exact Hids.
  - intros i j si' sj' Hi Hj Hsi Hsj.
    destruct (Forall2_nth_r _ _ _ HF _ _ Hsi) as (si & Hsi0 & Ri).
    destruct (Forall2_nth_r _ _ _ HF _ _ Hsj) as (sj & Hsj0 & Rj).
    apply (Hinv si si' sj sj' Ri Rj). apply (Hag i j); assumption.
Qed.

Lemma same_booking_marks s1 s1' s2 s2' :
  slot_marks s1 s1' -> slot_marks s2 s2' ->
  same_booking s1 s2 -> same_booking s1' s2'.
Proof.
  unfold slot_marks, same_booking.
  intros (_ & _ & _ & A4 & A5 & _ & _ & _ & A9 & _)
         (_ & _ & _ & B4 & B5 & _ & _ & _ & B9 & _) (E1 & E2 & E3).
  repeat split; congruence.
Qed.

Lemma same_room_marks s1 s1' s2 s2' :
  slot_marks s1 s1' -> slot_marks s2 s2' ->
  same_room s1 s2 -> same_room s1' s2'.
Proof.
  unfold slot_marks, same_room.
  intros (_ & A2 & A3 & A4 & _) (_ & B2 & B3 & B4 & _) (E1 & E2 & E3).
  repeat split; congruence.
Qed.

Lemma well_grouped_marks sched sched' c :
  Forall2 slot_marks sched sched' ->
  well_grouped sched c -> well_grouped sched' c.
Proof.
  intros HF. destruct c; simpl; auto.
  - apply agreeing_marks; [apply same_booking_marks|exact HF].
  - apply agreeing_marks; [apply same_room_marks|exact HF].
Qed.

Lemma separable_marks sched sched' :
  Forall2 slot_marks sched sched' ->
  Forall separable sched -> Forall separable sched'.
Proof.
  induction 1 as [|s s' l l' R _ IH]; intros H; [constructor|].
  inversion H as [|? ? Hs Hl]; subst. constructor; [|apply IH, Hl].
  destruct R as (_ & _ & R3 & R4 & R5 & _). unfold separable.
  rewrite R3, R4, R5. exact Hs.
Qed.

Lemma separable_renames sched sched' :
  Forall2 slot_renames sched sched' ->
  Forall separable sched -> Forall separable sched'.
Proof.
  induction 1 as [|s s' l l' R _ IH]; intros H; [constructor|].
  inversion H as [|? ? Hs Hl]; subst. constructor; [|apply IH, Hl].
  destruct R as (_ & _ & R3 & R4 & R5 & _). unfold separable.
  rewrite R3, R4, R5. exact Hs.
Qed.

(** The members of a group agree, when keys can be read back. *)
Lemma grouped_agreeing key_of agree sched obj key refs :
  (forall s1 s2 k,
     separable s1 -> separable s2 ->
     key_of s1 = Some k -> key_of s2 = Some k -> agree s1 s2) ->
  Forall separable sched ->
  grouped key_of sched (List.length sched) obj ->
  In (key, refs) obj -> 1 < List.length refs ->
  agreeing agree sched (map slot_id (deref sched refs)).
Proof.
  intros Hinj Hsep (_ & Hin & _) Hobj Hlen.
  destruct (Hin _ _ Hobj) as (Hrefs & _ & _).
  exists refs. repeat split; auto.
  - rewrite Hrefs. apply members_NoDup.
  - intros i j si sj Hi Hj Hsi Hsj.
    rewrite Hrefs in Hi, Hj.
    apply members_spec in Hi. apply members_spec in Hj.
    destruct Hi as [_ Hki]. destruct Hj as [_ Hkj].
    unfold key_at in Hki, Hkj. rewrite Hsi in Hki. rewrite Hsj in Hkj.
    rewrite Forall_forall in Hsep.
    apply (Hinj si sj key); auto.
    + apply Hsep. apply (nth_error_In _ _ Hsi).
    + apply Hsep. apply (nth_error_In _ _ Hsj).
Qed.

Lemma group_slots_agree key_of agree sched obj :
  (forall s1 s2 k,
     separable s1 -> separable s2 ->
     key_of s1 = Some k -> key_of s2 = Some k -> agree s1 s2) ->
  Forall separable sched ->
  group_slots key_of sched = Some obj ->
  groups_agree agree sched obj.
Proof.
  intros Hinj Hsep Hobj. pose proof (group_slots_grouped key_of sched) as Hg.
  rewrite Hobj in Hg. destruct Hg as (_ & Hin & _).
  intros key refs i j si sj Hk Hi Hj Hsi Hsj.
  destruct (Hin _ _ Hk) as (Hrefs & _ & _). rewrite Hrefs in Hi, Hj.
  apply members_spec in Hi. apply members_spec in Hj.
  destruct Hi as [_ Hki]. destruct Hj as [_ Hkj].
  unfold key_at in Hki, Hkj. rewrite Hsi in Hki. rewrite Hsj in Hkj.
  rewrite Forall_forall in Hsep.
  apply (Hinj si sj key); auto.
  - apply Hsep. apply (nth_error_In _ _ Hsi).
  - apply Hsep. apply (nth_error_In _ _ Hsj).
Qed.

Lemma Forall_well_grouped_marks st st' l :
  marks st st' ->
  Forall (well_grouped (schedule (data st))) l ->
  Forall (well_grouped (schedule (data st'))) l.
Proof.
  intros M. apply Forall_impl. intros c.
  apply well_grouped_marks, (marks_schedule _ _ M).
Qed.

Lemma detectScheduleConflicts_well_grouped st professionals appointments :
  Forall separable (schedule (data st)) ->
  Forall (well_grouped (schedule (data st))) (conflicts (this st)) ->
  let st' := final (_detectScheduleConflicts st professionals appointments) in
  Forall (well_grouped (schedule (data st'))) (conflicts (this st')).
Proof.
  intros Hsep Hold st'. subst st'.
  pose proof (detectScheduleConflicts_cases st professionals appointments) as H.
  destruct (_detectScheduleConflicts st professionals appointments)
    as [st'|st']; simpl.
  2:{ destruct H as [-> _]. exact Hold. }
  destruct H as (obj & _ & Hg & ->).
  destruct (report_fold _ _ report_double_booking_spec obj st
              (grouped_valid _ _ _ profDayTime_key_occupied Hg))
    as (M1 & (news & C1 & F1) & _).
  set (st1 := fold_left report_double_booking obj st) in *.
  assert (H1 : Forall (well_grouped (schedule (data st1)))
                 (conflicts (this st1))).
  { apply (Forall_well_grouped_marks _ _ _ M1). rewrite C1.
    apply Forall_app. split; [exact Hold|].
    refine (Forall_impl _ _ F1).
    intros c (K & key & refs & Hobj & Hlen & Hids).
    destruct c; simpl in K; try contradiction. simpl in Hids. simpl.
    rewrite Hids.
    apply (grouped_agreeing profDayTime_key same_booking _ obj key refs);
      auto.
    intros s1 s2 k S1 S2. apply profDayTime_key_injective; assumption. }
  destruct (check_existing_visited appointments st1) as (_ & C2 & _).
  assert (M2 : marks st1 (forEach_slot (check_existing appointments) st1)).
  { apply forEach_slot_marks. intros i slot st''. apply check_existing_marks. }
  apply (Forall_well_grouped_marks _ _ _ M2). rewrite C2.
  apply Forall_app. split; [exact H1|].
  apply Forall_forall. intros c Hc.
  apply in_flat_map in Hc. destruct Hc as (s & _ & Hc).
  unfold existing_conflicts in Hc.
  destruct (colliding_appointments appointments s); [contradiction|].
  destruct Hc as [<-|[]]. exact I.
Qed.

Lemma detectDuplicateRoomsOrTimes_well_grouped st :
  Forall separable (schedule (data st)) ->
  Forall (well_grouped (schedule (data st))) (conflicts (this st)) ->
  let st' := final (_detectDuplicateRoomsOrTimes st) in
  Forall (well_grouped (schedule (data st'))) (conflicts (this st')).
Proof.
  intros Hsep Hold st'. subst st'.
  pose proof (detectDuplicateRoomsOrTimes_cases st) as H.
  destruct (_detectDuplicateRoomsOrTimes st) as [st'|st']; simpl.
  2:{ destruct H as [-> _]. exact Hold. }
  destruct H as (obj & _ & Hg & ->).
  destruct (report_fold _ _ report_duplicate_room_spec obj st
              (grouped_valid _ _ _ roomDayTime_key_occupied Hg))
    as (M1 & (news & C1 & F1) & _).
  apply (Forall_well_grouped_marks _ _ _ M1). rewrite C1.
  apply Forall_app. split; [exact Hold|].
  refine (Forall_impl _ _ F1).
  intros c (K & key & refs & Hobj & Hlen & Hids).
  destruct c; simpl in K; try contradiction. simpl in Hids. simpl.
  rewrite Hids.
  apply (grouped_agreeing roomDayTime_key same_room _ obj key refs); auto.
  intros s1 s2 k S1 S2. apply roomDayTime_key_injective; assumption.
Qed.

Lemma checkInactive_well_grouped st professionals :
  Forall (well_grouped (schedule (data st))) (conflicts (this st)) ->
  let st' := _checkInactiveProfessionals st professionals in
  Forall (well_grouped (schedule (data st'))) (conflicts (this st')).
Proof.
  intros Hold st'. subst st'.
  destruct (checkInactive_visited professionals st) as (_ & C & _).
  apply (Forall_well_grouped_marks _ _ _ (checkInactive_marks st professionals)).
  rewrite C. apply Forall_app. split; [exact Hold|].
  apply Forall_forall. intros c Hc.
  apply in_flat_map in Hc. destruct Hc as (s & _ & Hc).
  unfold inactive_conflicts in Hc.
  destruct (inactive_professional_of professionals s); [|contradiction].
  destruct Hc as [<-|[]]. exact I.
Qed.

Lemma detect_well_grouped st professionals appointments :
  Forall separable (schedule (data st)) ->
  Forall (well_grouped (schedule (data st))) (conflicts (this st)) ->
  let st' := final (detect st professionals appointments) in
  Forall (well_grouped (schedule (data st'))) (conflicts (this st')).
Proof.
  intros Hsep Hold st'. subst st'. unfold detect.
  pose proof (detectScheduleConflicts_well_grouped st professionals
                appointments Hsep Hold) as H1.
  pose proof (detectScheduleConflicts_marks st professionals appointments)
    as M1.
  destruct (_detectScheduleConflicts st professionals appointments)
    as [st1|st1]; simpl in *; [|exact H1].
  pose proof (separable_marks _ _ (marks_schedule _ _ M1) Hsep) as Hsep1.
  pose proof (detectDuplicateRoomsOrTimes_well_grouped st1 Hsep1 H1) as H2.
  destruct (_detectDuplicateRoomsOrTimes st1) as [st2|st2]; simpl in *;
    [|exact H2].
  apply checkInactive_well_grouped. exact H2.
Qed.

(** ** Keys that are no inherited property names *)

Lemma last_app_cons {A} (l r : list A) (x d : A) :
  last (l ++ x :: r) d = last (x :: r) d.
Proof.
  induction l as [|a l IH]; [reflexivity|].
  change ((a :: l) ++ x :: r) with (a :: (l ++ x :: r)).
  destruct (l ++ x :: r) eqn:E.
  - destruct l; discriminate.
  - rewrite <- IH. reflexivity.
Qed.

Lemma last_In {A} (l : list A) (x d : A) : In (last (x :: l) d) (x :: l).
Proof.
  revert x. induction l as [|a l IH]; intros x.
  - left. reflexivity.
  - right. apply (IH a).
Qed.

(** The inherited names that hold an underscore end with one. *)
Lemma inherited_underscore key :
  Js.inherited key = true -> In "_"%char (chars key) ->
  last (chars key) "_"%char = "_"%char.
Proof.
  unfold Js.inherited. intros H Hin. apply existsb_exists in H.
  destruct H as (x & Hx & E). apply String.eqb_eq in E. subst x.
  unfold Js.Object_prototype_names in Hx. simpl in Hx.
  repeat (destruct Hx as [<-|Hx];
          [first [reflexivity
                 |exfalso; simpl in Hin; intuition discriminate]|]).
  contradiction.
Qed.

(** A key that ends with an underscore and a plain time is not inherited. *)
Lemma plain_suffix_not_inherited key (x : list ascii) (t : string) :
  chars key = x ++ "_"%char :: chars t ->
  t <> EmptyString -> underscore_free t -> Js.inherited key = false.
Proof.
  intros E Hne Hfree. destruct (Js.inherited key) eqn:Hi; [|reflexivity].
  exfalso. apply inherited_underscore in Hi.
  - rewrite E, last_app_cons in Hi. destruct t as [|c t]; [congruence|].
    apply Hfree. simpl chars in *.
    change (last ("_"%char :: c :: chars t) "_"%char)
      with (last (c :: chars t) "_"%char) in Hi.
    rewrite <- Hi. apply last_In.
  - rewrite E. apply in_or_app. right. left. reflexivity.
Qed.

Lemma profDayTime_key_plain slot key :
  plain_time slot -> profDayTime_key slot = Some key ->
  Js.inherited key = false.
Proof.
  intros [Hne Hfree]. unfold profDayTime_key.
  destruct (negb (isOccupied slot) || negb (Js.truthy (professionalId slot)));
    [discriminate|].
  intros E. inversion E as [Ek].
  apply (plain_suffix_not_inherited _
           (chars (Js.show (professionalId slot)) ++ "_"%char
            :: chars (appointmentDate slot)) (time slot)); auto.
  rewrite chars_app. simpl. rewrite chars_app. simpl.
  rewrite <- app_assoc. reflexivity.
Qed.

Lemma roomDayTime_key_plain slot key :
  plain_time slot -> roomDayTime_key slot = Some key ->
  Js.inherited key = false.
Proof.
  intros [Hne Hfree]. unfold roomDayTime_key.
  destruct (isOccupied slot); simpl; [|discriminate].
  intros E. inversion E as [Ek].
  apply (plain_suffix_not_inherited _
           (chars (roomName slot) ++ "_"%char :: chars (dayOfWeek slot))
           (time slot)); auto.
  rewrite chars_app. simpl. rewrite chars_app. simpl.
  rewrite <- app_assoc. reflexivity.
Qed.

Lemma plain_time_marks sched sched' :
  Forall2 slot_marks sched sched' ->
  Forall plain_time sched -> Forall plain_time sched'.
Proof.
  induction 1 as [|s s' l l' Hr _ IH]; intros Hp; [constructor|].
  inversion Hp as [|? ? Hs Hl]; subst. constructor; [|apply IH; exact Hl].
  destruct Hr as (_ & _ & _ & Ht & _). unfold plain_time. rewrite Ht.
  exact Hs.
Qed.

Lemma plain_time_renames sched sched' :
  Forall2 slot_renames sched sched' ->
  Forall plain_time sched -> Forall plain_time sched'.
Proof.
  induction 1 as [|s s' l l' Hr _ IH]; intros Hp; [constructor|].
  inversion Hp as [|? ? Hs Hl]; subst. constructor; [|apply IH; exact Hl].
  destruct Hr as (_ & _ & _ & Ht & _). unfold plain_time. rewrite Ht.
  exact Hs.
Qed.

Lemma key_at_plain key_of sched j key :
  (forall slot k, plain_time slot -> key_of slot = Some k ->
                  Js.inherited k = false) ->
  Forall plain_time sched ->
  key_at key_of sched j = Some key -> Js.inherited key = false.
Proof.
  intros Hk Hp Hj. destruct (key_at_Some _ _ _ _ Hj) as (slot & Hs & E).
  apply (Hk slot key); [|exact E].
  rewrite Forall_forall in Hp. apply Hp. apply (nth_error_In _ _ Hs).
Qed.

Lemma detectScheduleConflicts_returns st professionals appointments :
  Forall plain_time (schedule (data st)) ->
  exists st', _detectScheduleConflicts st professionals appointments
              = Returns st'.
Proof.
  intros Hp.
  pose proof (detectScheduleConflicts_cases st professionals appointments) as H.
  destruct (_detectScheduleConflicts st professionals appointments) as [st'|st'].
  - exists st'. reflexivity.
  - destruct H as (_ & j & key & _ & Hj & Hi).
    rewrite (key_at_plain _ _ _ _ profDayTime_key_plain Hp Hj) in Hi.
    discriminate.
Qed.

Lemma detectDuplicateRoomsOrTimes_returns st :
  Forall plain_time (schedule (data st)) ->
  exists st', _detectDuplicateRoomsOrTimes st = Returns st'.
Proof.
  intros Hp. pose proof (detectDuplicateRoomsOrTimes_cases st) as H.
  destruct (_detectDuplicateRoomsOrTimes st) as [st'|st'].
  - exists st'. reflexivity.
  - destruct H as (_ & j & key & _ & Hj & Hi).
    rewrite (key_at_plain _ _ _ _ roomDayTime_key_plain Hp Hj) in Hi.
    discriminate.
Qed.

(** ** Where the entries for inactive professionals come from *)

Lemma not_inactive_entry_for id l :
  Forall (fun c => is_inactive_entry c = false) l ->
  filter (is_inactive_entry_for id) l = [].
Proof.
  intros H. apply filter_none. intros c Hc.
  rewrite Forall_forall in H. specialize (H c Hc).
  destruct c; simpl in *; congruence.
Qed.

Lemma detectScheduleConflicts_kinds st professionals appointments :
  Forall (fun c => is_inactive_entry c = false) (conflicts (this st)) ->
  Forall (fun c => is_inactive_entry c = false)
    (conflicts
       (this (final (_detectScheduleConflicts st professionals appointments)))).
Proof.
  intros Hold.
  pose proof (detectScheduleConflicts_cases st professionals appointments) as H.
  destruct (_detectScheduleConflicts st professionals appointments)
    as [st'|st']; simpl.
  2:{ destruct H as [-> _]. exact Hold. }
  destruct H as (obj & _ & Hg & ->).
  destruct (report_fold _ _ report_double_booking_spec obj st
              (grouped_valid _ _ _ profDayTime_key_occupied Hg))
    as (_ & (news & C1 & F1) & _).
  destruct (check_existing_visited appointments
              (fold_left report_double_booking obj st)) as (_ & C2 & _).
  rewrite C2, C1. repeat (apply Forall_app; split); [exact Hold| |].
  - refine (Forall_impl _ _ F1). intros c (K & _).
    destruct c; simpl in K; try contradiction. reflexivity.
  - apply Forall_forall. intros c Hc.
    apply in_flat_map in Hc. destruct Hc as (s & _ & Hc).
    unfold existing_conflicts in Hc.
    destruct (colliding_appointments appointments s); [contradiction|].
    destruct Hc as [<-|[]]. reflexivity.
Qed.

Lemma detectDuplicateRoomsOrTimes_kinds st :
  Forall (fun c => is_inactive_entry c = false) (conflicts (this st)) ->
  Forall (fun c => is_inactive_entry c = false)
    (conflicts (this (final (_detectDuplicateRoomsOrTimes st)))).
Proof.
  intros Hold. pose proof (detectDuplicateRoomsOrTimes_cases st) as H.
  destruct (_detectDuplicateRoomsOrTimes st) as [st'|st']; simpl.
  2:{ destruct H as [-> _]. exact Hold. }
  destruct H as (obj & _ & Hg & ->).
  destruct (report_fold _ _ report_duplicate_room_spec obj st
              (grouped_valid _ _ _ roomDayTime_key_occupied Hg))
    as (_ & (news & C1 & F1) & _).
  rewrite C1. apply Forall_app. split; [exact Hold|].
  refine (Forall_impl _ _ F1). intros c (K & _).
  destruct c; simpl in K; try contradiction. reflexivity.
Qed.

Lemma slot_ids_marks sched sched' :
  Forall2 slot_marks sched sched' -> map slot_id sched' = map slot_id sched.
Proof.
  induction 1 as [|s s' l l' R _ IH]; [reflexivity|].
  simpl. rewrite IH. f_equal. apply R.
Qed.

Lemma slot_ids_renames sched sched' :
  Forall2 slot_renames sched sched' -> map slot_id sched' = map slot_id sched.
Proof.
  induction 1 as [|s s' l l' R _ IH]; [reflexivity|].
  simpl. rewrite IH. f_equal. apply R.
Qed.

Lemma inactive_professional_of_mark professionals slot :
  inactive_professional_of professionals (inactive_mark professionals slot)
  = inactive_professional_of professionals slot.
Proof.
  unfold inactive_mark.
  destruct (inactive_professional_of professionals slot) eqn:E;
    [|exact E].
  rewrite <- E. reflexivity.
Qed.

(** * The claims *)

(** ** C6 *)

(** C6. For all strings [a] and [b], [_levenshteinDistance a b] is the classic
    Levenshtein edit distance: it equals the reference recursive definition
    [lev], it is the cost of an edit script that turns [a] into [b] by
    single-character insertions, deletions and substitutions of cost 1 each,
    and no edit script from [a] to [b] costs less. *)
Theorem levenshteinDistance_is_edit_distance (a b : string) :
  _levenshteinDistance a b = lev (chars a) (chars b)
  /\ edit_script (chars a) (chars b) (_levenshteinDistance a b)
  /\ forall n, edit_script (chars a) (chars b) n -> _levenshteinDistance a b <= n.
Proof.
  rewrite levenshteinDistance_lev. split; [reflexivity|]. split.
  - apply lev_is_script.
  - intros n. apply lev_le_script.
Qed.

(** ** C7 *)

(** C7. For all strings [a] and [b], [_calculateSimilarity a b] lies in the
    closed interval from 0 to 1; the similarity of a string with itself is 1;
    and the similarity of two empty strings is 1. *)
Theorem similarity_bounds (a b : string) :
  (0 <= _calculateSimilarity a b)%Q /\ (_calculateSimilarity a b <= 1)%Q
  /\ (_calculateSimilarity a a == 1)%Q
  /\ _calculateSimilarity EmptyString EmptyString = 1%Q.
Proof.
  assert (Hgen : forall x y,
            (0 <= _calculateSimilarity x y)%Q
            /\ (_calculateSimilarity x y <= 1)%Q).
  { intros x y. unfold _calculateSimilarity.
    set (longer := if String.length y <? String.length x then x else y).
    set (shorter := if String.length y <? String.length x then y else x).
    destruct (String.length longer =? 0) eqn:E0.
    - split; [discriminate|apply Qle_refl].
    - apply Nat.eqb_neq in E0.
      pose proof (levenshteinDistance_le_longer longer shorter) as Hd.
      assert (Hmax : Nat.max (String.length longer) (String.length shorter)
                     = String.length longer).
      { unfold longer, shorter.
        destruct (String.length y <? String.length x) eqn:Ec.
        - apply Nat.ltb_lt in Ec. lia.
        - apply Nat.ltb_ge in Ec. lia. }
      rewrite Hmax in Hd. apply quotient_bounds; lia. }
  destruct (Hgen a b) as [H0 H1]. repeat split; auto.
  unfold _calculateSimilarity. rewrite Nat.ltb_irrefl.
  destruct (String.length a =? 0) eqn:E0; [reflexivity|].
  apply Nat.eqb_neq in E0. rewrite levenshteinDistance_same.
  simpl Z.of_nat. rewrite Z.sub_0_r. apply quotient_one. lia.
Qed.

(** ** C5 *)

(** C5. The fuzzy rule of [_findClosestMatch] compares with 0.80 strictly.
    Take a registry entry [r] that is reached by the scan (no entry equals
    the candidate, no earlier entry satisfies a rule) and that is not in a
    containment relation with the candidate.  If its similarity to the
    candidate is exactly 0.80, the entry is passed over: the result is the
    one the registry without [r] gives.  If its similarity exceeds 0.80, the
    entry is returned. *)
Theorem threshold_is_strict (name r : string) (pre post : list string) :
  let n := normalize name in
  ~ In n (pre ++ r :: post) ->
  (forall e, In e pre -> passes n e = false) ->
  contains_either n r = false ->
  ((_calculateSimilarity n r == 8 # 10)%Q ->
   _findClosestMatch name (pre ++ r :: post)
   = _findClosestMatch name (pre ++ post))
  /\ ((8 # 10 < _calculateSimilarity n r)%Q ->
      _findClosestMatch name (pre ++ r :: post) = Some r).
Proof.
  intros n Hexact Hpre Hcont.
  assert (Hfind : forall l, ~ In n l -> find (fun e => String.eqb e n) l = None).
  { intros l Hl. destruct (find (fun e => String.eqb e n) l) as [e|] eqn:E;
      [|reflexivity].
    apply find_some in E. destruct E as [Hin He].
    apply String.eqb_eq in He. subst e. contradiction. }
  unfold _findClosestMatch. fold n. split.
  - intros Hsim.
    rewrite (Hfind _ Hexact), Hfind.
    2:{ intros Hin. apply Hexact. apply in_app_or in Hin.
        apply in_or_app. destruct Hin; [left|right; right]; assumption. }
    simpl. rewrite !(closest_scan_skip n pre) by exact Hpre.
    apply closest_scan_miss. unfold passes. rewrite Hcont. simpl.
    apply above_threshold_false. rewrite Hsim. apply Qle_refl.
  - intros Hsim. rewrite (Hfind _ Hexact). simpl.
    rewrite (closest_scan_skip n pre) by exact Hpre.
    apply closest_scan_hit. unfold passes. rewrite Hcont. simpl.
    apply above_threshold_true. exact Hsim.
Qed.

(** At similarity 4/5 the entry is not a match; at 5/6 it is. *)
Lemma threshold_is_strict_witness :
  ((_calculateSimilarity (normalize "Abcde") "abcdx" == 8 # 10)%Q
   /\ _findClosestMatch "Abcde" ["abcdx"%string] = None)
  /\ ((8 # 10 < _calculateSimilarity (normalize "Abcdef") "abcdex")%Q
      /\ _findClosestMatch "Abcdef" ["abcdex"%string] = Some "abcdex"%string).
Proof.
  assert (E1 : (_calculateSimilarity (normalize "Abcde") "abcdx" == 8 # 10)%Q)
    by (vm_compute; reflexivity).
  assert (E2 : (8 # 10 < _calculateSimilarity (normalize "Abcdef") "abcdex")%Q)
    by (vm_compute; reflexivity).
  split; (split; [assumption|]).
  - refine (proj1 (threshold_is_strict "Abcde" "abcdx" [] [] _ _ _) E1).
    + vm_compute. intros [H|[]]. discriminate.
    + intros e [].
    + vm_compute. reflexivity.
  - refine (proj2 (threshold_is_strict "Abcdef" "abcdex" [] [] _ _ _) E2).
    + vm_compute. intros [H|[]]. discriminate.
    + intros e [].
    + vm_compute. reflexivity.
Defined.

(** ** C2 *)

(** C2 as stated fails: the candidate "maria silva" is contained in the
    second registry entry and only similar (10/11) to the first, and the
    first entry is returned. *)
Lemma similar_entry_before_containing_entry :
  let registry := ["maria silvo"; "maria silva santos"]%string in
  let n := normalize "Maria Silva" in
  ~ In n registry
  /\ contains_either n "maria silvo" = false
  /\ above_threshold (_calculateSimilarity n "maria silvo") = true
  /\ contains_either n "maria silva santos" = true
  /\ _findClosestMatch "Maria Silva" registry = Some "maria silvo"%string
  /\ _findClosestMatch "Maria Silva" registry
     <> Some "maria silva santos"%string.
Proof.
  vm_compute. repeat split; try discriminate.
  intros [H|[H|[]]]; discriminate.
Qed.

(** C2, amended. Exact equality is a pass of its own: a candidate that is
    (after normalisation) a non-empty registry entry is returned whatever
    the order of the registry.  When no entry equals the candidate, the
    registry is scanned once, in the given order, and each entry is tested
    for containment (either direction) and then for a similarity above 0.80
    before the next entry is looked at: the first entry that passes either
    test is returned, and none is returned when no entry passes. *)
Theorem findClosestMatch_single_scan (name : string) (registry : list string) :
  let n := normalize name in
  (In n registry -> n <> EmptyString -> _findClosestMatch name registry = Some n)
  /\ (forall i ei,
        ~ In n registry ->
        nth_error registry i = Some ei ->
        passes n ei = true ->
        (forall k ek, k < i -> nth_error registry k = Some ek ->
                      passes n ek = false) ->
        _findClosestMatch name registry = Some ei)
  /\ (~ In n registry ->
      (forall e, In e registry -> passes n e = false) ->
      _findClosestMatch name registry = None).
Proof.
  intros n.
  assert (Hfind : ~ In n registry ->
                  find (fun e => String.eqb e n) registry = None).
  { intros Hl.
    destruct (find (fun e => String.eqb e n) registry) as [e|] eqn:E;
      [|reflexivity].
    apply find_some in E. destruct E as [Hin He].
    apply String.eqb_eq in He. subst e. contradiction. }
  unfold _findClosestMatch. fold n. split; [|split].
  - intros Hin Hne.
    destruct (find (fun e => String.eqb e n) registry) as [e|] eqn:E.
    + apply find_some in E. destruct E as [_ He].
      apply String.eqb_eq in He. subst e. simpl. unfold Js.truthy_string.
      apply String.eqb_neq in Hne. rewrite Hne. reflexivity.
    + exfalso. apply (find_none _ _ E) in Hin.
      rewrite String.eqb_refl in Hin. discriminate.
  - intros i ei Hno Hi Hpass Hbefore. rewrite (Hfind Hno). simpl.
    destruct (nth_error_split registry i Hi) as (pre & post & -> & Hlen).
    rewrite (closest_scan_skip n pre).
    + apply closest_scan_hit, Hpass.
    + intros e He. apply In_nth_error in He. destruct He as [k Hk].
      apply (Hbefore k e).
      * subst i. apply nth_error_Some. congruence.
      * rewrite nth_error_app1; [exact Hk|].
        apply nth_error_Some. congruence.
  - intros Hno Hall. rewrite (Hfind Hno). simpl.
    rewrite <- (app_nil_r registry). apply (closest_scan_skip n registry []).
    exact Hall.
Qed.

(** The amended statement on the registry of the counterexample: the first
    entry passes the similarity test and is returned. *)
Lemma findClosestMatch_single_scan_witness :
  _findClosestMatch "Maria Silva" ["maria silvo"; "maria silva santos"]%string
  = Some "maria silvo"%string.
Proof.
  apply (proj1 (proj2 (findClosestMatch_single_scan "Maria Silva"
                         ["maria silvo"; "maria silva santos"]%string)) 0).
  - vm_compute. intros [H|[H|[]]]; discriminate.
  - reflexivity.
  - vm_compute. reflexivity.
  - intros k ek Hk. inversion Hk.
Defined.

(** ** C1 *)

(** C1 as stated fails: two occupied slots carry the unregistered name
    "dr house" (after normalisation); one synthetic professional is created
    and the first slot refers to it, but the second slot is left without a
    professional identifier. *)
Lemma second_slot_is_not_linked :
  let s1 := example_slot "s1" "Sala 1" "08:00" (Some "Dr House"%string) None in
  let s2 := example_slot "s2" "Sala 2" "09:00" (Some "dr house "%string) None in
  let st' :=
    final (processImportedData example_env (mkRoomImportData [s1; s2] [] [])
             [ana] []) in
  named "dr house" s1 = true /\ named "dr house" s2 = true
  /\ existsb (String.eqb "dr house") (registeredProfessionals_of [ana]) = false
  /\ _findClosestMatch "dr house" (registeredProfessionals_of [ana]) = None
  /\ List.length (newProfessionals (data st')) = 1
  /\ map professionalId (schedule (data st'))
     = [Some "ai_new_prof_1700000000000_0.5"%string; None]
  /\ ~ (exists p,
          forall s, In s (schedule (data st')) ->
                    professionalId s = Some (prof_id p)).
Proof.
  vm_compute. repeat split.
  intros (p & H).
  specialize (H _ (or_intror (or_introl eq_refl))). discriminate.
Qed.

(** C1, amended. When occupied slots carry a professional name that, once
    normalised, is neither in the registry nor matched by [_findClosestMatch]
    and is not among the incoming new professionals, a run creates exactly
    one synthetic professional of that name, and the first of those slots in
    schedule order refers to it by the end of the run; the later slots of
    that name keep the professional identifier they came with. *)
Theorem synthetic_professional_once (env : Environment)
  (roomImportData : RoomImportData) (professionals : list Professional)
  (appointments : list Appointment) (n : string) (i : nat) (slot : Slot) :
  existsb (String.eqb n) (registeredProfessionals_of professionals) = false ->
  Js.truthy (_findClosestMatch n (registeredProfessionals_of professionals))
  = false ->
  called n (newProfessionals roomImportData) = [] ->
  nth_error (schedule roomImportData) i = Some slot ->
  named n slot = true ->
  (forall j s, j < i -> nth_error (schedule roomImportData) j = Some s ->
               named n s = false) ->
  let st' :=
    final (processImportedData env roomImportData professionals appointments) in
  exists created p,
    newProfessionals (data st') = newProfessionals roomImportData ++ created
    /\ called n created = [p]
    /\ (exists slot',
          nth_error (schedule (data st')) i = Some slot'
          /\ professionalId slot' = Some (prof_id p))
    /\ (forall j s, j <> i ->
          nth_error (schedule roomImportData) j = Some s -> named n s = true ->
          exists s',
            nth_error (schedule (data st')) j = Some s'
            /\ professionalId s' = professionalId s).
Proof.
  intros Hreg Hmatch Hnew Hs Hnamed Hfirst st'. subst st'.
  rewrite processImportedData_detect.
  destruct (validateNames_synthetic env professionals appointments n Hreg
              Hmatch (start roomImportData) i slot Hnew Hs Hnamed Hfirst)
    as (created & p & HN & Hc & (slot1 & Hs1 & Hid1) & Hothers).
  set (st1 := _validateNames env (start roomImportData) professionals
                appointments) in *.
  pose proof (detect_marks st1 professionals appointments) as M.
  exists created, p. split; [|split; [exact Hc|split]].
  - rewrite (marks_newProfessionals _ _ M). exact HN.
  - destruct (Forall2_nth _ _ _ (marks_schedule _ _ M) _ _ Hs1)
      as (slot' & Hs' & Hr).
    exists slot'. split; [exact Hs'|].
    destruct Hr as (_ & _ & _ & _ & _ & _ & _ & _ & R9 & _). congruence.
  - intros j s Hj Hsj Hnj.
    destruct (Hothers j s Hj Hsj Hnj) as (s1 & Hs1j & Hid).
    destruct (Forall2_nth _ _ _ (marks_schedule _ _ M) _ _ Hs1j)
      as (s' & Hs' & Hr).
    exists s'. split; [exact Hs'|].
    destruct Hr as (_ & _ & _ & _ & _ & _ & _ & _ & R9 & _). congruence.
Qed.

(** The amended statement on the schedule of the counterexample. *)
Lemma synthetic_professional_once_witness :
  let s1 := example_slot "s1" "Sala 1" "08:00" (Some "Dr House"%string) None in
  let s2 := example_slot "s2" "Sala 2" "09:00" (Some "dr house "%string) None in
  let st' :=
    final (processImportedData example_env (mkRoomImportData [s1; s2] [] [])
             [ana] []) in
  exists created p,
    newProfessionals (data st') = [] ++ created
    /\ called "dr house" created = [p]
    /\ (exists slot',
          nth_error (schedule (data st')) 0 = Some slot'
          /\ professionalId slot' = Some (prof_id p))
    /\ (forall j s, j <> 0 ->
          nth_error [s1; s2] j = Some s -> named "dr house" s = true ->
          exists s',
            nth_error (schedule (data st')) j = Some s'
            /\ professionalId s' = professionalId s).
Proof.
  intros s1 s2.
  apply (synthetic_professional_once example_env
           (mkRoomImportData [s1; s2] [] []) [ana] [] "dr house" 0 s1).
  - reflexivity.
  - reflexivity.
  - reflexivity.
  - reflexivity.
  - reflexivity.
  - intros j s Hj. inversion Hj.
Defined.

(** ** C3 *)

(** C3 on an input the grouping object cannot hold: two occupied slots
    agree on (professionalId, appointmentDate, time) = ("_", "proto", "_"),
    so their key is [__proto__], a property every object inherits; the
    [push] throws a [TypeError] out of [processImportedData], no conflict is
    recorded and no slot is flagged. *)
Lemma inherited_key_throws :
  let s1 :=
    mkSlot "s1" "Sala 1" "Segunda" "_" "proto" true None None (Some "_"%string)
      None None None in
  let s2 :=
    mkSlot "s2" "Sala 2" "Segunda" "_" "proto" true None None (Some "_"%string)
      None None None in
  booked s1 /\ booked s2 /\ same_booking s1 s2
  /\ profDayTime_key s1 = Some "__proto__"%string
  /\ exists st,
       processImportedData example_env (mkRoomImportData [s1; s2] [] []) [] []
       = Throws st
       /\ conflicts (this st) = []
       /\ map hasScheduleConflict (schedule (data st)) = [None; None].
Proof.
  vm_compute. repeat split. eexists. repeat split.
Qed.

(** Completeness of the double-booking detection for the runs that return:
    every set of two or more occupied slots with a non-empty professional
    identifier that agree on (professionalId, appointmentDate, time) is
    covered by one conflict of type 'Profissional em Multiplas Salas' whose
    slot list holds the identifier of every slot of the set, and every slot
    of the set is flagged. *)
Theorem double_booking_reported (env : Environment)
  (roomImportData : RoomImportData) (professionals : list Professional)
  (appointments : list Appointment) (st' : State) (positions : list nat) :
  processImportedData env roomImportData professionals appointments
  = Returns st' ->
  NoDup positions -> 2 <= List.length positions ->
  (forall i, In i positions ->
     exists slot, nth_error (schedule (data st')) i = Some slot /\ booked slot) ->
  (forall i j si sj, In i positions -> In j positions ->
     nth_error (schedule (data st')) i = Some si ->
     nth_error (schedule (data st')) j = Some sj -> same_booking si sj) ->
  exists c,
    In c (conflicts (this st')) /\ is_double_booking c
    /\ forall i slot, In i positions ->
         nth_error (schedule (data st')) i = Some slot ->
         In (slot_id slot) (conflict_slot_ids c)
         /\ hasScheduleConflict slot = Some true.
Proof.
  intros Hrun Hnd Hlen Hbooked Hagree.
  rewrite processImportedData_detect in Hrun.
  set (st1 := _validateNames env (start roomImportData) professionals
                appointments) in *.
  pose proof (detect_marks st1 professionals appointments) as M.
  rewrite Hrun in M. simpl in M.
  destruct (detect_returns _ _ _ _ Hrun) as (st2 & st3 & R2 & R3 & E).
  pose proof (detectDuplicateRoomsOrTimes_marks st2) as M3.
  rewrite R3 in M3. simpl in M3.
  pose proof (checkInactive_marks st3 professionals) as M4.
  rewrite <- E in M4.
  pose proof (marks_trans _ _ _ M3 M4) as M34.
  (* the slots of the set, as the detector saw them *)
  assert (Hback : forall i s', nth_error (schedule (data st')) i = Some s' ->
            exists s, nth_error (schedule (data st1)) i = Some s
                      /\ slot_marks s s').
  { intros i s' Hs'.
    apply (Forall2_nth_r _ _ _ (marks_schedule _ _ M) _ _ Hs'). }
  destruct positions as [|i0 rest] eqn:Hpos; [simpl in Hlen; lia|].
  rewrite <- Hpos in *.
  assert (Hi0 : In i0 positions) by (rewrite Hpos; left; reflexivity).
  destruct (Hbooked i0 Hi0) as (s0' & Hs0' & _).
  destruct (Hback i0 s0' Hs0') as (s0 & Hs0 & R0).
  destruct (detectScheduleConflicts_complete st1 professionals appointments
              st2 positions s0 R2 Hnd Hlen) as (c & Hc & Kc & Ic & Fc).
  { intros i Hi. destruct (Hbooked i Hi) as (s' & Hs' & Ho & Ht).
    destruct (Hback i s' Hs') as (s & Hs & R).
    exists s. split; [exact Hs|].
    pose proof (Hagree i0 i s0' s' Hi0 Hi Hs0' Hs') as (A1 & A2 & A3).
    destruct R as (_ & _ & _ & R4 & R5 & R6 & _ & _ & R9 & _).
    destruct R0 as (_ & _ & _ & Q4 & Q5 & _ & _ & _ & Q9 & _).
    unfold booked, same_booking. repeat split; congruence. }
  exists c. split; [apply (marks_conflict_In _ _ _ M34 Hc)|].
  split; [exact Kc|].
  intros i slot Hi Hs'. destruct (Hback i slot Hs') as (s & Hs & R). split.
  - destruct R as (R1 & _). rewrite R1. apply (Ic i s Hi Hs).
  - destruct (marks_flagged _ _ _ M34 (Fc i Hi)) as (s'' & Hs'' & Hf).
    congruence.
Qed.

(** Two slots of one professional at one time, in two rooms. *)
Lemma double_booking_reported_witness :
  let s1 := example_slot "s1" "Sala 1" "08:00" None (Some "p1"%string) in
  let s2 := example_slot "s2" "Sala 2" "08:00" None (Some "p1"%string) in
  exists c,
    In c (conflicts
            (this (final (processImportedData example_env
                            (mkRoomImportData [s1; s2] [] []) [ana] []))))
    /\ is_double_booking c
    /\ In "s1"%string (conflict_slot_ids c)
    /\ In "s2"%string (conflict_slot_ids c).
Proof.
  intros s1 s2.
  destruct (double_booking_reported example_env
              (mkRoomImportData [s1; s2] [] []) [ana] []
              (final (processImportedData example_env
                        (mkRoomImportData [s1; s2] [] []) [ana] []))
              [0; 1])
    as (c & Hc & Kc & Hids).
  - vm_compute. reflexivity.
  - repeat constructor; simpl; intuition discriminate.
  - simpl. lia.
  - intros i [<-|[<-|[]]]; vm_compute; eexists; repeat split.
  - intros i j si sj [<-|[<-|[]]] [<-|[<-|[]]]; vm_compute;
      intros E1 E2; inversion E1; inversion E2; repeat split.
  - exists c. split; [exact Hc|]. split; [exact Kc|]. split.
    + apply (Hids 0 (set_hasScheduleConflict s1) (or_introl eq_refl)).
      vm_compute. reflexivity.
    + apply (Hids 1 (set_hasScheduleConflict s2)
               (or_intror (or_introl eq_refl))).
      vm_compute. reflexivity.
Defined.

(** A run on a schedule whose slot times are not empty and hold no
    underscore returns: no grouping key of such a schedule is a property
    name that objects inherit. *)
Theorem plain_times_return (env : Environment)
  (roomImportData : RoomImportData) (professionals : list Professional)
  (appointments : list Appointment) :
  Forall plain_time (schedule roomImportData) ->
  exists st',
    processImportedData env roomImportData professionals appointments
    = Returns st'.
Proof.
  intros Hp. rewrite processImportedData_detect.
  pose proof (validateNames_renames env (start roomImportData) professionals
                appointments) as R.
  set (st1 := _validateNames env (start roomImportData) professionals
                appointments) in *.
  assert (Hp1 : Forall plain_time (schedule (data st1)))
    by (apply (plain_time_renames _ _ (renames_schedule _ _ R)); exact Hp).
  unfold detect.
  pose proof (detectScheduleConflicts_marks st1 professionals appointments)
    as M2.
  destruct (detectScheduleConflicts_returns st1 professionals appointments Hp1)
    as (st2 & E2).
  rewrite E2 in *. simpl in *.
  assert (Hp2 : Forall plain_time (schedule (data st2)))
    by (apply (plain_time_marks _ _ (marks_schedule _ _ M2)); exact Hp1).
  destruct (detectDuplicateRoomsOrTimes_returns st2 Hp2) as (st3 & E3).
  rewrite E3. simpl. eexists. reflexivity.
Qed.

(** The two-slot schedule of a double booking at 08:00. *)
Lemma plain_times_return_witness :
  let s1 := example_slot "s1" "Sala 1" "08:00" None (Some "p1"%string) in
  let s2 := example_slot "s2" "Sala 2" "08:00" None (Some "p1"%string) in
  exists st',
    processImportedData example_env (mkRoomImportData [s1; s2] [] []) [ana] []
    = Returns st'.
Proof.
  intros s1 s2.
  apply (plain_times_return example_env (mkRoomImportData [s1; s2] [] [])
           [ana] []).
  repeat constructor; try discriminate;
    (intros H; simpl in H; intuition discriminate).
Defined.

(** ** C4 *)

Lemma NoDup_map_eq {A B} (f : A -> B) (l : list A) x y :
  NoDup (map f l) -> In x l -> In y l -> f x = f y -> x = y.
Proof.
  induction l as [|a l IH]; simpl; intros Hnd Hx Hy E; [contradiction|].
  inversion Hnd as [|? ? Hnotin Hnd']; subst.
  destruct Hx as [->|Hx], Hy as [->|Hy].
  - reflexivity.
  - exfalso. apply Hnotin. rewrite E. apply in_map. exact Hy.
  - exfalso. apply Hnotin. rewrite <- E. apply in_map. exact Hx.
  - apply IH; assumption.
Qed.

(** C4. Take an occupied slot with a professional identifier, such that
    exactly one existing appointment has the slot's (professionalId,
    appointmentDate, time) and the slot's linkedAppointmentId is the
    identifier of that appointment.  The callback of the
    existing-appointment pass does nothing on that slot, whatever the store;
    the pass as a whole leaves the slot as it is, so it does not set
    hasScheduleConflict on it, and records no conflict that carries the
    slot's identifier. *)
Theorem linked_appointment_is_no_collision (st : State)
  (appointments : list Appointment) (i : nat) (slot : Slot)
  (apt : Appointment) :
  nth_error (schedule (data st)) i = Some slot ->
  booked slot ->
  same_booking_appointments appointments slot = [apt] ->
  Js.truthy (linkedAppointmentId slot) = true ->
  linkedAppointmentId slot = Some (apt_id apt) ->
  NoDup (map slot_id (schedule (data st))) ->
  let st' := detect_existing st appointments in
  (forall j st0, check_existing appointments j slot st0 = st0)
  /\ nth_error (schedule (data st')) i = Some slot
  /\ exists new,
       conflicts (this st') = conflicts (this st) ++ new
       /\ Forall (fun c => ~ In (slot_id slot) (conflict_slot_ids c)) new.
Proof.
  intros Hs [Ho Ht] Hone Hlinked Hlink Hnd st'. subst st'.
  unfold detect_existing.
  assert (Hnone : colliding_appointments appointments slot = []).
  { rewrite colliding_filter, Hone by assumption. simpl.
    rewrite Hlinked, Hlink. simpl. rewrite String.eqb_refl. reflexivity. }
  destruct (check_existing_visited appointments st) as (S & C & _).
  split; [|split].
  - intros j st0. rewrite check_existing_eq, Hnone. reflexivity.
  - rewrite S, nth_error_map, Hs. simpl. unfold existing_mark.
    rewrite Hnone. reflexivity.
  - eexists. split; [exact C|]. apply Forall_forall. intros c Hc Hin.
    destruct (existing_conflicts_ids _ _ _ Hc) as (s & Hsin & Hcol & Hids).
    rewrite Hids in Hin. destruct Hin as [E|[]].
    assert (s = slot).
    { apply (NoDup_map_eq slot_id (schedule (data st))); auto.
      apply (nth_error_In _ _ Hs). }
    subst s. contradiction.
Qed.

(** A slot that updates the appointment "a1" of its professional. *)
Lemma linked_appointment_is_no_collision_witness :
  let slot :=
    mkSlot "s1" "Sala 1" "Segunda" "08:00" "2024-03-04" true
      (Some "Bia"%string) (Some "Ana Souza"%string) (Some "p1"%string)
      (Some "a1"%string) None None in
  let a1 := mkAppointment "a1" "Bia" "p1" "2024-03-04" "08:00" "Consulta" in
  let st := start (mkRoomImportData [slot] [] []) in
  let st' := detect_existing st [a1] in
  (forall j st0, check_existing [a1] j slot st0 = st0)
  /\ nth_error (schedule (data st')) 0 = Some slot
  /\ exists new,
       conflicts (this st') = conflicts (this st) ++ new
       /\ Forall (fun c => ~ In (slot_id slot) (conflict_slot_ids c)) new.
Proof.
  intros slot a1 st.
  apply (linked_appointment_is_no_collision st [a1] 0 slot a1).
  - reflexivity.
  - split; reflexivity.
  - reflexivity.
  - reflexivity.
  - reflexivity.
  - repeat constructor. simpl. tauto.
Defined.

(** ** C8 *)

(** C8. Take an occupied slot whose professional identifier resolves to a
    registry professional flagged inactive.  The inactive-professional pass
    appends exactly one 'Profissional Inativo' entry for the slot to the
    conflicts and sets hasValidationError on the slot; and the pass leaves
    hasScheduleConflict as it is on every slot. *)
Theorem inactive_professional_flagged (st : State)
  (professionals : list Professional) (i : nat) (slot : Slot)
  (professional : Professional) :
  nth_error (schedule (data st)) i = Some slot ->
  booked slot ->
  find (fun p => String.eqb (prof_id p) (Js.show (professionalId slot)))
    professionals = Some professional ->
  inactive professional = true ->
  NoDup (map slot_id (schedule (data st))) ->
  let st' := _checkInactiveProfessionals st professionals in
  (exists new,
     conflicts (this st') = conflicts (this st) ++ new
     /\ filter (is_inactive_entry_for (slot_id slot)) new
        = [ProfissionalInativo (prof_name professional) (patientName slot)
             (roomName slot) (dayTime_of slot) (slot_id slot)])
  /\ (exists slot',
        nth_error (schedule (data st')) i = Some slot'
        /\ hasValidationError slot' = Some true)
  /\ map hasScheduleConflict (schedule (data st'))
     = map hasScheduleConflict (schedule (data st)).
Proof.
  intros Hs [Ho Ht] Hfind Hinactive Hnd st'. subst st'.
  assert (Hres : inactive_professional_of professionals slot
                 = Some professional).
  { unfold inactive_professional_of. rewrite Ho, Ht. simpl.
    rewrite Hfind, Hinactive. reflexivity. }
  destruct (checkInactive_visited professionals st) as (S & C & _).
  split; [|split].
  - eexists. split; [exact C|].
    apply (inactive_entries_one professionals _ i); assumption.
  - rewrite S, nth_error_map, Hs. simpl. eexists. split; [reflexivity|].
    unfold inactive_mark. rewrite Hres. reflexivity.
  - rewrite S, map_map. apply map_ext. intros s.
    apply inactive_mark_conflict_flag.
Qed.

(** A slot of the inactive professional "p2". *)
Lemma inactive_professional_flagged_witness :
  let slot :=
    example_slot "s1" "Sala 1" "08:00" (Some "Rui Lima"%string)
      (Some "p2"%string) in
  let st := start (mkRoomImportData [slot] [] []) in
  let st' := _checkInactiveProfessionals st [ana; rui] in
  (exists new,
     conflicts (this st') = conflicts (this st) ++ new
     /\ filter (is_inactive_entry_for "s1") new
        = [ProfissionalInativo "Rui Lima" None "Sala 1" "Segunda 08:00" "s1"])
  /\ (exists slot',
        nth_error (schedule (data st')) 0 = Some slot'
        /\ hasValidationError slot' = Some true)
  /\ map hasScheduleConflict (schedule (data st'))
     = map hasScheduleConflict (schedule (data st)).
Proof.
  intros slot st.
  apply (inactive_professional_flagged st [ana; rui] 0 slot rui).
  - reflexivity.
  - split; reflexivity.
  - reflexivity.
  - reflexivity.
  - repeat constructor. simpl. tauto.
Defined.

(** The same over a whole run that returns: for an occupied slot whose
    professional identifier resolves, at the end of the run, to a registry
    professional flagged inactive, the conflicts of the run hold exactly one
    'Profissional Inativo' entry for the slot, and the slot has
    hasValidationError set. *)
Theorem inactive_professional_reported (env : Environment)
  (roomImportData : RoomImportData) (professionals : list Professional)
  (appointments : list Appointment) (st' : State) (i : nat) (slot : Slot)
  (professional : Professional) :
  processImportedData env roomImportData professionals appointments
  = Returns st' ->
  NoDup (map slot_id (schedule roomImportData)) ->
  nth_error (schedule (data st')) i = Some slot ->
  booked slot ->
  find (fun p => String.eqb (prof_id p) (Js.show (professionalId slot)))
    professionals = Some professional ->
  inactive professional = true ->
  filter (is_inactive_entry_for (slot_id slot)) (conflicts (this st'))
  = [ProfissionalInativo (prof_name professional) (patientName slot)
       (roomName slot) (dayTime_of slot) (slot_id slot)]
  /\ hasValidationError slot = Some true.
Proof.
  intros Hrun Hnd Hs [Ho Ht] Hfind Hinactive.
  rewrite processImportedData_detect in Hrun.
  pose proof (validateNames_renames env (start roomImportData) professionals
                appointments) as R.
  set (st1 := _validateNames env (start roomImportData) professionals
                appointments) in *.
  destruct (detect_returns _ _ _ _ Hrun) as (st2 & st3 & R2 & R3 & E).
  pose proof (detectScheduleConflicts_marks st1 professionals appointments)
    as M2.
  pose proof (detectScheduleConflicts_kinds st1 professionals appointments)
    as K2.
  rewrite R2 in M2, K2. simpl in M2, K2.
  pose proof (detectDuplicateRoomsOrTimes_marks st2) as M3.
  pose proof (detectDuplicateRoomsOrTimes_kinds st2) as K3.
  rewrite R3 in M3, K3. simpl in M3, K3.
  assert (Hk : Forall (fun c => is_inactive_entry c = false)
                 (conflicts (this st3))).
  { apply K3, K2. rewrite (renames_conflicts _ _ R). constructor. }
  assert (Hnd3 : NoDup (map slot_id (schedule (data st3)))).
  { rewrite (slot_ids_marks _ _ (marks_schedule _ _ M3)).
    rewrite (slot_ids_marks _ _ (marks_schedule _ _ M2)).
    rewrite (slot_ids_renames _ _ (renames_schedule _ _ R)). exact Hnd. }
  destruct (checkInactive_visited professionals st3) as (S & C & _).
  rewrite <- E in S, C.
  rewrite S, nth_error_map in Hs.
  destruct (nth_error (schedule (data st3)) i) as [slot3|] eqn:Hs3;
    [|discriminate].
  simpl in Hs. injection Hs as Hslot.
  assert (Hres : inactive_professional_of professionals slot3
                 = Some professional).
  { rewrite <- inactive_professional_of_mark, Hslot.
    unfold inactive_professional_of. rewrite Ho, Ht. simpl.
    rewrite Hfind, Hinactive. reflexivity. }
  assert (Hmark : slot = set_hasValidationError slot3).
  { rewrite <- Hslot. unfold inactive_mark. rewrite Hres. reflexivity. }
  split.
  - rewrite C, filter_app, (not_inactive_entry_for _ _ Hk). simpl.
    rewrite Hmark.
    apply (inactive_entries_one professionals _ i slot3 professional Hnd3
             Hs3 Hres).
  - rewrite Hmark. reflexivity.
Qed.

(** A run on a slot of the inactive professional "p2". *)
Lemma inactive_professional_reported_witness :
  let slot :=
    example_slot "s1" "Sala 1" "08:00" (Some "Rui Lima"%string)
      (Some "p2"%string) in
  filter (is_inactive_entry_for "s1")
    (conflicts
       (this (final (processImportedData example_env
                       (mkRoomImportData [slot] [] []) [ana; rui] []))))
  = [ProfissionalInativo "Rui Lima" None "Sala 1" "Segunda 08:00" "s1"].
Proof.
  intros slot.
  apply (proj1 (inactive_professional_reported example_env
                  (mkRoomImportData [slot] [] []) [ana; rui] []
                  (final (processImportedData example_env
                            (mkRoomImportData [slot] [] []) [ana; rui] []))
                  0 (set_hasValidationError slot) rui
                  eq_refl
                  (NoDup_cons _ (fun H : In _ [] => H) (NoDup_nil _))
                  eq_refl (conj eq_refl eq_refl) eq_refl eq_refl)).
Defined.

(** ** C9 *)

(** C9. A slot with isOccupied=false is, after a full run, exactly as it was
    before; and, its identifier being that of no occupied slot, no
    auto-correction, validation error, conflict or suggested change of the
    run carries it. *)
Theorem unoccupied_slot_untouched (env : Environment)
  (roomImportData : RoomImportData) (professionals : list Professional)
  (appointments : list Appointment) (i : nat) (slot : Slot) :
  nth_error (schedule roomImportData) i = Some slot ->
  isOccupied slot = false ->
  ~ In (slot_id slot) (occupied_ids (schedule roomImportData)) ->
  let st' :=
    final (processImportedData env roomImportData professionals appointments) in
  nth_error (schedule (data st')) i = Some slot
  /\ Forall (fun a => ac_slotId a <> slot_id slot) (autoCorrections (this st'))
  /\ Forall (fun e => ve_slotId e <> slot_id slot) (validationErrors (this st'))
  /\ Forall (fun c => ~ In (slot_id slot) (conflict_slot_ids c))
       (conflicts (this st'))
  /\ Forall (fun c => ch_slotId c <> slot_id slot) (suggestedChanges (this st')).
Proof.
  intros Hs Ho Hid st'. subst st'.
  split; [apply run_unoccupied_slot; assumption|].
  destruct (run_records env roomImportData professionals appointments)
    as (HA & HV & HC & HG).
  repeat split.
  - refine (Forall_impl _ _ HA). intros a Ha E. apply Hid. congruence.
  - refine (Forall_impl _ _ HV). intros e He E. apply Hid. congruence.
  - refine (Forall_impl _ _ HC). intros c Hc Hin. apply Hid, Hc, Hin.
  - refine (Forall_impl _ _ HG). intros c Hc E. apply Hid. congruence.
Qed.

(** An empty slot between two slots of an unregistered professional, in a
    room that is booked twice. *)
Lemma unoccupied_slot_untouched_witness :
  let s1 := example_slot "s1" "Sala 1" "08:00" (Some "Dr House"%string) None in
  let free :=
    mkSlot "s2" "Sala 1" "Segunda" "08:00" "2024-03-04" false
      (Some "Bia"%string) (Some "Dr House"%string) (Some "p2"%string) None None
      None in
  let s3 := example_slot "s3" "Sala 1" "08:00" None (Some "p2"%string) in
  let st' :=
    final (processImportedData example_env
             (mkRoomImportData [s1; free; s3] [] []) [ana; rui] []) in
  nth_error (schedule (data st')) 1 = Some free
  /\ Forall (fun a => ac_slotId a <> slot_id free) (autoCorrections (this st'))
  /\ Forall (fun e => ve_slotId e <> slot_id free) (validationErrors (this st'))
  /\ Forall (fun c => ~ In (slot_id free) (conflict_slot_ids c))
       (conflicts (this st'))
  /\ Forall (fun c => ch_slotId c <> slot_id free) (suggestedChanges (this st')).
Proof.
  intros s1 free s3.
  apply (unoccupied_slot_untouched example_env
           (mkRoomImportData [s1; free; s3] [] []) [ana; rui] [] 1 free).
  - reflexivity.
  - reflexivity.
  - vm_compute. intros [H|[H|[]]]; discriminate.
Defined.

(** ** C10 *)

Lemma prefix_one c d s :
  String.prefix (String c EmptyString) (String d s) = Ascii.eqb c d.
Proof.
  cbn [String.prefix]. destruct (ascii_dec c d) as [->|H].
  - rewrite Ascii.eqb_refl. destruct s; reflexivity.
  - symmetry. apply Ascii.eqb_neq. exact H.
Qed.

Lemma has_underscore_false s : has_underscore s = false -> underscore_free s.
Proof.
  unfold has_underscore, underscore_free.
  induction s as [|c s IH]; [simpl; tauto|].
  cbn [Js.includes chars list_ascii_of_string]. rewrite prefix_one.
  destruct (Ascii.eqb_spec "_"%char c) as [<-|Hne]; [discriminate|].
  intros H [E|Hin]; [congruence|]. apply IH; assumption.
Qed.

Lemma no_underscores_separable slot :
  no_underscores slot = true -> separable slot.
Proof.
  unfold no_underscores. rewrite !andb_true_iff, !negb_true_iff.
  intros ((((_ & H2) & H3) & H4) & _).
  repeat split; apply has_underscore_false; assumption.
Qed.

(** C10. In a run on a schedule none of whose professionalId,
    appointmentDate, time, roomName and dayOfWeek values contains the
    underscore character, the grouping object of the double-booking pass
    holds under one key only slots that agree on (professionalId,
    appointmentDate, time), and that of the duplicate-room pass only slots
    that agree on (roomName, dayOfWeek, time).  Hence every double-booking
    conflict and every duplicate-room conflict of the run stands for slots
    that agree on the whole key: the slot list of the conflict is that of
    two or more positions of the processed schedule whose slots agree
    pairwise, and no conflict is reported for a group whose members differ
    on one of those fields. *)
Theorem grouping_conflicts_agree (env : Environment)
  (roomImportData : RoomImportData) (professionals : list Professional)
  (appointments : list Appointment) :
  forallb no_underscores (schedule roomImportData) = true ->
  let st1 :=
    _validateNames env (start roomImportData) professionals appointments in
  let st' :=
    final (processImportedData env roomImportData professionals appointments) in
  (forall slotsByProfDayTime,
     group_slots profDayTime_key (schedule (data st1))
     = Some slotsByProfDayTime ->
     groups_agree same_booking (schedule (data st1)) slotsByProfDayTime)
  /\ (forall st2 slotsByRoomDayTime,
        _detectScheduleConflicts st1 professionals appointments = Returns st2 ->
        group_slots roomDayTime_key (schedule (data st2))
        = Some slotsByRoomDayTime ->
        groups_agree same_room (schedule (data st2)) slotsByRoomDayTime)
  /\ Forall (well_grouped (schedule (data st'))) (conflicts (this st')).
Proof.
  intros Hno st1 st'. subst st'. rewrite processImportedData_detect.
  set (st0 := start roomImportData).
  pose proof (validateNames_renames env st0 professionals appointments) as R.
  fold st0 in st1. fold st1.
  assert (Hsep : Forall separable (schedule (data st1))).
  { apply (separable_renames _ _ (renames_schedule _ _ R)).
    apply Forall_forall. intros slot Hin. apply no_underscores_separable.
    rewrite forallb_forall in Hno. apply Hno, Hin. }
  split; [|split].
  - intros obj Hobj.
    apply (group_slots_agree profDayTime_key same_booking _ obj); auto.
    intros s1 s2 k S1 S2. apply profDayTime_key_injective; assumption.
  - intros st2 obj R2 Hobj.
    pose proof (detectScheduleConflicts_marks st1 professionals appointments)
      as M2.
    rewrite R2 in M2. simpl in M2.
    apply (group_slots_agree roomDayTime_key same_room _ obj); auto.
    + intros s1 s2 k S1 S2. apply roomDayTime_key_injective; assumption.
    + apply (separable_marks _ _ (marks_schedule _ _ M2) Hsep).
  - apply detect_well_grouped; [exact Hsep|].
    unfold st1. rewrite (renames_conflicts _ _ R). constructor.
Qed.

(** Three bookings of one professional at one time, two of them in one
    room: one conflict of each kind, each for slots that agree. *)
Lemma grouping_conflicts_agree_witness :
  let s1 := example_slot "s1" "Sala 1" "08:00" None (Some "p1"%string) in
  let s2 := example_slot "s2" "Sala 2" "08:00" None (Some "p1"%string) in
  let s3 := example_slot "s3" "Sala 2" "08:00" None (Some "p1"%string) in
  let st' :=
    final (processImportedData example_env
             (mkRoomImportData [s1; s2; s3] [] []) [ana] []) in
  groups_agree same_booking [s1; s2; s3]
    [("p1_2024-03-04_08:00"%string, [0; 1; 2])]
  /\ List.length (conflicts (this st')) = 2
  /\ Forall (well_grouped (schedule (data st'))) (conflicts (this st')).
Proof.
  intros s1 s2 s3.
  pose proof (grouping_conflicts_agree example_env
                (mkRoomImportData [s1; s2; s3] [] []) [ana] [] eq_refl)
    as (H1 & _ & H3).
  split; [|split].
  - apply (H1 _ eq_refl).
  - reflexivity.
  - exact H3.
Defined.

(** * Further properties *)

(** ** The distance as a metric *)

Lemma lev_cons_le x y a b : lev (x :: a) (y :: b) <= S (lev a b).
Proof.
  rewrite lev_cons_cons. destruct (Ascii.eqb x y); lia.
Qed.

Lemma lev_uncons x a b : lev a b <= S (lev (x :: a) b).
Proof.
  apply (lev_head_step (List.length a + List.length b) a b (le_n _) x).
Qed.

(** An edit script of cost 0 changes nothing. *)
Lemma script_zero a b n : edit_script a b n -> n = 0 -> a = b.
Proof.
  induction 1 as [|x a b n _ IH| | |]; intros E; try discriminate.
  - reflexivity.
  - rewrite (IH E). reflexivity.
Qed.

(** A script from [a] to [b], followed by the best way from [b] to [c], costs
    no less than the best way from [a] to [c]. *)
Lemma script_then_lev a b n :
  edit_script a b n -> forall c, lev a c <= n + lev b c.
Proof.
  induction 1 as [|x a b n _ IH|x y a b n _ IH|x a b n _ IH|y a b n _ IH].
  - intros c. lia.
  - induction c as [|z c IHc].
    + specialize (IH []). rewrite !lev_nil_r in *. simpl. lia.
    + rewrite (lev_cons_cons x z b c).
      destruct (Ascii.eqb x z) eqn:E.
      * rewrite lev_cons_cons, E. apply IH.
      * pose proof (lev_cons_le x z a c). pose proof (lev_delete x a (z :: c)).
        pose proof (lev_insert z (x :: a) c).
        pose proof (IH c). pose proof (IH (z :: c)). lia.
  - induction c as [|z c IHc].
    + specialize (IH []). rewrite !lev_nil_r in *. simpl. lia.
    + pose proof (lev_cons_le x z a c). pose proof (lev_delete x a (z :: c)).
      pose proof (lev_insert z (x :: a) c).
      pose proof (IH c). pose proof (IH (z :: c)).
      rewrite (lev_cons_cons y z b c). destruct (Ascii.eqb y z); lia.
  - intros c. pose proof (lev_delete x a c). specialize (IH c). lia.
  - intros c. specialize (IH c). pose proof (lev_uncons y b c). lia.
Qed.

Lemma lev_triangle a b c : lev a c <= lev a b + lev b c.
Proof. apply script_then_lev, lev_is_script. Qed.

Lemma lev_zero a b : lev a b = 0 -> a = b.
Proof. intros E. apply (script_zero a b _ (lev_is_script a b) E). Qed.

Lemma lev_length_diff a b : List.length a - List.length b <= lev a b.
Proof.
  pose proof (lev_triangle a b []). rewrite !lev_nil_r in H. lia.
Qed.

(** The distance is a metric on strings: it is 0 between equal strings only,
    it does not depend on the order of its arguments, and it satisfies the
    triangle inequality. *)
Theorem levenshteinDistance_metric (a b c : string) :
  (_levenshteinDistance a b = 0 <-> a = b)
  /\ _levenshteinDistance a b = _levenshteinDistance b a
  /\ _levenshteinDistance a c
     <= _levenshteinDistance a b + _levenshteinDistance b c.
Proof.
  rewrite !levenshteinDistance_lev. split; [split|split].
  - intros E. apply chars_inj, lev_zero, E.
  - intros ->. apply lev_refl.
  - apply lev_sym.
  - apply lev_triangle.
Qed.

(** The distance is at least the difference of the two lengths and at most
    the longer length; to or from the empty string it is the length of the
    other string. *)
Theorem levenshteinDistance_lengths (a b : string) :
  String.length a - String.length b <= _levenshteinDistance a b
  /\ String.length b - String.length a <= _levenshteinDistance a b
  /\ _levenshteinDistance a b <= Nat.max (String.length a) (String.length b)
  /\ _levenshteinDistance a EmptyString = String.length a
  /\ _levenshteinDistance EmptyString b = String.length b.
Proof.
  rewrite !levenshteinDistance_lev, <- !chars_length.
  repeat split.
  - apply lev_length_diff.
  - rewrite lev_sym. apply lev_length_diff.
  - apply lev_le_max.
  - apply lev_nil_r.
Qed.

(** ** The similarity *)

(** The similarity in terms of the longer length and of the distance, which
    does not depend on the order of the two strings. *)
Lemma calculateSimilarity_quotient a b :
  _calculateSimilarity a b =
  let n := Nat.max (String.length a) (String.length b) in
  if n =? 0 then 1%Q else quotient n (_levenshteinDistance a b).
Proof.
  unfold _calculateSimilarity, quotient.
  destruct (String.length b <? String.length a) eqn:E; cbv zeta.
  - apply Nat.ltb_lt in E.
    replace (Nat.max (String.length a) (String.length b))
      with (String.length a) by lia.
    reflexivity.
  - apply Nat.ltb_ge in E.
    replace (Nat.max (String.length a) (String.length b))
      with (String.length b) by lia.
    rewrite !levenshteinDistance_lev, (lev_sym (chars b)). reflexivity.
Qed.

Lemma quotient_Qmake n d :
  0 < n -> (quotient n d == (Z.of_nat n - Z.of_nat d) # Pos.of_nat n)%Q.
Proof.
  intros H. unfold quotient. rewrite Qmake_Qdiv.
  replace (Z.pos (Pos.of_nat n)) with (Z.of_nat n); [reflexivity|].
  rewrite <- positive_nat_Z, Nat2Pos.id by lia. reflexivity.
Qed.

Lemma quotient_above n d :
  0 < n -> (above_threshold (quotient n d) = true <-> 5 * d < n).
Proof.
  intros H. rewrite above_threshold_true, (quotient_Qmake n d H).
  assert (Hp : Z.pos (Pos.of_nat n) = Z.of_nat n)
    by (rewrite <- positive_nat_Z, Nat2Pos.id by lia; reflexivity).
  unfold Qlt. cbn [Qnum Qden]. lia.
Qed.

Lemma quotient_is_one n d :
  0 < n -> d <= n -> ((quotient n d == 1)%Q <-> d = 0).
Proof.
  intros H Hd. rewrite (quotient_Qmake n d H).
  assert (Hp : Z.pos (Pos.of_nat n) = Z.of_nat n)
    by (rewrite <- positive_nat_Z, Nat2Pos.id by lia; reflexivity).
  unfold Qeq. cbn [Qnum Qden]. lia.
Qed.

Lemma quotient_is_zero n d :
  0 < n -> d <= n -> ((quotient n d == 0)%Q <-> d = n).
Proof.
  intros H Hd. rewrite (quotient_Qmake n d H).
  unfold Qeq. cbn [Qnum Qden]. lia.
Qed.

Lemma length_zero s : String.length s = 0 -> s = EmptyString.
Proof. destruct s; [reflexivity|discriminate]. Qed.

(** The similarity does not depend on the order of the two strings; it is 1
    for equal strings only; and it is 0 between the empty string and any
    other. *)
Theorem calculateSimilarity_symmetric (a b : string) :
  _calculateSimilarity a b = _calculateSimilarity b a
  /\ ((_calculateSimilarity a b == 1)%Q <-> a = b)
  /\ (a <> EmptyString -> (_calculateSimilarity a EmptyString == 0)%Q).
Proof.
  split; [|split].
  - rewrite !calculateSimilarity_quotient.
    rewrite (Nat.max_comm (String.length b)).
    rewrite !levenshteinDistance_lev, (lev_sym (chars b)). reflexivity.
  - rewrite calculateSimilarity_quotient. cbv zeta.
    destruct (Nat.max (String.length a) (String.length b) =? 0) eqn:E.
    + apply Nat.eqb_eq in E. split; [|reflexivity]. intros _.
      rewrite (length_zero a), (length_zero b) by lia. reflexivity.
    + apply Nat.eqb_neq in E.
      rewrite quotient_is_one;
        [|lia|apply levenshteinDistance_le_longer].
      rewrite levenshteinDistance_lev. split.
      * intros H. apply chars_inj, lev_zero, H.
      * intros ->. apply lev_refl.
  - intros Ha. rewrite calculateSimilarity_quotient. cbv zeta.
    simpl String.length. rewrite Nat.max_0_r.
    assert (Hn : String.length a <> 0)
      by (intros H; apply Ha, length_zero, H).
    apply Nat.eqb_neq in Hn. rewrite Hn. apply Nat.eqb_neq in Hn.
    apply quotient_is_zero; [lia| |].
    + rewrite levenshteinDistance_lev. change (chars "") with (@nil ascii).
      rewrite lev_nil_r, chars_length. lia.
    + rewrite levenshteinDistance_lev. change (chars "") with (@nil ascii).
      rewrite lev_nil_r. apply chars_length.
Qed.

(** The similarity exceeds 0.80 exactly when the distance is less than a
    fifth of the longer length.  Hence two strings that the similarity rule
    accepts differ in length by less than a fifth of the longer one, and
    strings of at most five characters are accepted only when equal. *)
Theorem similarity_above_threshold (a b : string) :
  let n := Nat.max (String.length a) (String.length b) in
  (above_threshold (_calculateSimilarity a b) = true
   <-> n = 0 \/ 5 * _levenshteinDistance a b < n)
  /\ (above_threshold (_calculateSimilarity a b) = true ->
      a = b
      \/ (5 * (String.length a - String.length b) < n
          /\ 5 * (String.length b - String.length a) < n))
  /\ (above_threshold (_calculateSimilarity a b) = true -> n <= 5 -> a = b).
Proof.
  intros n.
  assert (H1 : above_threshold (_calculateSimilarity a b) = true
               <-> n = 0 \/ 5 * _levenshteinDistance a b < n).
  { rewrite calculateSimilarity_quotient. cbv zeta. fold n.
    destruct (n =? 0) eqn:E.
    - apply Nat.eqb_eq in E. split; [auto|reflexivity].
    - apply Nat.eqb_neq in E. rewrite quotient_above by lia. split; [auto|].
      intros [H|H]; [contradiction|exact H]. }
  assert (H0 : n = 0 -> a = b).
  { intros E. unfold n in E.
    rewrite (length_zero a), (length_zero b) by lia. reflexivity. }
  split; [exact H1|split].
  - intros H. apply H1 in H. destruct H as [H|H]; [left; auto|right].
    rewrite levenshteinDistance_lev in H.
    pose proof (lev_length_diff (chars a) (chars b)) as D1.
    pose proof (lev_length_diff (chars b) (chars a)) as D2.
    rewrite (lev_sym (chars b)) in D2. rewrite !chars_length in D1, D2. lia.
  - intros H Hn. apply H1 in H. destruct H as [H|H]; [auto|].
    rewrite levenshteinDistance_lev in H.
    apply chars_inj, lev_zero. lia.
Qed.

(** ** Normalised names *)

Lemma lower_unit_idempotent c :
  Js.lower_unit (Js.lower_unit c) = Js.lower_unit c.
Proof.
  destruct c as [[] [] [] [] [] [] [] []]; reflexivity.
Qed.

Lemma is_space_lower_unit c : Js.is_space (Js.lower_unit c) = Js.is_space c.
Proof.
  destruct c as [[] [] [] [] [] [] [] []]; reflexivity.
Qed.

Lemma toLowerCase_idempotent s :
  Js.toLowerCase (Js.toLowerCase s) = Js.toLowerCase s.
Proof.
  induction s as [|c s IH]; [reflexivity|].
  simpl. rewrite lower_unit_idempotent, IH. reflexivity.
Qed.

Lemma toLowerCase_trimStart s :
  Js.toLowerCase (Js.trimStart s) = Js.trimStart (Js.toLowerCase s).
Proof.
  induction s as [|c s IH]; [reflexivity|].
  simpl. rewrite is_space_lower_unit.
  destruct (Js.is_space c); [exact IH|reflexivity].
Qed.

Lemma toLowerCase_trimEnd s :
  Js.toLowerCase (Js.trimEnd s) = Js.trimEnd (Js.toLowerCase s).
Proof.
  induction s as [|c s IH]; [reflexivity|].
  simpl. rewrite <- IH, is_space_lower_unit.
  destruct (Js.trimEnd s); simpl.
  - destruct (Js.is_space c); reflexivity.
  - reflexivity.
Qed.

Lemma trimEnd_idempotent s : Js.trimEnd (Js.trimEnd s) = Js.trimEnd s.
Proof.
  induction s as [|c s IH]; [reflexivity|].
  simpl. destruct (Js.trimEnd s) as [|d t] eqn:E.
  - destruct (Js.is_space c) eqn:Ec; [reflexivity|].
    simpl. rewrite Ec. reflexivity.
  - change (Js.trimEnd (String c (String d t)))
      with (match Js.trimEnd (String d t) with
            | EmptyString =>
                if Js.is_space c then EmptyString else String c EmptyString
            | u => String c u
            end).
    rewrite IH. reflexivity.
Qed.

(** A string that does not start with white space. *)
Lemma trimStart_fixed s :
  match s with String c _ => Js.is_space c = false | EmptyString => True end ->
  Js.trimStart s = s.
Proof.
  destruct s as [|c s]; [reflexivity|]. simpl. intros ->. reflexivity.
Qed.

Lemma trimStart_head s :
  match Js.trimStart s with
  | String c _ => Js.is_space c = false
  | EmptyString => True
  end.
Proof.
  induction s as [|c s IH]; [exact I|].
  simpl. destruct (Js.is_space c) eqn:E; [exact IH|exact E].
Qed.

Lemma trimEnd_head s :
  match s with String c _ => Js.is_space c = false | EmptyString => True end ->
  match Js.trimEnd s with
  | String c _ => Js.is_space c = false
  | EmptyString => True
  end.
Proof.
  destruct s as [|c s]; [auto|]. simpl. intros E.
  destruct (Js.trimEnd s); [rewrite E|]; exact E.
Qed.

Lemma trim_idempotent s : Js.trim (Js.trim s) = Js.trim s.
Proof.
  unfold Js.trim.
  rewrite (trimStart_fixed (Js.trimEnd (Js.trimStart s))).
  - apply trimEnd_idempotent.
  - apply trimEnd_head, trimStart_head.
Qed.

Lemma normalize_normalize s : normalize (normalize s) = normalize s.
Proof.
  unfold normalize, Js.trim.
  rewrite toLowerCase_trimEnd, toLowerCase_trimStart, toLowerCase_idempotent.
  apply trim_idempotent.
Qed.

(** Normalising a name twice is normalising it once, so [_findClosestMatch]
    gives the same answer for a name and for its normalised form (its
    callers pass the normalised form). *)
Theorem normalize_idempotent (s : string) (registeredList : list string) :
  normalize (normalize s) = normalize s
  /\ _findClosestMatch (normalize s) registeredList
     = _findClosestMatch s registeredList.
Proof.
  split; [apply normalize_normalize|].
  unfold _findClosestMatch. rewrite normalize_normalize. reflexivity.
Qed.

(** ** What [_findClosestMatch] returns *)

Lemma prefix_refl s : String.prefix s s = true.
Proof.
  induction s as [|c s IH]; [reflexivity|].
  simpl. destruct (ascii_dec c c); [exact IH|contradiction].
Qed.

Lemma includes_refl s : Js.includes s s = true.
Proof.
  destruct s as [|c s]; simpl; [reflexivity|].
  destruct (ascii_dec c c); [|contradiction].
  rewrite prefix_refl. reflexivity.
Qed.

Lemma includes_empty s : Js.includes s EmptyString = true.
Proof. destruct s; reflexivity. Qed.

Lemma passes_refl s : passes s s = true.
Proof. unfold passes, contains_either. rewrite includes_refl. reflexivity. Qed.

Lemma closest_scan_Some nameLower registeredList r :
  closest_scan nameLower registeredList = Some r ->
  In r registeredList /\ passes nameLower r = true.
Proof.
  induction registeredList as [|e l IH]; [discriminate|].
  destruct (passes nameLower e) eqn:E.
  - rewrite (closest_scan_hit _ _ _ E). intros H. inversion H; subst.
    split; [left; reflexivity|exact E].
  - rewrite (closest_scan_miss _ _ _ E). intros H.
    destruct (IH H) as [Hin Hp]. split; [right; exact Hin|exact Hp].
Qed.

Lemma closest_scan_None nameLower registeredList :
  closest_scan nameLower registeredList = None <->
  forall e, In e registeredList -> passes nameLower e = false.
Proof.
  induction registeredList as [|e l IH].
  - split; [intros _ e []|reflexivity].
  - destruct (passes nameLower e) eqn:E.
    + rewrite (closest_scan_hit _ _ _ E). split; [discriminate|].
      intros H. rewrite (H e (or_introl eq_refl)) in E. discriminate.
    + rewrite (closest_scan_miss _ _ _ E), IH. split.
      * intros H x [<-|Hx]; [exact E|apply H, Hx].
      * intros H x Hx. apply H. right. exact Hx.
Qed.

(** The result of [_findClosestMatch] is an entry of the registry that is
    equal to the normalised candidate, contains it, is contained in it or is
    more than 0.80 similar to it; and the result is [null] exactly when the
    registry has no such entry (on an empty registry, always). *)
Theorem findClosestMatch_result (name : string) (registeredList : list string) :
  let n := normalize name in
  (forall r, _findClosestMatch name registeredList = Some r ->
             In r registeredList /\ passes n r = true)
  /\ (_findClosestMatch name registeredList = None <->
      forall e, In e registeredList -> passes n e = false).
Proof.
  intros n. unfold _findClosestMatch. fold n.
  destruct (find (fun registered => String.eqb registered n) registeredList)
    as [e|] eqn:F.
  - apply find_some in F. destruct F as [Hin He].
    apply String.eqb_eq in He. subst e.
    destruct (Js.truthy (Some n)) eqn:T; split.
    + intros r E. inversion E; subst. split; [exact Hin|apply passes_refl].
    + split; [discriminate|].
      intros H. pose proof (passes_refl n) as P. rewrite (H n Hin) in P.
      discriminate.
    + apply closest_scan_Some.
    + apply closest_scan_None.
  - simpl. split; [apply closest_scan_Some|apply closest_scan_None].
Qed.

(** Blank names.  A candidate that is blank once normalised is matched with
    the first entry of the registry, whatever that entry is.  And a blank
    entry of the registry is matched by every candidate that reaches it:
    the result is then the empty string, which the callers take for no
    match, although a later entry might have matched. *)
Theorem findClosestMatch_blank (name r : string) (pre post : list string) :
  let n := normalize name in
  (n = EmptyString -> _findClosestMatch name (r :: post) = Some r)
  /\ (~ In n (pre ++ EmptyString :: post) ->
      (forall e, In e pre -> passes n e = false) ->
      _findClosestMatch name (pre ++ EmptyString :: post) = Some EmptyString
      /\ Js.truthy (_findClosestMatch name (pre ++ EmptyString :: post))
         = false).
Proof.
  intros n. split.
  - intros E. unfold _findClosestMatch. fold n. rewrite E.
    assert (Hs : closest_scan EmptyString (r :: post) = Some r).
    { apply closest_scan_hit. unfold passes, contains_either.
      rewrite includes_empty. reflexivity. }
    destruct (find _ (r :: post)) as [e|] eqn:F; [|exact Hs].
    apply find_some in F. destruct F as [_ He].
    apply String.eqb_eq in He. subst e. exact Hs.
  - intros Hno Hpre.
    assert (E : _findClosestMatch name (pre ++ EmptyString :: post)
                = Some EmptyString).
    { unfold _findClosestMatch. fold n.
      destruct (find _ (pre ++ EmptyString :: post)) as [e|] eqn:F.
      - apply find_some in F. destruct F as [Hin He].
        apply String.eqb_eq in He. subst e. contradiction.
      - simpl. rewrite (closest_scan_skip n pre) by exact Hpre.
        apply closest_scan_hit. unfold passes, contains_either.
        rewrite includes_empty, orb_true_r. reflexivity. }
    rewrite E. split; reflexivity.
Qed.

(** A blank candidate, and a registry that starts with a blank entry. *)
Lemma findClosestMatch_blank_witness :
  _findClosestMatch "  " ["maria silva"; "ana"]%string
  = Some "maria silva"%string
  /\ _findClosestMatch "Ana" [EmptyString; "ana souza"]%string
     = Some EmptyString.
Proof.
  split.
  - apply (proj1 (findClosestMatch_blank "  " "maria silva" []
                    ["ana"%string])).
    reflexivity.
  - apply (proj2 (findClosestMatch_blank "Ana" EmptyString []
                    ["ana souza"%string])).
    + vm_compute. intros [H|[H|[]]]; discriminate.
    + intros e [].
Defined.

(** ** Name reconciliation as a scan of the schedule *)

Lemma validate_patient_data appointments i slot st :
  nth_error (schedule (data st)) i = Some slot ->
  let st' :=
    validate_patient (registeredPatients_of appointments) appointments i slot
      st in
  schedule (data st')
  = update_at i (fun _ => patient_mark appointments slot) (schedule (data st))
  /\ newProfessionals (data st') = newProfessionals (data st)
  /\ updatedAppointments (data st') = updatedAppointments (data st)
  /\ draws st' = draws st
  /\ conflicts (this st') = conflicts (this st).
Proof.
  intros Hs st'. subst st'.
  assert (Hsame : schedule (data st)
                  = update_at i (fun _ => slot) (schedule (data st))).
  { rewrite <- (update_at_ext (fun x => x)).
    - clear. generalize (schedule (data st)). intros l. revert i.
      induction l as [|x l IH]; intros [|i]; simpl; congruence.
    - intros x Hx. congruence. }
  unfold validate_patient, patient_mark, patient_correction.
  destruct (Js.truthy (patientName slot)); [|auto].
  cbv zeta.
  destruct (existsb _ (registeredPatients_of appointments)); [auto|].
  destruct (Js.truthy (_findClosestMatch _ (registeredPatients_of appointments)));
    [|simpl; auto].
  destruct (find _ appointments) as [originalCase|]; [|auto].
  simpl. repeat split; try reflexivity.
  apply update_at_ext. intros x Hx. congruence.
Qed.

Lemma validate_professional_data env professionals i slot st :
  nth_error (schedule (data st)) i = Some slot ->
  let st' :=
    validate_professional env (registeredProfessionals_of professionals)
      professionals i slot st in
  let slot' :=
    match professional_action professionals (newProfessionals (data st)) slot
    with
    | NoAction => slot
    | Correct originalProf =>
        set_professionalId (prof_id originalProf)
          (set_professionalName (prof_name originalProf) slot)
    | Create => set_professionalId (synthetic_id env (draws st)) slot
    end in
  schedule (data st') = update_at i (fun _ => slot') (schedule (data st))
  /\ newProfessionals (data st')
     = match professional_action professionals (newProfessionals (data st))
               slot
       with
       | Create =>
           newProfessionals (data st)
           ++ [created_professional env (draws st) slot]
       | _ => newProfessionals (data st)
       end
  /\ updatedAppointments (data st') = updatedAppointments (data st)
  /\ draws st'
     = match professional_action professionals (newProfessionals (data st))
               slot
       with
       | Create => S (draws st)
       | _ => draws st
       end
  /\ conflicts (this st') = conflicts (this st).
Proof.
  intros Hs st' slot'. subst st' slot'.
  assert (Hsame : schedule (data st)
                  = update_at i (fun _ => slot) (schedule (data st))).
  { rewrite <- (update_at_ext (fun x => x)).
    - clear. generalize (schedule (data st)). intros l. revert i.
      induction l as [|x l IH]; intros [|i]; simpl; congruence.
    - intros x Hx. congruence. }
  unfold validate_professional, professional_action.
  destruct (Js.truthy (professionalName slot)); [|auto].
  cbv zeta.
  destruct (existsb _ (registeredProfessionals_of professionals)); [auto|].
  destruct (existsb _ (newProfessionals (data st))); [auto|].
  destruct (Js.truthy
              (_findClosestMatch _ (registeredProfessionals_of professionals))).
  - destruct (find _ professionals) as [originalProf|]; [|auto].
    simpl. repeat split; try reflexivity.
    clear Hsame. revert i Hs. generalize (schedule (data st)). intros l.
    induction l as [|x l IH]; intros [|i] Hs; simpl in *;
      try discriminate; try congruence.
    f_equal. apply IH, Hs.
  - simpl. repeat split; try reflexivity.
    apply update_at_ext. intros x Hx. congruence.
Qed.

Lemma update_at_const {A} (x : A) l : forall i,
  nth_error l i = Some x -> update_at i (fun _ => x) l = l.
Proof.
  induction l as [|y l IH]; intros [|i] H; simpl in *; try discriminate.
  - congruence.
  - f_equal. apply IH, H.
Qed.

Lemma update_at_twice {A} (f g : A -> A) l : forall i,
  update_at i g (update_at i f l) = update_at i (fun x => g (f x)) l.
Proof.
  induction l as [|y l IH]; intros [|i]; simpl; try reflexivity.
  f_equal. apply IH.
Qed.

Lemma validate_slot_data env professionals appointments i slot st :
  nth_error (schedule (data st)) i = Some slot ->
  let st' :=
    validate_slot env (registeredPatients_of appointments)
      (registeredProfessionals_of professionals) professionals appointments
      i slot st in
  let r :=
    reconcile_slot env professionals appointments (newProfessionals (data st))
      (draws st) slot in
  schedule (data st') = update_at i (fun _ => fst r) (schedule (data st))
  /\ newProfessionals (data st') = fst (snd r)
  /\ draws st' = snd (snd r)
  /\ updatedAppointments (data st') = updatedAppointments (data st)
  /\ conflicts (this st') = conflicts (this st).
Proof.
  intros Hs st' r. subst st' r. unfold validate_slot, reconcile_slot.
  destruct (isOccupied slot); simpl negb; cbv iota.
  2:{ simpl. rewrite (update_at_const slot _ i Hs). auto. }
  destruct (validate_patient_data appointments i slot st Hs)
    as (S1 & N1 & U1 & D1 & C1).
  set (st1 := validate_patient (registeredPatients_of appointments)
                appointments i slot st) in *.
  assert (Hs1 : nth_error (schedule (data st1)) i
                = Some (patient_mark appointments slot)).
  { rewrite S1, update_at_same, Hs. reflexivity. }
  rewrite Hs1.
  destruct (validate_professional_data env professionals i
              (patient_mark appointments slot) st1 Hs1)
    as (S2 & N2 & U2 & D2 & C2).
  rewrite S2, N2, U2, D2, C2, N1, D1, U1, C1, S1, update_at_twice.
  cbv zeta.
  destruct (professional_action professionals (newProfessionals (data st))
              (patient_mark appointments slot)); simpl; auto.
Qed.

Lemma reconcile_length env professionals appointments slots : forall np k,
  List.length (fst (reconcile env professionals appointments np k slots))
  = List.length slots.
Proof.
  induction slots as [|s rest IH]; intros np k; [reflexivity|].
  simpl. rewrite IH. reflexivity.
Qed.

Lemma reconcile_app env professionals appointments l1 l2 : forall np k,
  reconcile env professionals appointments np k (l1 ++ l2)
  = let r1 := reconcile env professionals appointments np k l1 in
    let r2 :=
      reconcile env professionals appointments (fst (snd r1)) (snd (snd r1))
        l2 in
    (fst r1 ++ fst r2, snd r2).
Proof.
  induction l1 as [|s l1 IH]; intros np k.
  - simpl. destruct (reconcile _ _ _ np k l2). reflexivity.
  - simpl. rewrite IH. reflexivity.
Qed.

(** [_validateNames] acts on the imported data as the scan [reconcile]. *)
Lemma validateNames_reconcile env st professionals appointments :
  let st' := _validateNames env st professionals appointments in
  let r :=
    reconcile env professionals appointments (newProfessionals (data st))
      (draws st) (schedule (data st)) in
  schedule (data st') = fst r
  /\ newProfessionals (data st') = fst (snd r)
  /\ draws st' = snd (snd r)
  /\ updatedAppointments (data st') = updatedAppointments (data st)
  /\ conflicts (this st') = conflicts (this st).
Proof.
  set (sched := schedule (data st)).
  set (scan := reconcile env professionals appointments
                 (newProfessionals (data st)) (draws st)).
  pose proof (forEach_slot_inv
    (fun k stk =>
       schedule (data stk) = fst (scan (firstn k sched)) ++ skipn k sched
       /\ newProfessionals (data stk) = fst (snd (scan (firstn k sched)))
       /\ draws stk = snd (snd (scan (firstn k sched)))
       /\ updatedAppointments (data stk) = updatedAppointments (data st)
       /\ conflicts (this stk) = conflicts (this st))
    (validate_slot env (registeredPatients_of appointments)
       (registeredProfessionals_of professionals) professionals appointments)
    st) as H.
  fold sched in H. cbv beta in H.
  rewrite firstn_all, skipn_all, app_nil_r in H.
  intros st' r. apply H; clear H.
  - simpl. auto.
  - intros k stk Hk (Hs & Hn & Hd & Hu & Hc).
    assert (Hlen : List.length (fst (scan (firstn k sched))) = k).
    { unfold scan. rewrite reconcile_length, length_firstn. lia. }
    destruct (nth_error sched k) as [slot|] eqn:Hslot;
      [|apply nth_error_None in Hslot; lia].
    assert (Hk' : nth_error (schedule (data stk)) k = Some slot).
    { rewrite Hs, nth_error_mid; assumption. }
    rewrite Hk'.
    destruct (validate_slot_data env professionals appointments k slot stk Hk')
      as (S1 & N1 & D1 & U1 & C1).
    rewrite S1, N1, D1, U1, C1, Hn, Hd.
    rewrite (firstn_succ_nth _ _ _ Hslot).
    set (rs := reconcile_slot env professionals appointments
                 (fst (snd (scan (firstn k sched))))
                 (snd (snd (scan (firstn k sched)))) slot).
    assert (Hstep : scan (firstn k sched ++ [slot])
                    = (fst (scan (firstn k sched)) ++ [fst rs],
                       (fst (snd rs), snd (snd rs)))).
    { unfold scan. rewrite reconcile_app. reflexivity. }
    rewrite Hstep. cbn [fst snd].
    repeat split; try assumption.
    rewrite Hs, (skipn_nth _ _ _ Hslot).
    rewrite <- Hlen at 1. rewrite update_at_app, <- app_assoc. reflexivity.
Qed.

(** ** Name reconciliation settles the names *)

Lemma Set_values_In x xs : In x (Set_values xs) <-> In x xs.
Proof.
  unfold Set_values.
  assert (H : forall acc,
            In x (fold_left
                    (fun acc x =>
                       if existsb (String.eqb x) acc then acc else acc ++ [x])
                    xs acc)
            <-> In x acc \/ In x xs).
  { induction xs as [|y xs IH]; intros acc; simpl; [tauto|].
    rewrite IH. destruct (existsb (String.eqb y) acc) eqn:E.
    - apply existsb_exists in E. destruct E as (z & Hz & E).
      apply String.eqb_eq in E. subst z.
      split; [tauto|]. intros [H|[<-|H]]; auto.
    - rewrite in_app_iff. simpl. tauto. }
  rewrite H. simpl. tauto.
Qed.

Lemma existsb_eqb_In x l : existsb (String.eqb x) l = true <-> In x l.
Proof.
  rewrite existsb_exists. split.
  - intros (y & Hy & E). apply String.eqb_eq in E. subst y. exact Hy.
  - intros H. exists x. split; [exact H|apply String.eqb_refl].
Qed.

Lemma patient_correction_ext appointments s1 s2 :
  patientName s1 = patientName s2 ->
  patient_correction appointments s1 = patient_correction appointments s2.
Proof. unfold patient_correction. intros ->. reflexivity. Qed.

Lemma professional_action_ext professionals np s1 s2 :
  professionalName s1 = professionalName s2 ->
  professional_action professionals np s1
  = professional_action professionals np s2.
Proof. unfold professional_action. intros ->. reflexivity. Qed.

(** A corrected patient name is a registered one. *)
Lemma patient_mark_settled appointments slot :
  patient_correction appointments (patient_mark appointments slot) = None.
Proof.
  unfold patient_mark.
  destruct (patient_correction appointments slot) as [a|] eqn:E; [|exact E].
  unfold patient_correction in E.
  destruct (Js.truthy (patientName slot)); [|discriminate].
  cbv zeta in E.
  destruct (existsb _ (registeredPatients_of appointments)); [discriminate|].
  destruct (Js.truthy (_findClosestMatch _ (registeredPatients_of appointments)));
    [|discriminate].
  apply find_some in E. destruct E as [Hin _].
  unfold patient_correction. simpl patientName.
  destruct (Js.truthy (Some (client a))); [|reflexivity].
  cbv zeta. simpl Js.show.
  assert (H : existsb (String.eqb (normalize (client a)))
                (registeredPatients_of appointments) = true).
  { apply existsb_eqb_In. unfold registeredPatients_of.
    apply Set_values_In. apply in_map_iff. exists a. auto. }
  rewrite H. reflexivity.
Qed.

Lemma existsb_app_true {A} (f : A -> bool) l extra :
  existsb f l = true -> existsb f (l ++ extra) = true.
Proof. intros H. rewrite existsb_app, H. reflexivity. Qed.

(** A settled slot is left as it is. *)
Lemma settled_fixed env professionals appointments np k slot :
  settled professionals appointments np slot ->
  reconcile_slot env professionals appointments np k slot = (slot, (np, k)).
Proof.
  intros H. unfold reconcile_slot.
  destruct (isOccupied slot) eqn:Ho; [|reflexivity].
  simpl negb. cbv iota zeta.
  destruct (H Ho) as [Hp Hn]. unfold patient_mark. rewrite Hp, Hn.
  reflexivity.
Qed.

(** After the callback the slot is settled, whatever is added to the new
    professionals later. *)
Lemma reconcile_slot_settles env professionals appointments np k slot extra :
  let r := reconcile_slot env professionals appointments np k slot in
  settled professionals appointments (fst (snd r) ++ extra) (fst r).
Proof.
  intros r.
  remember (reconcile_slot env professionals appointments np k slot) as r0
    eqn:Hr.
  subst r. unfold reconcile_slot in Hr.
  destruct (isOccupied slot) eqn:Ho; simpl negb in Hr; cbv iota in Hr.
  2:{ subst r0. cbn [fst snd]. intros Ho'. congruence. }
  cbv zeta in Hr.
  set (slot1 := patient_mark appointments slot) in *.
  assert (Hp : forall s, patientName s = patientName slot1 ->
                         patient_correction appointments s = None).
  { intros s Hs.
    rewrite (patient_correction_ext appointments s slot1 Hs).
    apply patient_mark_settled. }
  destruct (professional_action professionals np slot1) eqn:A;
    subst r0; cbn [fst snd]; intros _; (split; [apply Hp; reflexivity|]).
  - (* no action *)
    revert A. unfold professional_action.
    destruct (Js.truthy (professionalName slot1)); [|reflexivity].
    cbv zeta.
    destruct (existsb _ (registeredProfessionals_of professionals));
      [reflexivity|].
    rewrite existsb_app.
    destruct (existsb _ np); [reflexivity|]. simpl orb.
    destruct (existsb _ extra); [reflexivity|].
    destruct (Js.truthy
                (_findClosestMatch _
                   (registeredProfessionals_of professionals)));
      [|discriminate].
    destruct (find _ professionals); [discriminate|reflexivity].
  - (* corrected *)
    assert (Hin : In originalProf professionals).
    { revert A. unfold professional_action.
      destruct (Js.truthy (professionalName slot1)); [|discriminate].
      cbv zeta.
      destruct (existsb _ (registeredProfessionals_of professionals));
        [discriminate|].
      destruct (existsb _ np); [discriminate|].
      destruct (Js.truthy
                  (_findClosestMatch _
                     (registeredProfessionals_of professionals)));
        [|discriminate].
      destruct (find _ professionals) as [p|] eqn:F; [|discriminate].
      intros E. inversion E; subst p. apply (find_some _ _ F). }
    unfold professional_action. simpl professionalName.
    destruct (Js.truthy (Some (prof_name originalProf))); [|reflexivity].
    cbv zeta. simpl Js.show.
    assert (H : existsb (String.eqb (normalize (prof_name originalProf)))
                  (registeredProfessionals_of professionals) = true).
    { apply existsb_eqb_In. unfold registeredProfessionals_of.
      apply in_map_iff. exists originalProf. auto. }
    rewrite H. reflexivity.
  - (* created *)
    revert A. unfold professional_action. simpl professionalName.
    destruct (Js.truthy (professionalName slot1)); [|reflexivity].
    cbv zeta.
    destruct (existsb _ (registeredProfessionals_of professionals));
      [reflexivity|].
    intros _. rewrite !existsb_app. simpl existsb.
    rewrite String.eqb_refl, !orb_true_r. reflexivity.
Qed.

Lemma reconcile_slot_settled env env' professionals appointments np k slot
  extra k' :
  let r := reconcile_slot env professionals appointments np k slot in
  reconcile_slot env' professionals appointments (fst (snd r) ++ extra) k'
    (fst r)
  = (fst r, (fst (snd r) ++ extra, k')).
Proof. intros r. apply settled_fixed, reconcile_slot_settles. Qed.

Lemma reconcile_grows env professionals appointments slots : forall np k,
  exists created,
    fst (snd (reconcile env professionals appointments np k slots))
    = np ++ created.
Proof.
  induction slots as [|s rest IH]; intros np k.
  - exists []. simpl. rewrite app_nil_r. reflexivity.
  - simpl.
    destruct (IH (fst (snd (reconcile_slot env professionals appointments
                              np k s)))
                 (snd (snd (reconcile_slot env professionals appointments
                              np k s)))) as (c2 & E2).
    rewrite E2. unfold reconcile_slot.
    destruct (negb (isOccupied s)); [exists c2; reflexivity|].
    destruct (professional_action _ _ _); cbn [fst snd].
    + exists c2. reflexivity.
    + exists c2. reflexivity.
    + eexists. rewrite <- app_assoc. reflexivity.
Qed.

Lemma reconcile_settled env env' professionals appointments slots :
  forall np k extra k',
    let r := reconcile env professionals appointments np k slots in
    reconcile env' professionals appointments (fst (snd r) ++ extra) k'
      (fst r)
    = (fst r, (fst (snd r) ++ extra, k')).
Proof.
  induction slots as [|s rest IH]; intros np k extra k'; [reflexivity|].
  cbn [reconcile fst snd]. cbv zeta.
  set (r1 := reconcile_slot env professionals appointments np k s).
  set (rs := reconcile env professionals appointments (fst (snd r1))
               (snd (snd r1)) rest).
  destruct (reconcile_grows env professionals appointments rest
              (fst (snd r1)) (snd (snd r1))) as (c2 & E2).
  fold rs in E2. cbn [reconcile fst snd].
  assert (H1 : reconcile_slot env' professionals appointments
                 (fst (snd rs) ++ extra) k' (fst r1)
               = (fst r1, (fst (snd rs) ++ extra, k'))).
  { rewrite E2, <- app_assoc.
    apply (reconcile_slot_settled env env' professionals appointments np k s). }
  rewrite H1. cbn [fst snd].
  pose proof (IH (fst (snd r1)) (snd (snd r1)) extra k') as H2.
  cbv zeta in H2. fold rs in H2. rewrite H2. reflexivity.
Qed.

(** Running the name reconciliation again on the data it has processed, with
    the same registries, changes no slot and creates no professional. *)
Theorem validateNames_idempotent (env env' : Environment) (st : State)
  (professionals : list Professional) (appointments : list Appointment) :
  let st1 := _validateNames env st professionals appointments in
  forall this' k',
    data (_validateNames env' (mkState (data st1) this' k') professionals
            appointments)
    = data st1.
Proof.
  intros st1 this' k'.
  destruct (validateNames_reconcile env st professionals appointments)
    as (S1 & N1 & _ & U1 & _).
  fold st1 in S1, N1, U1.
  destruct (validateNames_reconcile env' (mkState (data st1) this' k')
              professionals appointments) as (S2 & N2 & _ & U2 & _).
  cbn [data draws] in S2, N2, U2.
  set (st2 := _validateNames env' (mkState (data st1) this' k') professionals
                appointments) in *.
  pose proof (reconcile_settled env env' professionals appointments
                (schedule (data st)) (newProfessionals (data st)) (draws st)
                [] k') as H.
  cbv zeta in H. rewrite app_nil_r, <- S1, <- N1 in H.
  rewrite H in S2, N2. cbn [fst snd] in S2, N2.
  destruct (data st2) as [s2 n2 u2], (data st1) as [s1 n1 u1].
  simpl in *. congruence.
Qed.

(** ** Schedules whose names are known *)

Lemma forEach_slot_fixed body st :
  (forall i slot, nth_error (schedule (data st)) i = Some slot ->
                  body i slot st = st) ->
  forEach_slot body st = st.
Proof.
  intros H.
  apply (forEach_slot_inv (fun _ stk => stk = st) body st); [reflexivity|].
  intros i st' _ ->.
  destruct (nth_error (schedule (data st)) i) as [slot|] eqn:Hs;
    [apply (H i slot Hs)|reflexivity].
Qed.

Lemma validate_slot_known env professionals appointments i slot st :
  (isOccupied slot = true ->
   names_known professionals appointments (newProfessionals (data st)) slot) ->
  nth_error (schedule (data st)) i = Some slot ->
  validate_slot env (registeredPatients_of appointments)
    (registeredProfessionals_of professionals) professionals appointments i
    slot st
  = st.
Proof.
  intros Hk Hs. unfold validate_slot.
  destruct (isOccupied slot); [|reflexivity]. simpl negb. cbv iota.
  destruct (Hk eq_refl) as [Hp Hn].
  assert (E1 : validate_patient (registeredPatients_of appointments)
                 appointments i slot st = st).
  { unfold validate_patient.
    destruct (Js.truthy (patientName slot)); [|reflexivity].
    cbv zeta. rewrite (proj2 (existsb_eqb_In _ _) (Hp eq_refl)).
    reflexivity. }
  rewrite E1, Hs. unfold validate_professional.
  destruct (Js.truthy (professionalName slot)); [|reflexivity].
  cbv zeta.
  destruct (existsb _ (registeredProfessionals_of professionals)) eqn:E2;
    [reflexivity|].
  destruct (Hn eq_refl) as [Hin|Hnew].
  - apply existsb_eqb_In in Hin. congruence.
  - rewrite existsb_called.
    destruct (called _ (newProfessionals (data st))); [contradiction|].
    reflexivity.
Qed.

(** On a schedule whose occupied slots all carry known names, the name
    reconciliation does nothing at all: no slot changes (a slot of a
    registered professional keeps the [professionalId] it came with, even
    none), nothing is created and nothing is recorded. *)
Theorem validateNames_known (env : Environment) (st : State)
  (professionals : list Professional) (appointments : list Appointment) :
  (forall slot,
     In slot (schedule (data st)) -> isOccupied slot = true ->
     names_known professionals appointments (newProfessionals (data st))
       slot) ->
  _validateNames env st professionals appointments = st.
Proof.
  intros H. unfold _validateNames. apply forEach_slot_fixed.
  intros i slot Hs. apply validate_slot_known; [|exact Hs].
  intros Ho. apply H; [apply (nth_error_In _ _ Hs)|exact Ho].
Qed.

(** A slot of a registered professional without identifier, and a patient
    who is a client. *)
Lemma validateNames_known_witness :
  let slot :=
    mkSlot "s1" "Sala 1" "Segunda" "08:00" "2024-03-04" true
      (Some " BIA "%string) (Some "ana souza"%string) None None None None in
  let a1 := mkAppointment "a1" "Bia" "p1" "2024-03-05" "08:00" "Consulta" in
  let st := start (mkRoomImportData [slot] [] []) in
  _validateNames example_env st [ana] [a1] = st.
Proof.
  intros slot a1 st.
  apply (validateNames_known example_env st [ana] [a1]).
  intros s [<-|[]] _. split; intros _; [|left]; vm_compute; auto.
Defined.

(** ** The professionals a run creates *)


Lemma patient_mark_professional appointments slot :
  professionalName (patient_mark appointments slot) = professionalName slot
  /\ professionalId (patient_mark appointments slot) = professionalId slot
  /\ isOccupied (patient_mark appointments slot) = isOccupied slot.
Proof.
  unfold patient_mark. destruct (patient_correction appointments slot); auto.
Qed.




(** ** Where the names written by a run come from *)

Lemma patient_mark_from appointments slot :
  patientName (patient_mark appointments slot) = patientName slot
  \/ exists apt,
       In apt appointments
       /\ patientName (patient_mark appointments slot) = Some (client apt).
Proof.
  unfold patient_mark.
  destruct (patient_correction appointments slot) as [a|] eqn:E; [|auto].
  right. exists a. split; [|reflexivity].
  unfold patient_correction in E.
  destruct (Js.truthy (patientName slot)); [|discriminate].
  cbv zeta in E.
  destruct (existsb _ (registeredPatients_of appointments)); [discriminate|].
  destruct (Js.truthy (_findClosestMatch _ (registeredPatients_of appointments)));
    [|discriminate].
  apply (find_some _ _ E).
Qed.

Lemma professional_action_Correct professionals np slot p :
  professional_action professionals np slot = Correct p -> In p professionals.
Proof.
  unfold professional_action.
  destruct (Js.truthy (professionalName slot)); [|discriminate].
  cbv zeta.
  destruct (existsb _ (registeredProfessionals_of professionals));
    [discriminate|].
  destruct (existsb _ np); [discriminate|].
  destruct (Js.truthy
              (_findClosestMatch _ (registeredProfessionals_of professionals)));
    [|discriminate].
  destruct (find _ professionals) as [q|] eqn:F; [|discriminate].
  intros E. inversion E; subst q. apply (find_some _ _ F).
Qed.

Lemma professional_action_truthy professionals np slot :
  professional_action professionals np slot = Create ->
  professionalName slot = Some (Js.show (professionalName slot)).
Proof.
  unfold professional_action.
  destruct (professionalName slot) as [n|]; [reflexivity|discriminate].
Qed.

Lemma reconcile_slot_names env professionals appointments np k slot :
  let r := reconcile_slot env professionals appointments np k slot in
  names_from professionals appointments (fst (snd r)) slot (fst r).
Proof.
  intros r. subst r. unfold reconcile_slot, names_from.
  destruct (isOccupied slot); simpl negb; cbv iota; [|simpl; auto].
  destruct (patient_mark_professional appointments slot) as (Pn & Pi & _).
  pose proof (patient_mark_from appointments slot) as Pp.
  set (slot1 := patient_mark appointments slot) in *.
  destruct (professional_action professionals np slot1) eqn:A;
    cbn [fst snd]; simpl patientName; simpl professionalName;
    simpl professionalId.
  - split; [exact Pp|left; auto].
  - split; [exact Pp|]. right. left. exists originalProf.
    split; [apply (professional_action_Correct _ _ _ _ A)|auto].
  - split; [exact Pp|]. right. right.
    exists (created_professional env k slot1).
    split; [apply in_or_app; right; left; reflexivity|].
    split; [exact Pn|]. split; [|reflexivity].
    apply (professional_action_truthy _ _ _ A).
Qed.

Lemma names_from_grows professionals appointments np extra s s' :
  names_from professionals appointments np s s' ->
  names_from professionals appointments (np ++ extra) s s'.
Proof.
  intros [Hp Hn]. split; [exact Hp|].
  destruct Hn as [H|[H|(p & Hin & H)]]; auto.
  right. right. exists p. split; [apply in_or_app; left; exact Hin|exact H].
Qed.

Lemma reconcile_names env professionals appointments slots : forall np k,
  let r := reconcile env professionals appointments np k slots in
  Forall2 (names_from professionals appointments (fst (snd r))) slots (fst r).
Proof.
  induction slots as [|s rest IH]; intros np k r; subst r; [constructor|].
  cbn [reconcile fst snd]. cbv zeta.
  set (r1 := reconcile_slot env professionals appointments np k s).
  destruct (reconcile_grows env professionals appointments rest
              (fst (snd r1)) (snd (snd r1))) as (c2 & E2).
  constructor; [|apply IH].
  rewrite E2. apply names_from_grows.
  apply reconcile_slot_names.
Qed.

Lemma names_from_marks professionals appointments np s s1 s' :
  names_from professionals appointments np s s1 ->
  slot_marks s1 s' ->
  names_from professionals appointments np s s'.
Proof.
  unfold names_from.
  intros H (_ & _ & _ & _ & _ & _ & M7 & M8 & M9 & _).
  rewrite M7, M8, M9. exact H.
Qed.

(** Whatever name or professional identifier a run writes into a slot comes
    from one record: a patient name is the client of an existing
    appointment; a professional name and identifier are written together and
    are those of one registered professional; and an identifier written
    alone is that of a new professional of the processed data who has the
    name of the slot. *)
Theorem run_names_from_records (env : Environment)
  (roomImportData : RoomImportData) (professionals : list Professional)
  (appointments : list Appointment) :
  let st' :=
    final (processImportedData env roomImportData professionals appointments) in
  Forall2
    (names_from professionals appointments (newProfessionals (data st')))
    (schedule roomImportData) (schedule (data st')).
Proof.
  intros st'. subst st'. rewrite processImportedData_detect.
  set (st1 := _validateNames env (start roomImportData) professionals
                appointments).
  pose proof (detect_marks st1 professionals appointments) as M.
  rewrite (marks_newProfessionals _ _ M).
  destruct (validateNames_reconcile env (start roomImportData) professionals
              appointments) as (S1 & N1 & _).
  fold st1 in S1, N1.
  pose proof (reconcile_names env professionals appointments
                (schedule roomImportData) (newProfessionals roomImportData) 0)
    as H.
  cbv zeta in H. cbn [start data newProfessionals draws schedule] in S1, N1.
  rewrite <- S1, <- N1 in H.
  pose proof (marks_schedule _ _ M) as HM.
  revert H HM. generalize (schedule (data st1)).
  generalize (schedule
                (data (final (detect st1 professionals appointments)))).
  generalize (schedule roomImportData).
  induction l as [|s l IH]; intros l' l1 H HM.
  - inversion H; subst. inversion HM; subst. constructor.
  - inversion H as [|? s1 ? l1' Hs Hl]; subst.
    inversion HM as [|? s' ? l'' Hs' Hl']; subst.
    constructor.
    + apply (names_from_marks _ _ _ _ _ _ Hs Hs').
    + apply (IH _ _ Hl Hl').
Qed.

(** ** Flags set at positions *)

Lemma combine_seq_nth {A} (l : list A) : forall k j,
  nth_error (combine (seq k (List.length l)) l) j
  = option_map (fun x => (k + j, x)) (nth_error l j).
Proof.
  induction l as [|x l IH]; intros k [|j]; simpl; try reflexivity.
  - rewrite Nat.add_0_r. reflexivity.
  - rewrite IH. replace (S k + j) with (k + S j) by lia. reflexivity.
Qed.

Lemma flag_at_nth flag sched j :
  nth_error (flag_at flag sched) j
  = option_map
      (fun s => if flag j then set_hasScheduleConflict s else s)
      (nth_error sched j).
Proof.
  unfold flag_at. rewrite nth_error_map, combine_seq_nth.
  destruct (nth_error sched j); reflexivity.
Qed.

Lemma flag_at_length flag sched :
  List.length (flag_at flag sched) = List.length sched.
Proof.
  unfold flag_at. rewrite length_map, length_combine, length_seq. lia.
Qed.

Lemma nth_error_ext {A} (l1 l2 : list A) :
  (forall j, nth_error l1 j = nth_error l2 j) -> l1 = l2.
Proof.
  revert l2. induction l1 as [|x l1 IH]; intros [|y l2] H.
  - reflexivity.
  - specialize (H 0). discriminate.
  - specialize (H 0). discriminate.
  - pose proof (H 0) as H0. simpl in H0. inversion H0; subst.
    f_equal. apply IH. intros j. apply (H (S j)).
Qed.

Lemma flag_at_ext f g sched :
  (forall j, j < List.length sched -> f j = g j) ->
  flag_at f sched = flag_at g sched.
Proof.
  intros H. apply nth_error_ext. intros j. rewrite !flag_at_nth.
  destruct (nth_error sched j) eqn:E; [|reflexivity].
  simpl. rewrite H; [reflexivity|]. apply nth_error_Some. congruence.
Qed.

Lemma flag_at_none sched : flag_at (fun _ => false) sched = sched.
Proof.
  apply nth_error_ext. intros j. rewrite flag_at_nth.
  destruct (nth_error sched j); reflexivity.
Qed.

Lemma flag_at_twice f g sched :
  flag_at f (flag_at g sched) = flag_at (fun j => g j || f j) sched.
Proof.
  apply nth_error_ext. intros j. rewrite !flag_at_nth.
  destruct (nth_error sched j); [|reflexivity]. simpl.
  destruct (g j), (f j); reflexivity.
Qed.

Lemma update_at_flag sched i :
  update_at i set_hasScheduleConflict sched = flag_at (Nat.eqb i) sched.
Proof.
  apply nth_error_ext. intros j. rewrite flag_at_nth.
  destruct (Nat.eqb_spec i j) as [<-|Hne].
  - apply update_at_same.
  - rewrite update_at_other by exact Hne.
    destruct (nth_error sched j); reflexivity.
Qed.

Lemma listed_app l1 l2 : listed (l1 ++ l2) = listed l1 + listed l2.
Proof. unfold listed. rewrite map_app, list_sum_app. reflexivity. Qed.

(** The loop that flags the slots of a group: the schedule it leaves, and
    the suggested changes it appends, one for each reference. *)
Lemma flag_loop_effect change : forall refs st,
  (forall j, In j refs -> j < List.length (schedule (data st))) ->
  let st' := flag_loop change refs st in
  schedule (data st') = flag_at (fun j => mem j refs) (schedule (data st))
  /\ newProfessionals (data st') = newProfessionals (data st)
  /\ updatedAppointments (data st') = updatedAppointments (data st)
  /\ draws st' = draws st
  /\ originalData (this st') = originalData (this st)
  /\ conflicts (this st') = conflicts (this st)
  /\ validationErrors (this st') = validationErrors (this st)
  /\ autoCorrections (this st') = autoCorrections (this st)
  /\ exists chs,
       suggestedChanges (this st') = suggestedChanges (this st) ++ chs
       /\ List.length chs = List.length refs.
Proof.
  induction refs as [|i refs IH]; intros st Hv st'; subst st'.
  - simpl. rewrite flag_at_none. repeat split; auto.
    exists []. rewrite app_nil_r. auto.
  - rewrite flag_loop_cons.
    destruct (nth_error (schedule (data st)) i) as [slot|] eqn:Hs.
    2:{ apply nth_error_None in Hs.
        specialize (Hv i (or_introl eq_refl)). lia. }
    set (st1 := push_suggestedChange (change slot)
                  (update_slot i set_hasScheduleConflict st)).
    destruct (IH st1) as (S & N & U & D & O & C & V & A & chs & G & L).
    { intros j Hj. unfold st1. simpl. rewrite update_at_length.
      apply Hv. right. exact Hj. }
    rewrite S, N, U, D, O, C, V, A, G. unfold st1. simpl.
    rewrite update_at_flag, flag_at_twice.
    split.
    { apply flag_at_ext. intros j _. simpl. rewrite Nat.eqb_sym.
      reflexivity. }
    repeat split; auto.
    exists (change slot :: chs). rewrite <- app_assoc. simpl.
    split; [reflexivity|lia].
Qed.

Lemma set_hasScheduleConflict_fields s :
  let s' := set_hasScheduleConflict s in
  slot_id s' = slot_id s /\ roomName s' = roomName s
  /\ dayOfWeek s' = dayOfWeek s /\ time s' = time s
  /\ appointmentDate s' = appointmentDate s /\ isOccupied s' = isOccupied s
  /\ patientName s' = patientName s
  /\ professionalName s' = professionalName s
  /\ professionalId s' = professionalId s
  /\ linkedAppointmentId s' = linkedAppointmentId s
  /\ hasValidationError s' = hasValidationError s.
Proof. simpl. repeat split. Qed.

Lemma valid_refs_flag_at f sched refs :
  valid_refs sched refs -> valid_refs (flag_at f sched) refs.
Proof.
  intros H j Hj. destruct (H j Hj) as [Hlt Ho]. split.
  - rewrite flag_at_length. exact Hlt.
  - intros s'. rewrite flag_at_nth.
    destruct (nth_error sched j) as [s|] eqn:E; [|discriminate].
    simpl. intros E'. inversion E'; subst s'.
    destruct (f j); [simpl|]; apply (Ho s E).
Qed.

Lemma deref_flag_at f sched refs :
  deref (flag_at f sched) refs
  = flat_map
      (fun i =>
         match nth_error sched i with
         | Some s => [if f i then set_hasScheduleConflict s else s]
         | None => []
         end)
      refs.
Proof.
  unfold deref. apply flat_map_ext. intros i. rewrite flag_at_nth.
  destruct (nth_error sched i); reflexivity.
Qed.

(** Lists of slots that agree on everything but the conflict flag. *)
Lemma deref_flag_at_map {A} (g : Slot -> A) f sched refs :
  (forall s, g (set_hasScheduleConflict s) = g s) ->
  map g (deref (flag_at f sched) refs) = map g (deref sched refs).
Proof.
  intros Hg. rewrite deref_flag_at. unfold deref.
  induction refs as [|i refs IH]; [reflexivity|].
  simpl. rewrite !map_app, IH. f_equal.
  destruct (nth_error sched i) as [s|]; [|reflexivity].
  simpl. destruct (f i); [rewrite Hg|]; reflexivity.
Qed.

Section ReportEffects.

(** The body of a [for (const key in ...)] loop, and the conflicts it
    records for the slots of a group of more than one member. *)
Variable report : State -> string * list nat -> State.
Variable build : list Slot -> list Conflict.

Hypothesis build_flags : forall f sched refs,
  build (deref (flag_at f sched) refs) = build (deref sched refs).

Hypothesis report_effect : forall st key refs,
  valid_refs (schedule (data st)) refs ->
  let st' := report st (key, refs) in
  schedule (data st')
  = flag_at (fun j => (1 <? List.length refs) && mem j refs)
      (schedule (data st))
  /\ newProfessionals (data st') = newProfessionals (data st)
  /\ updatedAppointments (data st') = updatedAppointments (data st)
  /\ draws st' = draws st
  /\ originalData (this st') = originalData (this st)
  /\ validationErrors (this st') = validationErrors (this st)
  /\ autoCorrections (this st') = autoCorrections (this st)
  /\ conflicts (this st')
     = conflicts (this st)
       ++ group_conflicts build (schedule (data st)) (key, refs)
  /\ exists chs,
       suggestedChanges (this st') = suggestedChanges (this st) ++ chs
       /\ List.length chs
          = listed (group_conflicts build (schedule (data st)) (key, refs)).

Lemma report_fold_effect : forall obj st,
  (forall key refs, In (key, refs) obj ->
                    valid_refs (schedule (data st)) refs) ->
  let st' := fold_left report obj st in
  schedule (data st') = flag_at (in_large_group obj) (schedule (data st))
  /\ newProfessionals (data st') = newProfessionals (data st)
  /\ updatedAppointments (data st') = updatedAppointments (data st)
  /\ draws st' = draws st
  /\ originalData (this st') = originalData (this st)
  /\ validationErrors (this st') = validationErrors (this st)
  /\ autoCorrections (this st') = autoCorrections (this st)
  /\ conflicts (this st')
     = conflicts (this st)
       ++ flat_map (group_conflicts build (schedule (data st))) obj
  /\ exists chs,
       suggestedChanges (this st') = suggestedChanges (this st) ++ chs
       /\ List.length chs
          = listed
              (flat_map (group_conflicts build (schedule (data st))) obj).
Proof.
  induction obj as [|[key0 refs0] obj IH]; intros st Hvalid st'; subst st'.
  - simpl. rewrite flag_at_none, app_nil_r. repeat split; auto.
    exists []. rewrite app_nil_r. auto.
  - simpl fold_left.
    destruct (report_effect st key0 refs0
                (Hvalid key0 refs0 (or_introl eq_refl)))
      as (S1 & N1 & U1 & D1 & O1 & V1 & A1 & C1 & chs1 & G1 & L1).
    set (st1 := report st (key0, refs0)) in *.
    destruct (IH st1) as (S2 & N2 & U2 & D2 & O2 & V2 & A2 & C2 & chs2 & G2
                          & L2).
    { intros key refs Hin. rewrite S1. apply valid_refs_flag_at.
      apply (Hvalid key refs). right. exact Hin. }
    assert (Hsame :
              flat_map (group_conflicts build (schedule (data st1))) obj
              = flat_map (group_conflicts build (schedule (data st))) obj).
    { apply flat_map_ext. intros [key refs]. unfold group_conflicts.
      simpl snd. rewrite S1, build_flags. reflexivity. }
    rewrite Hsame in C2, L2.
    rewrite S2, N2, U2, D2, O2, V2, A2, C2, G2, S1, N1, U1, D1, O1, V1, A1,
      C1, G1, flag_at_twice.
    simpl flat_map. rewrite <- !app_assoc. repeat split; auto.
    exists (chs1 ++ chs2). split; [reflexivity|].
    rewrite length_app, listed_app. lia.
Qed.

End ReportEffects.

Lemma double_booking_conflicts_flags f sched refs :
  double_booking_conflicts (deref (flag_at f sched) refs)
  = double_booking_conflicts (deref sched refs).
Proof.
  pose proof (deref_flag_at_map roomName f sched refs (fun _ => eq_refl)) as R.
  pose proof (deref_flag_at_map slot_id f sched refs (fun _ => eq_refl)) as I.
  pose proof (deref_flag_at_map professionalName f sched refs
                (fun _ => eq_refl)) as P.
  pose proof (deref_flag_at_map dayTime_of f sched refs (fun _ => eq_refl))
    as D.
  unfold double_booking_conflicts.
  destruct (deref (flag_at f sched) refs) as [|a l],
           (deref sched refs) as [|b l'];
    try discriminate; [reflexivity|].
  rewrite R, I. simpl in P, D. congruence.
Qed.

Lemma duplicate_room_conflicts_flags f sched refs :
  duplicate_room_conflicts (deref (flag_at f sched) refs)
  = duplicate_room_conflicts (deref sched refs).
Proof.
  pose proof (deref_flag_at_map roomName f sched refs (fun _ => eq_refl)) as R.
  pose proof (deref_flag_at_map slot_id f sched refs (fun _ => eq_refl)) as I.
  pose proof (deref_flag_at_map professionalName f sched refs
                (fun _ => eq_refl)) as P.
  pose proof (deref_flag_at_map patientName f sched refs (fun _ => eq_refl))
    as Q.
  pose proof (deref_flag_at_map dayTime_of f sched refs (fun _ => eq_refl))
    as D.
  unfold duplicate_room_conflicts.
  destruct (deref (flag_at f sched) refs) as [|a l],
           (deref sched refs) as [|b l'];
    try discriminate; [reflexivity|].
  rewrite P, Q, I. simpl in R, D. congruence.
Qed.

Lemma double_booking_conflicts_listed slots :
  listed (double_booking_conflicts slots) = List.length slots.
Proof.
  destruct slots; [reflexivity|].
  unfold listed. simpl. rewrite length_map. lia.
Qed.

Lemma duplicate_room_conflicts_listed slots :
  listed (duplicate_room_conflicts slots) = List.length slots.
Proof.
  destruct slots; [reflexivity|].
  unfold listed. simpl. rewrite length_map. lia.
Qed.

Lemma report_double_booking_effect st key refs :
  valid_refs (schedule (data st)) refs ->
  let st' := report_double_booking st (key, refs) in
  schedule (data st')
  = flag_at (fun j => (1 <? List.length refs) && mem j refs)
      (schedule (data st))
  /\ newProfessionals (data st') = newProfessionals (data st)
  /\ updatedAppointments (data st') = updatedAppointments (data st)
  /\ draws st' = draws st
  /\ originalData (this st') = originalData (this st)
  /\ validationErrors (this st') = validationErrors (this st)
  /\ autoCorrections (this st') = autoCorrections (this st)
  /\ conflicts (this st')
     = conflicts (this st)
       ++ group_conflicts double_booking_conflicts (schedule (data st))
            (key, refs)
  /\ exists chs,
       suggestedChanges (this st') = suggestedChanges (this st) ++ chs
       /\ List.length chs
          = listed (group_conflicts double_booking_conflicts
                      (schedule (data st)) (key, refs)).
Proof.
  intros Hvalid st'. subst st'.
  unfold report_double_booking, group_conflicts. simpl snd.
  destruct (1 <? List.length refs) eqn:Hbig.
  2:{ rewrite flag_at_none, app_nil_r. repeat split; auto.
      exists []. rewrite app_nil_r. auto. }
  apply Nat.ltb_lt in Hbig.
  pose proof (deref_length (schedule (data st)) refs
                (fun j Hj => proj1 (Hvalid j Hj))) as Hlen.
  rewrite double_booking_conflicts_listed, Hlen.
  destruct (deref (schedule (data st)) refs) as [|first others] eqn:Hd;
    [simpl in Hlen; lia|].
  set (c := ProfissionalEmMultiplasSalas (professionalName first)
              (Js.join ", " (map roomName (first :: others)))
              (dayTime_of first) (map slot_id (first :: others))).
  set (st1 := push_conflict c st).
  match goal with
  | |- context [fold_left ?f refs st1] =>
      change (fold_left f refs st1)
        with (flag_loop
                (fun slot =>
                   mkChangeRecord ("Conflito de " ++ Horario)%string
                     ("Profissional "
                      ++ quoted (Js.show (professionalName first))
                      ++ " agendado em m" ++ code_unit 250
                      ++ "ltiplas salas: "
                      ++ Js.join ", " (map roomName (first :: others)))%string
                     (dayTime_of first) (slot_id slot))
                refs st1)
  end.
  match goal with
  | |- context [flag_loop ?ch refs st1] =>
      destruct (flag_loop_effect ch refs st1)
        as (S & N & U & D & O & C & V & A & chs & G & L)
  end.
  { intros j Hj. apply (Hvalid j Hj). }
  rewrite S, N, U, D, O, C, V, A, G. simpl.
  repeat split; auto. exists chs. auto.
Qed.

Lemma report_duplicate_room_effect st key refs :
  valid_refs (schedule (data st)) refs ->
  let st' := report_duplicate_room st (key, refs) in
  schedule (data st')
  = flag_at (fun j => (1 <? List.length refs) && mem j refs)
      (schedule (data st))
  /\ newProfessionals (data st') = newProfessionals (data st)
  /\ updatedAppointments (data st') = updatedAppointments (data st)
  /\ draws st' = draws st
  /\ originalData (this st') = originalData (this st)
  /\ validationErrors (this st') = validationErrors (this st)
  /\ autoCorrections (this st') = autoCorrections (this st)
  /\ conflicts (this st')
     = conflicts (this st)
       ++ group_conflicts duplicate_room_conflicts (schedule (data st))
            (key, refs)
  /\ exists chs,
       suggestedChanges (this st') = suggestedChanges (this st) ++ chs
       /\ List.length chs
          = listed (group_conflicts duplicate_room_conflicts
                      (schedule (data st)) (key, refs)).
Proof.
  intros Hvalid st'. subst st'.
  unfold report_duplicate_room, group_conflicts. simpl snd.
  destruct (1 <? List.length refs) eqn:Hbig.
  2:{ rewrite flag_at_none, app_nil_r. repeat split; auto.
      exists []. rewrite app_nil_r. auto. }
  apply Nat.ltb_lt in Hbig.
  pose proof (deref_length (schedule (data st)) refs
                (fun j Hj => proj1 (Hvalid j Hj))) as Hlen.
  rewrite duplicate_room_conflicts_listed, Hlen.
  destruct (deref (schedule (data st)) refs) as [|first others] eqn:Hd;
    [simpl in Hlen; lia|].
  set (c := SalaComMultiplosAgendamentos (roomName first) (dayTime_of first)
              (Js.join ", " (filter_Boolean (map patientName (first :: others))))
              (Js.join ", "
                 (filter_Boolean (map professionalName (first :: others))))
              (map slot_id (first :: others))).
  set (st1 := push_conflict c st).
  match goal with
  | |- context [fold_left ?f refs st1] =>
      change (fold_left f refs st1)
        with (flag_loop
                (fun slot =>
                   mkChangeRecord "Sala Duplicada"
                     ("Sala " ++ quoted (roomName first) ++ " com m"
                      ++ code_unit 250
                      ++ "ltiplos agendamentos no mesmo hor" ++ code_unit 225
                      ++ "rio")%string
                     (dayTime_of first) (slot_id slot))
                refs st1)
  end.
  match goal with
  | |- context [flag_loop ?ch refs st1] =>
      destruct (flag_loop_effect ch refs st1)
        as (S & N & U & D & O & C & V & A & chs & G & L)
  end.
  { intros j Hj. apply (Hvalid j Hj). }
  rewrite S, N, U, D, O, C, V, A, G. simpl.
  repeat split; auto. exists chs. auto.
Qed.

(** ** Passes that visit the slots one by one *)

Section Visits.

(** The callback of a [forEach] over the schedule that replaces the slot it
    visits by [mark slot] and records the conflicts [news slot], with one
    suggested change for each. *)
Variable body : nat -> Slot -> State -> State.
Variable mark : Slot -> Slot.
Variable news : Slot -> list Conflict.

Hypothesis body_effect : forall i slot st,
  nth_error (schedule (data st)) i = Some slot ->
  let st' := body i slot st in
  schedule (data st') = update_at i (fun _ => mark slot) (schedule (data st))
  /\ newProfessionals (data st') = newProfessionals (data st)
  /\ updatedAppointments (data st') = updatedAppointments (data st)
  /\ draws st' = draws st
  /\ originalData (this st') = originalData (this st)
  /\ validationErrors (this st') = validationErrors (this st)
  /\ autoCorrections (this st') = autoCorrections (this st)
  /\ conflicts (this st') = conflicts (this st) ++ news slot
  /\ exists chs,
       suggestedChanges (this st') = suggestedChanges (this st) ++ chs
       /\ List.length chs = listed (news slot).

Lemma forEach_slot_effect st :
  let st' := forEach_slot body st in
  schedule (data st') = map mark (schedule (data st))
  /\ newProfessionals (data st') = newProfessionals (data st)
  /\ updatedAppointments (data st') = updatedAppointments (data st)
  /\ draws st' = draws st
  /\ originalData (this st') = originalData (this st)
  /\ validationErrors (this st') = validationErrors (this st)
  /\ autoCorrections (this st') = autoCorrections (this st)
  /\ conflicts (this st')
     = conflicts (this st) ++ flat_map news (schedule (data st))
  /\ exists chs,
       suggestedChanges (this st') = suggestedChanges (this st) ++ chs
       /\ List.length chs = listed (flat_map news (schedule (data st))).
Proof.
  set (sched := schedule (data st)).
  pose proof (forEach_slot_inv
    (fun k stk =>
       schedule (data stk) = map mark (firstn k sched) ++ skipn k sched
       /\ newProfessionals (data stk) = newProfessionals (data st)
       /\ updatedAppointments (data stk) = updatedAppointments (data st)
       /\ draws stk = draws st
       /\ originalData (this stk) = originalData (this st)
       /\ validationErrors (this stk) = validationErrors (this st)
       /\ autoCorrections (this stk) = autoCorrections (this st)
       /\ conflicts (this stk)
          = conflicts (this st) ++ flat_map news (firstn k sched)
       /\ exists chs,
            suggestedChanges (this stk) = suggestedChanges (this st) ++ chs
            /\ List.length chs = listed (flat_map news (firstn k sched)))
    body st) as H.
  fold sched in H. cbv beta in H.
  rewrite firstn_all, skipn_all in H.
  intros st'. rewrite <- (app_nil_r (map _ sched)).
  apply H; clear H.
  - simpl. rewrite app_nil_r. repeat split; auto.
    exists []. rewrite app_nil_r. auto.
  - intros k stk Hk (Hs & Hn & Hu & Hd & Ho & Hv & Ha & Hc & chs & Hg & Hl).
    destruct (nth_error sched k) as [slot|] eqn:Hslot;
      [|apply nth_error_None in Hslot; lia].
    assert (Hk' : nth_error (schedule (data stk)) k = Some slot).
    { rewrite Hs, visited_nth. exact Hslot. }
    rewrite Hk'.
    destruct (body_effect k slot stk Hk')
      as (S1 & N1 & U1 & D1 & O1 & V1 & A1 & C1 & chs1 & G1 & L1).
    rewrite S1, N1, U1, D1, O1, V1, A1, C1, G1, Hs, Hn, Hu, Hd, Ho, Hv, Ha,
      Hc, Hg.
    rewrite (firstn_succ_nth _ _ _ Hslot), flat_map_app. simpl flat_map.
    rewrite app_nil_r, <- (firstn_succ_nth _ _ _ Hslot), <- !app_assoc.
    repeat split; auto.
    + apply (visited_step mark sched k slot Hslot).
    + exists (chs ++ chs1). split; [reflexivity|].
      rewrite length_app, listed_app. lia.
Qed.

End Visits.

Lemma listed_nil : listed [] = 0.
Proof. reflexivity. Qed.

Lemma check_existing_effect appointments i slot st :
  nth_error (schedule (data st)) i = Some slot ->
  let st' := check_existing appointments i slot st in
  schedule (data st')
  = update_at i (fun _ => existing_mark appointments slot) (schedule (data st))
  /\ newProfessionals (data st') = newProfessionals (data st)
  /\ updatedAppointments (data st') = updatedAppointments (data st)
  /\ draws st' = draws st
  /\ originalData (this st') = originalData (this st)
  /\ validationErrors (this st') = validationErrors (this st)
  /\ autoCorrections (this st') = autoCorrections (this st)
  /\ conflicts (this st')
     = conflicts (this st) ++ existing_conflicts appointments slot
  /\ exists chs,
       suggestedChanges (this st') = suggestedChanges (this st) ++ chs
       /\ List.length chs = listed (existing_conflicts appointments slot).
Proof.
  intros Hs st'. subst st'. rewrite check_existing_eq.
  unfold existing_mark, existing_conflicts.
  destruct (colliding_appointments appointments slot) as [|apt others].
  - rewrite app_nil_r. repeat split; auto.
    + clear - Hs. revert i Hs. generalize (schedule (data st)).
      induction l as [|x l IH]; intros [|i] Hs; simpl in *;
        try discriminate; [congruence|].
      f_equal. apply IH, Hs.
    + exists []. rewrite app_nil_r. auto.
  - simpl. repeat split; auto.
    + apply update_at_ext. intros x Hx. congruence.
    + eexists. split; reflexivity.
Qed.

Lemma check_inactive_effect professionals i slot st :
  nth_error (schedule (data st)) i = Some slot ->
  let st' := check_inactive professionals i slot st in
  schedule (data st')
  = update_at i (fun _ => inactive_mark professionals slot)
      (schedule (data st))
  /\ newProfessionals (data st') = newProfessionals (data st)
  /\ updatedAppointments (data st') = updatedAppointments (data st)
  /\ draws st' = draws st
  /\ originalData (this st') = originalData (this st)
  /\ validationErrors (this st') = validationErrors (this st)
  /\ autoCorrections (this st') = autoCorrections (this st)
  /\ conflicts (this st')
     = conflicts (this st) ++ inactive_conflicts professionals slot
  /\ exists chs,
       suggestedChanges (this st') = suggestedChanges (this st) ++ chs
       /\ List.length chs = listed (inactive_conflicts professionals slot).
Proof.
  intros Hs st'. subst st'. rewrite check_inactive_eq.
  unfold inactive_mark, inactive_conflicts.
  destruct (inactive_professional_of professionals slot) as [p|].
  - simpl. repeat split; auto.
    + apply update_at_ext. intros x Hx. congruence.
    + eexists. split; reflexivity.
  - rewrite app_nil_r. repeat split; auto.
    + clear - Hs. revert i Hs. generalize (schedule (data st)).
      induction l as [|x l IH]; intros [|i] Hs; simpl in *;
        try discriminate; [congruence|].
      f_equal. apply IH, Hs.
    + exists []. rewrite app_nil_r. auto.
Qed.

(** ** The detection passes, exactly *)

Lemma detect_double_booking_effect st st' :
  detect_double_booking st = Returns st' ->
  exists obj,
    group_slots profDayTime_key (schedule (data st)) = Some obj
    /\ schedule (data st') = flag_at (in_large_group obj) (schedule (data st))
    /\ newProfessionals (data st') = newProfessionals (data st)
    /\ updatedAppointments (data st') = updatedAppointments (data st)
    /\ draws st' = draws st
    /\ originalData (this st') = originalData (this st)
    /\ validationErrors (this st') = validationErrors (this st)
    /\ autoCorrections (this st') = autoCorrections (this st)
    /\ conflicts (this st')
       = conflicts (this st)
         ++ flat_map
              (group_conflicts double_booking_conflicts (schedule (data st)))
              obj
    /\ exists chs,
         suggestedChanges (this st') = suggestedChanges (this st) ++ chs
         /\ List.length chs
            = listed
                (flat_map
                   (group_conflicts double_booking_conflicts
                      (schedule (data st)))
                   obj).
Proof.
  unfold detect_double_booking.
  pose proof (group_slots_grouped profDayTime_key (schedule (data st))) as Hg.
  destruct (group_slots profDayTime_key (schedule (data st))) as [obj|];
    [|discriminate].
  intros E. inversion E. exists obj. split; [reflexivity|].
  apply (report_fold_effect report_double_booking double_booking_conflicts
           double_booking_conflicts_flags report_double_booking_effect).
  apply (grouped_valid _ _ _ profDayTime_key_occupied Hg).
Qed.

Lemma detectDuplicateRoomsOrTimes_effect st st' :
  _detectDuplicateRoomsOrTimes st = Returns st' ->
  exists obj,
    group_slots roomDayTime_key (schedule (data st)) = Some obj
    /\ schedule (data st') = flag_at (in_large_group obj) (schedule (data st))
    /\ newProfessionals (data st') = newProfessionals (data st)
    /\ updatedAppointments (data st') = updatedAppointments (data st)
    /\ draws st' = draws st
    /\ originalData (this st') = originalData (this st)
    /\ validationErrors (this st') = validationErrors (this st)
    /\ autoCorrections (this st') = autoCorrections (this st)
    /\ conflicts (this st')
       = conflicts (this st)
         ++ flat_map
              (group_conflicts duplicate_room_conflicts (schedule (data st)))
              obj
    /\ exists chs,
         suggestedChanges (this st') = suggestedChanges (this st) ++ chs
         /\ List.length chs
            = listed
                (flat_map
                   (group_conflicts duplicate_room_conflicts
                      (schedule (data st)))
                   obj).
Proof.
  unfold _detectDuplicateRoomsOrTimes.
  pose proof (group_slots_grouped roomDayTime_key (schedule (data st))) as Hg.
  destruct (group_slots roomDayTime_key (schedule (data st))) as [obj|];
    [|discriminate].
  intros E. inversion E. exists obj. split; [reflexivity|].
  apply (report_fold_effect report_duplicate_room duplicate_room_conflicts
           duplicate_room_conflicts_flags report_duplicate_room_effect).
  apply (grouped_valid _ _ _ roomDayTime_key_occupied Hg).
Qed.

(** A returning detection is the function [detected] of the schedule it
    starts from; it appends the conflicts of [detected] and as many
    suggested changes as these conflicts list slots, and changes nothing
    else. *)
Lemma detect_detected st professionals appointments st' :
  detect st professionals appointments = Returns st' ->
  exists new,
    detected professionals appointments (schedule (data st))
    = Some (schedule (data st'), new)
    /\ conflicts (this st') = conflicts (this st) ++ new
    /\ newProfessionals (data st') = newProfessionals (data st)
    /\ updatedAppointments (data st') = updatedAppointments (data st)
    /\ draws st' = draws st
    /\ originalData (this st') = originalData (this st)
    /\ validationErrors (this st') = validationErrors (this st)
    /\ autoCorrections (this st') = autoCorrections (this st)
    /\ exists chs,
         suggestedChanges (this st') = suggestedChanges (this st) ++ chs
         /\ List.length chs = listed new.
Proof.
  unfold detect, _detectScheduleConflicts. intros E.
  destruct (detect_double_booking st) as [sta|] eqn:Ea; [|discriminate].
  simpl in E.
  destruct (_detectDuplicateRoomsOrTimes (detect_existing sta appointments))
    as [stc|] eqn:Ec; [|discriminate].
  simpl in E. inversion E; subst st'; clear E.
  destruct (detect_double_booking_effect st sta Ea)
    as (obj1 & G1 & S1 & N1 & U1 & D1 & O1 & V1 & A1 & C1 & chs1 & H1 & L1).
  pose proof (forEach_slot_effect (check_existing appointments)
                (existing_mark appointments) (existing_conflicts appointments)
                (check_existing_effect appointments) sta)
    as (S2 & N2 & U2 & D2 & O2 & V2 & A2 & C2 & chs2 & H2 & L2).
  fold (detect_existing sta appointments) in S2, N2, U2, D2, O2, V2, A2, C2,
    H2.
  set (stb := detect_existing sta appointments) in *.
  destruct (detectDuplicateRoomsOrTimes_effect stb stc Ec)
    as (obj2 & G3 & S3 & N3 & U3 & D3 & O3 & V3 & A3 & C3 & chs3 & H3 & L3).
  pose proof (forEach_slot_effect (check_inactive professionals)
                (inactive_mark professionals)
                (inactive_conflicts professionals)
                (check_inactive_effect professionals) stc)
    as (S4 & N4 & U4 & D4 & O4 & V4 & A4 & C4 & chs4 & H4 & L4).
  fold (_checkInactiveProfessionals stc professionals) in S4, N4, U4, D4, O4,
    V4, A4, C4, H4.
  set (std := _checkInactiveProfessionals stc professionals) in *.
  unfold detected. rewrite G1. cbv zeta. rewrite <- S1, <- S2, G3, <- S3, <- S4.
  eexists. split; [reflexivity|].
  rewrite C4, C3, C2, C1, N4, N3, N2, N1, U4, U3, U2, U1, D4, D3, D2, D1,
    O4, O3, O2, O1, V4, V3, V2, V1, A4, A3, A2, A1, H4, H3, H2, H1.
  rewrite <- !app_assoc. repeat split; auto.
  exists (chs1 ++ chs2 ++ chs3 ++ chs4). split; [reflexivity|].
  rewrite !length_app, !listed_app. lia.
Qed.

(** ** One suggested change for each finding *)

Lemma accounted_refl st : accounted st st.
Proof.
  exists [], [], [], []. rewrite !app_nil_r. repeat split; reflexivity.
Qed.

Lemma accounted_trans st1 st2 st3 :
  accounted st1 st2 -> accounted st2 st3 -> accounted st1 st3.
Proof.
  intros (c1 & a1 & v1 & f1 & C1 & A1 & V1 & F1 & L1)
         (c2 & a2 & v2 & f2 & C2 & A2 & V2 & F2 & L2).
  exists (c1 ++ c2), (a1 ++ a2), (v1 ++ v2), (f1 ++ f2).
  rewrite C2, C1, A2, A1, V2, V1, F2, F1, !app_assoc.
  repeat split; try reflexivity.
  rewrite !length_app, listed_app. lia.
Qed.

Lemma accounted_correction st i f a c :
  accounted st
    (push_suggestedChange c (push_autoCorrection a (update_slot i f st))).
Proof.
  exists [c], [a], [], []. simpl. rewrite !app_nil_r. repeat split.
Qed.

Lemma accounted_error st e c :
  accounted st (push_suggestedChange c (push_validationError e st)).
Proof.
  exists [c], [], [e], []. simpl. rewrite !app_nil_r. repeat split.
Qed.

Lemma validate_patient_accounted registeredPatients appointments i slot st :
  accounted st (validate_patient registeredPatients appointments i slot st).
Proof.
  unfold validate_patient.
  destruct (Js.truthy (patientName slot)); [|apply accounted_refl].
  cbv zeta.
  destruct (existsb _ registeredPatients); [apply accounted_refl|].
  destruct (Js.truthy (_findClosestMatch _ registeredPatients)).
  - destruct (find _ appointments); [|apply accounted_refl].
    apply accounted_correction.
  - apply accounted_error.
Qed.

Lemma validate_professional_accounted env registeredProfessionals
  professionals i slot st :
  accounted st
    (validate_professional env registeredProfessionals professionals i slot
       st).
Proof.
  unfold validate_professional.
  destruct (Js.truthy (professionalName slot)); [|apply accounted_refl].
  cbv zeta.
  destruct (existsb _ registeredProfessionals); [apply accounted_refl|].
  destruct (existsb _ (newProfessionals (data st))); [apply accounted_refl|].
  destruct (Js.truthy (_findClosestMatch _ registeredProfessionals)).
  - destruct (find _ professionals); [|apply accounted_refl].
    exists [mkChangeRecord (Correcao ++ " de Nome de Profissional")%string
              ("Corrigir " ++ quoted (Js.show (professionalName slot))
               ++ " para " ++ quoted (prof_name p))%string
              (location slot) (slot_id slot)],
           [mkAutoCorrection "Profissional" (Js.show (professionalName slot))
              (prof_name p) (location slot) (slot_id slot)],
           [], [].
    simpl. rewrite !app_nil_r. repeat split.
  - eexists [_], [], [_], []. simpl. rewrite !app_nil_r. repeat split.
Qed.

Lemma forEach_slot_accounted body st :
  (forall i slot st', accounted st' (body i slot st')) ->
  accounted st (forEach_slot body st).
Proof.
  intros H.
  apply (forEach_slot_inv (fun _ stk => accounted st stk) body st).
  - apply accounted_refl.
  - intros i st' _ Hm.
    destruct (nth_error (schedule (data st')) i) as [slot|]; [|exact Hm].
    apply (accounted_trans _ _ _ Hm). apply H.
Qed.

Lemma validateNames_accounted env st professionals appointments :
  accounted st (_validateNames env st professionals appointments).
Proof.
  apply forEach_slot_accounted. intros i slot st'. unfold validate_slot.
  destruct (negb (isOccupied slot)); [apply accounted_refl|].
  cbv zeta.
  refine (accounted_trans _ _ _
            (validate_patient_accounted
               (registeredPatients_of appointments) appointments i slot st')
            _).
  destruct (nth_error _ i); [|apply accounted_refl].
  apply validate_professional_accounted.
Qed.

Lemma effect_accounted st st' new :
  conflicts (this st') = conflicts (this st) ++ new ->
  validationErrors (this st') = validationErrors (this st) ->
  autoCorrections (this st') = autoCorrections (this st) ->
  (exists chs,
     suggestedChanges (this st') = suggestedChanges (this st) ++ chs
     /\ List.length chs = listed new) ->
  accounted st st'.
Proof.
  intros C V A (chs & G & L). exists chs, [], [], new.
  rewrite !app_nil_r. repeat split; auto.
Qed.

Lemma detect_accounted st professionals appointments :
  accounted st (final (detect st professionals appointments)).
Proof.
  unfold detect, _detectScheduleConflicts.
  destruct (detect_double_booking st) as [sta|sta] eqn:Ea.
  2:{ unfold detect_double_booking in Ea.
      destruct (group_slots _ _); inversion Ea. apply accounted_refl. }
  simpl and_then.
  destruct (detect_double_booking_effect st sta Ea)
    as (obj1 & _ & _ & _ & _ & _ & _ & V1 & A1 & C1 & H1).
  pose proof (effect_accounted _ _ _ C1 V1 A1 H1) as T1.
  pose proof (forEach_slot_effect (check_existing appointments)
                (existing_mark appointments) (existing_conflicts appointments)
                (check_existing_effect appointments) sta)
    as (_ & _ & _ & _ & _ & V2 & A2 & C2 & H2).
  fold (detect_existing sta appointments) in V2, A2, C2, H2.
  pose proof (accounted_trans _ _ _ T1 (effect_accounted _ _ _ C2 V2 A2 H2))
    as T2.
  set (stb := detect_existing sta appointments) in *.
  destruct (_detectDuplicateRoomsOrTimes stb) as [stc|stc] eqn:Ec.
  2:{ unfold _detectDuplicateRoomsOrTimes in Ec.
      destruct (group_slots _ _); inversion Ec. exact T2. }
  simpl.
  destruct (detectDuplicateRoomsOrTimes_effect stb stc Ec)
    as (obj2 & _ & _ & _ & _ & _ & _ & V3 & A3 & C3 & H3).
  pose proof (accounted_trans _ _ _ T2 (effect_accounted _ _ _ C3 V3 A3 H3))
    as T3.
  pose proof (forEach_slot_effect (check_inactive professionals)
                (inactive_mark professionals)
                (inactive_conflicts professionals)
                (check_inactive_effect professionals) stc)
    as (_ & _ & _ & _ & _ & V4 & A4 & C4 & H4).
  apply (accounted_trans _ _ _ T3).
  apply (effect_accounted _ _ _ C4 V4 A4 H4).
Qed.

(** After a run, returned or thrown out of, the suggested changes are as
    many as the auto-corrections, the validation errors and the slots that
    the conflicts list, taken together: every correction and every error has
    its suggested change, and every conflict has one for each slot it
    lists. *)
Theorem run_changes_accounted (env : Environment)
  (roomImportData : RoomImportData) (professionals : list Professional)
  (appointments : list Appointment) :
  let st' :=
    final (processImportedData env roomImportData professionals appointments) in
  List.length (suggestedChanges (this st'))
  = List.length (autoCorrections (this st'))
    + List.length (validationErrors (this st'))
    + listed (conflicts (this st')).
Proof.
  intros st'. subst st'. rewrite processImportedData_detect.
  pose proof (validateNames_accounted env (start roomImportData)
                professionals appointments) as T1.
  pose proof (detect_accounted
                (_validateNames env (start roomImportData) professionals
                   appointments) professionals appointments) as T2.
  destruct (accounted_trans _ _ _ T1 T2)
    as (chs & acs & ves & cfs & C & A & V & F & L).
  rewrite C, A, V, F. simpl. exact L.
Qed.

(** ** Flags and conflicts *)

Lemma ids_position sched i j a b :
  NoDup (map slot_id sched) ->
  nth_error sched i = Some a -> nth_error sched j = Some b ->
  slot_id a = slot_id b -> i = j.
Proof.
  intros Hnd Ha Hb E.
  apply (proj1 (NoDup_nth_error (map slot_id sched)) Hnd).
  - rewrite length_map. apply nth_error_Some. congruence.
  - rewrite !nth_error_map, Ha, Hb. simpl. congruence.
Qed.

Lemma mem_In j refs : mem j refs = true <-> In j refs.
Proof.
  unfold mem. rewrite existsb_exists. split.
  - intros (x & Hx & E). apply Nat.eqb_eq in E. subst x. exact Hx.
  - intros H. exists j. split; [exact H|apply Nat.eqb_refl].
Qed.

Lemma in_large_group_spec obj j :
  in_large_group obj j = true <->
  exists key refs,
    In (key, refs) obj /\ 1 < List.length refs /\ In j refs.
Proof.
  unfold in_large_group. rewrite existsb_exists. split.
  - intros ([key refs] & Hin & H). simpl in H.
    apply andb_true_iff in H. destruct H as [H1 H2].
    apply Nat.ltb_lt in H1. apply mem_In in H2. exists key, refs. auto.
  - intros (key & refs & Hin & H1 & H2). exists (key, refs).
    split; [exact Hin|]. simpl. apply andb_true_iff.
    split; [apply Nat.ltb_lt; exact H1|apply mem_In; exact H2].
Qed.

Lemma group_conflicts_In build sched obj c :
  In c (flat_map (group_conflicts build sched) obj) <->
  exists key refs,
    In (key, refs) obj /\ 1 < List.length refs
    /\ In c (build (deref sched refs)).
Proof.
  rewrite in_flat_map. unfold group_conflicts. split.
  - intros ([key refs] & Hin & H). simpl in H.
    destruct (1 <? List.length refs) eqn:E; [|contradiction].
    apply Nat.ltb_lt in E. exists key, refs. auto.
  - intros (key & refs & Hin & H1 & H2). exists (key, refs).
    split; [exact Hin|]. simpl. apply Nat.ltb_lt in H1. rewrite H1. exact H2.
Qed.

Section Listed.

(** A builder of the conflict of a group: one conflict, which lists the
    identifiers of the slots. *)
Variable build : list Slot -> list Conflict.

Hypothesis build_ids : forall slots c,
  In c (build slots) -> conflict_slot_ids c = map slot_id slots.

Hypothesis build_some : forall slot slots, build (slot :: slots) <> [].

(** With identifiers that are unique, a slot is in a group of more than one
    member exactly when a conflict of the groups lists it. *)
Lemma large_group_listed sched obj i s :
  NoDup (map slot_id sched) ->
  nth_error sched i = Some s ->
  (in_large_group obj i = true <->
   exists c,
     In c (flat_map (group_conflicts build sched) obj)
     /\ In (slot_id s) (conflict_slot_ids c)).
Proof.
  intros Hnd Hs. rewrite in_large_group_spec. split.
  - intros (key & refs & Hin & Hlen & Hi).
    assert (Hd : In s (deref sched refs))
      by (apply deref_In; exists i; auto).
    destruct (deref sched refs) as [|x l] eqn:E; [contradiction|].
    destruct (build (x :: l)) as [|c cs] eqn:B;
      [exfalso; apply (build_some x l B)|].
    exists c. split.
    + apply group_conflicts_In. exists key, refs. rewrite E, B.
      auto with datatypes.
    + rewrite (build_ids (x :: l) c) by (rewrite B; left; reflexivity).
      apply in_map. exact Hd.
  - intros (c & Hc & Hid). apply group_conflicts_In in Hc.
    destruct Hc as (key & refs & Hin & Hlen & Hc).
    exists key, refs. split; [exact Hin|]. split; [exact Hlen|].
    rewrite (build_ids _ c Hc) in Hid. apply in_map_iff in Hid.
    destruct Hid as (x & Ex & Hx). apply deref_In in Hx.
    destruct Hx as (j & Hj & Hxj).
    rewrite (ids_position sched i j s x Hnd Hs Hxj); auto.
Qed.

End Listed.

Lemma double_booking_conflicts_ids slots c :
  In c (double_booking_conflicts slots) ->
  conflict_slot_ids c = map slot_id slots.
Proof.
  destruct slots; [intros []|]. intros [<-|[]]. reflexivity.
Qed.

Lemma duplicate_room_conflicts_ids slots c :
  In c (duplicate_room_conflicts slots) ->
  conflict_slot_ids c = map slot_id slots.
Proof.
  destruct slots; [intros []|]. intros [<-|[]]. reflexivity.
Qed.

Lemma double_booking_conflicts_some slot slots :
  double_booking_conflicts (slot :: slots) <> [].
Proof. discriminate. Qed.

Lemma duplicate_room_conflicts_some slot slots :
  duplicate_room_conflicts (slot :: slots) <> [].
Proof. discriminate. Qed.

Section VisitListed.

(** The conflicts a visiting pass records for a slot: they list that slot
    alone. *)
Variable news : Slot -> list Conflict.

Hypothesis news_ids : forall slot c,
  In c (news slot) -> conflict_slot_ids c = [slot_id slot].

Lemma visit_listed sched i s :
  NoDup (map slot_id sched) ->
  nth_error sched i = Some s ->
  (news s <> [] <->
   exists c,
     In c (flat_map news sched) /\ In (slot_id s) (conflict_slot_ids c)).
Proof.
  intros Hnd Hs. split.
  - intros H. destruct (news s) as [|c cs] eqn:E; [contradiction|].
    exists c. split.
    + apply in_flat_map. exists s. split; [apply (nth_error_In _ _ Hs)|].
      rewrite E. left. reflexivity.
    + rewrite (news_ids s c) by (rewrite E; left; reflexivity).
      left. reflexivity.
  - intros (c & Hc & Hid). apply in_flat_map in Hc.
    destruct Hc as (x & Hx & Hc). rewrite (news_ids x c Hc) in Hid.
    destruct Hid as [E|[]].
    assert (x = s).
    { apply (NoDup_map_eq slot_id sched); auto.
      apply (nth_error_In _ _ Hs). }
    subst x. intros E0. rewrite E0 in Hc. contradiction.
Qed.

End VisitListed.

Lemma existing_conflicts_one appointments slot c :
  In c (existing_conflicts appointments slot) ->
  conflict_slot_ids c = [slot_id slot].
Proof.
  unfold existing_conflicts.
  destruct (colliding_appointments appointments slot); [intros []|].
  intros [<-|[]]. reflexivity.
Qed.

Lemma inactive_conflicts_one professionals slot c :
  In c (inactive_conflicts professionals slot) ->
  conflict_slot_ids c = [slot_id slot].
Proof.
  unfold inactive_conflicts.
  destruct (inactive_professional_of professionals slot); [|intros []].
  intros [<-|[]]. reflexivity.
Qed.

Lemma flag_at_ids f sched : map slot_id (flag_at f sched) = map slot_id sched.
Proof.
  apply nth_error_ext. intros j. rewrite !nth_error_map, flag_at_nth.
  destruct (nth_error sched j); [|reflexivity]. simpl.
  destruct (f j); reflexivity.
Qed.

Lemma existing_mark_ids appointments sched :
  map slot_id (map (existing_mark appointments) sched) = map slot_id sched.
Proof.
  rewrite map_map. apply map_ext. intros s. unfold existing_mark.
  destruct (colliding_appointments appointments s); reflexivity.
Qed.

Lemma group_conflicts_kinds build sched obj :
  (forall slots c, In c (build slots) -> is_inactive_entry c = false) ->
  Forall (fun c => is_inactive_entry c = false)
    (flat_map (group_conflicts build sched) obj).
Proof.
  intros H. apply Forall_forall. intros c Hc.
  apply group_conflicts_In in Hc. destruct Hc as (_ & refs & _ & _ & Hc).
  apply (H _ _ Hc).
Qed.

Lemma double_booking_conflicts_kind slots c :
  In c (double_booking_conflicts slots) -> is_inactive_entry c = false.
Proof. destruct slots; [intros []|]. intros [<-|[]]. reflexivity. Qed.

Lemma duplicate_room_conflicts_kind slots c :
  In c (duplicate_room_conflicts slots) -> is_inactive_entry c = false.
Proof. destruct slots; [intros []|]. intros [<-|[]]. reflexivity. Qed.

Lemma existing_conflicts_kind appointments sched :
  Forall (fun c => is_inactive_entry c = false)
    (flat_map (existing_conflicts appointments) sched).
Proof.
  apply Forall_forall. intros c Hc. apply in_flat_map in Hc.
  destruct Hc as (s & _ & Hc). unfold existing_conflicts in Hc.
  destruct (colliding_appointments appointments s); [contradiction|].
  destruct Hc as [<-|[]]. reflexivity.
Qed.

Lemma inactive_conflicts_kind professionals sched :
  Forall (fun c => is_inactive_entry c = true)
    (flat_map (inactive_conflicts professionals) sched).
Proof.
  apply Forall_forall. intros c Hc. apply in_flat_map in Hc.
  destruct Hc as (s & _ & Hc). unfold inactive_conflicts in Hc.
  destruct (inactive_professional_of professionals s); [|contradiction].
  destruct Hc as [<-|[]]. reflexivity.
Qed.

Lemma inactive_mark_ids professionals sched :
  map slot_id (map (inactive_mark professionals) sched) = map slot_id sched.
Proof.
  rewrite map_map. apply map_ext. intros s. unfold inactive_mark.
  destruct (inactive_professional_of professionals s); reflexivity.
Qed.

(** The flags that [detected] leaves on a slot, against the conflicts it
    records. *)
Lemma detected_flags professionals appointments sched sched' new i s s' :
  detected professionals appointments sched = Some (sched', new) ->
  NoDup (map slot_id sched) ->
  nth_error sched i = Some s -> nth_error sched' i = Some s' ->
  (hasScheduleConflict s' = Some true <->
   hasScheduleConflict s = Some true
   \/ exists c,
        In c new /\ is_inactive_entry c = false
        /\ In (slot_id s) (conflict_slot_ids c))
  /\ (hasValidationError s' = Some true <->
      hasValidationError s = Some true
      \/ exists c,
           In c new /\ is_inactive_entry c = true
           /\ In (slot_id s) (conflict_slot_ids c))
  /\ (hasScheduleConflict s' = Some true
      \/ hasScheduleConflict s' = hasScheduleConflict s)
  /\ (hasValidationError s' = Some true
      \/ hasValidationError s' = hasValidationError s).
Proof.
  unfold detected. intros E Hnd Hs Hs'.
  destruct (group_slots profDayTime_key sched) as [obj1|]; [|discriminate].
  cbv zeta in E.
  set (sched1 := flag_at (in_large_group obj1) sched) in *.
  set (sched2 := map (existing_mark appointments) sched1) in *.
  destruct (group_slots roomDayTime_key sched2) as [obj2|]; [|discriminate].
  set (sched3 := flag_at (in_large_group obj2) sched2) in *.
  injection E as E1 E2. subst sched' new.
  set (P1 := flat_map (group_conflicts double_booking_conflicts sched) obj1)
    in *.
  set (P2 := flat_map (existing_conflicts appointments) sched1) in *.
  set (P3 := flat_map (group_conflicts duplicate_room_conflicts sched2) obj2)
    in *.
  set (P4 := flat_map (inactive_conflicts professionals) sched3) in *.
  (* the slot, pass after pass *)
  set (s1 := if in_large_group obj1 i then set_hasScheduleConflict s else s).
  set (s2 := existing_mark appointments s1).
  set (s3 := if in_large_group obj2 i then set_hasScheduleConflict s2 else s2).
  assert (Hs1 : nth_error sched1 i = Some s1)
    by (unfold sched1; rewrite flag_at_nth, Hs; reflexivity).
  assert (Hs2 : nth_error sched2 i = Some s2)
    by (unfold sched2; rewrite nth_error_map, Hs1; reflexivity).
  assert (Hs3 : nth_error sched3 i = Some s3)
    by (unfold sched3; rewrite flag_at_nth, Hs2; reflexivity).
  assert (Es' : s' = inactive_mark professionals s3).
  { rewrite nth_error_map, Hs3 in Hs'. simpl in Hs'. congruence. }
  assert (I1 : slot_id s1 = slot_id s)
    by (unfold s1; destruct (in_large_group obj1 i); reflexivity).
  assert (I2 : slot_id s2 = slot_id s).
  { unfold s2, existing_mark.
    destruct (colliding_appointments appointments s1); exact I1. }
  assert (I3 : slot_id s3 = slot_id s)
    by (unfold s3; destruct (in_large_group obj2 i); exact I2).
  assert (Hnd1 : NoDup (map slot_id sched1))
    by (unfold sched1; rewrite flag_at_ids; exact Hnd).
  assert (Hnd2 : NoDup (map slot_id sched2))
    by (unfold sched2; rewrite existing_mark_ids; exact Hnd1).
  assert (Hnd3 : NoDup (map slot_id sched3))
    by (unfold sched3; rewrite flag_at_ids; exact Hnd2).
  (* each pass against its conflicts *)
  pose proof (large_group_listed double_booking_conflicts
                double_booking_conflicts_ids double_booking_conflicts_some
                sched obj1 i s Hnd Hs) as F1.
  fold P1 in F1.
  pose proof (visit_listed (existing_conflicts appointments)
                (existing_conflicts_one appointments) sched1 i s1 Hnd1 Hs1)
    as F2.
  fold P2 in F2. rewrite I1 in F2.
  pose proof (large_group_listed duplicate_room_conflicts
                duplicate_room_conflicts_ids duplicate_room_conflicts_some
                sched2 obj2 i s2 Hnd2 Hs2) as F3.
  fold P3 in F3. rewrite I2 in F3.
  pose proof (visit_listed (inactive_conflicts professionals)
                (inactive_conflicts_one professionals) sched3 i s3 Hnd3 Hs3)
    as F4.
  fold P4 in F4. rewrite I3 in F4.
  pose proof (group_conflicts_kinds double_booking_conflicts sched obj1
                double_booking_conflicts_kind) as K1.
  pose proof (existing_conflicts_kind appointments sched1) as K2.
  pose proof (group_conflicts_kinds duplicate_room_conflicts sched2 obj2
                duplicate_room_conflicts_kind) as K3.
  pose proof (inactive_conflicts_kind professionals sched3) as K4.
  fold P1 in K1. fold P2 in K2. fold P3 in K3. fold P4 in K4.
  rewrite Forall_forall in K1, K2, K3, K4.
  (* the flags of the slot, pass after pass *)
  assert (C1 : hasScheduleConflict s1
               = if in_large_group obj1 i then Some true
                 else hasScheduleConflict s)
    by (unfold s1; destruct (in_large_group obj1 i); reflexivity).
  assert (V1 : hasValidationError s1 = hasValidationError s)
    by (unfold s1; destruct (in_large_group obj1 i); reflexivity).
  assert (C2 : hasScheduleConflict s2
               = match existing_conflicts appointments s1 with
                 | [] => hasScheduleConflict s1
                 | _ :: _ => Some true
                 end).
  { unfold s2, existing_mark, existing_conflicts.
    destruct (colliding_appointments appointments s1); reflexivity. }
  assert (V2 : hasValidationError s2 = hasValidationError s).
  { unfold s2, existing_mark.
    destruct (colliding_appointments appointments s1); exact V1. }
  assert (C3 : hasScheduleConflict s3
               = if in_large_group obj2 i then Some true
                 else hasScheduleConflict s2)
    by (unfold s3; destruct (in_large_group obj2 i); reflexivity).
  assert (V3 : hasValidationError s3 = hasValidationError s)
    by (unfold s3; destruct (in_large_group obj2 i); exact V2).
  assert (C4 : hasScheduleConflict s' = hasScheduleConflict s3).
  { rewrite Es'. unfold inactive_mark.
    destruct (inactive_professional_of professionals s3); reflexivity. }
  assert (V4 : hasValidationError s'
               = match inactive_conflicts professionals s3 with
                 | [] => hasValidationError s
                 | _ :: _ => Some true
                 end).
  { rewrite Es'. unfold inactive_mark, inactive_conflicts.
    destruct (inactive_professional_of professionals s3);
      [reflexivity|exact V3]. }
  assert (Hnew : forall c, In c (P1 ++ P2 ++ P3 ++ P4) <->
                   In c P1 \/ In c P2 \/ In c P3 \/ In c P4).
  { intros c. rewrite !in_app_iff. tauto. }
  clearbody s1 s2 s3 P1 P2 P3 P4 sched1 sched2 sched3.
  rewrite C4, C3, C2, C1, V4. clear C4 C3 C2 C1 V4 V3 V2 V1.
  split; [|split; [|split]].
  - split.
    + intros H.
      destruct (in_large_group obj2 i) eqn:G2.
      { destruct (proj1 F3 eq_refl) as (c & Hc & Hid).
        right. exists c. rewrite Hnew. auto 6. }
      destruct (existing_conflicts appointments s1) as [|c0 cs] eqn:X.
      2:{ assert (X' : c0 :: cs <> []) by discriminate.
          destruct (proj1 F2 X') as (c & Hc & Hid).
          right. exists c. rewrite Hnew. auto 6. }
      destruct (in_large_group obj1 i) eqn:G1; [|left; exact H].
      destruct (proj1 F1 eq_refl) as (c & Hc & Hid).
      right. exists c. rewrite Hnew. auto 6.
    + intros [H|(c & Hc & Hk & Hid)].
      * destruct (in_large_group obj2 i); [reflexivity|].
        destruct (existing_conflicts appointments s1); [|reflexivity].
        destruct (in_large_group obj1 i); [reflexivity|exact H].
      * apply Hnew in Hc. destruct Hc as [Hc|[Hc|[Hc|Hc]]].
        -- rewrite (proj2 F1 (ex_intro _ c (conj Hc Hid))).
           destruct (in_large_group obj2 i); [reflexivity|].
           destruct (existing_conflicts appointments s1); reflexivity.
        -- assert (X : existing_conflicts appointments s1 <> [])
             by (apply F2; exists c; auto).
           destruct (in_large_group obj2 i); [reflexivity|].
           destruct (existing_conflicts appointments s1);
             [contradiction|reflexivity].
        -- rewrite (proj2 F3 (ex_intro _ c (conj Hc Hid))). reflexivity.
        -- rewrite (K4 c Hc) in Hk. discriminate.
  - split.
    + intros H.
      destruct (inactive_conflicts professionals s3) as [|c0 cs] eqn:X;
        [left; exact H|].
      assert (X' : c0 :: cs <> []) by discriminate.
      destruct (proj1 F4 X') as (c & Hc & Hid).
      right. exists c. rewrite Hnew. auto 6.
    + intros [H|(c & Hc & Hk & Hid)].
      * destruct (inactive_conflicts professionals s3); [exact H|reflexivity].
      * apply Hnew in Hc. destruct Hc as [Hc|[Hc|[Hc|Hc]]].
        -- rewrite (K1 c Hc) in Hk. discriminate.
        -- rewrite (K2 c Hc) in Hk. discriminate.
        -- rewrite (K3 c Hc) in Hk. discriminate.
        -- assert (X : inactive_conflicts professionals s3 <> [])
             by (apply F4; exists c; auto).
           destruct (inactive_conflicts professionals s3);
             [contradiction|reflexivity].
  - destruct (in_large_group obj2 i); [left; reflexivity|].
    destruct (existing_conflicts appointments s1); [|left; reflexivity].
    destruct (in_large_group obj1 i); [left; reflexivity|right; reflexivity].
  - destruct (inactive_conflicts professionals s3); auto.
Qed.

(** The flags of a slot after a run that returns, against the conflicts of
    the run, for slot identifiers that are unique.  The slot has
    hasScheduleConflict set exactly when it came with it or when a conflict
    of one of the three scheduling kinds lists it; it has hasValidationError
    set exactly when it came with it or when a 'Profissional Inativo'
    conflict lists it (the validation errors of the name reconciliation do
    not set it); and a flag that is not set is as it came. *)
Theorem flags_agree_with_conflicts (env : Environment)
  (roomImportData : RoomImportData) (professionals : list Professional)
  (appointments : list Appointment) (st' : State) (i : nat) (s s' : Slot) :
  processImportedData env roomImportData professionals appointments
  = Returns st' ->
  NoDup (map slot_id (schedule roomImportData)) ->
  nth_error (schedule roomImportData) i = Some s ->
  nth_error (schedule (data st')) i = Some s' ->
  (hasScheduleConflict s' = Some true <->
   hasScheduleConflict s = Some true
   \/ exists c,
        In c (conflicts (this st')) /\ is_inactive_entry c = false
        /\ In (slot_id s) (conflict_slot_ids c))
  /\ (hasValidationError s' = Some true <->
      hasValidationError s = Some true
      \/ exists c,
           In c (conflicts (this st')) /\ is_inactive_entry c = true
           /\ In (slot_id s) (conflict_slot_ids c))
  /\ (hasScheduleConflict s' = Some true
      \/ hasScheduleConflict s' = hasScheduleConflict s)
  /\ (hasValidationError s' = Some true
      \/ hasValidationError s' = hasValidationError s).
Proof.
  intros Hrun Hnd Hs Hs'. rewrite processImportedData_detect in Hrun.
  pose proof (validateNames_renames env (start roomImportData) professionals
                appointments) as R.
  set (st1 := _validateNames env (start roomImportData) professionals
                appointments) in *.
  destruct (detect_detected st1 professionals appointments st' Hrun)
    as (new & Hd & Hc & _).
  rewrite (renames_conflicts _ _ R) in Hc. simpl in Hc.
  destruct (Forall2_nth _ _ _ (renames_schedule _ _ R) i s Hs)
    as (s1 & Hs1 & Hr).
  destruct Hr as (R1 & _ & _ & _ & _ & _ & _ & R8 & R9 & _).
  assert (Hnd1 : NoDup (map slot_id (schedule (data st1)))).
  { rewrite (slot_ids_renames _ _ (renames_schedule _ _ R)). exact Hnd. }
  pose proof (detected_flags professionals appointments _ _ new i s1 s' Hd
                Hnd1 Hs1 Hs') as H.
  rewrite R1, R8, R9, <- Hc in H. exact H.
Qed.

(** Two bookings of one professional at one time: both slots are flagged,
    and the conflict lists them. *)
Lemma flags_agree_with_conflicts_witness :
  let s1 := example_slot "s1" "Sala 1" "08:00" None (Some "p1"%string) in
  let s2 := example_slot "s2" "Sala 2" "08:00" None (Some "p1"%string) in
  let st' :=
    final (processImportedData example_env (mkRoomImportData [s1; s2] [] [])
             [ana] []) in
  hasScheduleConflict (set_hasScheduleConflict s1) = Some true <->
  hasScheduleConflict s1 = Some true
  \/ exists c,
       In c (conflicts (this st')) /\ is_inactive_entry c = false
       /\ In (slot_id s1) (conflict_slot_ids c).
Proof.
  intros s1 s2 st'.
  apply (flags_agree_with_conflicts example_env
           (mkRoomImportData [s1; s2] [] []) [ana] [] st' 0 s1
           (set_hasScheduleConflict s1)).
  - reflexivity.
  - repeat constructor; simpl; intuition discriminate.
  - reflexivity.
  - reflexivity.
Defined.

(** ** Collisions with existing appointments *)

Lemma filter_flat_map_one {A} (f : string -> A -> bool) (news : Slot -> list A)
  sched : forall i s,
  (forall x c id, In c (news x) -> f id c = String.eqb (slot_id x) id) ->
  NoDup (map slot_id sched) ->
  nth_error sched i = Some s ->
  filter (f (slot_id s)) (flat_map news sched) = news s.
Proof.
  intros i s Hf. revert i.
  assert (Hall : forall x, In x sched -> slot_id x = slot_id s ->
                           filter (f (slot_id s)) (news x) = news x).
  { intros x _ E. apply forallb_filter_id. apply forallb_forall.
    intros c Hc. rewrite (Hf x c _ Hc). apply String.eqb_eq, E. }
  assert (Hnone : forall x, slot_id x <> slot_id s ->
                            filter (f (slot_id s)) (news x) = []).
  { intros x E. apply filter_none. intros c Hc. rewrite (Hf x c _ Hc).
    apply String.eqb_neq, E. }
  clear Hf. induction sched as [|x l IH]; intros [|i] Hnd Hs;
    simpl in Hs; try discriminate;
    simpl in Hnd; inversion Hnd as [|? ? Hnotin Hnd']; subst.
  - inversion Hs; subst x. simpl. rewrite filter_app.
    rewrite Hall by (auto with datatypes).
    assert (E : filter (f (slot_id s)) (flat_map news l) = []).
    { clear - Hnotin Hnone. induction l as [|y l IH]; [reflexivity|].
      simpl. rewrite filter_app, Hnone, IH; [reflexivity| |].
      - intros H. apply Hnotin. right. exact H.
      - intros E. apply Hnotin. left. exact E. }
    rewrite E, app_nil_r. reflexivity.
  - simpl. rewrite filter_app, Hnone.
    + apply (IH (fun y Hy => Hall y (or_intror Hy)) i Hnd' Hs).
    + intros E. apply Hnotin. rewrite E. apply in_map.
      apply (nth_error_In _ _ Hs).
Qed.

Lemma colliding_appointments_ext appointments a b :
  isOccupied a = isOccupied b -> professionalId a = professionalId b ->
  appointmentDate a = appointmentDate b -> time a = time b ->
  linkedAppointmentId a = linkedAppointmentId b ->
  colliding_appointments appointments a = colliding_appointments appointments b.
Proof.
  unfold colliding_appointments. intros -> -> -> -> ->. reflexivity.
Qed.

Lemma existing_conflicts_ext appointments a b :
  slot_marks a b ->
  existing_conflicts appointments b = existing_conflicts appointments a.
Proof.
  intros (M1 & M2 & M3 & M4 & M5 & M6 & M7 & M8 & M9 & M10 & _).
  unfold existing_conflicts, dayTime_of.
  rewrite (colliding_appointments_ext appointments b a) by assumption.
  rewrite M1, M2, M3, M4, M7, M8. reflexivity.
Qed.

Lemma existing_conflicts_flag appointments s :
  existing_conflicts appointments (set_hasScheduleConflict s)
  = existing_conflicts appointments s.
Proof. reflexivity. Qed.

Lemma is_existing_entry_kinds id l :
  (forall c, In c l ->
     match c with
     | ConflitoComAgendamentoExistente _ _ _ _ _ _ => False
     | _ => True
     end) ->
  filter (is_existing_entry_for id) l = [].
Proof.
  intros H. apply filter_none. intros c Hc. specialize (H c Hc).
  destruct c; simpl; auto. contradiction.
Qed.

(** The entries that [detected] records for the collisions of a slot. *)
Lemma detected_existing professionals appointments sched sched' new i s :
  detected professionals appointments sched = Some (sched', new) ->
  NoDup (map slot_id sched) ->
  nth_error sched i = Some s ->
  filter (is_existing_entry_for (slot_id s)) new
  = existing_conflicts appointments s.
Proof.
  unfold detected. intros E Hnd Hs.
  destruct (group_slots profDayTime_key sched) as [obj1|]; [|discriminate].
  cbv zeta in E.
  set (sched1 := flag_at (in_large_group obj1) sched) in *.
  destruct (group_slots roomDayTime_key _) as [obj2|]; [|discriminate].
  injection E as _ E2. subst new.
  set (s1 := if in_large_group obj1 i then set_hasScheduleConflict s else s).
  assert (Hs1 : nth_error sched1 i = Some s1)
    by (unfold sched1; rewrite flag_at_nth, Hs; reflexivity).
  assert (I1 : slot_id s1 = slot_id s)
    by (unfold s1; destruct (in_large_group obj1 i); reflexivity).
  assert (X1 : existing_conflicts appointments s1
               = existing_conflicts appointments s).
  { unfold s1. destruct (in_large_group obj1 i); reflexivity. }
  assert (Hnd1 : NoDup (map slot_id sched1))
    by (unfold sched1; rewrite flag_at_ids; exact Hnd).
  rewrite !filter_app.
  rewrite (is_existing_entry_kinds _ (flat_map (group_conflicts _ _) obj1)).
  2:{ intros c Hc. apply group_conflicts_In in Hc.
      destruct Hc as (_ & refs & _ & _ & Hc).
      destruct (deref sched refs); [contradiction|].
      destruct Hc as [<-|[]]. exact I. }
  rewrite (is_existing_entry_kinds _ (flat_map (group_conflicts _ _) obj2)).
  2:{ intros c Hc. apply group_conflicts_In in Hc.
      destruct Hc as (_ & refs & _ & _ & Hc).
      destruct (deref _ refs); [contradiction|].
      destruct Hc as [<-|[]]. exact I. }
  rewrite (is_existing_entry_kinds _ (flat_map (inactive_conflicts _) _)).
  2:{ intros c Hc. apply in_flat_map in Hc. destruct Hc as (x & _ & Hc).
      unfold inactive_conflicts in Hc.
      destruct (inactive_professional_of professionals x); [|contradiction].
      destruct Hc as [<-|[]]. exact I. }
  simpl. rewrite app_nil_r, <- I1, <- X1.
  apply (filter_flat_map_one is_existing_entry_for
           (existing_conflicts appointments) sched1 i s1); auto.
  intros x c id Hc. unfold existing_conflicts in Hc.
  destruct (colliding_appointments appointments x); [contradiction|].
  destruct Hc as [<-|[]]. reflexivity.
Qed.

(** A collision with an existing appointment, over a whole run that returns
    and for slot identifiers that are unique.  Take an occupied slot with a
    professional identifier, as the run leaves it, and an existing
    appointment of that professional at the slot's date and time that the
    slot is not linked to.  The conflicts of the run hold exactly one
    'Conflito com Agendamento Existente' entry for the slot; it lists the
    appointments of that professional, date and time other than the linked
    one, this one among them; and the slot has hasScheduleConflict set. *)
Theorem existing_collision_reported (env : Environment)
  (roomImportData : RoomImportData) (professionals : list Professional)
  (appointments : list Appointment) (st' : State) (i : nat) (slot : Slot)
  (apt : Appointment) :
  processImportedData env roomImportData professionals appointments
  = Returns st' ->
  NoDup (map slot_id (schedule roomImportData)) ->
  nth_error (schedule (data st')) i = Some slot ->
  booked slot ->
  In apt (same_booking_appointments appointments slot) ->
  Js.truthy (linkedAppointmentId slot) = false
  \/ linkedAppointmentId slot <> Some (apt_id apt) ->
  let colliding :=
    filter
      (fun a =>
         negb (Js.truthy (linkedAppointmentId slot))
         || negb (String.eqb (apt_id a) (Js.show (linkedAppointmentId slot))))
      (same_booking_appointments appointments slot) in
  filter (is_existing_entry_for (slot_id slot)) (conflicts (this st'))
  = [ConflitoComAgendamentoExistente (professionalName slot)
       (patientName slot) (roomName slot) (dayTime_of slot)
       (map (fun a => (apt_id a, client a, apt_type a)) colliding)
       (slot_id slot)]
  /\ In apt colliding
  /\ hasScheduleConflict slot = Some true.
Proof.
  intros Hrun Hnd Hs [Ho Ht] Hin Hlink colliding.
  rewrite processImportedData_detect in Hrun.
  pose proof (validateNames_renames env (start roomImportData) professionals
                appointments) as R.
  set (st1 := _validateNames env (start roomImportData) professionals
                appointments) in *.
  pose proof (detect_marks st1 professionals appointments) as M.
  rewrite Hrun in M. simpl in M.
  destruct (detect_detected st1 professionals appointments st' Hrun)
    as (new & Hd & Hc & _).
  rewrite (renames_conflicts _ _ R) in Hc. simpl in Hc.
  destruct (Forall2_nth_r _ _ _ (marks_schedule _ _ M) i slot Hs)
    as (s1 & Hs1 & Hm).
  assert (Hnd1 : NoDup (map slot_id (schedule (data st1)))).
  { rewrite (slot_ids_renames _ _ (renames_schedule _ _ R)). exact Hnd. }
  pose proof (detected_existing professionals appointments _ _ new i s1 Hd
                Hnd1 Hs1) as F.
  assert (Hcol : colliding_appointments appointments slot = colliding).
  { rewrite colliding_filter by assumption. reflexivity. }
  assert (Hmem : In apt colliding).
  { unfold colliding. apply filter_In. split; [exact Hin|].
    destruct Hlink as [->|Hne]; [reflexivity|].
    destruct (linkedAppointmentId slot) as [l|]; [|reflexivity].
    simpl. destruct (Js.truthy_string l); [|reflexivity]. simpl.
    apply negb_true_iff, String.eqb_neq. congruence. }
  assert (Hx : existing_conflicts appointments slot
               = [ConflitoComAgendamentoExistente (professionalName slot)
                    (patientName slot) (roomName slot) (dayTime_of slot)
                    (map (fun a => (apt_id a, client a, apt_type a)) colliding)
                    (slot_id slot)]).
  { unfold existing_conflicts. rewrite Hcol.
    destruct colliding; [contradiction|reflexivity]. }
  rewrite <- (existing_conflicts_ext appointments s1 slot Hm) in F.
  destruct Hm as (M1 & _). rewrite <- M1, <- Hc, Hx in F.
  split; [exact F|]. split; [exact Hmem|].
  destruct (detected_flags professionals appointments _ _ new i s1 slot Hd
              Hnd1 Hs1 Hs) as (Hf & _).
  apply Hf. right.
  exists (ConflitoComAgendamentoExistente (professionalName slot)
            (patientName slot) (roomName slot) (dayTime_of slot)
            (map (fun a => (apt_id a, client a, apt_type a)) colliding)
            (slot_id slot)).
  split; [|split].
  - rewrite <- Hc.
    apply (proj1 (filter_In (is_existing_entry_for (slot_id slot)) _
                    (conflicts (this st')))).
    rewrite F. left. reflexivity.
  - reflexivity.
  - simpl. left. exact M1.
Qed.

(** A slot of "p1" at a time when "p1" has an appointment with another
    client; the slot is linked to no appointment. *)
Lemma existing_collision_reported_witness :
  let slot :=
    mkSlot "s1" "Sala 1" "Segunda" "08:00" "2024-03-04" true
      (Some "Bia"%string) (Some "Ana Souza"%string) (Some "p1"%string) None
      None None in
  let a1 := mkAppointment "a1" "Bia" "p1" "2024-03-04" "08:00" "Consulta" in
  let st' :=
    final (processImportedData example_env (mkRoomImportData [slot] [] [])
             [ana] [a1]) in
  filter (is_existing_entry_for "s1") (conflicts (this st'))
  = [ConflitoComAgendamentoExistente (Some "Ana Souza"%string)
       (Some "Bia"%string) "Sala 1" "Segunda 08:00"
       [("a1", "Bia", "Consulta")]%string "s1"].
Proof.
  intros slot a1 st'.
  apply (proj1 (existing_collision_reported example_env
                  (mkRoomImportData [slot] [] []) [ana] [a1] st' 0
                  (set_hasScheduleConflict slot) a1 eq_refl
                  (NoDup_cons _ (fun H : In _ [] => H) (NoDup_nil _))
                  eq_refl (conj eq_refl eq_refl) (or_introl eq_refl)
                  (or_introl eq_refl))).
Defined.

(** ** Duplicate rooms *)

Lemma existing_mark_fields appointments s :
  let s' := existing_mark appointments s in
  slot_id s' = slot_id s /\ roomName s' = roomName s
  /\ dayOfWeek s' = dayOfWeek s /\ time s' = time s
  /\ isOccupied s' = isOccupied s.
Proof.
  unfold existing_mark.
  destruct (colliding_appointments appointments s); simpl; auto.
Qed.

Lemma roomDayTime_key_eq a b :
  roomName a = roomName b -> dayOfWeek a = dayOfWeek b -> time a = time b ->
  isOccupied a = isOccupied b ->
  roomDayTime_key a = roomDayTime_key b.
Proof. unfold roomDayTime_key. intros -> -> -> ->. reflexivity. Qed.

(** The groups of the duplicate-room pass are those of the schedule the
    detection starts from: the earlier passes only set flags. *)
Lemma before_duplicates appointments f sched i :
  match nth_error sched i with
  | Some s =>
      exists s2,
        nth_error (map (existing_mark appointments) (flag_at f sched)) i
        = Some s2
        /\ slot_id s2 = slot_id s
        /\ roomDayTime_key s2 = roomDayTime_key s
  | None =>
      nth_error (map (existing_mark appointments) (flag_at f sched)) i = None
  end.
Proof.
  rewrite nth_error_map, flag_at_nth.
  destruct (nth_error sched i) as [s|]; [|reflexivity]. simpl.
  eexists. split; [reflexivity|].
  destruct (existing_mark_fields appointments
              (if f i then set_hasScheduleConflict s else s))
    as (E1 & E2 & E3 & E4 & E5).
  split.
  - rewrite E1. destruct (f i); reflexivity.
  - apply roomDayTime_key_eq; [rewrite E2|rewrite E3|rewrite E4|rewrite E5];
      destruct (f i); reflexivity.
Qed.

Lemma detected_duplicates professionals appointments sched sched' new
  positions first :
  detected professionals appointments sched = Some (sched', new) ->
  NoDup positions -> 2 <= List.length positions ->
  (forall i, In i positions ->
     exists s,
       nth_error sched i = Some s /\ isOccupied s = true
       /\ same_room first s) ->
  exists c,
    In c new /\ is_duplicate_room c
    /\ forall i s, In i positions -> nth_error sched i = Some s ->
         In (slot_id s) (conflict_slot_ids c)
         /\ forall s', nth_error sched' i = Some s' ->
                       hasScheduleConflict s' = Some true.
Proof.
  unfold detected. intros E Hnd Hlen Hpos.
  destruct (group_slots profDayTime_key sched) as [obj1|]; [|discriminate].
  cbv zeta in E.
  set (sched2 := map (existing_mark appointments)
                   (flag_at (in_large_group obj1) sched)) in *.
  pose proof (group_slots_grouped roomDayTime_key sched2) as Hg.
  destruct (group_slots roomDayTime_key sched2) as [obj2|]; [|discriminate].
  injection E as E1 E2. subst sched' new.
  set (key := (roomName first ++ "_" ++ dayOfWeek first ++ "_"
               ++ time first)%string).
  assert (Hkey : forall i, In i positions ->
                   key_at roomDayTime_key sched2 i = Some key
                   /\ i < List.length sched2).
  { intros i Hi. destruct (Hpos i Hi) as (s & Hs & Ho & (A1 & A2 & A3)).
    pose proof (before_duplicates appointments (in_large_group obj1) sched i)
      as B.
    rewrite Hs in B. destruct B as (s2 & Hs2 & _ & Hk). fold sched2 in Hs2.
    split.
    - unfold key_at. rewrite Hs2, Hk. unfold roomDayTime_key.
      rewrite Ho. simpl. unfold key. rewrite A1, A2, A3. reflexivity.
    - apply nth_error_Some. congruence. }
  destruct positions as [|i0 rest] eqn:Ep; [simpl in Hlen; lia|].
  rewrite <- Ep in *.
  assert (Hi0 : In i0 positions) by (rewrite Ep; left; reflexivity).
  destruct Hg as (Hnodup & Hin & Hall).
  destruct (Hkey i0 Hi0) as [Hk0 Hlt0].
  pose proof (Hall i0 key Hlt0 Hk0) as Hm.
  apply in_map_iff in Hm. destruct Hm as ([key' refs] & Ek & Hobj).
  simpl in Ek. subst key'.
  destruct (Hin key refs Hobj) as (Hrefs & _ & _).
  assert (Hsub : incl positions refs).
  { intros i Hi. rewrite Hrefs. apply members_spec.
    destruct (Hkey i Hi) as [Hk Hlt]. auto. }
  assert (Hbig : 1 < List.length refs).
  { pose proof (NoDup_incl_length Hnd Hsub). lia. }
  assert (Hd0 : exists s2, nth_error sched2 i0 = Some s2).
  { destruct (nth_error sched2 i0) eqn:X; [eauto|].
    apply nth_error_None in X. lia. }
  destruct Hd0 as (s20 & Hs20).
  assert (Hne : In s20 (deref sched2 refs))
    by (apply deref_In; exists i0; auto).
  destruct (deref sched2 refs) as [|x l] eqn:Ed; [contradiction|].
  set (c := SalaComMultiplosAgendamentos (roomName x) (dayTime_of x)
              (Js.join ", " (filter_Boolean (map patientName (x :: l))))
              (Js.join ", " (filter_Boolean (map professionalName (x :: l))))
              (map slot_id (x :: l))).
  exists c. split; [|split].
  - rewrite !in_app_iff. right. right. left.
    apply group_conflicts_In. exists key, refs. rewrite Ed.
    split; [exact Hobj|]. split; [exact Hbig|left; reflexivity].
  - exact I.
  - intros i s Hi Hs.
    pose proof (before_duplicates appointments (in_large_group obj1) sched i)
      as B.
    rewrite Hs in B. destruct B as (s2 & Hs2 & Hid & _). fold sched2 in Hs2.
    split.
    + change (conflict_slot_ids c) with (map slot_id (x :: l)).
      rewrite <- Hid, <- Ed. apply in_map. apply deref_In.
      exists i. auto.
    + intros s'. rewrite nth_error_map, flag_at_nth, Hs2. simpl.
      assert (G : in_large_group obj2 i = true).
      { apply in_large_group_spec. exists key, refs. auto. }
      rewrite G. intros E'. inversion E'. unfold inactive_mark.
      destruct (inactive_professional_of professionals _); reflexivity.
Qed.

(** Completeness of the duplicate-room detection for the runs that return:
    every set of two or more occupied slots that agree on (roomName,
    dayOfWeek, time), whatever their dates, is covered by one conflict of
    type 'Sala com Multiplos Agendamentos' whose slot list holds the
    identifier of every slot of the set, and every slot of the set is
    flagged. *)
Theorem duplicate_room_reported (env : Environment)
  (roomImportData : RoomImportData) (professionals : list Professional)
  (appointments : list Appointment) (st' : State) (positions : list nat) :
  processImportedData env roomImportData professionals appointments
  = Returns st' ->
  NoDup positions -> 2 <= List.length positions ->
  (forall i, In i positions ->
     exists slot,
       nth_error (schedule (data st')) i = Some slot
       /\ isOccupied slot = true) ->
  (forall i j si sj, In i positions -> In j positions ->
     nth_error (schedule (data st')) i = Some si ->
     nth_error (schedule (data st')) j = Some sj -> same_room si sj) ->
  exists c,
    In c (conflicts (this st')) /\ is_duplicate_room c
    /\ forall i slot, In i positions ->
         nth_error (schedule (data st')) i = Some slot ->
         In (slot_id slot) (conflict_slot_ids c)
         /\ hasScheduleConflict slot = Some true.
Proof.
  intros Hrun Hnd Hlen Hocc Hagree.
  rewrite processImportedData_detect in Hrun.
  pose proof (validateNames_renames env (start roomImportData) professionals
                appointments) as R.
  set (st1 := _validateNames env (start roomImportData) professionals
                appointments) in *.
  pose proof (detect_marks st1 professionals appointments) as M.
  rewrite Hrun in M. simpl in M.
  destruct (detect_detected st1 professionals appointments st' Hrun)
    as (new & Hd & Hc & _).
  assert (Hback : forall i s', nth_error (schedule (data st')) i = Some s' ->
            exists s, nth_error (schedule (data st1)) i = Some s
                      /\ slot_marks s s').
  { intros i s' Hs'.
    apply (Forall2_nth_r _ _ _ (marks_schedule _ _ M) _ _ Hs'). }
  destruct positions as [|i0 rest] eqn:Hpos; [simpl in Hlen; lia|].
  rewrite <- Hpos in *.
  assert (Hi0 : In i0 positions) by (rewrite Hpos; left; reflexivity).
  destruct (Hocc i0 Hi0) as (s0' & Hs0' & _).
  destruct (detected_duplicates professionals appointments _ _ new positions
              s0' Hd Hnd Hlen) as (c & Hin & Hk & Hall).
  { intros i Hi. destruct (Hocc i Hi) as (s' & Hs' & Ho).
    destruct (Hback i s' Hs') as (s & Hs & Hm).
    exists s. split; [exact Hs|].
    pose proof (Hagree i0 i s0' s' Hi0 Hi Hs0' Hs') as (A1 & A2 & A3).
    destruct Hm as (_ & M2 & M3 & M4 & _ & M6 & _).
    unfold same_room. rewrite <- M2, <- M3, <- M4, <- M6. auto. }
  exists c. split; [rewrite Hc; apply in_or_app; right; exact Hin|].
  split; [exact Hk|].
  intros i slot Hi Hs'. destruct (Hback i slot Hs') as (s & Hs & Hm).
  destruct (Hall i s Hi Hs) as [H1 H2]. split.
  - destruct Hm as (M1 & _). rewrite M1. exact H1.
  - apply H2, Hs'.
Qed.

(** Two bookings of one room at one weekday and time, on different dates. *)
Lemma duplicate_room_reported_witness :
  let s1 :=
    mkSlot "s1" "Sala 1" "Segunda" "08:00" "2024-03-04" true
      None None None None None None in
  let s2 :=
    mkSlot "s2" "Sala 1" "Segunda" "08:00" "2024-03-11" true
      None None None None None None in
  exists c,
    In c (conflicts
            (this (final (processImportedData example_env
                            (mkRoomImportData [s1; s2] [] []) [ana] []))))
    /\ is_duplicate_room c
    /\ In "s1"%string (conflict_slot_ids c)
    /\ In "s2"%string (conflict_slot_ids c).
Proof.
  intros s1 s2.
  destruct (duplicate_room_reported example_env
              (mkRoomImportData [s1; s2] [] []) [ana] []
              (final (processImportedData example_env
                        (mkRoomImportData [s1; s2] [] []) [ana] []))
              [0; 1])
    as (c & Hc & Kc & Hids).
  - vm_compute. reflexivity.
  - repeat constructor; simpl; intuition discriminate.
  - simpl. lia.
  - intros i [<-|[<-|[]]]; vm_compute; eexists; split; reflexivity.
  - intros i j si sj [<-|[<-|[]]] [<-|[<-|[]]]; vm_compute;
      intros E1 E2; inversion E1; inversion E2; repeat split.
  - exists c. split; [exact Hc|]. split; [exact Kc|]. split.
    + apply (Hids 0 (set_hasScheduleConflict s1) (or_introl eq_refl)).
      vm_compute. reflexivity.
    + apply (Hids 1 (set_hasScheduleConflict s2)
               (or_intror (or_introl eq_refl))).
      vm_compute. reflexivity.
Defined.

(** ** Settled slots *)

Lemma settled_with_flags professionals appointments np sc ve s :
  settled professionals appointments np (with_flags sc ve s)
  <-> settled professionals appointments np s.
Proof. reflexivity. Qed.

Lemma same_record_flags a b :
  same_record a b ->
  b = with_flags (hasScheduleConflict b) (hasValidationError b) a.
Proof.
  unfold same_record, with_flags. destruct a, b. simpl. intros E.
  inversion E; subst. reflexivity.
Qed.

Lemma settled_same_record professionals appointments np a b :
  same_record a b ->
  settled professionals appointments np a ->
  settled professionals appointments np b.
Proof.
  intros E H. rewrite (same_record_flags a b E).
  apply settled_with_flags, H.
Qed.

Lemma slot_marks_same_record s s' : slot_marks s s' -> same_record s s'.
Proof.
  intros (H1 & H2 & H3 & H4 & H5 & H6 & H7 & H8 & H9 & H10 & _).
  unfold same_record, with_flags. congruence.
Qed.

Lemma reconcile_settles env professionals appointments slots :
  forall np k extra,
    let r := reconcile env professionals appointments np k slots in
    Forall (settled professionals appointments (fst (snd r) ++ extra))
      (fst r).
Proof.
  induction slots as [|s rest IH]; intros np k extra; [constructor|].
  cbn [reconcile fst snd]. cbv zeta.
  set (r1 := reconcile_slot env professionals appointments np k s).
  set (rs := reconcile env professionals appointments (fst (snd r1))
               (snd (snd r1)) rest).
  destruct (reconcile_grows env professionals appointments rest
              (fst (snd r1)) (snd (snd r1))) as (c2 & E2).
  fold rs in E2. cbn [fst snd]. constructor.
  - rewrite E2, <- app_assoc.
    apply (reconcile_slot_settles env professionals appointments np k s).
  - apply (IH (fst (snd r1)) (snd (snd r1)) extra).
Qed.

(** On a slot it finds settled, the callback of [_validateNames] changes no
    data and corrects nothing; it may record that the patient is unknown. *)
Lemma validate_slot_settled env professionals appointments i slot st :
  settled professionals appointments (newProfessionals (data st)) slot ->
  nth_error (schedule (data st)) i = Some slot ->
  let st' :=
    validate_slot env (registeredPatients_of appointments)
      (registeredProfessionals_of professionals) professionals appointments i
      slot st in
  data st' = data st /\ draws st' = draws st
  /\ autoCorrections (this st') = autoCorrections (this st)
  /\ conflicts (this st') = conflicts (this st).
Proof.
  intros Hk Hs. cbv zeta. unfold validate_slot.
  destruct (isOccupied slot) eqn:Ho; [|auto]. simpl negb. cbv iota zeta.
  destruct (Hk Ho) as [Hp Hn].
  set (st1 := validate_patient (registeredPatients_of appointments)
                appointments i slot st).
  assert (E1 : data st1 = data st /\ draws st1 = draws st
               /\ autoCorrections (this st1) = autoCorrections (this st)
               /\ conflicts (this st1) = conflicts (this st)).
  { unfold st1, validate_patient. revert Hp. unfold patient_correction.
    destruct (Js.truthy (patientName slot)); [|auto].
    cbv zeta.
    destruct (existsb _ (registeredPatients_of appointments)); [auto|].
    destruct (Js.truthy
                (_findClosestMatch _ (registeredPatients_of appointments)));
      [|auto].
    destruct (find _ appointments); [discriminate|auto]. }
  destruct E1 as (D1 & K1 & A1 & C1).
  rewrite D1, Hs. rewrite <- D1, <- K1, <- A1, <- C1.
  assert (Hn1 : professional_action professionals
                  (newProfessionals (data st1)) slot = NoAction)
    by (rewrite D1; exact Hn).
  clearbody st1. clear - Hn1.
  unfold validate_professional. revert Hn1. unfold professional_action.
  destruct (Js.truthy (professionalName slot)); [|auto].
  cbv zeta.
  destruct (existsb _ (registeredProfessionals_of professionals)); [auto|].
  destruct (existsb _ (newProfessionals (data st1))); [auto|].
  destruct (Js.truthy
              (_findClosestMatch _
                 (registeredProfessionals_of professionals)));
    [|discriminate].
  destruct (find _ professionals); [discriminate|auto].
Qed.

(** On a schedule of settled slots the name reconciliation changes no data
    and corrects nothing. *)
Lemma validateNames_settled env st professionals appointments :
  Forall (settled professionals appointments (newProfessionals (data st)))
    (schedule (data st)) ->
  let st' := _validateNames env st professionals appointments in
  data st' = data st /\ draws st' = draws st
  /\ autoCorrections (this st') = autoCorrections (this st)
  /\ conflicts (this st') = conflicts (this st).
Proof.
  intros H. cbv zeta. unfold _validateNames.
  apply (forEach_slot_inv
           (fun _ stk =>
              data stk = data st /\ draws stk = draws st
              /\ autoCorrections (this stk) = autoCorrections (this st)
              /\ conflicts (this stk) = conflicts (this st))); [auto|].
  intros i stk _ (D & K & A & C).
  destruct (nth_error (schedule (data stk)) i) as [slot|] eqn:Hs; [|auto].
  destruct (validate_slot_settled env professionals appointments i slot stk)
    as (D' & K' & A' & C'); [|exact Hs|].
  - rewrite D. rewrite Forall_forall in H. apply H.
    rewrite D in Hs. apply (nth_error_In _ _ Hs).
  - rewrite D', K', A', C'. auto.
Qed.

(** ** The detection passes read no flag *)

Lemma raise_raise a b c d s :
  raise a b (raise c d s) = raise (a || c) (b || d) s.
Proof. destruct a, b, c, d; reflexivity. Qed.

Lemma raise_none s : raise false false s = s.
Proof. destruct s; reflexivity. Qed.

Lemma flag_raise (a : bool) s :
  (if a then set_hasScheduleConflict s else s) = raise a false s.
Proof. destruct a; [reflexivity|symmetry; apply raise_none]. Qed.

Lemma existing_mark_raise appointments s :
  existing_mark appointments s = raise (collides appointments s) false s.
Proof.
  unfold existing_mark, collides.
  destruct (colliding_appointments appointments s);
    [symmetry; apply raise_none|reflexivity].
Qed.

Lemma inactive_mark_raise professionals s :
  inactive_mark professionals s = raise false (idle professionals s) s.
Proof.
  unfold inactive_mark, idle.
  destruct (inactive_professional_of professionals s);
    [reflexivity|symmetry; apply raise_none].
Qed.

Lemma collides_raise appointments a b s :
  collides appointments (raise a b s) = collides appointments s.
Proof. reflexivity. Qed.

Lemma idle_raise professionals a b s :
  idle professionals (raise a b s) = idle professionals s.
Proof. reflexivity. Qed.

Lemma group_from_keys key_of : forall l l',
  map key_of l = map key_of l' ->
  forall i obj, group_from key_of l i obj = group_from key_of l' i obj.
Proof.
  induction l as [|s l IH]; intros [|s' l'] E i obj; try discriminate;
    [reflexivity|].
  simpl in E. injection E as E1 E2. simpl. rewrite E1.
  destruct (key_of s'); [|apply IH, E2].
  destruct (push_slot _ _ _); [apply IH, E2|reflexivity].
Qed.

Lemma group_slots_bare key_of l l' :
  (forall s, key_of (with_flags None None s) = key_of s) ->
  map (with_flags None None) l = map (with_flags None None) l' ->
  group_slots key_of l = group_slots key_of l'.
Proof.
  intros K E. unfold group_slots. apply group_from_keys.
  assert (H : forall x,
             map key_of x = map key_of (map (with_flags None None) x)).
  { intros x. rewrite map_map. symmetry. apply map_ext, K. }
  rewrite (H l), (H l'), E. reflexivity.
Qed.

Lemma deref_bare sched refs :
  deref (map (with_flags None None) sched) refs
  = map (with_flags None None) (deref sched refs).
Proof.
  unfold deref. induction refs as [|r refs IH]; [reflexivity|].
  simpl. rewrite map_app, IH, nth_error_map.
  destruct (nth_error sched r); reflexivity.
Qed.

Lemma double_booking_conflicts_bare slots :
  double_booking_conflicts (map (with_flags None None) slots)
  = double_booking_conflicts slots.
Proof.
  destruct slots as [|s slots]; [reflexivity|].
  simpl. rewrite !map_map. reflexivity.
Qed.

Lemma duplicate_room_conflicts_bare slots :
  duplicate_room_conflicts (map (with_flags None None) slots)
  = duplicate_room_conflicts slots.
Proof.
  destruct slots as [|s slots]; [reflexivity|].
  simpl. rewrite !map_map. reflexivity.
Qed.

Lemma group_conflicts_bare build l l' obj :
  (forall slots, build (map (with_flags None None) slots) = build slots) ->
  map (with_flags None None) l = map (with_flags None None) l' ->
  flat_map (group_conflicts build l) obj
  = flat_map (group_conflicts build l') obj.
Proof.
  intros B E. apply flat_map_ext. intros g. unfold group_conflicts.
  destruct (1 <? List.length (snd g)); [|reflexivity].
  transitivity (build (deref (map (with_flags None None) l) (snd g))).
  - rewrite deref_bare. symmetry. apply B.
  - rewrite E, deref_bare. apply B.
Qed.

Lemma flat_map_bare {A} (f : Slot -> list A) l l' :
  (forall s, f (with_flags None None s) = f s) ->
  map (with_flags None None) l = map (with_flags None None) l' ->
  flat_map f l = flat_map f l'.
Proof.
  intros F E.
  assert (H : forall x,
             flat_map f x = flat_map f (map (with_flags None None) x)).
  { induction x as [|s x IH]; [reflexivity|]. simpl. rewrite F, IH.
    reflexivity. }
  rewrite (H l), (H l'), E. reflexivity.
Qed.

Lemma flag_at_bare f l :
  map (with_flags None None) (flag_at f l) = map (with_flags None None) l.
Proof.
  apply nth_error_ext. intros i.
  rewrite !nth_error_map, flag_at_nth.
  destruct (nth_error l i); [|reflexivity]. simpl.
  destruct (f i); reflexivity.
Qed.

Lemma existing_mark_bare appointments l :
  map (with_flags None None) (map (existing_mark appointments) l)
  = map (with_flags None None) l.
Proof.
  rewrite map_map. apply map_ext. intros s. rewrite existing_mark_raise.
  reflexivity.
Qed.

Lemma inactive_mark_bare professionals l :
  map (with_flags None None) (map (inactive_mark professionals) l)
  = map (with_flags None None) l.
Proof.
  rewrite map_map. apply map_ext. intros s. rewrite inactive_mark_raise.
  reflexivity.
Qed.

(** The passes in one: both groupings and all conflicts are those of the
    schedule the passes start from, whatever flags the earlier passes have
    raised. *)
Lemma detected_normal professionals appointments sched :
  detected professionals appointments sched
  = match group_slots profDayTime_key sched with
    | None => None
    | Some slotsByProfDayTime =>
        match group_slots roomDayTime_key sched with
        | None => None
        | Some slotsByRoomDayTime =>
            Some
              (map (inactive_mark professionals)
                 (flag_at (in_large_group slotsByRoomDayTime)
                    (map (existing_mark appointments)
                       (flag_at (in_large_group slotsByProfDayTime) sched))),
               flat_map (group_conflicts double_booking_conflicts sched)
                 slotsByProfDayTime
               ++ flat_map (existing_conflicts appointments) sched
               ++ flat_map (group_conflicts duplicate_room_conflicts sched)
                    slotsByRoomDayTime
               ++ flat_map (inactive_conflicts professionals) sched)
        end
    end.
Proof.
  unfold detected.
  destruct (group_slots profDayTime_key sched) as [obj1|]; [|reflexivity].
  cbv zeta.
  set (sched1 := flag_at (in_large_group obj1) sched).
  set (sched2 := map (existing_mark appointments) sched1).
  assert (B1 : map (with_flags None None) sched1
               = map (with_flags None None) sched)
    by apply flag_at_bare.
  assert (B2 : map (with_flags None None) sched2
               = map (with_flags None None) sched)
    by (unfold sched2; rewrite existing_mark_bare; exact B1).
  rewrite (group_slots_bare roomDayTime_key sched2 sched
             (fun _ => eq_refl) B2).
  destruct (group_slots roomDayTime_key sched) as [obj2|]; [|reflexivity].
  set (sched3 := flag_at (in_large_group obj2) sched2).
  assert (B3 : map (with_flags None None) sched3
               = map (with_flags None None) sched)
    by (unfold sched3; rewrite flag_at_bare; exact B2).
  rewrite (flat_map_bare (existing_conflicts appointments) sched1 sched
             (fun _ => eq_refl) B1).
  rewrite (group_conflicts_bare duplicate_room_conflicts sched2 sched obj2
             duplicate_room_conflicts_bare B2).
  rewrite (flat_map_bare (inactive_conflicts professionals) sched3 sched
             (fun _ => eq_refl) B3).
  reflexivity.
Qed.

Lemma detected_nth professionals appointments sched obj1 obj2 i :
  nth_error
    (map (inactive_mark professionals)
       (flag_at (in_large_group obj2)
          (map (existing_mark appointments)
             (flag_at (in_large_group obj1) sched)))) i
  = option_map
      (fun s =>
         raise
           (in_large_group obj2 i
            || (collides appointments s || in_large_group obj1 i))
           (idle professionals s) s)
      (nth_error sched i).
Proof.
  rewrite nth_error_map, flag_at_nth, nth_error_map, flag_at_nth.
  destruct (nth_error sched i) as [s|]; [|reflexivity]. simpl. f_equal.
  rewrite !flag_raise, existing_mark_raise, inactive_mark_raise.
  rewrite !raise_raise, !idle_raise, !collides_raise.
  destruct (in_large_group obj2 i), (collides appointments s),
    (in_large_group obj1 i), (idle professionals s); reflexivity.
Qed.

(** Detection run on its own result finds the same conflicts and leaves the
    schedule as it is. *)
Lemma detected_again professionals appointments sched sched' new :
  detected professionals appointments sched = Some (sched', new) ->
  detected professionals appointments sched' = Some (sched', new).
Proof.
  rewrite !detected_normal.
  destruct (group_slots profDayTime_key sched) as [obj1|] eqn:G1;
    [|discriminate].
  destruct (group_slots roomDayTime_key sched) as [obj2|] eqn:G2;
    [|discriminate].
  intros E. injection E as E1 E2.
  assert (B : map (with_flags None None) sched'
              = map (with_flags None None) sched).
  { rewrite <- E1, inactive_mark_bare, flag_at_bare, existing_mark_bare.
    apply flag_at_bare. }
  rewrite (group_slots_bare profDayTime_key sched' sched
             (fun _ => eq_refl) B), G1.
  rewrite (group_slots_bare roomDayTime_key sched' sched
             (fun _ => eq_refl) B), G2.
  rewrite (group_conflicts_bare double_booking_conflicts sched' sched obj1
             double_booking_conflicts_bare B).
  rewrite (group_conflicts_bare duplicate_room_conflicts sched' sched obj2
             duplicate_room_conflicts_bare B).
  rewrite (flat_map_bare (existing_conflicts appointments) sched' sched
             (fun _ => eq_refl) B).
  rewrite (flat_map_bare (inactive_conflicts professionals) sched' sched
             (fun _ => eq_refl) B).
  rewrite E2. f_equal. f_equal.
  apply nth_error_ext. intros i. rewrite detected_nth.
  rewrite <- E1 at 1 2. rewrite detected_nth.
  destruct (nth_error sched i) as [s|]; [|reflexivity]. simpl. f_equal.
  rewrite raise_raise, idle_raise, collides_raise.
  destruct (in_large_group obj2 i), (collides appointments s),
    (in_large_group obj1 i), (idle professionals s); reflexivity.
Qed.

(** ** Processing the processed data again *)

Lemma detected_returns st professionals appointments :
  detected professionals appointments (schedule (data st)) <> None ->
  exists st', detect st professionals appointments = Returns st'.
Proof.
  unfold detect, _detectScheduleConflicts. intros H.
  destruct (detect_double_booking st) as [sta|sta] eqn:Ea.
  2:{ exfalso. apply H. unfold detect_double_booking in Ea. unfold detected.
      destruct (group_slots profDayTime_key (schedule (data st)));
        [discriminate|reflexivity]. }
  destruct (detect_double_booking_effect st sta Ea) as (obj1 & G1 & S1 & _).
  pose proof (forEach_slot_effect (check_existing appointments)
                (existing_mark appointments) (existing_conflicts appointments)
                (check_existing_effect appointments) sta) as (S2 & _).
  fold (detect_existing sta appointments) in S2.
  simpl and_then.
  destruct (_detectDuplicateRoomsOrTimes (detect_existing sta appointments))
    as [stc|stc] eqn:Ec.
  - simpl. eexists. reflexivity.
  - exfalso. apply H. unfold detected. rewrite G1. cbv zeta.
    rewrite <- S1, <- S2. unfold _detectDuplicateRoomsOrTimes in Ec.
    destruct (group_slots roomDayTime_key
                (schedule (data (detect_existing sta appointments))));
      [discriminate|reflexivity].
Qed.

Lemma Forall2_Forall {A} (R : A -> A -> Prop) (P : A -> Prop) l l' :
  (forall a b, R a b -> P a -> P b) ->
  Forall2 R l l' -> Forall P l -> Forall P l'.
Proof.
  intros H F. induction F as [|a b l l' Hab F IH]; intros K; [constructor|].
  inversion K; subst. constructor; [apply (H a b Hab)|apply IH]; assumption.
Qed.

(** The slots of the data a run leaves are settled. *)
Lemma run_settled env roomImportData professionals appointments :
  let st' :=
    final (processImportedData env roomImportData professionals appointments)
  in
  Forall (settled professionals appointments (newProfessionals (data st')))
    (schedule (data st')).
Proof.
  intros st'. subst st'. rewrite processImportedData_detect.
  set (st1 := _validateNames env (start roomImportData) professionals
                appointments).
  destruct (validateNames_reconcile env (start roomImportData) professionals
              appointments) as (S1 & N1 & _).
  fold st1 in S1, N1.
  pose proof (reconcile_settles env professionals appointments
                (schedule (data (start roomImportData)))
                (newProfessionals (data (start roomImportData)))
                (draws (start roomImportData)) []) as H.
  cbv zeta in H. rewrite app_nil_r, <- S1, <- N1 in H.
  destruct (detect_marks st1 professionals appointments) as [M N _ _ _ _].
  rewrite N.
  apply (Forall2_Forall slot_marks
           (settled professionals appointments (newProfessionals (data st1)))
           (schedule (data st1))); [|exact M|exact H].
  intros a b Hab. apply settled_same_record, slot_marks_same_record, Hab.
Qed.

(** Processing again the data that a run has processed, with the same
    registries, in the same or in another environment: the run returns,
    the data stay as they are (no slot changes, no professional is
    created), the same conflicts are found, and nothing is corrected. *)
Theorem processing_again (env env' : Environment)
  (roomImportData : RoomImportData) (professionals : list Professional)
  (appointments : list Appointment) (st' : State) :
  processImportedData env roomImportData professionals appointments
  = Returns st' ->
  exists st'',
    processImportedData env' (data st') professionals appointments
    = Returns st''
    /\ data st'' = data st'
    /\ conflicts (this st'') = conflicts (this st')
    /\ autoCorrections (this st'') = [].
Proof.
  intros E.
  pose proof (run_settled env roomImportData professionals appointments) as K.
  rewrite E in K. simpl in K.
  rewrite processImportedData_detect in E.
  set (st1 := _validateNames env (start roomImportData) professionals
                appointments) in E.
  destruct (detect_detected st1 professionals appointments st' E)
    as (new & D & C & _).
  destruct (validateNames_reconcile env (start roomImportData) professionals
              appointments) as (_ & _ & _ & _ & C1).
  fold st1 in C1. simpl in C1. rewrite C1 in C. simpl in C.
  rewrite processImportedData_detect.
  destruct (validateNames_settled env' (start (data st')) professionals
              appointments K) as (D2 & _ & A2 & C2).
  set (st2 := _validateNames env' (start (data st')) professionals
                appointments) in *.
  simpl in D2, A2, C2.
  pose proof (detected_again professionals appointments _ _ _ D) as D'.
  destruct (detected_returns st2 professionals appointments) as (st'' & E'').
  { rewrite D2, D'. discriminate. }
  exists st''. split; [exact E''|].
  destruct (detect_detected st2 professionals appointments st'' E'')
    as (new' & G & C' & N' & U' & _ & _ & _ & A' & _).
  rewrite D2, D' in G. injection G as G1 G2.
  rewrite C', C2, C, A', A2, <- G2. repeat split; try reflexivity.
  rewrite D2 in N', U'.
  destruct (data st'') as [s n u], (data st') as [s0 n0 u0].
  simpl in *. congruence.
Qed.

(** A misspelt professional, a professional to create, both in one room at
    one time. *)
Lemma processing_again_witness :
  let s1 :=
    mkSlot "s1" "Sala 1" "Segunda" "08:00" "2024-03-04" true
      None (Some "ana sousa"%string) None None None None in
  let s2 :=
    mkSlot "s2" "Sala 1" "Segunda" "08:00" "2024-03-04" true
      None (Some "Zed"%string) None None None None in
  let st' :=
    final (processImportedData example_env (mkRoomImportData [s1; s2] [] [])
             [ana] []) in
  exists st'',
    processImportedData example_env (data st') [ana] [] = Returns st''
    /\ data st'' = data st'
    /\ conflicts (this st'') = conflicts (this st')
    /\ autoCorrections (this st'') = [].
Proof.
  intros s1 s2 st'.
  apply (processing_again example_env example_env
           (mkRoomImportData [s1; s2] [] []) [ana] [] st').
  vm_compute. reflexivity.
Defined.

(** ** When a run throws *)

Lemma own_assign_empty obj key :
  own obj key = None -> own (assign_empty obj key) key = Some [].
Proof.
  unfold assign_empty. induction obj as [|[k v] obj IH]; simpl.
  - rewrite String.eqb_refl. reflexivity.
  - destruct (String.eqb k key); [discriminate|exact IH].
Qed.

(** A grouping loop throws exactly when it meets a key that the object
    inherits: the keys it has made own properties are not inherited. *)
Lemma group_from_throws key_of : forall l i obj,
  Forall (fun k => Js.inherited k = false) (map fst obj) ->
  (group_from key_of l i obj = None
   <-> Exists (fun s => inherited_key key_of s = true) l).
Proof.
  induction l as [|s l IH]; intros i obj Hobj; simpl.
  - split; [discriminate|intros H; inversion H].
  - rewrite Exists_cons. unfold inherited_key at 1.
    destruct (key_of s) as [key|] eqn:K.
    2:{ rewrite (IH (S i) obj Hobj). split; [auto|].
        intros [H|H]; [discriminate|exact H]. }
    unfold get_truthy, push_slot.
    destruct (own obj key) as [refs|] eqn:O.
    + simpl negb. cbv iota. rewrite O.
      assert (I : Js.inherited key = false).
      { rewrite Forall_forall in Hobj. apply Hobj.
        apply own_Some_In in O. apply in_map_iff. exists (key, refs). auto. }
      rewrite IH by (rewrite push_own_keys; exact Hobj).
      rewrite I. split; [auto|]. intros [H|H]; [discriminate|exact H].
    + destruct (Js.inherited key) eqn:I; simpl negb; cbv iota.
      * rewrite O. split; [auto|reflexivity].
      * rewrite (own_assign_empty obj key O).
        rewrite IH.
        -- split; [auto|]. intros [H|H]; [discriminate|exact H].
        -- rewrite push_own_keys. unfold assign_empty.
           rewrite map_app. apply Forall_app. split; [exact Hobj|].
           constructor; [exact I|constructor].
Qed.

Lemma group_slots_throws key_of l :
  group_slots key_of l = None
  <-> Exists (fun s => inherited_key key_of s = true) l.
Proof. apply group_from_throws. constructor. Qed.

Lemma inherited_key_bare key_of l l' :
  (forall s, key_of (with_flags None None s) = key_of s) ->
  map (with_flags None None) l = map (with_flags None None) l' ->
  Exists (fun s => inherited_key key_of s = true) l ->
  Exists (fun s => inherited_key key_of s = true) l'.
Proof.
  intros K E H. apply group_slots_throws.
  rewrite <- (group_slots_bare key_of l l' K E).
  apply group_slots_throws, H.
Qed.

Lemma marks_bare l l' :
  Forall2 slot_marks l l' ->
  map (with_flags None None) l = map (with_flags None None) l'.
Proof.
  induction 1 as [|a b l l' Hab _ IH]; [reflexivity|].
  simpl. rewrite IH. f_equal. apply slot_marks_same_record, Hab.
Qed.

(** A run throws exactly when one of the two grouping keys of some slot is a
    property name inherited from [Object.prototype]; the keys are read from
    the schedule as the run leaves it, with the professional identifiers
    that the name reconciliation has assigned. *)
Theorem run_throws_iff (env : Environment) (roomImportData : RoomImportData)
  (professionals : list Professional) (appointments : list Appointment) :
  let st' :=
    final (processImportedData env roomImportData professionals appointments)
  in
  (exists st,
     processImportedData env roomImportData professionals appointments
     = Throws st)
  <-> Exists
        (fun s =>
           inherited_key profDayTime_key s = true
           \/ inherited_key roomDayTime_key s = true)
        (schedule (data st')).
Proof.
  intros st'. subst st'. rewrite processImportedData_detect.
  set (st1 := _validateNames env (start roomImportData) professionals
                appointments).
  pose proof (marks_bare _ _
                (marks_schedule _ _
                   (detect_marks st1 professionals appointments))) as B.
  revert B. unfold detect, _detectScheduleConflicts.
  destruct (detect_double_booking st1) as [sta|sta] eqn:Ea; simpl and_then.
  - destruct (detect_double_booking_effect st1 sta Ea)
      as (obj1 & G1 & S1 & _).
    pose proof (forEach_slot_effect (check_existing appointments)
                  (existing_mark appointments)
                  (existing_conflicts appointments)
                  (check_existing_effect appointments) sta) as (S2 & _).
    fold (detect_existing sta appointments) in S2.
    set (stb := detect_existing sta appointments) in *.
    assert (Bb : map (with_flags None None) (schedule (data stb))
                 = map (with_flags None None) (schedule (data st1))).
    { rewrite S2, existing_mark_bare, S1. apply flag_at_bare. }
    destruct (_detectDuplicateRoomsOrTimes stb) as [stc|stc] eqn:Ec;
      simpl; intros B.
    + split; [intros (st & E); discriminate|]. intros Ex. exfalso.
      destruct (detectDuplicateRoomsOrTimes_effect stb stc Ec)
        as (obj2 & G3 & _).
      apply Exists_or_inv in Ex. destruct Ex as [Ex|Ex].
      * apply (inherited_key_bare profDayTime_key _ (schedule (data st1))
                 (fun _ => eq_refl) (eq_sym B)) in Ex.
        apply group_slots_throws in Ex. congruence.
      * apply (inherited_key_bare roomDayTime_key _ (schedule (data stb))
                 (fun _ => eq_refl)) in Ex; [|rewrite Bb; symmetry; exact B].
        apply group_slots_throws in Ex. congruence.
    + split; [intros _|intros _; eexists; reflexivity].
      unfold _detectDuplicateRoomsOrTimes in Ec.
      destruct (group_slots roomDayTime_key (schedule (data stb))) eqn:G;
        [discriminate|].
      injection Ec as <-. apply group_slots_throws in G.
      apply (Exists_impl
               (P := fun s => inherited_key roomDayTime_key s = true));
        [auto|exact G].
  - simpl. intros _. split; [intros _|intros _; eexists; reflexivity].
    unfold detect_double_booking in Ea.
    destruct (group_slots profDayTime_key (schedule (data st1))) eqn:G;
      [discriminate|].
    injection Ea as <-. apply group_slots_throws in G.
    apply (Exists_impl
             (P := fun s => inherited_key profDayTime_key s = true));
      [auto|exact G].
Qed.

(** ** A schedule without occupied slots *)

Lemma group_from_free key_of : forall l i obj,
  Forall (fun s => key_of s = None) l -> group_from key_of l i obj = Some obj.
Proof.
  induction l as [|s l IH]; intros i obj H; [reflexivity|].
  inversion H; subst. simpl. rewrite H2. apply IH. assumption.
Qed.

(** When no slot of the schedule is occupied (an empty schedule, for one),
    the run returns and finds nothing: the imported data are as they came
    and the four result arrays are empty. *)
Theorem free_schedule_run (env : Environment)
  (roomImportData : RoomImportData) (professionals : list Professional)
  (appointments : list Appointment) :
  Forall (fun s => isOccupied s = false) (schedule roomImportData) ->
  processImportedData env roomImportData professionals appointments
  = Returns (start roomImportData).
Proof.
  intros H. rewrite Forall_forall in H.
  assert (Hs : forall i slot,
             nth_error (schedule (data (start roomImportData))) i = Some slot ->
             isOccupied slot = false).
  { intros i slot Hi. apply H, (nth_error_In _ _ Hi). }
  unfold processImportedData. cbv zeta.
  assert (V : _validateNames env (start roomImportData) professionals
                appointments = start roomImportData).
  { apply forEach_slot_fixed. intros i slot Hi. unfold validate_slot.
    rewrite (Hs i slot Hi). reflexivity. }
  rewrite V. unfold _detectScheduleConflicts, detect_double_booking.
  unfold group_slots. rewrite group_from_free.
  2:{ apply Forall_forall. intros s Hin. unfold profDayTime_key.
      rewrite (H s Hin). reflexivity. }
  simpl fold_left. simpl and_then.
  assert (E : detect_existing (start roomImportData) appointments
              = start roomImportData).
  { apply forEach_slot_fixed. intros i slot Hi. unfold check_existing.
    rewrite (Hs i slot Hi). reflexivity. }
  rewrite E. unfold _detectDuplicateRoomsOrTimes, group_slots.
  rewrite group_from_free.
  2:{ apply Forall_forall. intros s Hin. unfold roomDayTime_key.
      rewrite (H s Hin). reflexivity. }
  simpl fold_left. simpl and_then. f_equal.
  apply forEach_slot_fixed. intros i slot Hi. unfold check_inactive.
  rewrite (Hs i slot Hi). reflexivity.
Qed.

(** Two free slots, one of them with names left in it. *)
Lemma free_schedule_run_witness :
  let s1 :=
    mkSlot "s1" "Sala 1" "Segunda" "08:00" "2024-03-04" false
      None None None None None None in
  let s2 :=
    mkSlot "s2" "Sala 1" "Segunda" "08:00" "2024-03-04" false
      (Some "Bia"%string) (Some "Zed"%string) (Some "_"%string) None None
      None in
  processImportedData example_env (mkRoomImportData [s1; s2] [] []) [ana] []
  = Returns (start (mkRoomImportData [s1; s2] [] [])).
Proof.
  intros s1 s2.
  apply (free_schedule_run example_env (mkRoomImportData [s1; s2] [] [])
           [ana] []).
  repeat constructor.
Defined.

(** ** What a run keeps *)

Lemma slot_kept_renames s s' : slot_renames s s' -> slot_kept s s'.
Proof.
  intros (H1 & H2 & H3 & H4 & H5 & H6 & H7 & H8 & H9 & _).
  unfold slot_kept. rewrite H8, H9. repeat split; auto.
Qed.

Lemma slot_kept_marks s s' : slot_marks s s' -> slot_kept s s'.
Proof.
  intros (H1 & H2 & H3 & H4 & H5 & H6 & _ & _ & _ & H10 & H11 & H12 & _).
  unfold slot_kept. repeat split; auto.
Qed.

Lemma slot_kept_trans s1 s2 s3 :
  slot_kept s1 s2 -> slot_kept s2 s3 -> slot_kept s1 s3.
Proof.
  unfold slot_kept. intros H K. repeat split; intuition congruence.
Qed.

Lemma detect_updatedAppointments st professionals appointments :
  updatedAppointments (data (final (detect st professionals appointments)))
  = updatedAppointments (data st).
Proof.
  destruct (detect st professionals appointments) as [st'|st'] eqn:E.
  - destruct (detect_detected st professionals appointments st' E)
      as (new & _ & _ & _ & U & _). exact U.
  - revert E. unfold detect, _detectScheduleConflicts.
    destruct (detect_double_booking st) as [sta|sta] eqn:Ea; simpl and_then.
    + destruct (detect_double_booking_effect st sta Ea)
        as (obj1 & _ & _ & _ & U1 & _).
      pose proof (forEach_slot_effect (check_existing appointments)
                    (existing_mark appointments)
                    (existing_conflicts appointments)
                    (check_existing_effect appointments) sta)
        as (_ & _ & U2 & _).
      fold (detect_existing sta appointments) in U2.
      unfold _detectDuplicateRoomsOrTimes.
      destruct (group_slots roomDayTime_key _); simpl; [discriminate|].
      intros E. injection E as <-. simpl. congruence.
    + unfold detect_double_booking in Ea.
      destruct (group_slots profDayTime_key _); [discriminate|].
      injection Ea as <-. simpl. intros E. injection E as <-. reflexivity.
Qed.

(** Whatever a run does, and whether it returns or throws, the schedule
    keeps its slots in their order, every slot keeps its identifier, room,
    day, time, date, occupancy and linked appointment, no flag that was set
    is cleared, [updatedAppointments] is as it came, and the professionals
    that came in [newProfessionals] are still there, before the new ones. *)
Theorem run_keeps (env : Environment) (roomImportData : RoomImportData)
  (professionals : list Professional) (appointments : list Appointment) :
  let st' :=
    final (processImportedData env roomImportData professionals appointments)
  in
  Forall2 slot_kept (schedule roomImportData) (schedule (data st'))
  /\ updatedAppointments (data st') = updatedAppointments roomImportData
  /\ exists new,
       newProfessionals (data st') = newProfessionals roomImportData ++ new.
Proof.
  intros st'. subst st'. rewrite processImportedData_detect.
  pose proof (validateNames_renames env (start roomImportData) professionals
                appointments) as Rn.
  destruct (validateNames_reconcile env (start roomImportData) professionals
              appointments) as (_ & _ & _ & U1 & _).
  set (st1 := _validateNames env (start roomImportData) professionals
                appointments) in *.
  pose proof (detect_marks st1 professionals appointments) as M.
  split; [|split].
  - apply (Forall2_trans slot_kept slot_kept_trans _ (schedule (data st1))).
    + apply (Forall2_impl _ slot_kept_renames).
      apply (renames_schedule _ _ Rn).
    + apply (Forall2_impl _ slot_kept_marks).
      apply (marks_schedule _ _ M).
  - rewrite detect_updatedAppointments. exact U1.
  - rewrite (marks_newProfessionals _ _ M).
    apply (renames_newProfessionals _ _ Rn).
Qed.
